(* ===== verification/_CoqProject ===== *)
-Q . S2P
Prelude.v
Floating.v
Rounding.v
Types.v
Text.v
XmlConfig.v
FloatingEnvironment.v
Discovery.v
AdapterConfig.v
Protocol.v
Sequence.v
Status.v
UnitConversion.v
Diagnostics.v
Decimal.v
FaultLatch.v
ClientImpl.v
FirstSample.v
ClientInterface.v
Lifecycle.v
LifecycleSpec.v
Facade.v
Locks.v
Transport.v
TransportWindows.v
Check.v
Json.v
Session.v
Executions.v
Nodes.v
Accounting.v
Recovery.v
System.v
SystemSpec.v
CheckRun.v
HardwareConfig.v
Auxiliary.v
Hardware.v
