(* ===== verification/Prelude.v ===== *)
(** * Verification of the Net F/T driver

    A model of the driver of ATI Net F/T force/torque sensors and the theorems
    about it.  The driver receives a stream of UDP records (RDT) from a sensor,
    checks and scales them, and hands them to ROS nodes, to a ros2_control plugin
    or to a command-line check.  All paths below are relative to [src/].

    ** The parts and their files

    - [Prelude.v]: exceptions ([exn], [result]), record update, machine integers,
      bytes, tactics.  [Floating.v]: IEEE 754 arithmetic on [SpecFloat], the
      platforms of [long double] and [long] ([Platform]), and casts to integers, whose
      result out of range is left to the platform.  [Rounding.v]: which quotients are
      rounded to a given float.
    - [Types.v] ([core/src/types.cpp], [core/include/netft/types.hpp],
      [core/src/detail/time.hpp]): data, unit names, validation, checked durations
      and deadlines.
    - [Text.v]: characters, trimming, searching, the number syntax of the C++
      library.  [XmlConfig.v] ([core/src/detail/xml_config.cpp]): the streaming parser of the
      configuration document.  [FloatingEnvironment.v]: the guard of the parser
      over the rounding mode and the exception flags.  [Discovery.v]
      ([core/src/discovery.cpp]): the HTTP request; libcurl is a record of functions.
    - [Protocol.v] ([core/src/detail/protocol.cpp]), [Sequence.v] ([sequence.cpp]), [Status.v]
      ([core/src/status.cpp]), [FaultLatch.v] ([fault_latch.cpp]): requests and records, the RDT and FT
      trackers, status words, the first-fault latch.
    - [ClientImpl.v] ([core/src/detail/client_impl.cpp]): the members of [Client::Impl] as the
      record [Impl], one definition per critical section, and the decision on a
      record.  [Session.v]: [run], [receive_session] and [handle_record] as a
      small-step machine of the worker thread and the calls of other threads
      ([worker_step], [op_step]), with a trace of events.  [Executions.v], [Accounting.v],
      [Recovery.v]: the theorems over all interleaved executions of one worker.
    - [Lifecycle.v]: [start] and [stop] called from any number of threads and from
      the callback, the joining of workers and the condition variable, over the
      flags only.  [LifecycleSpec.v]: the abstract service they implement and
      progress.
    - [System.v]: the composition.  One [Impl] is shared by the threads inside [start],
      [stop], [bias] and [health] and by the worker that runs; the sections of [start]
      and [stop] act on the whole object; [life_of] projects the state to that of
      [Lifecycle.v], and the trace of each worker is one of [Session.v].
      [SystemSpec.v]: the contract of the client over its whole life.
    - [FirstSample.v]: [wait_for_first_sample] called from any number of threads, against
      the statements of [start], [stop] and the worker that it watches.
    - [ClientInterface.v]: the client as the adapters see it, a type class with laws
      that [Impl] satisfies.  [Facade.v] ([core/src/client.cpp]): the destructor of [Client] and
      the deferred destroyer.
    - [Locks.v]: every function of the client, its transport and the destroyer as the
      locks it takes, its waits, exits and blocking calls; threads that run them.
    - [Transport.v] ([core/src/detail/udp_transport_posix.cpp]): the socket operations over the
      answers of the kernel, and their interleaving.  [TransportWindows.v]
      ([udp_transport_windows.cpp]): what differs on Windows, and the same machine with
      the life of WinSock around it.
    - [UnitConversion.v], [Diagnostics.v] ([ros/]), [AdapterConfig.v] ([ros/adapter_config.hpp]): what the
      adapters share.  [Decimal.v]: the numbers they print are read back by the
      parser.  [Nodes.v] ([ros1_node.cpp], [ros2_node.cpp]): the parameters, callbacks
      and teardown of the standalone nodes.
    - [HardwareConfig.v], [Auxiliary.v], [Hardware.v] ([netft_hardware_interface.cpp]): the
      description of the plugin, its auxiliary thread, and its lifecycle and [read];
      it uses the client through [ClientInterface.v].
    - [Check.v] ([check_main.cpp]): the command-line tool.  [Json.v]: a JSON reader, and
      what it finds in the output of the tool.  [CheckRun.v]: the tool over the client
      of [System.v].

    How they interact: discovery gives the client a calibration; each session
    connects the transport, sends the start request and feeds every datagram to
    the decoder, the trackers and the status classification; accepted samples
    are stored and delivered through the callback, failures go to the fault
    latch and to the recovery policy; the adapters read health snapshots and
    samples.

    ** What is shown

    - Data path: over the whole life of a client a delivered sample is the finite
      scaling of a fresh, trusted record, and goes to the callback of its own [start]
      ([samples_gated_for_life]); the staged decision equals a decision table
      ([observe_record_decision]); all sixteen counters are what the trace contains
      ([counters_exact]); record round trips, exact loss counts, restart
      confirmation.
    - Recovery: fail-stop latches exactly the first failure, backoff delays, rate
      limit, silence; a malformed storm is ten malformed datagrams in a row of the run,
      which a reconnection does not interrupt ([storm_outlives_session]).
    - Lifecycle: the client refines a service with one worker at a time
      ([client_refines_service]); after [stop] no worker acts ([nothing_after_stop]), and the
      join of [stop] ends within twelve steps of the worker ([stop_join_bounded]); calls
      make progress except for one lost wakeup, which is reachable
      ([lost_wakeup]); a second one lets a [stop] wait for the end of a backoff
      ([stop_misses_backoff]).  Deferred destruction frees every client once, in order.
      A wait for the first sample answers true for a delivery only, and is woken
      whatever notification it misses ([first_sample_wait]).
      The mutexes are taken in one order and cannot deadlock, and the callback runs
      with none held ([mutexes_deadlock_free]).
    - Transport: no descriptor is leaked or misused; [receive] ends, on Windows in
      slices that notice a shutdown.
    - Nodes: a published wrench is the SI form of a gated sample
      ([published_wrenches_gated]); the members that callbacks use outlive the client,
      except in the ROS 1 main ([node_teardown]).
    - Adapters: the unit factors are the doubles nearest to the exact ones
      ([to_si_sample_spec]); a diagnostic report is that of the first condition of a
      table that holds ([evaluate_worst_condition]).
    - Configuration: the parser agrees with a reference on document trees, reads
      back every calibration printed with 17 digits exactly
      ([parse_document_roundtrip]), fails only with discovery errors and restores the
      floating-point environment; discovery, adapter, plugin and command-line
      configurations are validated.
    - Plugin: a successful [read] shows a complete fresh sample, errors are sticky,
      axes come from delivered samples, or show the initial value of the description
      until an activation ([axes_sourced]); activation needs a sample; the auxiliary
      thread has its resources to itself, and every call that makes or stops it ends.
    - Check: it ends, stops its client, its outcome is that of the first failure or of
      the final snapshot ([main_outcome]), its report file is replaced as a whole, and
      what it prints is JSON that gives back the exact numbers and strings
      ([report_true], over the client of [System.v]).

    ** Bounds and fuel

    The worker is a step function without fuel; its termination theorems count
    steps.  The XML scanner has fuel equal to the length of the document, which
    every pass shortens.  The wait of [receive] and the loops of [netft_check] have fuel and a
    theorem that it is enough once the clock has passed the deadline; the JSON reader
    has fuel equal to the length of the text.  Integers
    keep their width ([u32], [u64], [i32]); [Z] elsewhere stands for values whose range the
    code checks.

    ** Not modelled

    Test hooks and test access ([ros2_control_test_access.hpp], the fakes but for the
    record encoder); the ROS middleware (advertising, spinning, timers, executors);
    [std::filesystem] path arithmetic and the signal handler of the check; includes,
    export macros and calls that only forward.  In [System.v] the
    creation of a thread in [start] is one step with the section around it, since the
    mutex is held throughout; [Locks.v] leaves every condition open and speaks of one
    client; the sampled clock and the answers of the kernel are
    free choices of each step. *)

From stdpp Require Export prelude strings pretty.
From Stdlib Require Export ZArith Lia.
From Stdlib Require Import Init.Byte Strings.Byte.

#[global] Open Scope Z_scope.

(** ** C++ exceptions and fallible code

    The exception classes the sources throw.  A C++ expression that may throw is
    a value of [result]; [Throw] carries the class and the [what()] text. *)
Inductive exn :=
  | InvalidArgument (what : string)
  | RuntimeError (what : string)
  | LogicError (what : string)
  | DiscoveryError (what : string)
  | ProtocolError (what : string)
  | NotConnectedError (what : string).

#[global] Instance exn_eq_dec : EqDecision exn.
Proof. solve_decision. Defined.

(** [error.what()] of [catch (const std::exception &error)]. *)
Definition what (e : exn) : string :=
  match e with
  | InvalidArgument s | RuntimeError s | LogicError s
  | DiscoveryError s | ProtocolError s | NotConnectedError s => s
  end.

Inductive result (A : Type) :=
  | Ok (a : A)
  | Throw (e : exn).
Arguments Ok {A} a.
Arguments Throw {A} e.

#[global] Instance result_ret : MRet result := @Ok.
#[global] Instance result_bind : MBind result := λ A B f m,
  match m with Ok a => f a | Throw e => Throw e end.

Definition is_ok {A} (r : result A) : bool := match r with Ok _ => true | Throw _ => false end.

(** [throw e;] guarded by the negation of [b]: [if (!b) throw e;]. *)
Definition ensure (b : bool) (e : exn) : result unit :=
  if b then Ok () else Throw e.

(** ** Functional record update

    [r <| f := v |>] and [r <| f ::= g |>] for a record with an [Eta] instance,
    the identity written as the constructor applied to the projections. *)
Class Eta (R : Type) := eta : R → R.
Class Setter {R E : Type} (proj : R → E) := set_field : (E → E) → R → R.
#[global] Arguments set_field {R E} proj {_} g r / : assert.

Ltac solve_setter :=
  lazymatch goal with
  | |- @Setter ?R ?E ?p =>
      let e := eval hnf in (@eta R _) in
      lazymatch eval pattern p in e with
      | ?k _ =>
          let b := eval cbv beta in (λ g : E → E, k (λ r : R, g (p r))) in
          exact b
      end
  end.
#[global] Hint Extern 1 (@Setter _ _ _) => solve_setter : typeclass_instances.

Declare Scope netft_scope.
Delimit Scope netft_scope with netft.
#[global] Open Scope netft_scope.
Notation "r <| f := v |>" := (set_field f (λ _, v) r)
  (at level 1, f at level 0, v at level 200, left associativity) : netft_scope.
Notation "r <| f ::= g |>" := (set_field f g r)
  (at level 1, f at level 0, g at level 200, left associativity) : netft_scope.

(** ** Machine integers

    An unsigned [w]-bit integer is the [Z] in [0, 2^w); arithmetic wraps modulo
    [2^w].  A signed 32-bit integer is the [Z] in [-2^31, 2^31). *)
Definition u8 (z : Z) : Z := z mod 2 ^ 8.
Definition u16 (z : Z) : Z := z mod 2 ^ 16.
Definition u32 (z : Z) : Z := z mod 2 ^ 32.
Definition u64 (z : Z) : Z := z mod 2 ^ 64.

(** [static_cast<std::int32_t>] of an integer: the two's complement reading of
    its low 32 bits. *)
Definition i32 (z : Z) : Z :=
  if u32 z <? 2 ^ 31 then u32 z else u32 z - 2 ^ 32.

Definition is_u32 (z : Z) : Prop := 0 ≤ z < 2 ^ 32.
Definition is_u64 (z : Z) : Prop := 0 ≤ z < 2 ^ 64.
Definition is_i32 (z : Z) : Prop := - 2 ^ 31 ≤ z < 2 ^ 31.

#[global] Instance is_u32_dec z : Decision (is_u32 z) := _.
#[global] Instance is_u64_dec z : Decision (is_u64 z) := _.
#[global] Instance is_i32_dec z : Decision (is_i32 z) := _.

(** [++x] on a [std::uint64_t] counter. *)
Definition incr (z : Z) : Z := u64 (z + 1).

(** Unfolds the widths and reduces the powers of two to literals, then [lia]. *)
Ltac width_lia :=
  unfold is_u32, is_u64, is_i32, incr, i32, u8, u16, u32, u64 in *;
  change (2 ^ 8) with 256 in *; change (2 ^ 16) with 65536 in *;
  change (2 ^ 31) with 2147483648 in *; change (2 ^ 32) with 4294967296 in *;
  change (2 ^ 64) with 18446744073709551616 in *;
  repeat match goal with
  | |- context [?a <? ?b] => destruct (Z.ltb_spec a b)
  | H : context [?a <? ?b] |- _ => destruct (Z.ltb_spec a b)
  end;
  Z.div_mod_to_equations; lia.

Lemma u8_range z : 0 ≤ u8 z < 256.
Proof. width_lia. Qed.
Lemma u32_range z : is_u32 (u32 z).
Proof. width_lia. Qed.
Lemma u64_range z : is_u64 (u64 z).
Proof. width_lia. Qed.
Lemma i32_range z : is_i32 (i32 z).
Proof. width_lia. Qed.
Lemma u32_small z : is_u32 z → u32 z = z.
Proof. intros; width_lia. Qed.
Lemma u64_small z : is_u64 z → u64 z = z.
Proof. intros; width_lia. Qed.
Lemma i32_u32 z : is_i32 z → i32 (u32 z) = z.
Proof. intros; width_lia. Qed.
Lemma u32_i32 z : is_u32 z → u32 (i32 z) = z.
Proof. intros; width_lia. Qed.
Lemma u32_u32 z : u32 (u32 z) = u32 z.
Proof. width_lia. Qed.

(** ** Bytes *)

(** [static_cast<std::uint32_t>(byte)]. *)
Definition byte_val (b : byte) : Z := Z.of_N (Byte.to_N b).

(** [static_cast<std::uint8_t>(z)]. *)
Definition to_byte (z : Z) : byte :=
  default x00 (Byte.of_N (Z.to_N (u8 z))).

Lemma byte_val_range b : 0 ≤ byte_val b < 256.
Proof. unfold byte_val. pose proof (Byte.to_N_bounded b). lia. Qed.

Lemma to_byte_val b : to_byte (byte_val b) = b.
Proof. by destruct b. Qed.

Lemma byte_val_to_byte z : byte_val (to_byte z) = u8 z.
Proof.
  unfold byte_val, to_byte. pose proof (u8_range z).
  destruct (Byte.of_N (Z.to_N (u8 z))) as [b|] eqn:E; simpl.
  - apply Byte.to_of_N in E. lia.
  - apply Byte.of_N_None_iff in E. lia.
Qed.

(** ** Strings *)

Lemma string_app_nil_r (s : string) : s +:+ "" = s.
Proof. induction s as [|c s IH]; [done|]. change (String c (s +:+ "") = String c s). by rewrite IH. Qed.

Lemma string_app_assoc (a b c : string) : (a +:+ b) +:+ c = a +:+ (b +:+ c).
Proof.
  induction a as [|x a IH]; [done|].
  change (String x ((a +:+ b) +:+ c) = String x (a +:+ (b +:+ c))). by rewrite IH.
Qed.

(** ** Hint databases and tactics *)
Create HintDb netft.
Create Rewrite HintDb netft.
#[export] Hint Resolve u8_range u32_range u64_range i32_range byte_val_range : netft.
#[export] Hint Rewrite to_byte_val byte_val_to_byte u32_u32 string_app_nil_r string_app_assoc : netft.

(** Case analysis on the first scrutinee of a boolean or option [match]. *)
Ltac case_split :=
  match goal with
  | |- context [if ?b then _ else _] => destruct b eqn:?
  | |- context [match ?o with Some _ => _ | None => _ end] => destruct o eqn:?
  end.
Ltac case_split_in H :=
  match type of H with
  | context [if ?b then _ else _] => destruct b eqn:?
  | context [match ?o with Some _ => _ | None => _ end] => destruct o eqn:?
  end.

(** Takes the boolean hypotheses apart. *)
Ltac bools :=
  repeat match goal with
  | H : _ && _ = true |- _ => apply andb_prop in H as [? ?]
  | H : _ || _ = false |- _ => apply orb_false_elim in H as [? ?]
  | H : negb _ = true |- _ => apply negb_true_iff in H
  | H : negb _ = false |- _ => apply negb_false_iff in H
  | H : bool_decide _ = true |- _ => apply bool_decide_eq_true in H
  | H : bool_decide _ = false |- _ => apply bool_decide_eq_false in H
  end.
