(* ===== verification/Floating.v ===== *)
(** * IEEE 754 arithmetic

    C++ [double] (binary64) and [long double] as the executable floating-point
    specification of the Standard Library ([SpecFloat]), with the conversions the
    sources use ([static_cast] between integers and floats, [std::ceil],
    [std::isfinite], decimal literals) and the facts about them the components
    share: comparison is the order of the represented values, results of the
    operations are canonical, and when rounding cannot overflow.

    Everything is computed with round-to-nearest-even, the default environment. *)

From S2P Require Import Prelude.
From Stdlib Require Export SpecFloat.

(** ** Formats *)

Abbreviation double := spec_float.

(** The [long double] formats of the supported toolchains: 80-bit extended
    (x86-64 Linux), binary64 (MSVC, Apple silicon), binary128 (AArch64 Linux). *)
Inductive LdFormat := X87 | LdBinary64 | LdBinary128.

(** What the standard leaves to the platform: the format of [long double], the width
    of [long], and what comes of the conversion of a value outside the range of its
    integer type, which is undefined: theorems hold for every [undefined_cast], so that
    no result depends on one. *)
Class Platform := mkPlatform {
  ld_format : LdFormat; long_64 : bool; undefined_cast : spec_float → Z
}.

Section Platform.
Context `{Platform}.
Definition ld_prec : Z :=
  match ld_format with X87 => 64 | LdBinary64 => 53 | LdBinary128 => 113 end.
Definition ld_emax : Z :=
  match ld_format with LdBinary64 => 1024 | X87 | LdBinary128 => 16384 end.
(** [std::numeric_limits<long>::max()]. *)
Definition LONG_MAX : Z := if long_64 then 2 ^ 63 - 1 else 2 ^ 31 - 1.
End Platform.

(** x86-64 Linux, the platform of the repository's build; its conversion instructions
    answer out-of-range values with the "integer indefinite". *)
Definition linux_x86_64 : Platform := mkPlatform X87 true (λ _, - 2 ^ 63).

(** ** Operations *)

Definition isfinite (x : spec_float) : bool :=
  match x with S754_zero _ | S754_finite _ _ _ => true | _ => false end.

Definition is_nan (x : spec_float) : bool :=
  match x with S754_nan => true | _ => false end.

Section Format.
Context (prec emax : Z).

(** An integer converted to a float. *)
Definition fl_of_Z (z : Z) : spec_float := binary_normalize prec emax z 0 false.

(** The quotient [n / d] of two integers, rounded once: a decimal literal. *)
Definition fl_ratio (n d : positive) : spec_float :=
  let '(m, e, l) := SFdiv_core_binary prec emax (Zpos n) 0 (Zpos d) 0 in
  binary_round_aux prec emax false m e l.

(** A float of another format. *)
Definition fl_convert (x : spec_float) : spec_float :=
  match x with
  | S754_finite s m e => binary_round prec emax s m e
  | _ => x
  end.

(** [std::ceil]. *)
Definition fl_ceil (x : spec_float) : spec_float :=
  match x with
  | S754_finite s m e =>
      if 0 <=? e then x
      else let c := - ((- cond_Zopp s (Zpos m)) / 2 ^ (- e)) in
           if c =? 0 then S754_zero s else fl_of_Z c
  | _ => x
  end.
End Format.

(** [static_cast] of a float to an integer type: truncation towards zero. *)
Definition fl_trunc (x : spec_float) : Z :=
  match x with
  | S754_finite s m e => cond_Zopp s (Z.shiftl (Zpos m) e)
  | _ => 0
  end.

(** [static_cast] to a signed integer type of maximum [max]: the truncated value where
    the type can hold it. *)
Definition cast_integer `{Platform} (max : Z) (x : spec_float) : Z :=
  if isfinite x && (- max - 1 <=? fl_trunc x) && (fl_trunc x <=? max) then fl_trunc x
  else undefined_cast x.

Notation b64_of_Z := (fl_of_Z 53 1024).
Abbreviation b64_ratio := (fl_ratio 53 1024).
Abbreviation b64_add := (SFadd 53 1024).
Abbreviation b64_sub := (SFsub 53 1024).
Abbreviation b64_mul := (SFmul 53 1024).
Abbreviation b64_div := (SFdiv 53 1024).
Abbreviation valid64 := (valid_binary 53 1024).

Abbreviation ld_of_Z := (fl_of_Z ld_prec ld_emax).
Abbreviation ld_of_double := (fl_convert ld_prec ld_emax).
Abbreviation ld_mul := (SFmul ld_prec ld_emax).
Abbreviation ld_div := (SFdiv ld_prec ld_emax).
Abbreviation ld_ceil := (fl_ceil ld_prec ld_emax).
Abbreviation ld_ratio := (fl_ratio ld_prec ld_emax).

(** [std::numeric_limits<double>::max()] and [::epsilon()]. *)
Definition DBL_MAX : double := S754_finite false (2 ^ 53 - 1) 971.
Definition DBL_EPSILON : double := S754_finite false (2 ^ 52) (-104).

(** The numeric value of a finite float, in units of the least positive one. *)
Definition sval (prec emax : Z) (x : spec_float) : Z :=
  match x with
  | S754_finite s m e => cond_Zopp s (Zpos m * 2 ^ (e - emin prec emax))
  | _ => 0
  end.

(** ** Digits *)

Lemma digits2_log2 p : Zpos (digits2_pos p) = Z.log2 (Zpos p) + 1.
Proof.
  induction p as [p IH|p IH|]; cbn [digits2_pos]; [| |done].
  - rewrite Pos2Z.inj_succ, IH, Pos2Z.inj_xI, Z.log2_succ_double; lia.
  - rewrite Pos2Z.inj_succ, IH, Pos2Z.inj_xO, Z.log2_double; lia.
Qed.

Lemma Zdigits2_nonneg m : 0 ≤ m → 0 ≤ Zdigits2 m.
Proof. destruct m; cbn [Zdigits2]; lia. Qed.

Lemma Zdigits2_spec m : 0 < m → 0 < Zdigits2 m ∧ 2 ^ (Zdigits2 m - 1) ≤ m < 2 ^ Zdigits2 m.
Proof.
  destruct m as [|p|p]; try lia. intros _. cbn [Zdigits2]. rewrite digits2_log2.
  pose proof (Z.log2_nonneg (Zpos p)). pose proof (Z.log2_spec (Zpos p) eq_refl).
  rewrite Z.add_simpl_r, Z.add_1_r. split; lia.
Qed.

Lemma Zdigits2_unique m d : 0 < d → 2 ^ (d - 1) ≤ m < 2 ^ d → Zdigits2 m = d.
Proof.
  intros Hd Hm. assert (0 < 2 ^ (d - 1)) by (apply Z.pow_pos_nonneg; lia).
  destruct (Zdigits2_spec m) as [? [? ?]]; [lia|].
  destruct (Z.lt_trichotomy (Zdigits2 m) d) as [?|[?|?]]; [|done|]; exfalso.
  - pose proof (Z.pow_le_mono_r 2 (Zdigits2 m) (d - 1)); lia.
  - pose proof (Z.pow_le_mono_r 2 d (Zdigits2 m - 1)); lia.
Qed.

Lemma Zdigits2_le m d : 0 ≤ m → 0 ≤ d → m < 2 ^ d → Zdigits2 m ≤ d.
Proof.
  intros Hm Hd Hlt. destruct (decide (m = 0)) as [->|]; [done|].
  destruct (Zdigits2_spec m) as [? [? _]]; [lia|].
  destruct (Z.le_gt_cases (Zdigits2 m) d); [done|].
  pose proof (Z.pow_le_mono_r 2 d (Zdigits2 m - 1)); lia.
Qed.

Lemma Zdigits2_ge m d : 0 ≤ m → (0 < d → 2 ^ (d - 1) ≤ m) → d ≤ Zdigits2 m.
Proof.
  intros Hm Hd. destruct (Z.le_gt_cases d 0) as [|Hpos].
  { pose proof (Zdigits2_nonneg m). lia. }
  specialize (Hd Hpos). assert (0 < 2 ^ (d - 1)) by (apply Z.pow_pos_nonneg; lia).
  destruct (Zdigits2_spec m) as [? [_ ?]]; [lia|].
  destruct (Z.le_gt_cases d (Zdigits2 m)); [done|].
  pose proof (Z.pow_le_mono_r 2 (Zdigits2 m) (d - 1)); lia.
Qed.

(** ** Rounding *)

Lemma iter_pos_iter {A} (f : A → A) p x : iter_pos f p x = Pos.iter f x p.
Proof.
  revert x. induction p as [p IH|p IH|]; intros x; cbn [iter_pos]; [| |done].
  - rewrite !IH. by rewrite Pos.xI_succ_xO, Pos.iter_succ_r, <- Pos.add_diag, Pos.iter_add.
  - rewrite !IH. by rewrite <- Pos.add_diag, Pos.iter_add.
Qed.

Lemma shr_1_m r : 0 ≤ shr_m r → shr_m (shr_1 r) = shr_m r / 2.
Proof.
  destruct r as [m r s]; cbn [shr_m]. intros Hm.
  destruct m as [|[p|p|]|p]; try lia; cbn [shr_1 shr_m]; try done.
  - rewrite Pos2Z.inj_xI. Z.div_mod_to_equations; lia.
  - rewrite Pos2Z.inj_xO. Z.div_mod_to_equations; lia.
Qed.

Lemma iter_shr_m p r :
  0 ≤ shr_m r → shr_m (iter_pos shr_1 p r) = shr_m r / 2 ^ Zpos p.
Proof.
  rewrite iter_pos_iter. revert r. induction p as [|p IH] using Pos.peano_ind; intros r Hr.
  - cbn [Pos.iter]. by rewrite shr_1_m.
  - rewrite Pos.iter_succ, shr_1_m, IH by (try done; rewrite IH by done; apply Z.div_pos; lia).
    rewrite Z.div_div by lia. f_equal. rewrite Pos2Z.inj_succ, Z.pow_succ_r; lia.
Qed.

Lemma shr_record_of_loc_m m l : shr_m (shr_record_of_loc m l) = m.
Proof. by destruct l as [|[]]. Qed.

(** [round_nearest_even] adds at most one. *)
Lemma round_nearest_even_cases m l :
  round_nearest_even m l = m ∨ round_nearest_even m l = m + 1.
Proof. destruct l as [|[]]; cbn; try case_split; auto. Qed.

Section Rounding.
Context (prec emax : Z) (Hprec : 1 < prec) (Hemax : prec < emax).

Lemma fexp_le e1 e2 : e1 ≤ e2 → fexp prec emax e1 ≤ fexp prec emax e2.
Proof. unfold fexp. lia. Qed.

(** Both shifts of [shr_fexp] at once. *)
Lemma shr_fexp_spec m e l :
  0 ≤ m → e ≤ fexp prec emax (Zdigits2 m + e) →
  ∃ r, shr_fexp prec emax m e l = (r, fexp prec emax (Zdigits2 m + e)) ∧
       shr_m r = m / 2 ^ (fexp prec emax (Zdigits2 m + e) - e).
Proof.
  intros Hm He. unfold shr_fexp.
  set (E := fexp prec emax (Zdigits2 m + e)) in *.
  destruct (E - e) as [|p|p] eqn:En; [| |lia]; cbn [shr].
  - eexists; split; [f_equal; lia|]. rewrite shr_record_of_loc_m. by rewrite Z.div_1_r.
  - eexists; split; [f_equal; lia|].
    by rewrite iter_shr_m; rewrite ?shr_record_of_loc_m.
Qed.

(** The rounded mantissa and exponent before the overflow test. *)
Definition rounded (m e : Z) (m2 e2 : Z) : Prop :=
  let E := fexp prec emax (Zdigits2 m + e) in
  ∃ m1, (m1 = m / 2 ^ (E - e) ∨ m1 = m / 2 ^ (E - e) + 1) ∧
        e2 = fexp prec emax (Zdigits2 m1 + E) ∧
        m2 = m1 / 2 ^ (e2 - E).

Lemma shifted_digits m e :
  0 ≤ m → e ≤ fexp prec emax (Zdigits2 m + e) →
  let E := fexp prec emax (Zdigits2 m + e) in
  0 ≤ m / 2 ^ (E - e) < 2 ^ Z.max 0 (Zdigits2 m + e - E) ∧
  Z.max 0 (Zdigits2 m + e - E) ≤ prec ∧
  (Z.max 0 (Zdigits2 m + e - E) < prec → E = emin prec emax) ∧
  (0 < Zdigits2 m + e - E → 2 ^ (Zdigits2 m + e - E - 1) ≤ m / 2 ^ (E - e)).
Proof.
  intros Hm He E. set (d := Zdigits2 m) in *.
  assert (0 < 2 ^ (E - e)) by (apply Z.pow_pos_nonneg; lia).
  assert (m < 2 ^ d).
  { destruct (decide (m = 0)) as [->|]; [done|]. apply Zdigits2_spec; lia. }
  assert (0 ≤ m / 2 ^ (E - e)) by (apply Z.div_pos; lia).
  assert (E = Z.max (d + e - prec) (emin prec emax)) as HE by done.
  split_and!; [done| |lia|lia|].
  - apply Z.div_lt_upper_bound; [lia|]. rewrite <- Z.pow_add_r by lia.
    eapply Z.lt_le_trans; [done|]. apply Z.pow_le_mono_r; lia.
  - intros Hd. apply Z.div_le_lower_bound; [lia|]. rewrite <- Z.pow_add_r by lia.
    replace (E - e + (d + e - E - 1)) with (d - 1) by lia.
    assert (m ≠ 0) by (intros ->; subst d; cbn in *; lia). apply Zdigits2_spec; lia.
Qed.

Lemma second_round m e m1 :
  let E := fexp prec emax (Zdigits2 m + e) in
  0 ≤ m → e ≤ E → (m1 = m / 2 ^ (E - e) ∨ m1 = m / 2 ^ (E - e) + 1) →
  0 ≤ m1 ∧
  ((m1 < 2 ^ prec ∧ Zdigits2 m1 ≤ prec ∧ fexp prec emax (Zdigits2 m1 + E) = E ∧
    (Zdigits2 m1 < prec → E = emin prec emax)) ∨
   (m1 = 2 ^ prec ∧ fexp prec emax (Zdigits2 m1 + E) = E + 1)).
Proof.
  intros E Hm He Hm1. destruct (shifted_digits m e Hm He) as ([H0 Hk] & Hkp & Hemin & Hlow).
  fold E in H0, Hk, Hkp, Hemin, Hlow. set (k := Z.max 0 (Zdigits2 m + e - E)) in *.
  assert (0 ≤ m1) as H1 by lia. split; [done|].
  assert (emin prec emax ≤ E) by (unfold E, fexp; lia).
  destruct (Z.lt_ge_cases k prec) as [Hlt|Hge].
  - specialize (Hemin Hlt). left.
    assert (2 ^ k * 2 ≤ 2 ^ prec).
    { rewrite Z.mul_comm, <- Z.pow_succ_r by lia. apply Z.pow_le_mono_r; lia. }
    assert (0 < 2 ^ k) by (apply Z.pow_pos_nonneg; lia).
    assert (m1 < 2 ^ prec) as Hb by lia.
    pose proof (Zdigits2_le m1 prec H1 ltac:(lia) Hb).
    split_and!; [done|done| |done]. rewrite Hemin. unfold fexp. lia.
  - assert (k = prec) as Hkeq by lia. rewrite Hkeq in *.
    assert (2 ^ (prec - 1) ≤ m1) as Hlo.
    { transitivity (m / 2 ^ (E - e)); [|lia]. replace prec with (Zdigits2 m + e - E) by lia.
      apply Hlow. lia. }
    destruct (decide (m1 = 2 ^ prec)) as [->|Hne].
    + right. split; [done|]. assert (Zdigits2 (2 ^ prec) = prec + 1) as ->.
      { apply Zdigits2_unique; [lia|]. rewrite Z.add_simpl_r. split; [done|].
        apply Z.pow_lt_mono_r; lia. }
      unfold fexp. lia.
    + left. assert (Zdigits2 m1 = prec) as -> by (apply Zdigits2_unique; lia).
      split_and!; [lia|lia| |lia]. unfold fexp. lia.
Qed.

Lemma binary_round_aux_rounded s m e l :
  0 ≤ m → e ≤ fexp prec emax (Zdigits2 m + e) →
  ∃ m2 e2, rounded m e m2 e2 ∧ 0 ≤ m2 ∧
    binary_round_aux prec emax s m e l =
      match m2 with
      | Zpos p => if e2 <=? emax - prec then S754_finite s p e2 else S754_infinity s
      | _ => S754_zero s
      end.
Proof.
  intros Hm He. unfold binary_round_aux.
  destruct (shr_fexp_spec m e l Hm He) as (r & -> & Hr).
  set (E := fexp prec emax (Zdigits2 m + e)) in *.
  set (m1 := round_nearest_even (shr_m r) (loc_of_shr_record r)).
  assert (m1 = m / 2 ^ (E - e) ∨ m1 = m / 2 ^ (E - e) + 1) as Hm1.
  { rewrite <- Hr. apply round_nearest_even_cases. }
  destruct (second_round m e m1 Hm He Hm1) as [H1 Hcases]. fold E in Hcases.
  assert (E ≤ fexp prec emax (Zdigits2 m1 + E)) as HE by lia.
  destruct (shr_fexp_spec m1 E loc_Exact H1 HE) as (r2 & -> & ->).
  eexists _, _; split; [by exists m1|].
  assert (0 ≤ m1 / 2 ^ (fexp prec emax (Zdigits2 m1 + E) - E)) as Hpos.
  { apply Z.div_pos; [done|apply Z.pow_pos_nonneg; lia]. }
  split; [done|]. by destruct (m1 / _) eqn:Hq.
Qed.

Lemma rounded_valid m e p e2 s :
  0 ≤ m → e ≤ fexp prec emax (Zdigits2 m + e) → rounded m e (Zpos p) e2 →
  e2 ≤ emax - prec → valid_binary prec emax (S754_finite s p e2) = true.
Proof.
  intros Hm He (m1 & Hm1 & -> & Hp) Hle. cbn [valid_binary]. unfold bounded, canonical_mantissa.
  apply andb_true_intro; split; [|by apply Z.leb_le]. apply Z.eqb_eq.
  change (Zpos (digits2_pos p)) with (Zdigits2 (Zpos p)).
  destruct (second_round m e m1 Hm He Hm1) as [_ [(_ & _ & HE & _)|[-> HE]]];
    set (E := fexp prec emax (Zdigits2 m + e)) in *; rewrite HE in *.
  - rewrite Z.sub_diag, Z.pow_0_r, Z.div_1_r in Hp. by rewrite Hp, HE.
  - replace (E + 1 - E) with 1 in Hp by lia.
    assert (Zpos p = 2 ^ (prec - 1)) as ->.
    { rewrite Hp. change (2 ^ 1) with 2. replace prec with (Z.succ (prec - 1)) at 1 by lia.
      rewrite Z.pow_succ_r, Z.mul_comm, Z.div_mul by lia. done. }
    assert (Zdigits2 (2 ^ (prec - 1)) = prec) as ->.
    { apply Zdigits2_unique; [lia|]. split; [done|]. apply Z.pow_lt_mono_r; lia. }
    assert (emin prec emax ≤ E) by (unfold E, fexp; lia). unfold fexp. lia.
Qed.

Lemma binary_round_aux_valid s m e l :
  0 ≤ m → e ≤ fexp prec emax (Zdigits2 m + e) →
  valid_binary prec emax (binary_round_aux prec emax s m e l) = true.
Proof.
  intros Hm He. destruct (binary_round_aux_rounded s m e l Hm He) as (m2 & e2 & Hr & Hm2 & ->).
  destruct m2 as [|p|p]; [done| |lia].
  destruct (Z.leb_spec e2 (emax - prec)); [|done].
  by apply (rounded_valid m e).
Qed.

(** Rounding a value below the largest finite one by at least one unit does not
    overflow. *)
Lemma binary_round_aux_finite s m e l :
  0 ≤ m → e ≤ fexp prec emax (Zdigits2 m + e) →
  (fexp prec emax (Zdigits2 m + e) < emax - prec ∨
   fexp prec emax (Zdigits2 m + e) = emax - prec ∧ m / 2 ^ (emax - prec - e) + 1 < 2 ^ prec) →
  isfinite (binary_round_aux prec emax s m e l) = true.
Proof.
  intros Hm He Hb. destruct (binary_round_aux_rounded s m e l Hm He) as (m2 & e2 & Hr & _ & ->).
  destruct m2 as [|p|p]; try done. destruct Hr as (m1 & Hm1 & He2 & _).
  destruct (second_round m e m1 Hm He Hm1) as [_ Hc].
  assert (e2 ≤ emax - prec) as ->%Z.leb_le; [|done].
  destruct Hb as [Hlt|[Heq Hlt]]; [lia|].
  rewrite Heq in *. destruct Hc as [Hc|[? ?]]; lia.
Qed.

(** Rounding a positive value gives at least its truncation to the result's
    precision, or overflows. *)
Lemma binary_round_aux_truncation m e l :
  0 ≤ m → e ≤ fexp prec emax (Zdigits2 m + e) →
  let E := fexp prec emax (Zdigits2 m + e) in
  let r := binary_round_aux prec emax false m e l in
  r = S754_infinity false ∨
  (isfinite r = true ∧ m / 2 ^ (E - e) * 2 ^ (E - emin prec emax) ≤ sval prec emax r).
Proof.
  intros Hm He E r. subst r.
  destruct (binary_round_aux_rounded false m e l Hm He) as (m2 & e2 & Hr & Hm2 & ->).
  destruct Hr as (m1 & Hm1 & He2 & Hq). fold E in Hm1, He2, Hq.
  destruct (second_round m e m1 Hm He Hm1) as [H1 Hc]. fold E in Hc.
  assert (emin prec emax ≤ E) by (unfold E, fexp; lia).
  assert (m2 * 2 ^ (e2 - emin prec emax) = m1 * 2 ^ (E - emin prec emax)) as Hv.
  { destruct Hc as [(_ & _ & HE & _)|[-> HE]]; rewrite HE in He2; subst e2.
    - by rewrite Hq, Z.sub_diag, Z.pow_0_r, Z.div_1_r.
    - rewrite Hq. replace (E + 1 - E) with 1 by lia. change (2 ^ 1) with 2.
      assert (2 ^ prec = 2 ^ (prec - 1) * 2) as -> by
        (rewrite Z.mul_comm, <- Z.pow_succ_r by lia; f_equal; lia).
      rewrite Z.div_mul by done.
      replace (E + 1 - emin prec emax) with (Z.succ (E - emin prec emax)) by lia.
      rewrite Z.pow_succ_r by lia. ring. }
  assert (m / 2 ^ (E - e) * 2 ^ (E - emin prec emax) ≤ m2 * 2 ^ (e2 - emin prec emax)) as Hle.
  { rewrite Hv. apply Z.mul_le_mono_nonneg_r; [apply Z.pow_nonneg; lia|lia]. }
  destruct m2 as [|p|p]; [right; split; [done|]| |lia].
  - by rewrite Z.mul_0_l in Hle.
  - case_split; [|by left]. right. by split.
Qed.

(** ** The operations return canonical floats *)

Lemma valid_finite_spec s m e :
  valid_binary prec emax (S754_finite s m e) = true →
  fexp prec emax (Zdigits2 (Zpos m) + e) = e ∧ emin prec emax ≤ e ≤ emax - prec ∧
  Zdigits2 (Zpos m) ≤ prec ∧ (Zdigits2 (Zpos m) < prec → e = emin prec emax).
Proof.
  cbn [valid_binary]. unfold bounded, canonical_mantissa.
  intros [H1%Z.eqb_eq H2%Z.leb_le]%andb_prop. cbn [Zdigits2].
  unfold fexp in *. lia.
Qed.

Lemma Zdigits2_mul a b :
  0 < a → 0 < b → Zdigits2 a + Zdigits2 b - 1 ≤ Zdigits2 (a * b).
Proof.
  intros Ha Hb. destruct (Zdigits2_spec a Ha) as [? [? _]], (Zdigits2_spec b Hb) as [? [? _]].
  apply Zdigits2_ge; [lia|]. intros _.
  replace (Zdigits2 a + Zdigits2 b - 1 - 1) with (Zdigits2 a - 1 + (Zdigits2 b - 1)) by lia.
  rewrite Z.pow_add_r by lia. apply Z.mul_le_mono_nonneg; lia.
Qed.

Lemma SFmul_valid x y :
  valid_binary prec emax x = true → valid_binary prec emax y = true →
  valid_binary prec emax (SFmul prec emax x y) = true.
Proof.
  destruct x as [| | |sx mx ex], y as [| | |sy my ey]; try done. cbn [SFmul]. intros Hx Hy.
  apply valid_finite_spec in Hx as (Hx1 & Hx2 & Hx3 & Hx4).
  apply valid_finite_spec in Hy as (Hy1 & Hy2 & Hy3 & Hy4).
  apply binary_round_aux_valid; [lia|].
  pose proof (Zdigits2_mul (Zpos mx) (Zpos my) eq_refl eq_refl) as Hd.
  rewrite <- Pos2Z.inj_mul in Hd.
  pose proof (Zdigits2_spec (Zpos mx) eq_refl). pose proof (Zdigits2_spec (Zpos my) eq_refl).
  unfold fexp, emin in *. lia.
Qed.

(** What the division core hands to the rounding. *)
Lemma SFdiv_core_spec m1 e1 m2 e2 :
  0 < m1 → 0 < m2 →
  ∃ e' l, let s := e1 - e2 - e' in
    SFdiv_core_binary prec emax m1 e1 m2 e2 = (m1 * 2 ^ s / m2, e', l) ∧ 0 ≤ s ∧
    e' ≤ fexp prec emax (Zdigits2 m1 + e1 - (Zdigits2 m2 + e2)) ∧
    Zdigits2 m1 + s - Zdigits2 m2 ≤ Zdigits2 (m1 * 2 ^ s / m2).
Proof.
  intros H1 H2. unfold SFdiv_core_binary.
  set (e' := Z.min _ _). set (s := e1 - e2 - e').
  assert (0 ≤ s) as Hs by lia.
  assert (match s with 0 => m1 | Zpos _ => Z.shiftl m1 s | Zneg _ => 0 end = m1 * 2 ^ s) as ->.
  { destruct s; [|by rewrite Z.shiftl_mul_pow2|lia]. by rewrite Z.pow_0_r, Z.mul_1_r. }
  pose proof (eq_refl : m1 * 2 ^ s / m2 = fst (Z.div_eucl (m1 * 2 ^ s) m2)) as Hq.
  destruct (Z.div_eucl (m1 * 2 ^ s) m2) as [q r]; cbn [fst] in Hq. subst q.
  exists e', (new_location m2 r). change (e1 - e2 - e') with s.
  cbv zeta. split_and!; [done|done|unfold e'; lia|].
  destruct (Zdigits2_spec m1 H1) as [? [? _]], (Zdigits2_spec m2 H2) as [? [_ ?]].
  assert (0 < 2 ^ s) by (apply Z.pow_pos_nonneg; lia).
  apply Zdigits2_ge; [apply Z.div_pos; lia|]. intros Hpos.
  apply Z.div_le_lower_bound; [done|].
  transitivity (2 ^ Zdigits2 m2 * 2 ^ (Zdigits2 m1 + s - Zdigits2 m2 - 1)).
  - apply Z.mul_le_mono_nonneg_r; [apply Z.pow_nonneg|]; lia.
  - rewrite <- Z.pow_add_r by lia.
    replace (Zdigits2 m2 + (Zdigits2 m1 + s - Zdigits2 m2 - 1)) with (Zdigits2 m1 - 1 + s) by lia.
    rewrite Z.pow_add_r by lia. apply Z.mul_le_mono_nonneg_r; lia.
Qed.

Lemma SFdiv_core_valid s m1 e1 m2 e2 :
  0 < m1 → 0 < m2 →
  valid_binary prec emax
    (let '(m, e, l) := SFdiv_core_binary prec emax m1 e1 m2 e2 in
     binary_round_aux prec emax s m e l) = true.
Proof.
  intros H1 H2. destruct (SFdiv_core_spec m1 e1 m2 e2 H1 H2) as (e' & l & -> & Hs & He & Hd).
  apply binary_round_aux_valid.
  - apply Z.div_pos; [|done]. apply Z.mul_nonneg_nonneg; [lia|apply Z.pow_nonneg; lia].
  - etransitivity; [exact He|]. apply fexp_le. lia.
Qed.

Lemma SFdiv_valid x y :
  valid_binary prec emax x = true → valid_binary prec emax y = true →
  valid_binary prec emax (SFdiv prec emax x y) = true.
Proof.
  destruct x as [| | |sx mx ex], y as [| | |sy my ey]; try done. intros _ _.
  by apply SFdiv_core_valid.
Qed.

Lemma fl_ratio_valid n d : valid_binary prec emax (fl_ratio prec emax n d) = true.
Proof. by apply SFdiv_core_valid. Qed.

Lemma shl_align_spec m e e' :
  ∃ k, shl_align m e e' = (Z.to_pos (Zpos m * 2 ^ k), e - k) ∧ 0 ≤ k ∧ k = Z.max 0 (e - e').
Proof.
  unfold shl_align. destruct (e' - e) as [|d|d] eqn:Hd.
  - exists 0. rewrite Z.pow_0_r, Z.mul_1_r, Z.sub_0_r. split_and!; [done|lia|lia].
  - exists 0. rewrite Z.pow_0_r, Z.mul_1_r, Z.sub_0_r. split_and!; [done|lia|lia].
  - exists (Zpos d). split_and!; [|lia|lia]. f_equal; [|lia].
    clear Hd. induction d as [|d IH] using Pos.peano_ind.
    + cbn [Pos.iter]. change (2 ^ 1) with 2. lia.
    + rewrite Pos.iter_succ, IH, Pos2Z.inj_succ, Z.pow_succ_r by lia.
      assert (0 < 2 ^ Zpos d) by (apply Z.pow_pos_nonneg; lia). lia.
Qed.

Lemma Zdigits2_shift m k : 0 < m → 0 ≤ k → Zdigits2 (m * 2 ^ k) = Zdigits2 m + k.
Proof.
  intros Hm Hk. destruct (Zdigits2_spec m Hm) as [? [? ?]].
  assert (0 < 2 ^ k) by (apply Z.pow_pos_nonneg; lia).
  apply Zdigits2_unique; [lia|].
  replace (Zdigits2 m + k - 1) with (Zdigits2 m - 1 + k) by lia.
  rewrite !Z.pow_add_r by lia. split; [apply Z.mul_le_mono_nonneg_r|apply Z.mul_lt_mono_pos_r]; lia.
Qed.

Lemma binary_round_valid s m e :
  valid_binary prec emax (binary_round prec emax s m e) = true.
Proof.
  unfold binary_round. destruct (shl_align_spec m e (fexp prec emax (Zpos (digits2_pos m) + e)))
    as (k & -> & Hk & Hkmax).
  assert (0 < Zpos m * 2 ^ k) by (apply Z.mul_pos_pos; [|apply Z.pow_pos_nonneg]; lia).
  rewrite Z2Pos.id by done. apply binary_round_aux_valid; [lia|].
  rewrite Zdigits2_shift by lia. cbn [Zdigits2].
  replace (Zpos (digits2_pos m) + k + (e - k)) with (Zpos (digits2_pos m) + e) by lia. lia.
Qed.

Lemma fl_of_Z_valid z : valid_binary prec emax (fl_of_Z prec emax z) = true.
Proof. destruct z; [done|apply binary_round_valid|apply binary_round_valid]. Qed.

Lemma fl_convert_valid x : valid_binary prec emax (fl_convert prec emax x) = true.
Proof. destruct x; [done..|apply binary_round_valid]. Qed.

(** ** Comparison is the order of the values *)

Lemma sval_lt_exp m1 e1 m2 e2 :
  valid_binary prec emax (S754_finite false m1 e1) = true →
  valid_binary prec emax (S754_finite false m2 e2) = true → e1 < e2 →
  Zpos m1 * 2 ^ (e1 - emin prec emax) < Zpos m2 * 2 ^ (e2 - emin prec emax).
Proof.
  intros (_ & He1 & Hd1 & _)%valid_finite_spec (_ & He2 & Hd2 & Hs2)%valid_finite_spec Hlt.
  destruct (Zdigits2_spec (Zpos m1) eq_refl) as [? [_ Hm1]].
  destruct (Zdigits2_spec (Zpos m2) eq_refl) as [? [Hm2 _]].
  assert (Zdigits2 (Zpos m2) = prec) as Hp by lia. rewrite Hp in Hm2.
  assert (0 < 2 ^ (e1 - emin prec emax)) by (apply Z.pow_pos_nonneg; lia).
  assert (Zpos m1 < 2 ^ prec).
  { eapply Z.lt_le_trans; [exact Hm1|]. apply Z.pow_le_mono_r; lia. }
  apply Z.lt_le_trans with (2 ^ prec * 2 ^ (e1 - emin prec emax)).
  { by apply Z.mul_lt_mono_pos_r. }
  transitivity (2 ^ (prec - 1) * 2 ^ (e2 - emin prec emax)).
  - rewrite <- !Z.pow_add_r by lia. apply Z.pow_le_mono_r; lia.
  - apply Z.mul_le_mono_nonneg_r; [apply Z.pow_nonneg; lia|done].
Qed.

Lemma compare_mul_pos a b c : 0 < c → (a * c ?= b * c) = (a ?= b).
Proof.
  intros Hc. destruct (Z.compare_spec a b) as [->|?|?].
  - apply Z.compare_refl.
  - apply Z.compare_lt_iff. by apply Z.mul_lt_mono_pos_r.
  - apply Z.compare_gt_iff. by apply Z.mul_lt_mono_pos_r.
Qed.

Lemma sval_compare_pos m1 e1 m2 e2 :
  valid_binary prec emax (S754_finite false m1 e1) = true →
  valid_binary prec emax (S754_finite false m2 e2) = true →
  match e1 ?= e2 with Lt => Lt | Gt => Gt | Eq => Pos.compare_cont Eq m1 m2 end =
  (Zpos m1 * 2 ^ (e1 - emin prec emax) ?= Zpos m2 * 2 ^ (e2 - emin prec emax)).
Proof.
  intros H1 H2. symmetry. destruct (Z.compare_spec e1 e2) as [->|Hlt|Hlt].
  - apply valid_finite_spec in H1 as (_ & He & _).
    apply compare_mul_pos, Z.pow_pos_nonneg; lia.
  - by apply Z.compare_lt_iff, sval_lt_exp.
  - by apply Z.compare_gt_iff, sval_lt_exp.
Qed.

Lemma sval_finite_pos s m e :
  valid_binary prec emax (S754_finite s m e) = true →
  0 < Zpos m * 2 ^ (e - emin prec emax).
Proof.
  intros (_ & He & _)%valid_finite_spec. apply Z.mul_pos_pos; [done|].
  apply Z.pow_pos_nonneg; lia.
Qed.

Lemma SFcompare_sval x y :
  valid_binary prec emax x = true → valid_binary prec emax y = true →
  isfinite x = true → isfinite y = true →
  SFcompare x y = Some (sval prec emax x ?= sval prec emax y).
Proof.
  intros Hx Hy. destruct x as [sx| | |sx mx ex], y as [sy| | |sy my ey]; try done;
    intros _ _; cbn [SFcompare sval]; f_equal.
  - apply sval_finite_pos in Hy. symmetry.
    destruct sy; cbn [cond_Zopp]; [apply Z.compare_gt_iff|apply Z.compare_lt_iff]; lia.
  - apply sval_finite_pos in Hx. symmetry.
    destruct sx; cbn [cond_Zopp]; [apply Z.compare_lt_iff|apply Z.compare_gt_iff]; lia.
  - pose proof (sval_finite_pos _ _ _ Hx). pose proof (sval_finite_pos _ _ _ Hy).
    pose proof (sval_compare_pos mx ex my ey Hx Hy) as Hc.
    destruct sx, sy; cbn [cond_Zopp].
    + rewrite Z.compare_opp, (Z.compare_antisym (Zpos mx * _)), <- Hc.
      by destruct (ex ?= ey).
    + symmetry. apply Z.compare_lt_iff. lia.
    + symmetry. apply Z.compare_gt_iff. lia.
    + exact Hc.
Qed.

(** ** Exact conversions *)

Lemma binary_round_aux_exact s p e :
  valid_binary prec emax (S754_finite s p e) = true →
  binary_round_aux prec emax s (Zpos p) e loc_Exact = S754_finite s p e.
Proof.
  intros (HE & He & _)%valid_finite_spec. unfold binary_round_aux.
  assert (shr_fexp prec emax (Zpos p) e loc_Exact =
          ({| shr_m := Zpos p; shr_r := false; shr_s := false |}, e)) as Hs.
  { unfold shr_fexp. by rewrite HE, Z.sub_diag. }
  rewrite Hs. cbn [shr_m loc_of_shr_record round_nearest_even]. rewrite Hs. cbn [shr_m].
  by destruct (Z.leb_spec e (emax - prec)); [|lia].
Qed.

(** An integer of at most [prec] bits is converted without rounding. *)
Lemma fl_of_Z_exact z :
  z ≠ 0 → Z.abs z < 2 ^ prec →
  ∃ k, 0 ≤ k < prec ∧
    fl_of_Z prec emax z = S754_finite (z <? 0) (Z.to_pos (Z.abs z * 2 ^ k)) (- k) ∧
    valid_binary prec emax (S754_finite (z <? 0) (Z.to_pos (Z.abs z * 2 ^ k)) (- k)) = true.
Proof.
  intros Hz Hlt. set (d := Zdigits2 (Z.abs z)).
  assert (0 < d) by (apply Zdigits2_spec; lia).
  assert (d ≤ prec) by (apply Zdigits2_le; lia).
  exists (prec - d). split; [lia|].
  assert (0 < Z.abs z * 2 ^ (prec - d)) by (apply Z.mul_pos_pos; [|apply Z.pow_pos_nonneg]; lia).
  assert (∀ s, valid_binary prec emax
            (S754_finite s (Z.to_pos (Z.abs z * 2 ^ (prec - d))) (- (prec - d))) = true) as Hv.
  { intros s. cbn [valid_binary]. unfold bounded, canonical_mantissa.
    change (Zpos (digits2_pos ?p)) with (Zdigits2 (Zpos p)).
    rewrite Z2Pos.id, Zdigits2_shift by lia. fold d. unfold fexp, emin.
    apply andb_true_intro; split; [apply Z.eqb_eq|apply Z.leb_le]; lia. }
  split; [|apply Hv].
  assert (∀ p s, Zpos p = Z.abs z → binary_round prec emax s p 0 =
            S754_finite s (Z.to_pos (Z.abs z * 2 ^ (prec - d))) (- (prec - d))) as Hr.
  { intros p s Hp. unfold binary_round.
    change (Zpos (digits2_pos p)) with (Zdigits2 (Zpos p)). rewrite Hp. fold d.
    destruct (shl_align_spec p 0 (fexp prec emax (d + 0))) as (k & -> & Hk & Hkm).
    assert (k = prec - d) as -> by (unfold fexp, emin in *; lia). rewrite Hp.
    rewrite Z.sub_0_l. apply binary_round_aux_exact, Hv. }
  unfold fl_of_Z, binary_normalize. destruct z as [|p|p]; [done| |]; by apply Hr.
Qed.

(** Truncation of a nonnegative float is the floor of its value. *)
Lemma fl_trunc_floor m e :
  valid_binary prec emax (S754_finite false m e) = true →
  fl_trunc (S754_finite false m e) =
    sval prec emax (S754_finite false m e) / 2 ^ (- emin prec emax).
Proof.
  intros (_ & He & _)%valid_finite_spec. cbn [fl_trunc sval cond_Zopp].
  assert (emin prec emax < 0) by (unfold emin; lia).
  destruct (Z.le_gt_cases 0 e).
  - rewrite Z.shiftl_mul_pow2 by done.
    replace (e - emin prec emax) with (e + - emin prec emax) by lia.
    rewrite Z.pow_add_r, Z.mul_assoc by lia.
    by rewrite Z.div_mul by (apply Z.pow_nonzero; lia).
  - rewrite <- (Z.opp_involutive e) at 1. rewrite Z.shiftl_opp_r, Z.shiftr_div_pow2 by lia.
    replace (- emin prec emax) with (- e + (e - emin prec emax)) by lia.
    rewrite Z.pow_add_r by lia. rewrite Z.div_mul_cancel_r; [done| |];
      apply Z.pow_nonzero; lia.
Qed.
(** ** No NaN out of numbers *)

Lemma binary_round_aux_not_nan s m e l :
  0 ≤ m → e ≤ fexp prec emax (Zdigits2 m + e) →
  is_nan (binary_round_aux prec emax s m e l) = false.
Proof.
  intros Hm He. destruct (binary_round_aux_rounded s m e l Hm He) as (m2 & e2 & _ & _ & ->).
  destruct m2; try done. by destruct (_ <=? _).
Qed.

Lemma fl_convert_not_nan s m e : is_nan (fl_convert prec emax (S754_finite s m e)) = false.
Proof.
  cbn [fl_convert]. unfold binary_round.
  destruct (shl_align_spec m e (fexp prec emax (Zpos (digits2_pos m) + e))) as (k & -> & Hk & Hkmax).
  assert (0 < Zpos m * 2 ^ k) by (apply Z.mul_pos_pos; [|apply Z.pow_pos_nonneg]; lia).
  rewrite Z2Pos.id by done. apply binary_round_aux_not_nan; [lia|].
  rewrite Zdigits2_shift by lia. cbn [Zdigits2].
  replace (Zpos (digits2_pos m) + k + (e - k)) with (Zpos (digits2_pos m) + e) by lia. lia.
Qed.

Lemma SFdiv_finite_not_nan sx mx ex sy my ey :
  is_nan (SFdiv prec emax (S754_finite sx mx ex) (S754_finite sy my ey)) = false.
Proof.
  cbn [SFdiv]. destruct (SFdiv_core_spec (Zpos mx) ex (Zpos my) ey eq_refl eq_refl) as (e' & l & -> & Hs & He & Hd).
  apply binary_round_aux_not_nan.
  - apply Z.div_pos; [|done]. apply Z.mul_nonneg_nonneg; [lia|apply Z.pow_nonneg; lia].
  - etransitivity; [exact He|]. apply fexp_le. lia.
Qed.

(** ** Positive results *)

(** A positive finite float or the positive infinity. *)
Definition positive_or_overflow (x : spec_float) : Prop :=
  x = S754_infinity false ∨ ∃ m e, x = S754_finite false m e.

(** Rounding a positive value of at least the smallest float gives no zero. *)
Lemma binary_round_aux_positive m e l :
  0 < m → e ≤ fexp prec emax (Zdigits2 m + e) → emin prec emax < Zdigits2 m + e →
  positive_or_overflow (binary_round_aux prec emax false m e l).
Proof.
  intros Hm He Hd. assert (0 ≤ m) as Hm0 by lia.
  pose proof (binary_round_aux_truncation m e l Hm0 He) as Ht. cbv zeta in Ht.
  destruct Ht as [Ht|[Hf Hs]]; [by left|].
  assert (0 < m / 2 ^ (fexp prec emax (Zdigits2 m + e) - e)) as Hq.
  { apply Z.div_str_pos. split; [apply Z.pow_pos_nonneg; lia|].
    apply Z.le_trans with (2 ^ (Zdigits2 m - 1)); [|by apply Zdigits2_spec].
    apply Z.pow_le_mono_r; unfold fexp in *; lia. }
  assert (0 < 2 ^ (fexp prec emax (Zdigits2 m + e) - emin prec emax)) as Hp
    by (apply Z.pow_pos_nonneg; unfold fexp; lia).
  assert (0 < sval prec emax (binary_round_aux prec emax false m e l)) as Hpos by nia.
  destruct (binary_round_aux prec emax false m e l) as [|[]| |[] p x]; try done;
    [cbn in Hpos; lia|right; eauto].
Qed.

Lemma fl_convert_positive m e :
  emin prec emax < Zdigits2 (Zpos m) + e → positive_or_overflow (fl_convert prec emax (S754_finite false m e)).
Proof.
  intros Hd. cbn [fl_convert]. unfold binary_round.
  destruct (shl_align_spec m e (fexp prec emax (Zpos (digits2_pos m) + e))) as (k & -> & Hk & Hkm).
  assert (0 < Zpos m * 2 ^ k) by (apply Z.mul_pos_pos; [|apply Z.pow_pos_nonneg]; lia).
  rewrite Z2Pos.id by done.
  change (Zpos (digits2_pos m)) with (Zdigits2 (Zpos m)) in *.
  apply binary_round_aux_positive; rewrite ?Zdigits2_shift by lia; [done|..];
    replace (Zdigits2 (Zpos m) + k + (e - k)) with (Zdigits2 (Zpos m) + e) by lia; lia.
Qed.

Lemma SFmul_positive m1 e1 m2 e2 :
  valid_binary prec emax (S754_finite false m1 e1) = true →
  valid_binary prec emax (S754_finite false m2 e2) = true →
  0 < Zdigits2 (Zpos m2) + e2 →
  positive_or_overflow (SFmul prec emax (S754_finite false m1 e1) (S754_finite false m2 e2)).
Proof.
  intros Hx Hy Hp. cbn [SFmul xorb].
  apply valid_finite_spec in Hx as (Hx1 & Hx2 & Hx3 & Hx4).
  apply valid_finite_spec in Hy as (Hy1 & Hy2 & Hy3 & Hy4).
  pose proof (Zdigits2_mul (Zpos m1) (Zpos m2) eq_refl eq_refl) as Hd.
  rewrite <- Pos2Z.inj_mul in Hd.
  pose proof (Zdigits2_spec (Zpos m1) eq_refl). pose proof (Zdigits2_spec (Zpos m2) eq_refl).
  apply binary_round_aux_positive; [done|unfold fexp, emin in *; lia..].
Qed.

(** A positive integer is converted to a float of at least 1/2. *)
Lemma fl_of_Z_positive z :
  0 < z →
  fl_of_Z prec emax z = S754_infinity false ∨
  ∃ m e, fl_of_Z prec emax z = S754_finite false m e ∧ 0 < Zdigits2 (Zpos m) + e ∧
    valid_binary prec emax (S754_finite false m e) = true.
Proof.
  intros Hz. destruct z as [|p|]; try lia. pose proof (fl_of_Z_valid (Zpos p)) as Hv. revert Hv.
  unfold fl_of_Z, binary_normalize, binary_round. clear Hz.
  change (Zpos (digits2_pos p)) with (Zdigits2 (Zpos p)).
  destruct (shl_align_spec p 0 (fexp prec emax (Zdigits2 (Zpos p) + 0))) as (k & -> & Hk & Hkm).
  destruct (Zdigits2_spec (Zpos p) eq_refl) as (Hd & Hlow & _).
  assert (0 < Zpos p * 2 ^ k) by (apply Z.mul_pos_pos; [|apply Z.pow_pos_nonneg]; lia).
  rewrite Z2Pos.id by done. set (m := Zpos p * 2 ^ k) in *.
  assert (Zdigits2 m + (0 - k) = Zdigits2 (Zpos p)) as Hdm by (unfold m; rewrite Zdigits2_shift by lia; lia).
  rewrite Z.add_0_r in Hkm.
  destruct (binary_round_aux_truncation m (0 - k) loc_Exact) as [Hr|[Hf Hs]];
    [lia|rewrite Hdm; lia|rewrite Hr; by left|intros Hv; right].
  rewrite Hdm in Hs. set (E := fexp prec emax (Zdigits2 (Zpos p))) in *.
  assert (E = Z.max (Zdigits2 (Zpos p) - prec) (emin prec emax)) as HE by done.
  assert (emin prec emax < 0) as Hmin by (unfold emin; lia).
  assert (2 ^ (- emin prec emax) ≤ m / 2 ^ (E - (0 - k)) * 2 ^ (E - emin prec emax)) as Hm.
  { transitivity (2 ^ (Zdigits2 (Zpos p) - 1 - E) * 2 ^ (E - emin prec emax)).
    - rewrite <- Z.pow_add_r by lia. apply Z.pow_le_mono_r; lia.
    - apply Z.mul_le_mono_nonneg_r; [apply Z.pow_nonneg; lia|].
      apply Z.div_le_lower_bound; [apply Z.pow_pos_nonneg; lia|].
      rewrite <- Z.pow_add_r by lia.
      replace (E - (0 - k) + (Zdigits2 (Zpos p) - 1 - E)) with (Zdigits2 (Zpos p) - 1 + k) by lia.
      rewrite Z.pow_add_r by lia. apply Z.mul_le_mono_nonneg_r; [apply Z.pow_nonneg|]; lia. }
  assert (0 < 2 ^ (- emin prec emax)) by (apply Z.pow_pos_nonneg; unfold emin; lia).
  destruct (binary_round_aux prec emax false m (0 - k) loc_Exact) as [|[]| |[] m' e'];
    try done; cbn [sval cond_Zopp] in Hs; [lia..|].
  exists m', e'. split_and!; [done| |done].
  apply valid_finite_spec in Hv as (_ & He' & _ & _).
  assert (2 ^ (- emin prec emax) < 2 ^ (Zdigits2 (Zpos m') + e' - emin prec emax)) as Hlt.
  { eapply Z.le_lt_trans; [exact (Z.le_trans _ _ _ Hm Hs)|].
    destruct (Zdigits2_spec (Zpos m') eq_refl) as (? & _ & Hup).
    replace (Zdigits2 (Zpos m') + e' - emin prec emax) with (Zdigits2 (Zpos m') + (e' - emin prec emax)) by lia.
    rewrite Z.pow_add_r by lia. apply Z.mul_lt_mono_pos_r; [apply Z.pow_pos_nonneg; lia|done]. }
  apply Z.pow_lt_mono_r_iff in Hlt; destruct (Zdigits2_spec (Zpos m') eq_refl); lia.
Qed.

Lemma SFdiv_positive m1 e1 m2 e2 :
  emin prec emax < Zdigits2 (Zpos m1) + e1 - (Zdigits2 (Zpos m2) + e2) →
  positive_or_overflow (SFdiv prec emax (S754_finite false m1 e1) (S754_finite false m2 e2)).
Proof.
  intros Hd. cbn [SFdiv xorb].
  destruct (SFdiv_core_spec (Zpos m1) e1 (Zpos m2) e2 eq_refl eq_refl) as (e' & l & -> & Hs & He & Hdq).
  set (q := Zpos m1 * 2 ^ (e1 - e2 - e') / Zpos m2) in *.
  apply binary_round_aux_positive.
  - destruct (Z.eq_dec q 0) as [Hq|Hq].
    + exfalso. rewrite Hq in Hdq. change (Zdigits2 0) with 0 in Hdq. unfold fexp, emin in *. lia.
    + assert (0 ≤ q); [|lia]. apply Z.div_pos; [|done].
      apply Z.mul_nonneg_nonneg; [done|apply Z.pow_nonneg; lia].
  - etransitivity; [exact He|]. apply fexp_le. lia.
  - lia.
Qed.

(** The ceiling of a positive float truncates to at least 1. *)
Lemma fl_ceil_positive m e :
  valid_binary prec emax (S754_finite false m e) = true →
  1 ≤ fl_trunc (fl_ceil prec emax (S754_finite false m e)) ∧
  isfinite (fl_ceil prec emax (S754_finite false m e)) = true ∧
  valid_binary prec emax (fl_ceil prec emax (S754_finite false m e)) = true ∧
  SFltb (fl_ceil prec emax (S754_finite false m e)) (S754_zero false) = false.
Proof.
  intros Hv. pose proof Hv as (_ & _ & Hd & _)%valid_finite_spec. cbn [fl_ceil].
  destruct (Z.leb_spec 0 e).
  { split_and!; try done. cbn [fl_trunc cond_Zopp]. rewrite Z.shiftl_mul_pow2 by done.
    assert (0 < 2 ^ e) by (apply Z.pow_pos_nonneg; lia). nia. }
  cbn [cond_Zopp]. set (c := - (- Zpos m / 2 ^ (- e))).
  assert (2 ≤ 2 ^ (- e)) as H2.
  { change 2 with (2 ^ 1) at 1. apply Z.pow_le_mono_r; lia. }
  assert (1 ≤ c ≤ Zpos m) as Hc.
  { subst c. pose proof (Z.div_mod (- Zpos m) (2 ^ (- e))). pose proof (Z.mod_pos_bound (- Zpos m) (2 ^ (- e))).
    nia. }
  destruct (Z.eqb_spec c 0); [lia|].
  assert (Zpos m < 2 ^ prec) as Hm.
  { apply Z.lt_le_trans with (2 ^ Zdigits2 (Zpos m)); [by apply Zdigits2_spec|].
    apply Z.pow_le_mono_r; lia. }
  destruct (fl_of_Z_exact c) as (k & Hk & -> & Hval); [lia|lia|].
  destruct (Z.ltb_spec c 0); [lia|]. rewrite Z.abs_eq in * by lia.
  assert (0 < 2 ^ k) by (apply Z.pow_pos_nonneg; lia).
  split_and!; try done. cbn [fl_trunc cond_Zopp]. rewrite Z2Pos.id by nia.
  rewrite Z.shiftl_opp_r, Z.shiftr_div_pow2 by lia. rewrite Z.div_mul by lia. lia.
Qed.
End Rounding.

(** Doubling a positive double at least doubles its value, or overflows. *)
Lemma b64_double m e :
  valid64 (S754_finite false m e) = true →
  let r := b64_mul (S754_finite false m e) (b64_of_Z 2) in
  valid64 r = true ∧
  (r = S754_infinity false ∨
   (isfinite r = true ∧ 2 * sval 53 1024 (S754_finite false m e) ≤ sval 53 1024 r)).
Proof.
  intros Hv r. split; [by apply (SFmul_valid 53 1024)|].
  apply (valid_finite_spec 53 1024) in Hv as (HE & He & Hd & Hn).
  change (emin 53 1024) with (-1074) in *.
  assert (r = binary_round_aux 53 1024 false (Zpos m * 2 ^ 52) (e - 51) loc_Exact) as ->.
  { unfold r. change (b64_of_Z 2) with (S754_finite false 4503599627370496 (-51)).
    unfold b64_mul. cbn [SFmul xorb]. by rewrite Pos2Z.inj_mul. }
  set (E := fexp 53 1024 (Zdigits2 (Zpos m * 2 ^ 52) + (e - 51))).
  assert (E = e ∨ E = e + 1) as HE2.
  { unfold E. rewrite Zdigits2_shift by lia. unfold fexp in *.
    change (emin 53 1024) with (-1074) in *. lia. }
  destruct (binary_round_aux_truncation 53 1024 eq_refl (Zpos m * 2 ^ 52) (e - 51) loc_Exact)
    as [Hi|[Hf Hs]]; [lia|fold E; lia|by left|right].
  fold E in Hs. split; [done|]. etransitivity; [|exact Hs].
  change (emin 53 1024) with (-1074). cbn [sval cond_Zopp]. change (emin 53 1024) with (-1074).
  destruct HE2 as [-> | ->].
  - replace (e - (e - 51)) with 51 by lia. replace (Zpos m * 2 ^ 52) with (Zpos m * 2 * 2 ^ 51)
      by (change (2 ^ 52) with (2 * 2 ^ 51); ring).
    rewrite Z.div_mul by done. lia.
  - replace (e + 1 - (e - 51)) with 52 by lia. rewrite Z.div_mul by done.
    replace (e + 1 - -1074) with (Z.succ (e - -1074)) by lia. rewrite Z.pow_succ_r by lia. lia.
Qed.

(** ** Comparison without values *)

Lemma SFcompare_antisym x y : SFcompare y x = CompOpp <$> SFcompare x y.
Proof.
  destruct x as [[]|[]| |[] mx ex], y as [[]|[]| |[] my ey]; try done; cbn [SFcompare fmap option_fmap option_map].
  all: rewrite (Z.compare_antisym ex ey); destruct (ex ?= ey); try done; cbn [CompOpp].
  all: change (Pos.compare_cont Eq ?a ?b) with (Pos.compare a b);
       rewrite (Pos.compare_antisym mx my); by destruct (mx ?= my)%positive.
Qed.

Lemma SFcompare_some x y :
  is_nan x = false → is_nan y = false → ∃ c, SFcompare x y = Some c.
Proof. destruct x, y; try done; intros _ _; eexists; reflexivity. Qed.

Lemma SFltb_false_leb x y :
  is_nan x = false → is_nan y = false → SFltb x y = false → SFleb y x = true.
Proof.
  unfold SFltb, SFleb. rewrite (SFcompare_antisym x y).
  intros Hx Hy. destruct (SFcompare_some x y Hx Hy) as [c ->]. by destruct c.
Qed.

Lemma SFleb_refl x : is_nan x = false → SFleb x x = true.
Proof.
  unfold SFleb. destruct x as [|[]| |[] m e]; try done; intros _; cbn [SFcompare];
    by rewrite Z.compare_refl, Pos.compare_cont_refl.
Qed.
