(* ===== verification/Rounding.v ===== *)
(** * Correct rounding of quotients

    What the conversion of a decimal literal relies on: a quotient of integers
    that lies close enough to a float is rounded to this float.  The rounding of
    [SpecFloat] carries a location (exact, below, at or above the middle) through
    its shifts; [located] is what the location means. *)

From S2P Require Import Prelude Floating.

(** [n / d] lies between [m] and [m + 1], where [l] says. *)
Definition located (n d m : Z) (l : location) : Prop :=
  match l with
  | loc_Exact => n = m * d
  | loc_Inexact c => m * d < n < (m + 1) * d ∧ (2 * n ?= (2 * m + 1) * d) = c
  end.

Ltac compare_lia :=
  repeat match goal with
  | |- (_ ?= _) = Lt => apply Z.compare_lt_iff
  | |- (_ ?= _) = Gt => apply Z.compare_gt_iff
  | |- (_ ?= _) = Eq => apply Z.compare_eq_iff
  | H : (_ ?= _) = Lt |- _ => apply (proj1 (Z.compare_lt_iff _ _)) in H
  | H : (_ ?= _) = Gt |- _ => apply (proj1 (Z.compare_gt_iff _ _)) in H
  | H : (_ ?= _) = Eq |- _ => apply (proj1 (Z.compare_eq_iff _ _)) in H
  end; lia.

Ltac located_cases :=
  repeat match goal with H : _ ∧ _ |- _ => destruct H end; try (split; [lia|]).

Lemma new_location_located n d : 0 < d → located n d (n / d) (new_location d (n mod d)).
Proof.
  intros Hd. pose proof (Z.div_mod n d ltac:(lia)) as Hn. pose proof (Z.mod_pos_bound n d Hd) as Hr.
  set (q := n / d) in *. set (r := n mod d) in *. clearbody q r. unfold new_location.
  destruct (Z.even d) eqn:He.
  - unfold new_location_even. destruct (Z.eqb_spec r 0); cbn [located]; [lia|].
    split; [lia|]. rewrite Hn. destruct (Z.compare_spec (2 * r) d); compare_lia.
  - unfold new_location_odd. rewrite <- Z.negb_odd, negb_false_iff in He.
    apply Z.odd_spec in He as [h ->].
    destruct (Z.eqb_spec r 0); cbn [located]; [lia|].
    destruct (Z.compare_spec (2 * r + 1) (2 * h + 1)); cbn [located]; (split; [lia|compare_lia]).
Qed.

Lemma shr_1_located n d r :
  0 < d → 0 ≤ shr_m r → located n d (shr_m r) (loc_of_shr_record r) →
  located n (2 * d) (shr_m (shr_1 r)) (loc_of_shr_record (shr_1 r)).
Proof.
  intros Hd Hm Hl.
  assert (∃ h b, shr_m r = 2 * h + Z.b2z b ∧
    shr_1 r = Build_shr_record h b (shr_r r || shr_s r)) as (h & b & Hh & ->).
  { destruct r as [[|[p|p|]|p] r s]; cbn in *; try lia;
      [exists 0, false|exists (Zpos p), true|exists (Zpos p), false|exists 0, true]; by split. }
  destruct r as [m r s]. cbn [shr_m shr_r shr_s] in *. subst m.
  destruct b, r, s; cbn [Z.b2z orb loc_of_shr_record located shr_m] in *;
    located_cases; compare_lia.
Qed.

Lemma iter_shr_located n d p r :
  0 < d → 0 ≤ shr_m r → located n d (shr_m r) (loc_of_shr_record r) →
  located n (2 ^ Zpos p * d) (shr_m (iter_pos shr_1 p r)) (loc_of_shr_record (iter_pos shr_1 p r)).
Proof.
  rewrite iter_pos_iter. induction p as [|p IH] using Pos.peano_ind; intros Hd Hr Hl.
  - by apply shr_1_located.
  - rewrite Pos.iter_succ, Pos2Z.inj_succ, Z.pow_succ_r, <- Z.mul_assoc by lia.
    assert (0 < 2 ^ Zpos p) by (apply Z.pow_pos_nonneg; lia).
    apply shr_1_located; [lia| |by apply IH].
    rewrite <- iter_pos_iter, iter_shr_m by done. by apply Z.div_pos.
Qed.

(** The nearest integer is the one closer than half. *)
Lemma round_nearest_even_near n d m l k :
  0 < d → located n d m l → - d < 2 * n - 2 * k * d < d → round_nearest_even m l = k.
Proof.
  intros Hd Hl Hk.
  assert (m * d ≤ n < (m + 1) * d) as Hn by (destruct l; cbn [located] in Hl; lia).
  assert (k = m ∨ k = m + 1) as Hkm.
  { assert ((2 * k - 2 * m - 3) * d < 0) as H1 by lia. assert (0 < (2 * k - 2 * m + 1) * d) as H2 by lia.
    apply Z.lt_mul_0 in H1. apply Z.lt_0_mul in H2. lia. }
  destruct l as [|[]]; cbn [located round_nearest_even] in *;
    located_cases; destruct Hkm as [-> | ->]; try lia; exfalso; compare_lia.
Qed.

Section Nearest.
Context (prec emax : Z) (Hprec : 1 < prec) (Hemax : prec < emax).

Lemma shr_fexp_located n d m e l :
  0 < d → 0 ≤ m → e ≤ fexp prec emax (Zdigits2 m + e) → located n d m l →
  ∃ r, shr_fexp prec emax m e l = (r, fexp prec emax (Zdigits2 m + e)) ∧
       located n (2 ^ (fexp prec emax (Zdigits2 m + e) - e) * d) (shr_m r) (loc_of_shr_record r).
Proof.
  intros Hd Hm He Hl. unfold shr_fexp. set (E := fexp prec emax (Zdigits2 m + e)) in *.
  assert (loc_of_shr_record (shr_record_of_loc m l) = l) as Hr by (by destruct l as [|[]]).
  destruct (E - e) as [|p|p] eqn:En; [| |lia]; cbn [shr]; eexists; (split; [f_equal; lia|]).
  - by rewrite shr_record_of_loc_m, Hr, Z.mul_1_l.
  - apply iter_shr_located; rewrite ?shr_record_of_loc_m; [done..|by rewrite Hr].
Qed.

(** ** Close to a float

    A value within [2^-(prec+1)] of a float, relatively, is within half a unit of
    its last place; below a power of two, where the unit is half as large, within
    a quarter. *)

Lemma near_half P T Y m :
  0 < T → 0 ≤ m < P → Z.abs (Y - m * T) * (2 * P) < m * T → - T < 2 * Y - 2 * m * T < T.
Proof.
  intros HT Hm Hn. assert (m * T < P * T) by (apply Z.mul_lt_mono_pos_r; lia).
  assert (2 * Z.abs (Y - m * T) < T); [|lia].
  apply (Z.mul_lt_mono_pos_r P); [lia|]. nia.
Qed.

Lemma near_quarter T Y m :
  0 < m → Z.abs (Y - m * T) * (2 * (2 * m)) < m * T → - T < 4 * Y - 4 * m * T < T.
Proof.
  intros Hm Hn. assert (4 * Z.abs (Y - m * T) < T); [|lia].
  apply (Z.mul_lt_mono_pos_r m); [done|]. lia.
Qed.

Lemma near_scaled S N D k :
  0 < S → - (S * D) < 2 * (S * N) - 2 * k * (S * D) < S * D → - D < 2 * N - 2 * k * D < D.
Proof. intros HS [H1 H2]. split; apply (Z.mul_lt_mono_pos_l S); lia. Qed.

(** The least power of two that bounds the value, [2^K], is that of the float or
    the one below. *)
Lemma near_exponent d q N e' m e B :
  0 < d → 0 ≤ q → q * d ≤ N < (q + 1) * d → B ≤ e' → B ≤ e →
  let Y := N * 2 ^ (e' - B) in let T := 2 ^ (e - B) * d in
  - T < 2 * Y - 2 * Zpos m * T < T →
  Y < 2 ^ (Zdigits2 q + e' - B) * d ∧ Zdigits2 (Zpos m) + e - 1 ≤ Zdigits2 q + e' ∧
  (0 < q → Zdigits2 q + e' ≤ Zdigits2 (Zpos m) + e).
Proof.
  intros Hd Hq HN HB HB' Y T Hn.
  destruct (Zdigits2_spec (Zpos m) eq_refl) as (Hdm & Hlow & Hup). set (dm := Zdigits2 (Zpos m)) in *.
  assert (0 < 2 ^ (e' - B)) as HS by (apply Z.pow_pos_nonneg; lia).
  assert (0 < 2 ^ (e - B)) as HE by (apply Z.pow_pos_nonneg; lia).
  assert (0 < T) as HT by (unfold T; lia).
  pose proof (Zdigits2_nonneg q Hq) as Hk. set (k := Zdigits2 q) in *.
  assert (q + 1 ≤ 2 ^ k) as Hqk.
  { unfold k. destruct (Z.eq_dec q 0) as [->|]; [done|]. destruct (Zdigits2_spec q) as (_ & _ & ?); lia. }
  assert (Y < 2 ^ (k + e' - B) * d) as HY.
  { replace (k + e' - B) with (k + (e' - B)) by lia. rewrite Z.pow_add_r by lia. unfold Y.
    replace (2 ^ k * 2 ^ (e' - B) * d) with (2 ^ k * d * 2 ^ (e' - B)) by ring.
    apply Z.mul_lt_mono_pos_r; [done|]. nia. }
  split_and!; [done| |].
  - assert (2 ^ (dm - 1) * T < 2 * (2 ^ (k + e' - B) * d)) as H.
    { assert (2 ^ dm = 2 * 2 ^ (dm - 1)) as Hpow by (rewrite <- Z.pow_succ_r by lia; f_equal; lia).
      assert (0 < 2 ^ (dm - 1)) by (apply Z.pow_pos_nonneg; lia). nia. }
    unfold T in H. rewrite !Z.mul_assoc, <- Z.pow_add_r in H by lia.
    apply Z.mul_lt_mono_pos_r in H; [|done]. rewrite <- Z.pow_succ_r in H by lia.
    apply Z.pow_lt_mono_r_iff in H; lia.
  - intros Hq0. destruct (Zdigits2_spec q Hq0) as (Hk0 & Hklow & _). fold k in Hk0, Hklow.
    assert (2 * (2 ^ (k - 1 + (e' - B)) * d) < 2 * 2 ^ dm * T) as H.
    { rewrite Z.pow_add_r by lia. apply Z.le_lt_trans with (2 * Y); [|nia]. unfold Y.
      assert (2 ^ (k - 1) * d ≤ N) by nia. nia. }
    unfold T in H. rewrite <- Z.mul_assoc in H. apply Z.mul_lt_mono_pos_l in H; [|done].
    rewrite Z.mul_assoc, <- Z.pow_add_r in H by lia.
    apply Z.mul_lt_mono_pos_r in H; [|done]. apply Z.pow_lt_mono_r_iff in H; lia.
Qed.

(** The rounding of [binary_round_aux] goes to a float this close. *)
Lemma binary_round_aux_near s q d N e' l m e :
  0 < d → 0 ≤ q → located N d q l → e' ≤ fexp prec emax (Zdigits2 q + e') → (q = 0 → e' ≤ emin prec emax) →
  valid_binary prec emax (S754_finite s m e) = true →
  let B := Z.min e' (e - 1) in
  let Y := N * 2 ^ (e' - B) in let T := 2 ^ (e - B) * d in
  Z.abs (Y - Zpos m * T) * (2 * 2 ^ prec) < Zpos m * T →
  binary_round_aux prec emax s q e' l = S754_finite s m e.
Proof.
  intros Hd Hq Hl He' Hq0 Hv B Y T Hn.
  destruct (valid_finite_spec prec emax s m e Hv) as (He & Hrange & Hdm & Hnorm).
  destruct (Zdigits2_spec (Zpos m) eq_refl) as (Hdm0 & Hlow & Hup). set (dm := Zdigits2 (Zpos m)) in *.
  assert (0 < 2 ^ (e' - B)) as HS by (apply Z.pow_pos_nonneg; lia).
  assert (0 < 2 ^ (e - B)) as HE by (apply Z.pow_pos_nonneg; lia).
  assert (0 < T) as HT by (unfold T; lia).
  assert (2 ^ dm ≤ 2 ^ prec) as Hdp by (apply Z.pow_le_mono_r; lia).
  pose proof (near_half (2 ^ prec) T Y (Zpos m) HT ltac:(lia) Hn) as Hhalf.
  assert (q * d ≤ N < (q + 1) * d) as HN by (destruct l; cbn [located] in Hl; lia).
  destruct (near_exponent d q N e' m e B Hd Hq HN ltac:(lia) ltac:(lia) Hhalf) as (HY & Hk1 & Hk2).
  fold Y dm in HY, Hk1, Hk2. set (K := Zdigits2 q + e') in *.
  destruct (shr_fexp_located N d q e' l Hd Hq He' Hl) as (r & Hr & Hloc). fold K in Hr, Hloc, He'.
  set (E := fexp prec emax K) in *. set (D := 2 ^ (E - e') * d) in *.
  assert (0 < D) as HD by (unfold D; apply Z.mul_pos_pos; [apply Z.pow_pos_nonneg|]; lia).
  assert (2 ^ (e' - B) * D = 2 ^ (E - B) * d) as HSD.
  { unfold D. rewrite Z.mul_assoc, <- Z.pow_add_r by lia. do 2 f_equal. lia. }
  assert (E = e ∨ E = e - 1 ∧ K = dm + e - 1 ∧ dm = prec) as [HEe|(HEe & HK & Hdmp)].
  { destruct (Z.eq_dec q 0) as [Hz|Hz].
    - left. specialize (Hq0 Hz). assert (K = e') as HK0 by (unfold K; by rewrite Hz).
      unfold E, fexp in *. clear Hk2. lia.
    - specialize (Hk2 ltac:(lia)). unfold E, fexp in *. lia. }
  - assert (round_nearest_even (shr_m r) (loc_of_shr_record r) = Zpos m) as Hm.
    { apply (round_nearest_even_near N D _ _ _ HD Hloc), (near_scaled (2 ^ (e' - B))); [done|].
      rewrite HSD, HEe. fold T. rewrite (Z.mul_comm _ N). exact Hhalf. }
    unfold binary_round_aux. rewrite Hr, Hm, HEe.
    destruct (shr_fexp_spec prec emax (Zpos m) e loc_Exact) as (r2 & -> & ->); [done|fold dm; lia|].
    fold dm. rewrite He, Z.sub_diag, Z.div_1_r. by destruct (Z.leb_spec e (emax - prec)); [|lia].
  - assert (2 ^ dm = 2 * 2 ^ (dm - 1)) as Hpow by (rewrite <- Z.pow_succ_r by lia; f_equal; lia).
    assert (2 * Zpos m = 2 ^ prec) as H2m.
    { rewrite <- Hdmp in *. rewrite HK in HY.
      replace (2 ^ (dm + e - 1 - B) * d) with (2 ^ (dm - 1) * T) in HY.
      - assert (Zpos m < 2 ^ (dm - 1) + 1); [|lia]. apply (Z.mul_lt_mono_pos_r T); lia.
      - unfold T. rewrite Z.mul_assoc, <- Z.pow_add_r by lia. do 2 f_equal. lia. }
    rewrite <- H2m in Hn. pose proof (near_quarter T Y (Zpos m) eq_refl Hn) as Hquarter.
    assert (T = 2 * (2 ^ (e' - B) * D)) as HT2.
    { rewrite HSD. unfold T. rewrite Z.mul_assoc, <- Z.pow_succ_r by lia. do 2 f_equal. lia. }
    assert (round_nearest_even (shr_m r) (loc_of_shr_record r) = 2 * Zpos m) as Hm.
    { apply (round_nearest_even_near N D _ _ _ HD Hloc), (near_scaled (2 ^ (e' - B))); [done|].
      rewrite (Z.mul_comm _ N). fold Y. rewrite HT2 in Hquarter. lia. }
    unfold binary_round_aux. rewrite Hr, Hm, HEe.
    assert (Zdigits2 (2 * Zpos m) = prec + 1) as Hd2.
    { rewrite Z.mul_comm. change 2 with (2 ^ 1) at 1. rewrite Zdigits2_shift by lia. fold dm. lia. }
    assert (fexp prec emax (prec + 1 + (e - 1)) = e) as Hf by (unfold fexp in *; lia).
    destruct (shr_fexp_spec prec emax (2 * Zpos m) (e - 1) loc_Exact) as (r2 & -> & ->);
      rewrite ?Hd2, ?Hf; [lia..|].
    replace (e - (e - 1)) with 1 by lia. change (2 ^ 1) with 2. rewrite Z.mul_comm, Z.div_mul by done.
    by destruct (Z.leb_spec e (emax - prec)); [|lia].
Qed.

(** The division core with its location. *)
Lemma SFdiv_core_located m1 e1 m2 e2 :
  0 < m1 → 0 < m2 →
  ∃ e' l, let s := e1 - e2 - e' in
    SFdiv_core_binary prec emax m1 e1 m2 e2 = (m1 * 2 ^ s / m2, e', l) ∧ 0 ≤ s ∧
    e' ≤ fexp prec emax (Zdigits2 m1 + e1 - (Zdigits2 m2 + e2)) ∧
    Zdigits2 m1 + s - Zdigits2 m2 ≤ Zdigits2 (m1 * 2 ^ s / m2) ∧
    located (m1 * 2 ^ s) m2 (m1 * 2 ^ s / m2) l.
Proof.
  intros H1 H2. destruct (SFdiv_core_spec prec emax m1 e1 m2 e2 H1 H2) as (e' & l & Heq & Hs & He & Hd).
  exists e', l. cbv zeta. split_and!; [done..|].
  unfold SFdiv_core_binary in Heq. set (e3 := Z.min _ _) in Heq.
  assert (match e1 - e2 - e3 with 0 => m1 | Zpos _ => Z.shiftl m1 (e1 - e2 - e3) | Zneg _ => 0 end =
    m1 * 2 ^ (e1 - e2 - e3)) as Hm.
  { destruct (e1 - e2 - e3) eqn:E; [by rewrite Z.pow_0_r, Z.mul_1_r|by rewrite Z.shiftl_mul_pow2|lia]. }
  cbv zeta in Heq. rewrite Hm in Heq.
  pose proof (new_location_located (m1 * 2 ^ (e1 - e2 - e3)) m2 H2) as Hl.
  unfold Z.div, Z.modulo in Hl. destruct (Z.div_eucl _ m2) as [q r]. injection Heq as -> -> <-. exact Hl.
Qed.

(** A quotient [n / d] this close to a float is rounded to it. *)
Lemma fl_ratio_near n d m e :
  valid_binary prec emax (S754_finite false m e) = true →
  let v := Zpos m * 2 ^ Z.max e 0 in let w := 2 ^ Z.max (- e) 0 in
  Z.abs (Zpos n * w - v * Zpos d) * (2 * 2 ^ prec) < v * Zpos d →
  fl_ratio prec emax n d = S754_finite false m e.
Proof.
  intros Hv v w Hn. unfold fl_ratio.
  destruct (SFdiv_core_located (Zpos n) 0 (Zpos d) 0 eq_refl eq_refl) as (e' & l & -> & Hs & He & Hdq & Hl).
  rewrite !Z.add_0_r, !Z.sub_0_l in *. set (N := Zpos n * 2 ^ (- e')) in *.
  assert (0 ≤ N) as HN by (apply Z.mul_nonneg_nonneg; [|apply Z.pow_nonneg]; lia).
  apply binary_round_aux_near with (d := Zpos d) (N := N); try done.
  - by apply Z.div_pos.
  - etransitivity; [exact He|]. apply fexp_le. lia.
  - intros Hq. rewrite Hq in Hdq. change (Zdigits2 0) with 0 in Hdq. unfold fexp in He. lia.
  - set (B := Z.min e' (e - 1)).
    set (u := 2 ^ (- B - Z.max (- e) 0)).
    assert (0 < u) by (apply Z.pow_pos_nonneg; lia).
    assert (N * 2 ^ (e' - B) = Zpos n * w * u) as ->.
    { unfold N, w, u. rewrite <- !Z.mul_assoc, <- !Z.pow_add_r by lia. do 2 f_equal. lia. }
    assert (Zpos m * (2 ^ (e - B) * Zpos d) = v * Zpos d * u) as ->.
    { unfold v, u. replace (e - B) with (Z.max e 0 + (- B - Z.max (- e) 0)) by lia.
      rewrite Z.pow_add_r by lia. ring. }
    rewrite <- Z.mul_sub_distr_r, Z.abs_mul, (Z.abs_eq u), <- Z.mul_assoc, (Z.mul_comm u), Z.mul_assoc by lia.
    by apply Z.mul_lt_mono_pos_r.
Qed.
End Nearest.
