(* ===== verification/Types.v ===== *)
(** * Public data types, validation and checked time arithmetic

    [netft/types.hpp], [types.cpp] and [detail/time.hpp].  [std::chrono]
    durations of [double] are the [double] of seconds; time points and
    durations of the steady clock are the [Z] of nanoseconds. *)

From S2P Require Import Prelude Floating.

(** ** Data *)

Inductive ForceUnit :=
  | ForceUnknown | PoundForce | Newton | KiloPoundForce | KiloNewton | KilogramForce.
Inductive TorqueUnit :=
  | TorqueUnknown | PoundForceInch | PoundForceFoot | NewtonMeter | NewtonMillimeter
  | KilogramForceCentimeter | KiloNewtonMeter.
Inductive CalibrationSource := Sensor | Override.
Inductive RecoveryPolicy := Reconnect | FailStop.
Inductive ClientState := Stopped | Connecting | Streaming | Backoff | Faulted.
Inductive FaultCode :=
  | FaultNone | FaultSensorConfiguration | FaultTimeout | FaultSocket | FaultSeriousStatus
  | FaultFtStall | FaultFtBackward | FaultMalformedStorm | FaultCallback.

#[global] Instance ForceUnit_eq_dec : EqDecision ForceUnit.
Proof. solve_decision. Defined.
#[global] Instance TorqueUnit_eq_dec : EqDecision TorqueUnit.
Proof. solve_decision. Defined.
#[global] Instance RecoveryPolicy_eq_dec : EqDecision RecoveryPolicy.
Proof. solve_decision. Defined.
#[global] Instance CalibrationSource_eq_dec : EqDecision CalibrationSource.
Proof. solve_decision. Defined.
#[global] Instance ClientState_eq_dec : EqDecision ClientState.
Proof. solve_decision. Defined.
#[global] Instance FaultCode_eq_dec : EqDecision FaultCode.
Proof. solve_decision. Defined.

Record Calibration := mkCalibration {
  counts_per_force_unit : double;
  counts_per_torque_unit : double;
  cal_force_unit : ForceUnit;
  cal_torque_unit : TorqueUnit
}.

Record SensorConfiguration := mkSensorConfiguration {
  product_name : string;
  calibration : Calibration;
  source : CalibrationSource;
  revision : Z
}.

Record Config := mkConfig {
  sensor_host : string;
  rdt_port : Z;
  http_port : Z;
  receive_timeout : double;
  configuration_connect_timeout : double;
  configuration_timeout : double;
  reconnect_initial_delay : double;
  reconnect_max_delay : double;
  sample_rate_limit_hz : double;
  deliver_samples_with_error_status : bool;
  recovery_policy : RecoveryPolicy;
  calibration_override : option Calibration
}.

Record Sample := mkSample {
  rdt_sequence : Z; ft_sequence : Z; status : Z;
  raw_wrench : list Z;
  force : list double; torque : list double;
  force_unit : ForceUnit; torque_unit : TorqueUnit;
  configuration_revision : Z;
  received_at : Z
}.

Record HealthSnapshot := mkHealth {
  state : ClientState;
  fault_code : FaultCode;
  h_sensor_host : string;
  h_rdt_port : Z;
  sensor_configuration : option SensorConfiguration;
  last_rdt_sequence : option Z; last_ft_sequence : option Z;
  last_status : Z;
  receive_rate_hz : double; delivery_rate_hz : double;
  received_count : Z; delivered_count : Z; rate_limited_count : Z;
  device_error_count : Z; warning_count : Z; lost_count : Z;
  duplicate_count : Z; out_of_order_count : Z; malformed_count : Z;
  reconnect_count : Z; timeout_count : Z; callback_error_count : Z;
  ft_stall_count : Z; ft_backward_count : Z; ft_restart_count : Z;
  calibration_change_count : Z;
  last_record_age : option double;
  last_error : string;
  last_ft_progress : string
}.

#[export] Instance eta_Config : Eta Config := λ c,
  mkConfig (sensor_host c) (rdt_port c) (http_port c) (receive_timeout c)
    (configuration_connect_timeout c) (configuration_timeout c) (reconnect_initial_delay c)
    (reconnect_max_delay c) (sample_rate_limit_hz c) (deliver_samples_with_error_status c)
    (recovery_policy c) (calibration_override c).

#[export] Instance eta_SensorConfiguration : Eta SensorConfiguration := λ c,
  mkSensorConfiguration (product_name c) (calibration c) (source c) (revision c).

#[export] Instance eta_HealthSnapshot : Eta HealthSnapshot := λ h,
  mkHealth (state h) (fault_code h) (h_sensor_host h) (h_rdt_port h) (sensor_configuration h)
    (last_rdt_sequence h) (last_ft_sequence h) (last_status h) (receive_rate_hz h)
    (delivery_rate_hz h) (received_count h) (delivered_count h) (rate_limited_count h)
    (device_error_count h) (warning_count h) (lost_count h) (duplicate_count h)
    (out_of_order_count h) (malformed_count h) (reconnect_count h) (timeout_count h)
    (callback_error_count h) (ft_stall_count h) (ft_backward_count h) (ft_restart_count h)
    (calibration_change_count h) (last_record_age h) (last_error h) (last_ft_progress h).

(** The member initialisers. *)
Definition d0 : double := S754_zero false.

Definition default_config : Config :=
  mkConfig "192.168.1.1" 49152 80 (b64_ratio 1 10) (b64_ratio 1 2) (b64_of_Z 1)
    (b64_ratio 1 4) (b64_of_Z 5) d0 false Reconnect None.

Definition default_health : HealthSnapshot :=
  mkHealth Stopped FaultNone "" 0 None None None 0 d0 d0 0 0 0 0 0 0 0 0 0 0 0 0 0 0 0 0 None ""
    "unknown".

(** ** Names *)

Definition force_unit_to_string (unit : ForceUnit) : string :=
  match unit with
  | PoundForce => "lbf" | Newton => "N" | KiloPoundForce => "klbf" | KiloNewton => "kN"
  | KilogramForce => "kgf" | ForceUnknown => "unknown"
  end.

Definition torque_unit_to_string (unit : TorqueUnit) : string :=
  match unit with
  | PoundForceInch => "lbf-in" | PoundForceFoot => "lbf-ft" | NewtonMeter => "N-m"
  | NewtonMillimeter => "N-mm" | KilogramForceCentimeter => "kgf-cm"
  | KiloNewtonMeter => "kN-m" | TorqueUnknown => "unknown"
  end.

Definition client_state_to_string (s : ClientState) : string :=
  match s with
  | Stopped => "stopped" | Connecting => "connecting" | Streaming => "streaming"
  | Backoff => "backoff" | Faulted => "faulted"
  end.

Definition fault_code_to_string (code : FaultCode) : string :=
  match code with
  | FaultNone => "none" | FaultSensorConfiguration => "sensor_configuration"
  | FaultTimeout => "timeout" | FaultSocket => "socket"
  | FaultSeriousStatus => "serious_status" | FaultFtStall => "ft_stall"
  | FaultFtBackward => "ft_backward" | FaultMalformedStorm => "malformed_storm"
  | FaultCallback => "callback"
  end.

Definition force_units : list ForceUnit :=
  [ForceUnknown; PoundForce; Newton; KiloPoundForce; KiloNewton; KilogramForce].
Definition torque_units : list TorqueUnit :=
  [TorqueUnknown; PoundForceInch; PoundForceFoot; NewtonMeter; NewtonMillimeter;
   KilogramForceCentimeter; KiloNewtonMeter].

(** The loops return the first unit whose name is [value]. *)
Definition force_unit_from_string (value : string) : option ForceUnit :=
  snd <$> list_find (λ u, force_unit_to_string u = value) force_units.

Definition torque_unit_from_string (value : string) : option TorqueUnit :=
  snd <$> list_find (λ u, torque_unit_to_string u = value) torque_units.

(** ** Checked time arithmetic ([detail/time.hpp]) *)

(** [SteadyClock::duration::max().count()] and [time_point::max()]. *)
Definition INT64_MAX : Z := 2 ^ 63 - 1.

(** [SteadyClock::period]. *)
Definition period_num : Z := 1.
Definition period_den : Z := 1000000000.

Section Time.
Context `{Platform}.

Definition checked_duration (duration : double) : result Z :=
  let ticks := ld_div (ld_mul (ld_of_double duration) (ld_of_Z period_den)) (ld_of_Z period_num) in
  if negb (isfinite ticks) || SFltb ticks (ld_of_Z 0) || SFleb (ld_of_Z INT64_MAX) ticks then
    Throw (InvalidArgument "duration is outside the supported steady-clock range")
  else Ok (cast_integer INT64_MAX ticks).

Definition checked_deadline (origin : Z) (duration : double) : result Z :=
  ticks ← checked_duration duration;
  if INT64_MAX - ticks <? origin then
    Throw (InvalidArgument "deadline is outside the supported steady-clock range")
  else Ok (origin + ticks).

(** ** Validation ([types.cpp]) *)

(** [std::isspace] in the default locale. *)
Definition is_space (c : Ascii.ascii) : bool :=
  let n := Ascii.N_of_ascii c in ((9 <=? n) && (n <=? 13) || (n =? 32))%N.

Definition is_blank (value : string) : bool := forallb is_space (String.list_ascii_of_string value).

Definition require_positive_finite (name : string) (value : double) : result unit :=
  if negb (isfinite value) || SFleb value d0 then
    Throw (InvalidArgument (name +:+ " must be finite and positive"))
  else Ok ().

(** [now] is the reading of [SteadyClock::now()] the check makes. *)
Definition require_safe_timeout (now : Z) (name : string) (value : double) (http : bool)
    : result unit :=
  _ ← require_positive_finite name value;
  ticks ← checked_duration value;
  _ ← ensure (0 <? ticks) (InvalidArgument (name +:+ " is below the steady-clock resolution"));
  _ ← checked_deadline now value;
  if http && SFleb (ld_of_Z LONG_MAX)
                   (ld_ceil (ld_mul (ld_of_double value) (ld_of_Z 1000))) then
    Throw (InvalidArgument (name +:+ " is outside the HTTP timer range"))
  else Ok ().

Definition require_port (name : string) (value : Z) : result unit :=
  if (value <? 1) || (65535 <? value) then
    Throw (InvalidArgument (name +:+ " must be in the range 1..65535"))
  else Ok ().

(** The [constexpr] values of [require_safe_count]. *)
Definition count_magnitude : double := SFopp (b64_of_Z (- 2 ^ 31)).
Definition count_minimum : double :=
  b64_mul (b64_div count_magnitude DBL_MAX) (b64_add (b64_of_Z 1) DBL_EPSILON).

Definition require_safe_count (name : string) (value : double) : result unit :=
  _ ← require_positive_finite name value;
  if SFltb value count_minimum then
    Throw (InvalidArgument (name +:+ " cannot represent the full raw count range"))
  else Ok ().

Definition validate_calibration (c : Calibration) : result unit :=
  _ ← require_safe_count "counts_per_force_unit" (counts_per_force_unit c);
  _ ← require_safe_count "counts_per_torque_unit" (counts_per_torque_unit c);
  if bool_decide (cal_force_unit c = ForceUnknown) ||
     bool_decide (cal_torque_unit c = TorqueUnknown) then
    Throw (InvalidArgument "calibration units must be known")
  else Ok ().

(** [clock n] is the [n]th reading of the steady clock. *)
Definition validate_config (clock : nat → Z) (config : Config) : result unit :=
  _ ← ensure (negb (is_blank (sensor_host config)))
             (InvalidArgument "sensor_host must not be blank");
  _ ← require_port "rdt_port" (rdt_port config);
  _ ← require_port "http_port" (http_port config);
  _ ← require_safe_timeout (clock 0%nat) "receive_timeout" (receive_timeout config) false;
  _ ← require_safe_timeout (clock 1%nat) "configuration_connect_timeout"
        (configuration_connect_timeout config) true;
  _ ← require_safe_timeout (clock 2%nat) "configuration_timeout" (configuration_timeout config) true;
  _ ← require_safe_timeout (clock 3%nat) "reconnect_initial_delay"
        (reconnect_initial_delay config) false;
  _ ← require_safe_timeout (clock 4%nat) "reconnect_max_delay" (reconnect_max_delay config) false;
  if SFltb (reconnect_max_delay config) (reconnect_initial_delay config) then
    Throw (InvalidArgument "reconnect_max_delay must not be below reconnect_initial_delay")
  else if negb (isfinite (sample_rate_limit_hz config)) || SFltb (sample_rate_limit_hz config) d0 then
    Throw (InvalidArgument "sample_rate_limit_hz must be finite and non-negative")
  else match calibration_override config with
  | Some c => validate_calibration c
  | None => Ok ()
  end.
End Time.

(** Sanity on concrete values: the default configuration is accepted. *)
Example default_config_valid :
  validate_config (H := linux_x86_64) (λ _, 1000000) default_config = Ok ().
Proof. vm_compute. reflexivity. Qed.

Example checked_duration_tenth :
  checked_duration (H := linux_x86_64) (b64_ratio 1 10) = Ok 100000000.
Proof. vm_compute. reflexivity. Qed.

(** ** Lemmas *)

Lemma bind_ok {A B} (m : result A) (k : A → result B) b :
  m ≫= k = Ok b ↔ ∃ a, m = Ok a ∧ k a = Ok b.
Proof.
  destruct m as [a|e]; cbn; split.
  - eauto.
  - by intros (? & [= ->] & ?).
  - done.
  - by intros (? & ? & ?).
Qed.

Lemma ensure_ok b e u : ensure b e = Ok u ↔ b = true.
Proof. destruct b, u; done. Qed.

(** Peels the binds and guards of a successful computation. *)
Ltac inv_ok :=
  repeat match goal with
  | H : _ ≫= _ = Ok _ |- _ => apply bind_ok in H as (? & ? & ?)
  | H : ensure _ _ = Ok _ |- _ => apply ensure_ok in H
  | H : (if ?b then Throw _ else _) = Ok _ |- _ =>
      let Hb := fresh "Hb" in destruct b eqn:Hb; [discriminate H|]
  | H : _ || _ = false |- _ => apply orb_false_elim in H as [? ?]
  | H : negb _ = false |- _ => apply negb_false_iff in H
  | H : negb _ = true |- _ => apply negb_true_iff in H
  | H : bool_decide _ = false |- _ => apply bool_decide_eq_false in H
  | H : Ok _ = Ok _ |- _ => injection H as H
  end.

Lemma positive_finite name v u :
  require_positive_finite name v = Ok u →
  ∃ m e, v = S754_finite false m e.
Proof.
  unfold require_positive_finite. intros H. inv_ok.
  destruct v as [| | |[] m e]; try done. eauto.
Qed.

Lemma safe_count_sval name v u :
  valid64 v = true → require_safe_count name v = Ok u →
  ∃ m e, v = S754_finite false m e ∧
    (2 ^ 51 + 1) * 2 ^ 30 ≤ Zpos m * 2 ^ (e + 1074).
Proof.
  intros Hv H. unfold require_safe_count in H. inv_ok.
  destruct (positive_finite _ _ _ H) as (m & e & ->). exists m, e; split; [done|].
  change (SFltb (S754_finite false m e) count_minimum = false) in Hb.
  apply SFltb_false_leb in Hb; [|done|vm_compute; done].
  unfold SFleb in Hb. rewrite (SFcompare_sval 53 1024) in Hb; try (done || vm_compute; done).
  assert (sval 53 1024 count_minimum = (2 ^ 51 + 1) * 2 ^ 30) as Hmin by (vm_compute; done).
  rewrite Hmin in Hb. change (sval 53 1024 (S754_finite false m e))
    with (Zpos m * 2 ^ (e - emin 53 1024)) in Hb.
  change (emin 53 1024) with (-1074) in Hb. replace (e - -1074) with (e + 1074) in Hb by lia.
  by destruct (Z.compare_spec ((2 ^ 51 + 1) * 2 ^ 30) (Zpos m * 2 ^ (e + 1074))); try done; lia.
Qed.

(** The quotient of a 32-bit count by a divisor that passed the check is below
    the overflow threshold of binary64. *)
Lemma count_quotient_bound mr er m e q e' s :
  0 < mr → mr * 2 ^ (er + 1074) ≤ 2 ^ 1105 → (2 ^ 51 + 1) * 2 ^ 30 ≤ m * 2 ^ (e + 1074) →
  -1074 ≤ er → -1074 ≤ e → 0 < m → 0 ≤ s → s = er - e - e' → 0 ≤ q → q * m ≤ mr * 2 ^ s →
  ∀ A, 0 ≤ A → 0 ≤ e' + A → q * 2 ^ (e' + A) * (2 ^ 51 + 1) ≤ 2 ^ (1075 + A).
Proof.
  intros Hmr Hr Hm He1 He2 Hm0 Hs -> Hq Hqm A HA HeA.
  assert (0 < 2 ^ A) by (apply Z.pow_pos_nonneg; lia).
  assert (0 < 2 ^ (e' + A)) by (apply Z.pow_pos_nonneg; lia).
  assert (0 < 2 ^ (e + 1074)) by (apply Z.pow_pos_nonneg; lia).
  assert (2 ^ (er - e - e') * 2 ^ (e' + A) * 2 ^ (e + 1074) = 2 ^ (er + 1074) * 2 ^ A) as Hpow.
  { rewrite <- !Z.pow_add_r by lia. f_equal; lia. }
  apply Z.mul_le_mono_pos_r with (p := 2 ^ 30); [done|].
  transitivity (q * 2 ^ (e' + A) * (m * 2 ^ (e + 1074))).
  { rewrite <- Z.mul_assoc. apply Z.mul_le_mono_nonneg_l; [|done].
    apply Z.mul_nonneg_nonneg; lia. }
  transitivity (mr * 2 ^ (er - e - e') * (2 ^ (e' + A) * 2 ^ (e + 1074))).
  { replace (q * 2 ^ (e' + A) * (m * 2 ^ (e + 1074)))
      with (q * m * (2 ^ (e' + A) * 2 ^ (e + 1074))) by ring.
    apply Z.mul_le_mono_nonneg_r; [apply Z.mul_nonneg_nonneg; lia|done]. }
  replace (mr * 2 ^ (er - e - e') * (2 ^ (e' + A) * 2 ^ (e + 1074)))
    with (mr * (2 ^ (er - e - e') * 2 ^ (e' + A) * 2 ^ (e + 1074))) by ring.
  rewrite Hpow, Z.mul_assoc, <- Z.pow_add_r by lia.
  replace (1075 + A + 30) with (1105 + A) by lia. rewrite (Z.pow_add_r 2 1105) by lia.
  apply Z.mul_le_mono_nonneg_r; lia.
Qed.

(** The conversion of a nonzero 32-bit count to [double] is exact. *)
Lemma b64_of_count raw :
  is_i32 raw → raw ≠ 0 →
  ∃ s m e, b64_of_Z raw = S754_finite s m e ∧ -1074 ≤ e ∧
    Zpos m * 2 ^ (e + 1074) ≤ 2 ^ 1105.
Proof.
  intros Hr Hz. destruct (fl_of_Z_exact 53 1024 eq_refl eq_refl raw Hz) as (k & Hk & -> & Hv).
  { change (2 ^ 53) with 9007199254740992. width_lia. }
  eexists _, _, _; split; [done|]. split; [lia|].
  rewrite Z2Pos.id by (apply Z.mul_pos_pos; [lia|apply Z.pow_pos_nonneg; lia]).
  rewrite <- Z.mul_assoc, <- Z.pow_add_r by lia. replace (k + (- k + 1074)) with 1074 by lia.
  change (2 ^ 1105) with (2 ^ 31 * 2 ^ 1074). apply Z.mul_le_mono_nonneg_r; [done|].
  width_lia.
Qed.

Section Quotient.
Context (q e' : Z) (Hq : 0 ≤ q).
Context (Hb : ∀ A, 0 ≤ A → 0 ≤ e' + A → q * 2 ^ (e' + A) * (2 ^ 51 + 1) ≤ 2 ^ (1075 + A)).

Lemma quotient_digits : 0 < q → Zdigits2 q + e' ≤ 1024.
Proof using Hb.
  intros Hpos. destruct (Zdigits2_spec q Hpos) as [? [Hq1 _]].
  set (A := Z.max 0 (- e')). specialize (Hb A ltac:(lia) ltac:(lia)).
  assert (2 ^ (Zdigits2 q - 1 + (e' + A) + 51) < 2 ^ (1075 + A)) as Hlt.
  { eapply Z.lt_le_trans; [|exact Hb].
    rewrite (Z.pow_add_r 2 _ 51), (Z.pow_add_r 2 _ (e' + A)) by lia.
    assert (0 < 2 ^ (e' + A)) by (apply Z.pow_pos_nonneg; lia).
    assert (0 < 2 ^ (Zdigits2 q - 1)) by (apply Z.pow_pos_nonneg; lia).
    apply Z.lt_le_trans with (2 ^ (Zdigits2 q - 1) * 2 ^ (e' + A) * (2 ^ 51 + 1)).
    - apply Z.mul_lt_mono_pos_l; [by apply Z.mul_pos_pos|done].
    - apply Z.mul_le_mono_nonneg_r; [done|]. apply Z.mul_le_mono_nonneg_r; lia. }
  apply Z.pow_lt_mono_r_iff in Hlt; lia.
Qed.

Lemma quotient_top_binade : e' ≤ 971 → q / 2 ^ (971 - e') + 1 < 2 ^ 53.
Proof using Hq Hb.
  intros He. set (f := q / 2 ^ (971 - e')).
  assert (0 < 2 ^ (971 - e')) by (apply Z.pow_pos_nonneg; lia).
  assert (f * 2 ^ (971 - e') ≤ q) as Hf by (rewrite Z.mul_comm; by apply Z.mul_div_le).
  set (A := Z.max 0 (- e')). specialize (Hb A ltac:(lia) ltac:(lia)).
  assert (0 < 2 ^ (e' + A)) by (apply Z.pow_pos_nonneg; lia).
  assert (f * (2 ^ 51 + 1) * 2 ^ (971 + A) ≤ 2 ^ 104 * 2 ^ (971 + A)) as Hfb.
  { rewrite <- Z.pow_add_r by lia. replace (104 + (971 + A)) with (1075 + A) by lia.
    etransitivity; [|exact Hb].
    replace (971 + A) with (971 - e' + (e' + A)) by lia. rewrite Z.pow_add_r by lia.
    replace (f * (2 ^ 51 + 1) * (2 ^ (971 - e') * 2 ^ (e' + A)))
      with (f * 2 ^ (971 - e') * 2 ^ (e' + A) * (2 ^ 51 + 1)) by ring.
    apply Z.mul_le_mono_nonneg_r; [done|]. apply Z.mul_le_mono_nonneg_r; lia. }
  apply Z.mul_le_mono_pos_r in Hfb; [|apply Z.pow_pos_nonneg; lia].
  change (2 ^ 53) with 9007199254740992.
  change (2 ^ 104) with 20282409603651670423947251286016 in Hfb.
  change (2 ^ 51) with 2251799813685248 in Hfb. lia.
Qed.
End Quotient.

Lemma count_quotient_finite sr mr er m e :
  -1074 ≤ er → Zpos mr * 2 ^ (er + 1074) ≤ 2 ^ 1105 →
  -1074 ≤ e → (2 ^ 51 + 1) * 2 ^ 30 ≤ Zpos m * 2 ^ (e + 1074) →
  isfinite (b64_div (S754_finite sr mr er) (S754_finite false m e)) = true.
Proof.
  intros He1 Hr He2 Hm. cbn [SFdiv].
  destruct (SFdiv_core_spec 53 1024 (Zpos mr) er (Zpos m) e eq_refl eq_refl)
    as (e' & l & -> & Hs & He' & Hd).
  set (s := er - e - e') in *. set (q := Zpos mr * 2 ^ s / Zpos m) in *.
  assert (0 ≤ q) as Hq.
  { apply Z.div_pos; [|done]. apply Z.mul_nonneg_nonneg; [lia|apply Z.pow_nonneg; lia]. }
  assert (e' ≤ fexp 53 1024 (Zdigits2 q + e')) as He.
  { etransitivity; [exact He'|]. unfold fexp. lia. }
  assert (∀ A, 0 ≤ A → 0 ≤ e' + A → q * 2 ^ (e' + A) * (2 ^ 51 + 1) ≤ 2 ^ (1075 + A)) as Hb.
  { apply (count_quotient_bound (Zpos mr) er (Zpos m) e q e' s); try done.
    unfold q. rewrite Z.mul_comm. by apply Z.mul_div_le. }
  clearbody q. apply (binary_round_aux_finite 53 1024); [done|done|done|].
  assert (Zdigits2 q + e' ≤ 1024).
  { destruct (decide (q = 0)) as [->|]; [|apply quotient_digits; [done|lia]].
    change (Zdigits2 0) with 0 in *. unfold fexp, emin in *. lia. }
  assert (fexp 53 1024 (Zdigits2 q + e') ≤ 971) by (unfold fexp, emin in *; lia).
  destruct (Z.eq_dec (fexp 53 1024 (Zdigits2 q + e')) 971); [right|left; lia].
  split; [done|]. apply quotient_top_binade; [done..|lia].
Qed.

(** ** Properties of the time arithmetic *)

Section TimeProperties.
Context `{P : Platform}.

Lemma ld_prec_gt_1 : 1 < ld_prec.
Proof. unfold ld_prec. by destruct ld_format. Qed.
Lemma ld_prec_lt_emax : ld_prec < ld_emax.
Proof. unfold ld_prec, ld_emax. by destruct ld_format. Qed.

Lemma ld_of_Z_0 : ld_of_Z 0 = S754_zero false.
Proof. done. Qed.

(** A bound whose conversion is finite and at most one above it. *)
Definition ld_bound (M : Z) : Prop :=
  0 ≤ M ∧ isfinite (ld_of_Z M) = true ∧
  sval ld_prec ld_emax (ld_of_Z M) ≤ (M + 1) * 2 ^ (- emin ld_prec ld_emax).

(** [INT64_MAX] converts to at most [2^63] in every format, and so does
    [LONG_MAX]. *)
Lemma ld_int64_max : ld_bound INT64_MAX.
Proof.
  unfold ld_bound, ld_prec, ld_emax. destruct ld_format; split_and!; try (vm_compute; done);
    apply Z.leb_le; vm_compute; done.
Qed.

Lemma ld_long_max : ld_bound LONG_MAX.
Proof.
  unfold ld_bound, ld_prec, ld_emax, LONG_MAX. destruct ld_format, long_64;
    split_and!; try (vm_compute; done); apply Z.leb_le; vm_compute; done.
Qed.

(** A finite, nonnegative value below the conversion of a bound truncates to at
    most the bound. *)
Lemma fl_trunc_below M t :
  ld_bound M → valid_binary ld_prec ld_emax t = true → isfinite t = true →
  SFltb t (ld_of_Z 0) = false → SFleb (ld_of_Z M) t = false →
  0 ≤ fl_trunc t ≤ M.
Proof.
  intros (HM & Hmf & Hms) Hv Hf Hpos Hlt.
  destruct t as [s|s| |s m e]; try done.
  destruct s; [done|].
  pose proof ld_prec_gt_1 as Hp. pose proof ld_prec_lt_emax as He.
  unfold SFleb in Hlt. rewrite (SFcompare_sval ld_prec ld_emax) in Hlt by (done || by apply fl_of_Z_valid).
  assert (sval ld_prec ld_emax (S754_finite false m e) < sval ld_prec ld_emax (ld_of_Z M)) as Hs
    by (destruct (Z.compare_spec (sval ld_prec ld_emax (ld_of_Z M))
          (sval ld_prec ld_emax (S754_finite false m e))); done || lia).
  rewrite (fl_trunc_floor ld_prec ld_emax) by done.
  pose proof (sval_finite_pos ld_prec ld_emax _ _ _ Hv) as H0.
  assert (emin ld_prec ld_emax < 0) by (unfold emin; lia).
  assert (0 < 2 ^ (- emin ld_prec ld_emax)) by (apply Z.pow_pos_nonneg; lia).
  split; [apply Z.div_pos; [cbn; lia|done]|].
  apply Z.lt_succ_r, Z.div_lt_upper_bound; [done|].
  rewrite <- Z.add_1_r, Z.mul_comm. lia.
Qed.

(** A conversion within the range is defined, and truncates. *)
Lemma cast_integer_below M t :
  0 ≤ M → ld_bound M → valid_binary ld_prec ld_emax t = true → isfinite t = true →
  SFltb t (ld_of_Z 0) = false → SFleb (ld_of_Z M) t = false →
  cast_integer M t = fl_trunc t ∧ 0 ≤ fl_trunc t ≤ M.
Proof.
  intros HM Hb Hv Hf Hpos Hlt. pose proof (fl_trunc_below M t Hb Hv Hf Hpos Hlt) as [H1 H2].
  unfold cast_integer. rewrite Hf.
  destruct (Z.leb_spec (- M - 1) (fl_trunc t)), (Z.leb_spec (fl_trunc t) M); (done || lia).
Qed.

(** The nanoseconds of a duration, as a [long double]. *)
Definition nanosecond_ticks (d : double) : spec_float :=
  ld_div (ld_mul (ld_of_double d) (ld_of_Z 1000000000)) (ld_of_Z 1).

Lemma checked_duration_cases d :
  match checked_duration d with
  | Ok t =>
      isfinite (nanosecond_ticks d) = true ∧ SFltb (nanosecond_ticks d) (ld_of_Z 0) = false ∧
      SFleb (ld_of_Z (2 ^ 63 - 1)) (nanosecond_ticks d) = false ∧
      t = fl_trunc (nanosecond_ticks d) ∧ 0 ≤ t ≤ 2 ^ 63 - 1
  | Throw e =>
      e = InvalidArgument "duration is outside the supported steady-clock range" ∧
      (isfinite (nanosecond_ticks d) = false ∨ SFltb (nanosecond_ticks d) (ld_of_Z 0) = true ∨
       SFleb (ld_of_Z (2 ^ 63 - 1)) (nanosecond_ticks d) = true)
  end.
Proof.
  unfold checked_duration. cbv zeta. change (ld_div _ _) with (nanosecond_ticks d).
  change (2 ^ 63 - 1) with INT64_MAX. pose proof ld_prec_gt_1. pose proof ld_prec_lt_emax.
  assert (valid_binary ld_prec ld_emax (nanosecond_ticks d) = true) as Hv.
  { apply SFdiv_valid; [done..| |by apply fl_of_Z_valid].
    apply SFmul_valid; [done..| |by apply fl_of_Z_valid]. by apply fl_convert_valid. }
  destruct (isfinite (nanosecond_ticks d)) eqn:Hf; cbn [negb orb]; [|by auto].
  destruct (SFltb (nanosecond_ticks d) (ld_of_Z 0)) eqn:Hn; cbn [orb]; [by auto|].
  destruct (SFleb (ld_of_Z INT64_MAX) (nanosecond_ticks d)) eqn:Hm; [by auto|].
  destruct (cast_integer_below INT64_MAX (nanosecond_ticks d)) as [-> ?]; [done|apply ld_int64_max|done..].
Qed.

Lemma checked_duration_ok d t :
  checked_duration d = Ok t → 0 ≤ t ≤ INT64_MAX.
Proof. intros H. pose proof (checked_duration_cases d) as Hc. rewrite H in Hc. apply Hc. Qed.

(** C40: a checked deadline never overflows, in no step of its computation: on every
    platform, whatever the [double] (NaN, infinities and negative values included) and
    whatever an out-of-range conversion would give there, [checked_duration] converts
    the [long double] nanoseconds to a 64-bit integer exactly if they are finite, not
    negative and below [2^63 - 1], and then to their truncation, which the type holds;
    it throws [invalid_argument] otherwise.  [checked_deadline] adds it to the origin
    exactly if the sum is a 64-bit time point, and throws otherwise. *)
Theorem checked_deadline_bounds origin d :
  match checked_duration d with
  | Ok t =>
      isfinite (nanosecond_ticks d) = true ∧ SFltb (nanosecond_ticks d) (ld_of_Z 0) = false ∧
      SFleb (ld_of_Z (2 ^ 63 - 1)) (nanosecond_ticks d) = false ∧
      t = fl_trunc (nanosecond_ticks d) ∧ 0 ≤ t ≤ 2 ^ 63 - 1
  | Throw e =>
      e = InvalidArgument "duration is outside the supported steady-clock range" ∧
      (isfinite (nanosecond_ticks d) = false ∨ SFltb (nanosecond_ticks d) (ld_of_Z 0) = true ∨
       SFleb (ld_of_Z (2 ^ 63 - 1)) (nanosecond_ticks d) = true)
  end ∧
  match checked_deadline origin d with
  | Ok t => origin ≤ t ≤ 2 ^ 63 - 1 ∧ checked_duration d = Ok (t - origin)
  | Throw e =>
      checked_duration d = Throw e ∨
      e = InvalidArgument "deadline is outside the supported steady-clock range" ∧
      ∃ ticks, checked_duration d = Ok ticks ∧ 2 ^ 63 - 1 < origin + ticks
  end.
Proof.
  split; [apply checked_duration_cases|].
  unfold checked_deadline. destruct (checked_duration d) as [ticks|e] eqn:Hd; cbn; [|by left].
  pose proof (checked_duration_ok _ _ Hd). unfold INT64_MAX in *.
  destruct (Z.ltb_spec (2 ^ 63 - 1 - ticks) origin).
  - right. split; [done|]. exists ticks. split; [done|lia].
  - split; [lia|]. do 2 f_equal. lia.
Qed.
End TimeProperties.

(** ** Properties of the validation *)

Lemma validate_calibration_ok c :
  validate_calibration c = Ok () →
  require_safe_count "counts_per_force_unit" (counts_per_force_unit c) = Ok () ∧
  require_safe_count "counts_per_torque_unit" (counts_per_torque_unit c) = Ok () ∧
  cal_force_unit c ≠ ForceUnknown ∧ cal_torque_unit c ≠ TorqueUnknown.
Proof. unfold validate_calibration. intros H. inv_ok. by destruct x, x0. Qed.

Lemma safe_count_quotient name v raw :
  valid64 v = true → require_safe_count name v = Ok () → is_i32 raw →
  isfinite (b64_div (b64_of_Z raw) v) = true.
Proof.
  intros Hv Hc Hr. destruct (safe_count_sval _ _ _ Hv Hc) as (m & e & -> & Hm).
  destruct (decide (raw = 0)) as [->|Hz]; [done|].
  destruct (b64_of_count raw Hr Hz) as (s & mr & er & -> & He & Hmr).
  apply count_quotient_finite; try done.
  apply (valid_finite_spec 53 1024) in Hv as (_ & Hv & _).
  change (emin 53 1024) with (-1074) in Hv. lia.
Qed.

(** A validated calibration scales every raw count: for each 32-bit count
    the sensor can send, the quotient by the validated counts per unit is a
    finite [double]. *)
Theorem validated_calibration_scales c raw :
  valid64 (counts_per_force_unit c) = true → valid64 (counts_per_torque_unit c) = true →
  validate_calibration c = Ok () → is_i32 raw →
  isfinite (b64_div (b64_of_Z raw) (counts_per_force_unit c)) = true ∧
  isfinite (b64_div (b64_of_Z raw) (counts_per_torque_unit c)) = true.
Proof.
  intros Hf Ht (Hcf & Hct & _)%validate_calibration_ok Hr.
  split; by eapply safe_count_quotient.
Qed.

Definition axia_calibration : Calibration :=
  mkCalibration (b64_of_Z 1000000) (b64_of_Z 1000000) Newton NewtonMeter.

Lemma validated_calibration_scales_witness :
  validate_calibration axia_calibration = Ok () ∧
  isfinite (b64_div (b64_of_Z (- 2 ^ 31)) (b64_of_Z 1000000)) = true.
Proof.
  split; [vm_compute; reflexivity|].
  apply (validated_calibration_scales axia_calibration (- 2 ^ 31)); vm_compute;
    first [reflexivity | split; [discriminate | reflexivity]].
Defined.

(** What [require_safe_timeout] establishes of a duration. *)
Definition safe_timeout `{Platform} (v : double) : Prop :=
  (∃ m e, v = S754_finite false m e) ∧
  ∃ ticks, checked_duration v = Ok ticks ∧ 1 ≤ ticks ≤ INT64_MAX.

Lemma require_safe_timeout_ok `{Platform} now name v http u :
  require_safe_timeout now name v http = Ok u → safe_timeout v.
Proof.
  unfold require_safe_timeout. intros Hr. inv_ok. split; [by eapply positive_finite|].
  match goal with
  | Hd : checked_duration v = Ok ?t |- _ =>
      exists t; pose proof (checked_duration_ok _ _ Hd); split; [done|]
  end. lia.
Qed.

Lemma require_port_ok name v u : require_port name v = Ok u → 1 ≤ v ≤ 65535.
Proof. unfold require_port. intros H. inv_ok. lia. Qed.

(** A validated configuration is safe to run with: the host is not blank,
    both ports are valid, every timeout is a positive finite duration of at
    least one and at most [INT64_MAX] clock ticks, the backoff range is not
    empty, the rate limit is finite and not negative, and an override is a
    validated calibration. *)
Theorem validated_config_safe `{Platform} clock c :
  validate_config clock c = Ok () →
  is_blank (sensor_host c) = false ∧
  1 ≤ rdt_port c ≤ 65535 ∧ 1 ≤ http_port c ≤ 65535 ∧
  Forall safe_timeout [receive_timeout c; configuration_connect_timeout c;
    configuration_timeout c; reconnect_initial_delay c; reconnect_max_delay c] ∧
  SFleb (reconnect_initial_delay c) (reconnect_max_delay c) = true ∧
  isfinite (sample_rate_limit_hz c) = true ∧ SFleb d0 (sample_rate_limit_hz c) = true ∧
  ∀ o, calibration_override c = Some o → validate_calibration o = Ok ().
Proof.
  unfold validate_config. intros Hv. inv_ok.
  repeat match goal with
  | Hp : require_port _ _ = Ok _ |- _ => apply require_port_ok in Hp
  | Ht : require_safe_timeout _ _ _ _ = Ok _ |- _ => apply require_safe_timeout_ok in Ht
  end.
  split_and!; try done; try lia.
  - by repeat (apply Forall_cons_2; [done|]).
  - apply SFltb_false_leb; [..|done];
      match goal with Ht : safe_timeout ?v |- is_nan ?v = false =>
        by destruct Ht as [(? & ? & ->) _] end.
  - apply SFltb_false_leb; [|done|done]. by destruct (sample_rate_limit_hz c).
  - intros o Ho. by rewrite Ho in *.
Qed.

(** The backoff range of a validated configuration. *)
Lemma validate_config_ranges `{Platform} clock c :
  validate_config clock c = Ok () →
  (∃ m e, reconnect_initial_delay c = S754_finite false m e) ∧
  (∃ m e, reconnect_max_delay c = S754_finite false m e) ∧
  SFleb (reconnect_initial_delay c) (reconnect_max_delay c) = true.
Proof.
  unfold validate_config. intros Hv. inv_ok.
  repeat match goal with
  | Ht : require_safe_timeout _ _ _ _ = Ok _ |- _ => apply require_safe_timeout_ok in Ht as [Ht _]
  end.
  split_and!; try done.
  apply SFltb_false_leb; [..|done];
    match goal with Ht : ∃ _ _, ?v = _ |- is_nan ?v = false => by destruct Ht as (? & ? & ->) end.
Qed.

Lemma validated_config_safe_witness :
  isfinite (sample_rate_limit_hz default_config) = true.
Proof.
  apply (validated_config_safe (H := linux_x86_64) (λ _, 1000000) default_config).
  vm_compute. reflexivity.
Defined.

(** Unit names round-trip, and no other string names a unit: parsing is the
    inverse of printing on both sides. *)
Theorem unit_names_roundtrip :
  (∀ u, force_unit_from_string (force_unit_to_string u) = Some u) ∧
  (∀ u, torque_unit_from_string (torque_unit_to_string u) = Some u) ∧
  (∀ s u, force_unit_from_string s = Some u → s = force_unit_to_string u) ∧
  (∀ s u, torque_unit_from_string s = Some u → s = torque_unit_to_string u).
Proof.
  split_and!; [by intros []|by intros []| |]; intros s u.
  - unfold force_unit_from_string. destruct (list_find _ force_units) as [[i v]|] eqn:Hl; [|done].
    intros [= <-]. by apply list_find_Some in Hl as (_ & <- & _).
  - unfold torque_unit_from_string. destruct (list_find _ torque_units) as [[i v]|] eqn:Hl; [|done].
    intros [= <-]. by apply list_find_Some in Hl as (_ & <- & _).
Qed.
