(* ===== verification/Text.v ===== *)
(** * Text

    Characters, searching and the number syntax of the C++ library the sources
    use: [std::string_view::find], trimming, formatted input of a [double] from a
    stream in the classic locale (as libstdc++ parses it), [std::stod] and
    [std::stol] (as glibc parses them).  Text is the list of its characters. *)

From S2P Require Import Prelude Floating Types.
From Stdlib Require Import Ascii.

Abbreviation chars := (list ascii).
Definition to_chars (s : string) : chars := String.list_ascii_of_string s.
Definition of_chars (l : chars) : string := String.string_of_list_ascii l.

Lemma of_to_chars s : of_chars (to_chars s) = s.
Proof. apply String.string_of_list_ascii_of_string. Qed.
Lemma to_of_chars l : to_chars (of_chars l) = l.
Proof. apply String.list_ascii_of_string_of_list_ascii. Qed.

Lemma of_chars_length l : String.length (of_chars l) = length l.
Proof. induction l as [|c l IH]; [done|]. cbn. by f_equal. Qed.
Lemma to_chars_app s t : to_chars (s +:+ t) = to_chars s ++ to_chars t.
Proof.
  induction s as [|c s IH]; [done|].
  change (c :: to_chars (s +:+ t) = c :: (to_chars s ++ to_chars t)). by rewrite IH.
Qed.

Definition code (c : ascii) : N := N_of_ascii c.

(** One of [" \t\n\r\f\v"]. *)
Definition is_ascii_whitespace (c : ascii) : bool :=
  let n := code c in ((n =? 32) || (n =? 9) || (n =? 10) || (n =? 13) || (n =? 12) || (n =? 11))%N.

Fixpoint drop_whitespace (l : chars) : chars :=
  match l with
  | c :: l' => if is_ascii_whitespace c then drop_whitespace l' else l
  | [] => []
  end.

(** The prefix loop, then the suffix loop. *)
Definition trim_ascii_whitespace (l : chars) : chars :=
  rev (drop_whitespace (rev (drop_whitespace l))).

(** [find_first_not_of(" \t\n\r\f\v") == npos]. *)
Definition is_ascii_blank (l : chars) : bool := forallb is_ascii_whitespace l.

Fixpoint has_prefix (p l : chars) : bool :=
  match p, l with
  | [], _ => true
  | a :: p, b :: l => Ascii.eqb a b && has_prefix p l
  | _ :: _, [] => false
  end.

(** [find]: what comes before the first occurrence, and the text from it on. *)
Fixpoint split_find (p l : chars) : option (chars * chars) :=
  if has_prefix p l then Some ([], l)
  else match l with
  | [] => None
  | c :: l => match split_find p l with Some (a, b) => Some (c :: a, b) | None => None end
  end.

(** ** Number syntax *)

Definition digit_value (base : Z) (c : ascii) : option Z :=
  let n := Z.of_N (code c) in
  let v := if (48 <=? n) && (n <=? 57) then n - 48
           else if (97 <=? n) && (n <=? 102) then n - 87
           else if (65 <=? n) && (n <=? 70) then n - 55
           else base in
  if v <? base then Some v else None.

(** The longest run of digits: its value on top of [acc], its length, the rest. *)
Fixpoint scan_digits (base acc : Z) (count : nat) (l : chars) : Z * nat * chars :=
  match l with
  | c :: l' =>
      match digit_value base c with
      | Some v => scan_digits base (acc * base + v) (S count) l'
      | None => (acc, count, l)
      end
  | [] => (acc, count, [])
  end.

Definition is_char (s : string) (c : ascii) : bool :=
  existsb (Ascii.eqb c) (to_chars s).

Definition scan_sign (l : chars) : bool * chars :=
  match l with
  | c :: l' => if is_char "-" c then (true, l') else if is_char "+" c then (false, l') else (false, l)
  | [] => (false, [])
  end.

(** Mantissa digits with an optional point: the digits as an integer, how many
    follow the point, and the rest; [None] without any digit. *)
Definition scan_mantissa (base : Z) (l : chars) : option (Z * nat * chars) :=
  let '(whole, n, rest) := scan_digits base 0 0 l in
  match rest with
  | c :: rest' =>
      if is_char "." c then
        let '(m, k, rest'') := scan_digits base whole 0 rest' in
        if (n + k =? 0)%nat then None else Some (m, k, rest'')
      else if (n =? 0)%nat then None else Some (whole, 0%nat, rest)
  | [] => if (n =? 0)%nat then None else Some (whole, 0%nat, [])
  end.

(** The end of the literal: nothing, or a marker, an optional sign and digits. *)
Definition scan_exponent (marker : string) (l : chars) : option Z :=
  match l with
  | [] => Some 0
  | c :: l' =>
      if is_char marker c then
        let '(negative, l'') := scan_sign l' in
        let '(v, n, rest) := scan_digits 10 0 0 l'' in
        if (n =? 0)%nat || negb (bool_decide (rest = [])) then None
        else Some (if negative then - v else v)
      else None
  end.

(** The quotient [n / d] rounded once, zero included. *)
Definition round_quotient (n d : Z) : double :=
  match n, d with Zpos n, Zpos d => b64_ratio n d | _, _ => d0 end.

Definition with_sign (s : bool) (x : double) : double := if s then SFopp x else x.

(** An unsigned decimal literal that spans the whole text, as a quotient. *)
Definition decimal_quotient (l : chars) : option (Z * Z) :=
  match scan_mantissa 10 l with
  | Some (m, k, rest) =>
      match scan_exponent "eE" rest with
      | Some e =>
          let x := e - Z.of_nat k in
          Some (m * 10 ^ Z.max x 0, 10 ^ Z.max (- x) 0)
      | None => None
      end
  | None => None
  end.

(** A hexadecimal one, after [0x]. *)
Definition hex_quotient (l : chars) : option (Z * Z) :=
  match scan_mantissa 16 l with
  | Some (m, k, rest) =>
      match scan_exponent "pP" rest with
      | Some e =>
          let x := e - 4 * Z.of_nat k in
          Some (m * 2 ^ Z.max x 0, 2 ^ Z.max (- x) 0)
      | None => None
      end
  | None => None
  end.

(** [input >> std::noskipws >> result] on a whole text, followed by the end of
    the stream; [None] is a failed stream or unread input. *)
Definition stream_double (l : chars) : option double :=
  let '(s, l) := scan_sign l in
  match decimal_quotient l with
  | Some (n, d) =>
      let r := round_quotient n d in if isfinite r then Some (with_sign s r) else None
  | None => None
  end.

(** The smallest normal double. *)
Definition DBL_MIN : double := S754_finite false (2 ^ 52) (-1074).

(** [std::stod] of a text it consumes entirely and whose value is finite: leading
    whitespace and a sign, then a decimal or hexadecimal literal; a result out
    of range (infinite, or below the normal range and inexact) throws. *)
Definition stod_all (l : chars) : option double :=
  let '(s, l) := scan_sign (drop_whitespace l) in
  let quotient :=
    match l with
    | a :: b :: l' => if is_char "0" a && is_char "xX" b then hex_quotient l' else decimal_quotient l
    | _ => decimal_quotient l
    end in
  match quotient with
  | Some (n, d) =>
      let r := round_quotient n d in
      let exact := match r with
                   | S754_finite _ m e => Zpos m * 2 ^ Z.max e 0 * d =? n * 2 ^ Z.max (- e) 0
                   | _ => n =? 0
                   end in
      if isfinite r && (exact || negb (SFltb r DBL_MIN)) then Some (with_sign s r) else None
  | None => None
  end.

(** [std::stol(text, &consumed, 10)] of a text it consumes entirely. *)
Definition stol_all `{Platform} (l : chars) : option Z :=
  let '(s, l) := scan_sign (drop_whitespace l) in
  let '(v, n, rest) := scan_digits 10 0 0 l in
  let v := if s then - v else v in
  if (n =? 0)%nat || negb (bool_decide (rest = [])) || (v <? - LONG_MAX - 1) || (LONG_MAX <? v)
  then None else Some v.

Example stream_double_ex : stream_double (to_chars "1000000") = Some (b64_of_Z 1000000).
Proof. vm_compute. reflexivity. Qed.
Example stream_double_exp : stream_double (to_chars "2.5e-1") = Some (b64_ratio 1 4).
Proof. vm_compute. reflexivity. Qed.
Example stream_double_hex : stream_double (to_chars "0x10") = None.
Proof. vm_compute. reflexivity. Qed.
Example stod_hex : stod_all (to_chars " -0x1.8p1") = Some (b64_of_Z (-3)).
Proof. vm_compute. reflexivity. Qed.
Example stod_rest : stod_all (to_chars "1.0 ") = None.
Proof. vm_compute. reflexivity. Qed.
Example stod_tiny : stod_all (to_chars "1e-310") = None.
Proof. vm_compute. reflexivity. Qed.

(** ** Lemmas *)

Lemma round_quotient_valid n d : valid64 (round_quotient n d) = true.
Proof. destruct n, d; try done. by apply (fl_ratio_valid 53 1024). Qed.

Lemma with_sign_valid s x : valid64 x = true → valid64 (with_sign s x) = true.
Proof. by destruct s, x. Qed.

Lemma stream_double_valid l x : stream_double l = Some x → valid64 x = true ∧ isfinite x = true.
Proof.
  unfold stream_double. destruct (scan_sign l) as [s l']. destruct (decimal_quotient l') as [[n d]|]; [|done].
  destruct (isfinite (round_quotient n d)) eqn:Hf; [|done]. intros [= <-]. split.
  - apply with_sign_valid, round_quotient_valid.
  - by destruct s, (round_quotient n d).
Qed.

Lemma stod_all_valid l x : stod_all l = Some x → valid64 x = true ∧ isfinite x = true.
Proof.
  unfold stod_all. destruct (scan_sign _) as [s l'].
  match goal with |- context [match ?q with Some _ => _ | None => _ end = Some x] =>
    destruct q as [[n d]|]; [|done] end.
  case_split; [|done]. apply andb_prop in Heqb as [Hf _]. intros [= <-]. split.
  - apply with_sign_valid, round_quotient_valid.
  - by destruct s, (round_quotient n d).
Qed.

(** Searching a single character. *)
Lemma split_find_absent (c : ascii) (a l : chars) :
  c ∉ a → split_find [c] (a ++ c :: l) = Some (a, c :: l).
Proof.
  induction a as [|x a IH]; cbn [app split_find has_prefix]; intros Hc.
  - by rewrite Ascii.eqb_refl.
  - apply not_elem_of_cons in Hc as [Hx Ha].
    destruct (Ascii.eqb_spec c x) as [->|]; [done|]. cbn [andb].
    by rewrite IH.
Qed.

Lemma split_find_none (c : ascii) (l : chars) : c ∉ l → split_find [c] l = None.
Proof.
  induction l as [|x l IH]; cbn [split_find has_prefix]; intros Hc; [done|].
  apply not_elem_of_cons in Hc as [Hx Ha].
  destruct (Ascii.eqb_spec c x) as [->|]; [done|]. cbn [andb]. by rewrite IH.
Qed.

Lemma split_find_app p l a b : split_find p l = Some (a, b) → l = a ++ b ∧ has_prefix p b = true.
Proof.
  revert a b. induction l as [|x l IH]; intros a b; cbn [split_find]; case_split; try done.
  - by intros [= <- <-].
  - by intros [= <- <-].
  - destruct (split_find p l) as [[a' b']|]; [|done]. intros [= <- <-].
    by destruct (IH a' b' eq_refl) as [-> ?].
Qed.

Lemma drop_whitespace_clean l c : is_ascii_whitespace c = false → drop_whitespace (c :: l) = c :: l.
Proof. intros H. cbn [drop_whitespace]. by rewrite H. Qed.

(** A text that starts and ends without whitespace is its own trimming. *)
Definition trimmed (l : chars) : Prop := trim_ascii_whitespace l = l.

Lemma drop_whitespace_idem l : drop_whitespace (drop_whitespace l) = drop_whitespace l.
Proof.
  induction l as [|c l IH]; [done|]. cbn [drop_whitespace]. destruct (is_ascii_whitespace c) eqn:E; [done|].
  cbn [drop_whitespace]. by rewrite E.
Qed.

Lemma drop_whitespace_suffix l : ∃ w, l = w ++ drop_whitespace l ∧ forallb is_ascii_whitespace w = true.
Proof.
  induction l as [|c l (w & Hw & Hb)]; [by exists []|]. cbn [drop_whitespace].
  destruct (is_ascii_whitespace c) eqn:E.
  - exists (c :: w). cbn [app forallb]. by rewrite E, <- Hw.
  - by exists [].
Qed.

Lemma drop_whitespace_head l c l' : drop_whitespace l = c :: l' → is_ascii_whitespace c = false.
Proof.
  induction l as [|x l IH]; [done|]. cbn [drop_whitespace]. destruct (is_ascii_whitespace x) eqn:E; [done|].
  by intros [= <- _].
Qed.

Lemma drop_whitespace_app l m :
  drop_whitespace l ≠ [] → drop_whitespace (l ++ m) = drop_whitespace l ++ m.
Proof.
  induction l as [|x l IH]; [done|]. cbn [app drop_whitespace]. by destruct (is_ascii_whitespace x).
Qed.

Lemma trim_trimmed l : trimmed (trim_ascii_whitespace l).
Proof.
  unfold trimmed, trim_ascii_whitespace. set (d := drop_whitespace l).
  assert (drop_whitespace (rev (drop_whitespace (rev d))) = rev (drop_whitespace (rev d))) as ->.
  { destruct (drop_whitespace_suffix (rev d)) as (w & Hw & _).
    apply (f_equal (@rev ascii)) in Hw. rewrite rev_involutive, rev_app_distr in Hw.
    destruct (rev (drop_whitespace (rev d))) as [|c r] eqn:E; [done|].
    apply drop_whitespace_clean. apply (drop_whitespace_head l c (r ++ rev w)).
    fold d. by rewrite Hw. }
  by rewrite rev_involutive, drop_whitespace_idem.
Qed.

Lemma trim_length l : (length (trim_ascii_whitespace l) ≤ length l)%nat.
Proof.
  unfold trim_ascii_whitespace. rewrite length_rev.
  destruct (drop_whitespace_suffix (rev (drop_whitespace l))) as (w & Hw & _).
  destruct (drop_whitespace_suffix l) as (v & Hv & _).
  apply (f_equal length) in Hw, Hv. rewrite length_app in *. rewrite length_rev in Hw. lia.
Qed.

(** Searching in a longer text. *)
Lemma has_prefix_app p l m : (length p ≤ length l)%nat → has_prefix p (l ++ m) = has_prefix p l.
Proof.
  revert l. induction p as [|a p IH]; intros [|b l] H; cbn [length app has_prefix] in *; try done; [lia|].
  rewrite IH; [done|lia].
Qed.

Lemma has_prefix_length p l : has_prefix p l = true → (length p ≤ length l)%nat.
Proof.
  revert l. induction p as [|a p IH]; intros [|b l] H; cbn [length has_prefix] in *; try done; [lia|].
  apply andb_prop in H as [_ H%IH]. lia.
Qed.

Lemma split_find_extend p l m a b : split_find p l = Some (a, b) → split_find p (l ++ m) = Some (a, b ++ m).
Proof.
  revert a b. induction l as [|c l IH]; intros a b H.
  { cbn [split_find] in H. destruct p; [|done]. cbn in H. simplify_eq. by destruct m. }
  assert (length p ≤ length (c :: l))%nat as Hp.
  { pose proof (split_find_app _ _ _ _ H) as [-> Hb%has_prefix_length]. rewrite length_app. lia. }
  pose proof (has_prefix_app p (c :: l) m Hp) as Hpre. cbn [app split_find] in *. rewrite Hpre.
  case_split_in H; [by simplify_eq|].
  destruct (split_find p l) as [[a' b']|]; [|done]. injection H as <- <-. by rewrite (IH a' b' eq_refl).
Qed.

Lemma drop_whitespace_blank w l :
  forallb is_ascii_whitespace w = true → drop_whitespace (w ++ l) = drop_whitespace l.
Proof.
  induction w as [|c w IH]; [done|]. cbn [forallb app drop_whitespace]. intros [-> H]%andb_prop. auto.
Qed.

(** Trimming removes blanks and stops at the first and last other character. *)
Lemma trim_blank_r l w :
  forallb is_ascii_whitespace w = true → trim_ascii_whitespace (l ++ w) = trim_ascii_whitespace l.
Proof.
  intros Hw. unfold trim_ascii_whitespace.
  assert (∀ w, forallb is_ascii_whitespace w = true → forallb is_ascii_whitespace (rev w) = true) as Hrev.
  { intros v. rewrite !forallb_forall. intros Hv x Hx. apply Hv. by apply in_rev. }
  destruct (decide (drop_whitespace l = [])) as [He|Hne].
  - destruct (drop_whitespace_suffix l) as (v & Hv & Hb). rewrite He, app_nil_r in Hv. subst v.
    rewrite drop_whitespace_blank, He by done. cbn.
    rewrite <- (app_nil_r (drop_whitespace w)).
    destruct (drop_whitespace_suffix w) as (v & Hv & _).
    assert (drop_whitespace w = []) as ->; [|done].
    pose proof (drop_whitespace_blank w [] Hw) as Hn. by rewrite app_nil_r in Hn.
  - rewrite drop_whitespace_app, rev_app_distr, drop_whitespace_blank by auto. done.
Qed.

Lemma trim_clean c l d :
  is_ascii_whitespace c = false → last (c :: l) = Some d → is_ascii_whitespace d = false →
  trim_ascii_whitespace (c :: l) = c :: l.
Proof.
  intros Hc Hl Hd. unfold trim_ascii_whitespace. rewrite drop_whitespace_clean by done.
  apply last_Some in Hl as [l' ->]. rewrite rev_app_distr. cbn [rev app].
  rewrite drop_whitespace_clean by done. rewrite <- (rev_involutive (l' ++ [d])) at 1.
  by rewrite rev_app_distr.
Qed.
