(* ===== verification/XmlConfig.v ===== *)
(** * The configuration document of the sensor

    [detail/xml_config.cpp]: the scanner that extracts the five required fields
    from the document of the sensor and the interpretation of the fields.

    A [std::string_view] into the document together with a position is the text
    from that position on, so [xml.find(s, p)] is [split_find] on the remaining
    text.  The main loop recurses on fuel, the length of the document; every
    iteration consumes at least one character ([extract_step_shrinks]).

    Besides the results of a successful parse, the file gives the scanner a
    reference semantics on document trees ([walk]) and proves that it computes
    it, errors included. *)

From S2P Require Import Prelude Floating Types Text.
From Stdlib Require Import Ascii.

Definition kMaximumFieldLength : nat := 128.
Definition kRequiredTags : list string := ["prodname"; "cfgcpf"; "cfgcpt"; "scfgfu"; "scfgtu"].

Definition discovery_error {A} (s : string) : result A := Throw (DiscoveryError s).

(** [None] is [-1]. *)
Definition required_tag_index (name : chars) : option nat :=
  fst <$> list_find (λ t, name = to_chars t) kRequiredTags.

(** The character that ends a tag, outside quotes: the text before it and after
    it. *)
Fixpoint find_tag_end (quote : option ascii) (l : chars) : result (chars * chars) :=
  match l with
  | [] => discovery_error "sensor configuration contains unterminated markup"
  | c :: l =>
      let continue q := r ← find_tag_end q l; Ok (c :: fst r, snd r) in
      match quote with
      | Some q => continue (if Ascii.eqb c q then None else Some q)
      | None =>
          if (code c =? 39)%N || (code c =? 34)%N then continue (Some c)
          else if is_char ">" c then Ok ([], l)
          else continue None
      end
  end.

Record OpenElement := mkOpenElement { element_name : chars; required_index : option nat }.

(** The state of the loop: [elements] with the innermost first, the texts of the
    five fields and which of them were opened. *)
Record Scan := mkScan { elements : list OpenElement; fields : list chars; seen : list bool }.

#[export] Instance eta_Scan : Eta Scan := λ s, mkScan (elements s) (fields s) (seen s).

Definition scan_init : Scan := mkScan [] (replicate 5 []) (replicate 5 false).

(** [required_index] of [elements.back()]. *)
Definition enclosing (es : list OpenElement) : option nat :=
  match es with e :: _ => required_index e | [] => None end.

Definition append_required_text (es : list OpenElement) (fs : list chars) (text : chars) : list chars :=
  match enclosing es with Some i => alter (λ f, f ++ text) i fs | None => fs end.

(** [name.find_first_of(" \t\r\n\f\v")]: the name is what precedes it. *)
Fixpoint tag_name (l : chars) : chars :=
  match l with
  | c :: l => if is_ascii_whitespace c then [] else c :: tag_name l
  | [] => []
  end.

Definition is_slash (c : ascii) : bool := is_char "/" c.

Definition starts_with_slash (l : chars) : bool := match l with c :: _ => is_slash c | [] => false end.

Definition nesting_error {A} : result A :=
  discovery_error "sensor configuration contains malformed element nesting".
Definition markup_error {A} : result A :=
  discovery_error "sensor configuration contains malformed markup".
Definition once_error {A} (index : nat) : result A :=
  discovery_error ("sensor configuration field '" +:+ default "" (kRequiredTags !! index) +:+
                   "' must appear exactly once").

(** [</name>], the tag with its slash removed. *)
Definition close_tag (s : Scan) (body : chars) : result Scan :=
  let name := trim_ascii_whitespace body in
  if bool_decide (name = []) || existsb (λ c, is_ascii_whitespace c || is_slash c) name then nesting_error
  else match elements s with
  | e :: es => if bool_decide (element_name e = name) then Ok (s <| elements := es |>) else nesting_error
  | [] => nesting_error
  end.

(** [seen[index] = true], unless the field was seen. *)
Definition mark_seen (s : Scan) (index : option nat) : result Scan :=
  match index with
  | Some i =>
      match seen s !! i with
      | Some true => once_error i
      | _ => Ok (s <| seen ::= <[i := true]> |>)
      end
  | None => Ok s
  end.

(** [<name ...>] and [<name .../>]. *)
Definition open_tag (s : Scan) (tag : chars) : result Scan :=
  let self_closing := match last tag with Some c => is_slash c | None => false end in
  let tag := if self_closing then trim_ascii_whitespace (removelast tag) else tag in
  let name := tag_name tag in
  if bool_decide (name = []) || starts_with_slash name then markup_error
  else
    let index := required_tag_index name in
    if bool_decide (enclosing (elements s) ≠ None) then
      discovery_error "sensor configuration fields must contain text only"
    else
      s ← mark_seen s index;
      Ok (if self_closing then s else s <| elements ::= cons (mkOpenElement name index) |>).

Definition push_text (s : Scan) (text : chars) : Scan :=
  s <| fields := append_required_text (elements s) (fields s) text |>.

(** Text skipped up to and including [p], of a construct that opens with [n]
    characters. *)
Definition skip_past (n : nat) (p : string) (m : chars) (message : string) : result (chars * chars) :=
  match split_find (to_chars p) (drop n m) with
  | Some (a, b) => Ok (a, drop (String.length p) b)
  | None => discovery_error message
  end.

(** One construct that starts with ['<']; [m] is the text from it on. *)
Definition scan_markup (s : Scan) (m : chars) : result (Scan * chars) :=
  if has_prefix (to_chars "<!--") m then
    r ← skip_past 4 "-->" m "sensor configuration contains an unterminated comment"; Ok (s, snd r)
  else if has_prefix (to_chars "<![CDATA[") m then
    r ← skip_past 9 "]]>" m "sensor configuration contains unterminated CDATA";
    Ok (push_text s (fst r), snd r)
  else if has_prefix (to_chars "<?") m then
    r ← skip_past 2 "?>" m "sensor configuration contains unterminated markup"; Ok (s, snd r)
  else if has_prefix (to_chars "<!") m then
    discovery_error "sensor configuration contains unsupported markup"
  else
    r ← find_tag_end None (drop 1 m);
    match trim_ascii_whitespace (fst r) with
    | [] => markup_error
    | c :: body =>
        s ← (if is_slash c then close_tag s body else open_tag s (c :: body));
        Ok (s, snd r)
    end.

(** An iteration of the loop on the non-empty rest [l]. *)
Definition extract_step (s : Scan) (l : chars) : result (Scan * chars) :=
  match split_find (to_chars "<") l with
  | None => Ok (push_text s l, [])
  | Some (text, markup) => scan_markup (push_text s text) markup
  end.

Fixpoint extract_loop (fuel : nat) (s : Scan) (l : chars) : result Scan :=
  match l with
  | [] => Ok s
  | _ =>
      match fuel with
      | O => Throw (LogicError "out of fuel")
      | S fuel => r ← extract_step s l; extract_loop fuel (fst r) (snd r)
      end
  end.

(** The checks after the loop, for the field [index]. *)
Definition finish_field (s : Scan) (index : nat) : result chars :=
  let tag := default "" (kRequiredTags !! index) in
  if negb (default false (seen s !! index)) then
    if bool_decide (index = 0%nat) then Ok (to_chars "ATI Net F/T") else once_error index
  else
    let value := trim_ascii_whitespace (default [] (fields s !! index)) in
    if bool_decide (value = []) then
      discovery_error ("sensor configuration field '" +:+ tag +:+ "' is empty")
    else if (kMaximumFieldLength <? length value)%nat then
      discovery_error ("sensor configuration field '" +:+ tag +:+ "' is too long")
    else Ok value.

Fixpoint map_result {A B} (f : A → result B) (l : list A) : result (list B) :=
  match l with
  | [] => Ok []
  | a :: l => b ← f a; bs ← map_result f l; Ok (b :: bs)
  end.

Definition finish_fields (s : Scan) : result (list chars) :=
  match elements s with
  | _ :: _ => nesting_error
  | [] => map_result (finish_field s) (seq 0 (length kRequiredTags))
  end.

Definition extract_required_fields (xml : chars) : result (list chars) :=
  s ← extract_loop (length xml) scan_init xml; finish_fields s.

(** ** The fields *)

Inductive Rounding := ToNearest | OtherRounding.

(** What the calls of [<cfenv>] that hold the environment answer. *)
Record FpCalls := mkFpCalls { fe_hold : bool; fe_mode : option Rounding; fe_set : bool }.

(** The guard up to the end of its constructor.  The restores on the way out
    ([restore_environment_or_terminate]) give nothing back to the parser, and end the
    process when [fesetenv] fails: [FloatingEnvironment.v] models them. *)
Definition ScopedRoundToNearest (fe : FpCalls) : result unit :=
  _ ← ensure (fe_hold fe) (DiscoveryError "failed to hold the floating-point environment");
  match fe_mode fe with
  | None => discovery_error "failed to inspect the floating-point rounding mode"
  | Some ToNearest => Ok ()
  | Some OtherRounding =>
      ensure (fe_set fe) (DiscoveryError "failed to select round-to-nearest floating-point parsing")
  end.

Definition parse_positive_count (fe : FpCalls) (value : chars) (tag : string) : result double :=
  _ ← ScopedRoundToNearest fe;
  let error := discovery_error ("sensor configuration field '" +:+ tag +:+
                                "' must be a finite positive number") in
  match value with
  | [] => error
  | c :: _ =>
      if is_char "+" c then error
      else match stream_double value with
      | Some r => if negb (isfinite r) || SFleb r d0 then error else Ok r
      | None => error
      end
  end.

Definition normalize_torque_spelling (value : string) : string :=
  if bool_decide (value = "Nm") then "N-m"
  else if bool_decide (value = "Nmm") then "N-mm"
  else if bool_decide (value = "kg-cm") then "kgf-cm"
  else value.

Definition parse_force_unit (value : string) : result ForceUnit :=
  match force_unit_from_string value with
  | Some ForceUnknown | None => discovery_error "sensor configuration contains an unknown force unit"
  | Some u => Ok u
  end.

Definition parse_torque_unit (value : string) : result TorqueUnit :=
  match torque_unit_from_string (normalize_torque_spelling value) with
  | Some TorqueUnknown | None => discovery_error "sensor configuration contains an unknown torque unit"
  | Some u => Ok u
  end.

(** [catch (const std::invalid_argument &error)]. *)
Definition rethrow_invalid_argument (r : result unit) : result unit :=
  match r with
  | Throw (InvalidArgument w) => discovery_error w
  | _ => r
  end.

(** [fe n] answers the calls of the [n]th count. *)
Definition parse_sensor_configuration (fe : nat → FpCalls) (xml : chars)
    : result SensorConfiguration :=
  fs ← extract_required_fields xml;
  let field i := default [] (fs !! i) in
  force_count ← parse_positive_count (fe 0%nat) (field 1%nat) "cfgcpf";
  torque_count ← parse_positive_count (fe 1%nat) (field 2%nat) "cfgcpt";
  fu ← parse_force_unit (of_chars (field 3%nat));
  tu ← parse_torque_unit (of_chars (field 4%nat));
  let c := mkCalibration force_count torque_count fu tu in
  _ ← rethrow_invalid_argument (validate_calibration c);
  Ok (mkSensorConfiguration (of_chars (field 0%nat)) c Sensor 1).

(** The environment of a thread that never touched it. *)
Definition default_fp : nat → FpCalls := λ _, mkFpCalls true (Some ToNearest) true.

Definition sample_document : chars := to_chars
  "<?xml version='1.0'?><netft><!-- <cfgcpf> --><prodname>Axia80 <![CDATA[<M8>]]></prodname><cfgcpf>1000000</cfgcpf><cfgcpt unit='>'> 1e6
</cfgcpt><scfgfu>N</scfgfu><scfgtu>Nm</scfgtu><empty/></netft>".

Example sample_document_parsed :
  parse_sensor_configuration default_fp sample_document =
  Ok (mkSensorConfiguration "Axia80 <M8>"
        (mkCalibration (b64_of_Z 1000000) (b64_of_Z 1000000) Newton NewtonMeter) Sensor 1).
Proof. vm_compute. reflexivity. Qed.

(** ** Failures are discovery errors, and the loop ends *)

Definition only_discovery {A} (r : result A) : Prop :=
  match r with Throw (DiscoveryError _) | Ok _ => True | _ => False end.

Lemma only_discovery_bind {A B} (m : result A) (k : A → result B) :
  only_discovery m → (∀ a, m = Ok a → only_discovery (k a)) → only_discovery (m ≫= k).
Proof. destruct m as [a|e]; cbn; eauto. Qed.

Create HintDb discovery.
Ltac discovery :=
  repeat first
    [ exact I | done | solve [auto with discovery]
    | apply only_discovery_bind; [|intros ? ?]
    | match goal with
      | |- only_discovery (if ?b then _ else _) => destruct b eqn:?
      | |- only_discovery (match ?o with _ => _ end) => destruct o eqn:?
      end ].

Lemma find_tag_end_discovery q l : only_discovery (find_tag_end q l).
Proof. revert q. induction l as [|c l IH]; intros q; [done|]. cbn [find_tag_end]. discovery. Qed.
#[export] Hint Resolve find_tag_end_discovery : discovery.

Lemma find_tag_end_length q l a b :
  find_tag_end q l = Ok (a, b) → length l = S (length a + length b).
Proof.
  revert q a b. induction l as [|c l IH]; intros q a b H; [done|]. cbn [find_tag_end] in H.
  assert (∀ q', (r ← find_tag_end q' l; Ok (c :: fst r, snd r)) = Ok (a, b) →
                length (c :: l) = S (length a + length b)) as Hc.
  { intros q' H'. apply bind_ok in H' as ([a' b'] & Hr & H'). cbn [fst snd] in H'. simplify_eq.
    apply IH in Hr. cbn [length]. lia. }
  repeat case_split_in H; try (by eapply Hc); simplify_eq; cbn [length]; lia.
Qed.

Lemma mark_seen_discovery s i : only_discovery (mark_seen s i).
Proof. unfold mark_seen. discovery. Qed.
#[export] Hint Resolve mark_seen_discovery : discovery.

Lemma scan_markup_discovery s m : only_discovery (scan_markup s m).
Proof. unfold scan_markup, skip_past, close_tag, open_tag. discovery. Qed.
#[export] Hint Resolve scan_markup_discovery : discovery.

Lemma extract_step_discovery s l : only_discovery (extract_step s l).
Proof. unfold extract_step. discovery. Qed.
#[export] Hint Resolve extract_step_discovery : discovery.

Lemma skip_past_length n p m w a b :
  skip_past n p m w = Ok (a, b) → p ≠ "" → (length b < length m)%nat.
Proof.
  unfold skip_past. case_split; [|done]. destruct p0 as [x y]. intros H Hp. simplify_eq.
  apply split_find_app in Heqo as [Hm Hy]. apply (f_equal length) in Hm.
  rewrite length_app, length_drop in Hm. rewrite length_drop.
  destruct p as [|c p]; [done|]. destruct y as [|y ys]; [done|]. cbn [String.length length] in *. lia.
Qed.

Lemma scan_markup_shrinks s m s' l' : scan_markup s m = Ok (s', l') → (length l' < length m)%nat.
Proof.
  unfold scan_markup. intros H. repeat case_split_in H; try done.
  all: apply bind_ok in H as ([a b] & Hr & H); cbn [fst snd] in H.
  1-3: simplify_eq; by apply skip_past_length in Hr.
  destruct (trim_ascii_whitespace a); [done|]. apply bind_ok in H as (? & _ & H). simplify_eq.
  apply find_tag_end_length in Hr. rewrite length_drop in Hr. lia.
Qed.

Lemma extract_step_shrinks s l s' l' :
  l ≠ [] → extract_step s l = Ok (s', l') → (length l' < length l)%nat.
Proof.
  unfold extract_step. intros Hl. destruct (split_find _ l) as [[a b]|] eqn:E.
  - apply split_find_app in E as [-> _]. intros H%scan_markup_shrinks. rewrite length_app. lia.
  - intros [= <- <-]. destruct l; [done|cbn; lia].
Qed.

(** The loop with the fuel it is given, and its equation. *)
Definition scan (s : Scan) (l : chars) : result Scan := extract_loop (length l) s l.

Lemma extract_loop_fuel n1 n2 s l :
  (length l ≤ n1)%nat → (length l ≤ n2)%nat → extract_loop n1 s l = extract_loop n2 s l.
Proof.
  revert n2 s l. induction n1 as [|n1 IH]; intros [|n2] s [|c l] H1 H2; cbn [length] in *; try lia; try done.
  cbn [extract_loop]. destruct (extract_step s (c :: l)) as [[s' l']|e] eqn:E; [|done]. cbn.
  apply extract_step_shrinks in E; [|done]. cbn [length] in E. apply IH; lia.
Qed.

Lemma scan_cons s l :
  l ≠ [] → scan s l = r ← extract_step s l; scan (fst r) (snd r).
Proof.
  unfold scan. destruct l as [|c l]; [done|]. intros _. cbn [length extract_loop].
  destruct (extract_step s (c :: l)) as [[s' l']|e] eqn:E; [|done]. cbn.
  apply extract_step_shrinks in E; [|done]. cbn [length] in E. apply extract_loop_fuel; lia.
Qed.

Lemma scan_discovery s l : only_discovery (scan s l).
Proof.
  unfold scan. generalize (le_n (length l)). generalize (length l) at 2 3. intros n.
  revert s l. induction n as [|n IH]; intros s [|c l] Hl; cbn [length extract_loop] in *; try done; [lia|].
  apply only_discovery_bind; [auto with discovery|]. intros [s' l'] E.
  apply extract_step_shrinks in E; [|done]. cbn [length fst snd] in *. apply IH. lia.
Qed.
#[export] Hint Resolve scan_discovery : discovery.

Lemma map_result_discovery {A B} (f : A → result B) l :
  (∀ a, only_discovery (f a)) → only_discovery (map_result f l).
Proof. intros Hf. induction l as [|a l IH]; [done|]. cbn [map_result]. discovery. Qed.

Lemma finish_fields_discovery s : only_discovery (finish_fields s).
Proof.
  unfold finish_fields. destruct (elements s); [|done]. apply map_result_discovery.
  intros i. unfold finish_field. discovery.
Qed.
#[export] Hint Resolve finish_fields_discovery : discovery.

Lemma extract_required_fields_discovery xml : only_discovery (extract_required_fields xml).
Proof. apply only_discovery_bind; [apply scan_discovery|auto with discovery]. Qed.
#[export] Hint Resolve extract_required_fields_discovery : discovery.

Lemma ScopedRoundToNearest_discovery fe : only_discovery (ScopedRoundToNearest fe).
Proof. unfold ScopedRoundToNearest, ensure. discovery. Qed.
#[export] Hint Resolve ScopedRoundToNearest_discovery : discovery.

Lemma validate_calibration_errors c e : validate_calibration c = Throw e → ∃ w, e = InvalidArgument w.
Proof.
  unfold validate_calibration, require_safe_count, require_positive_finite.
  intros H. repeat (case_split_in H; cbn in H); simplify_eq; eauto.
Qed.

Lemma rethrow_discovery c : only_discovery (rethrow_invalid_argument (validate_calibration c)).
Proof.
  destruct (validate_calibration c) as [|e] eqn:E; [done|].
  by apply validate_calibration_errors in E as [w ->].
Qed.
#[export] Hint Resolve rethrow_discovery : discovery.

Lemma parse_sensor_configuration_discovery fe xml :
  only_discovery (parse_sensor_configuration fe xml).
Proof.
  unfold parse_sensor_configuration, parse_positive_count, parse_force_unit, parse_torque_unit. discovery.
Qed.

(** ** What an accepted document gives *)

Lemma positive_count_ok fe v tag r :
  parse_positive_count fe v tag = Ok r → valid64 r = true ∧ stream_double v = Some r.
Proof.
  unfold parse_positive_count. intros H. apply bind_ok in H as (? & _ & H).
  destruct v as [|c v]; [done|]. repeat case_split_in H; try done. simplify_eq.
  split; [|done]. by eapply stream_double_valid.
Qed.

Lemma force_unit_ok v u : parse_force_unit v = Ok u → force_unit_from_string v = Some u ∧ u ≠ ForceUnknown.
Proof. unfold parse_force_unit. destruct (force_unit_from_string v) as [[]|]; intros; by simplify_eq. Qed.

Lemma torque_unit_ok v u :
  parse_torque_unit v = Ok u →
  torque_unit_from_string (normalize_torque_spelling v) = Some u ∧ u ≠ TorqueUnknown.
Proof. unfold parse_torque_unit. destruct (torque_unit_from_string _) as [[]|]; intros; by simplify_eq. Qed.

Lemma rethrow_ok r u : rethrow_invalid_argument r = Ok u → r = Ok u.
Proof. destruct r as [|[]]; done. Qed.

Lemma finish_field_ok s i v :
  finish_field s i = Ok v → v ≠ [] ∧ (length v ≤ kMaximumFieldLength)%nat ∧ trimmed v.
Proof.
  unfold finish_field. intros H. repeat case_split_in H; try done; simplify_eq.
  - split_and!; [done|vm_compute; lia|by vm_compute].
  - rewrite bool_decide_eq_false in *. match goal with H : (_ <? _)%nat = false |- _ =>
      apply Nat.ltb_ge in H end. split_and!; [done..|apply trim_trimmed].
Qed.

Lemma map_result_ok {A B} (f : A → result B) l l' :
  map_result f l = Ok l' → Forall2 (λ a b, f a = Ok b) l l'.
Proof.
  revert l'. induction l as [|a l IH]; intros l' H; cbn [map_result] in H; inv_ok; subst; constructor; auto.
Qed.

Lemma finish_fields_ok s fs :
  finish_fields s = Ok fs →
  elements s = [] ∧ length fs = 5%nat ∧
  ∀ i, (i < 5)%nat → finish_field s i = Ok (default [] (fs !! i)).
Proof.
  unfold finish_fields. destruct (elements s) as [|]; [|done]. intros H%map_result_ok.
  split_and!; [done| |].
  - apply Forall2_length in H. by rewrite length_seq in H.
  - intros i Hi. eapply (Forall2_lookup_l _ _ _ i i) in H as (v & Hv & Hf).
    + by rewrite Hv.
    + by apply lookup_seq.
Qed.

Lemma extract_required_fields_ok xml fs :
  extract_required_fields xml = Ok fs →
  length fs = 5%nat ∧ Forall (λ v, v ≠ [] ∧ (length v ≤ kMaximumFieldLength)%nat ∧ trimmed v) fs.
Proof.
  intros H. apply bind_ok in H as (s & _ & H). apply finish_fields_ok in H as (_ & Hl & Hf).
  split; [done|]. apply Forall_lookup. intros i v Hv.
  assert (i < 5)%nat as Hi by (rewrite <- Hl; by eapply lookup_lt_Some).
  apply (finish_field_ok s i). rewrite Hf by done. by rewrite Hv.
Qed.

(** C31: parsing a document ends, with a configuration or with a discovery error
    and no other exception.  An accepted configuration comes from the sensor at
    revision 1, has a trimmed name of 1 to 128 characters, known units, counts that are
    validated doubles, and so a finite quotient for every 32-bit count.  (A floating-point
    environment that cannot be restored ends the process: see [FloatingEnvironment.v].) *)
Theorem parse_sensor_configuration_sound fe xml :
  match parse_sensor_configuration fe xml with
  | Ok c =>
      source c = Sensor ∧ revision c = 1 ∧
      (1 ≤ String.length (product_name c) ≤ 128)%nat ∧
      trimmed (to_chars (product_name c)) ∧
      validate_calibration (calibration c) = Ok () ∧
      cal_force_unit (calibration c) ≠ ForceUnknown ∧ cal_torque_unit (calibration c) ≠ TorqueUnknown ∧
      ∀ raw, is_i32 raw →
        isfinite (b64_div (b64_of_Z raw) (counts_per_force_unit (calibration c))) = true ∧
        isfinite (b64_div (b64_of_Z raw) (counts_per_torque_unit (calibration c))) = true
  | Throw e => ∃ w, e = DiscoveryError w
  end.
Proof.
  pose proof (parse_sensor_configuration_discovery fe xml) as Hd.
  destruct (parse_sensor_configuration fe xml) as [c|[]] eqn:E; try done; [|by eexists].
  unfold parse_sensor_configuration in E. inv_ok.
  match goal with H : extract_required_fields xml = Ok ?x |- _ => rename x into fs, H into Hfs end.
  apply extract_required_fields_ok in Hfs as [Hl Hall].
  destruct fs as [|name fs]; [done|]. apply Forall_cons in Hall as [(Hn1 & Hn2 & Hn3) _].
  repeat match goal with
  | H : parse_positive_count _ _ _ = Ok _ |- _ => apply positive_count_ok in H as [? _]
  | H : parse_force_unit _ = Ok _ |- _ => apply force_unit_ok in H as [_ ?]
  | H : parse_torque_unit _ = Ok _ |- _ => apply torque_unit_ok in H as [_ ?]
  | H : rethrow_invalid_argument _ = Ok ?u |- _ => apply rethrow_ok in H; destruct u
  end.
  subst c. cbn [source revision product_name calibration cal_force_unit cal_torque_unit
    counts_per_force_unit counts_per_torque_unit default lookup list_lookup id].
  rewrite to_of_chars. split_and!; try done.
  - rewrite <- (to_of_chars name) in Hn1. destruct (of_chars name); [done|cbn; lia].
  - by rewrite of_chars_length.
  - intros raw Hraw. match goal with H : validate_calibration _ = Ok _ |- _ =>
      apply validate_calibration_ok in H as (? & ? & _) end.
    split; by eapply safe_count_quotient.
Qed.

(** ** Documents as trees *)

Inductive node :=
  | Text (text : chars)
  | Comment (text : chars)
  | Cdata (text : chars)
  | Instruction (text : chars)
  | Element (name attributes : chars) (children : list node)
  | EmptyElement (name attributes : chars).

Fixpoint render (n : node) : chars :=
  match n with
  | Text t => t
  | Comment t => to_chars "<!--" ++ t ++ to_chars "-->"
  | Cdata t => to_chars "<![CDATA[" ++ t ++ to_chars "]]>"
  | Instruction t => to_chars "<?" ++ t ++ to_chars "?>"
  | Element name attributes children =>
      to_chars "<" ++ name ++ attributes ++ to_chars ">" ++
      flat_map render children ++ to_chars "</" ++ name ++ to_chars ">"
  | EmptyElement name attributes => to_chars "<" ++ name ++ attributes ++ to_chars "/>"
  end.

Definition ends_first (p : string) (t : chars) : bool :=
  bool_decide (split_find (to_chars p) (t ++ to_chars p) = Some (t, to_chars p)).

Definition name_char (c : ascii) : bool :=
  negb (is_ascii_whitespace c || is_slash c || is_char "<>'!?" c || (code c =? 34)%N).

Definition trim_end (l : chars) : chars := rev (drop_whitespace (rev l)).

(** A name of name characters; attributes, if any, behind a blank, with closed
    quotes and no ['>'] outside them. *)
Definition wf_tag (name attributes : chars) : bool :=
  negb (bool_decide (name = [])) && forallb name_char name &&
  match attributes with c :: _ => is_ascii_whitespace c | [] => true end &&
  match find_tag_end None (attributes ++ to_chars ">") with
  | Ok (a, []) => bool_decide (a = attributes)
  | _ => false
  end.

Fixpoint wf_node (n : node) : bool :=
  match n with
  | Text t => forallb (λ c, negb (is_char "<" c)) t
  | Comment t => ends_first "-->" t
  | Cdata t => ends_first "]]>" t
  | Instruction t => ends_first "?>" t
  | Element name attributes children =>
      wf_tag name attributes &&
      match last (trim_end attributes) with Some c => negb (is_slash c) | None => true end &&
      forallb wf_node children
  | EmptyElement name attributes => wf_tag name attributes
  end.

(** The meaning of a document, by recursion on the tree: the texts of the fields
    and the fields met so far, inside the element [parent]. *)
Definition Fields : Type := list chars * list bool.

Definition add_text (parent : option nat) (w : Fields) (t : chars) : Fields :=
  match parent with Some i => (alter (λ f, f ++ t) i (fst w), snd w) | None => w end.

Definition open_field (w : Fields) (index : option nat) : result Fields :=
  match index with
  | Some i => if bool_decide (snd w !! i = Some true) then once_error i
              else Ok (fst w, <[i := true]> (snd w))
  | None => Ok w
  end.

Fixpoint fold_result {A B} (f : A → B → result A) (a : A) (l : list B) : result A :=
  match l with [] => Ok a | b :: l => a ← f a b; fold_result f a l end.

Fixpoint walk (parent : option nat) (w : Fields) (n : node) : result Fields :=
  match n with
  | Text t | Cdata t => Ok (add_text parent w t)
  | Comment _ | Instruction _ => Ok w
  | Element name _ children =>
      if bool_decide (parent ≠ None) then
        discovery_error "sensor configuration fields must contain text only"
      else
        w ← open_field w (required_tag_index name);
        fold_result (walk (required_tag_index name)) w children
  | EmptyElement name _ =>
      if bool_decide (parent ≠ None) then
        discovery_error "sensor configuration fields must contain text only"
      else open_field w (required_tag_index name)
  end.

Fixpoint node_nested_ind (P : node → Prop)
    (Ht : ∀ t, P (Text t)) (Hc : ∀ t, P (Comment t)) (Hd : ∀ t, P (Cdata t))
    (Hi : ∀ t, P (Instruction t)) (He : ∀ name a cs, Forall P cs → P (Element name a cs))
    (Hm : ∀ name a, P (EmptyElement name a)) (n : node) : P n :=
  match n with
  | Text t => Ht t | Comment t => Hc t | Cdata t => Hd t | Instruction t => Hi t
  | Element name a cs =>
      He name a cs ((fix go l : Forall P l :=
        match l with
        | [] => Forall_nil_2 P
        | n :: l => Forall_cons_2 P n l (node_nested_ind P Ht Hc Hd Hi He Hm n) (go l)
        end) cs)
  | EmptyElement name a => Hm name a
  end.

(** *** The scanner on rendered pieces *)

Definition of_fields (s : Scan) (w : Fields) : Scan := mkScan (elements s) (fst w) (snd w).

Lemma push_text_nil s : push_text s [] = s.
Proof.
  destruct s as [es fs sn]. unfold push_text, append_required_text. cbn. f_equal.
  case_split; [|done]. apply list_alter_id. intros x. by rewrite app_nil_r.
Qed.

Lemma push_text_app s t u : push_text (push_text s t) u = push_text s (t ++ u).
Proof.
  destruct s as [es fs sn]. unfold push_text, append_required_text. cbn. f_equal.
  case_split; [|done]. rewrite list_alter_alter_eq. apply list_alter_ext; [|done].
  intros x _. cbn. by rewrite app_assoc.
Qed.

Lemma push_text_fields s t : push_text s t = of_fields s (add_text (enclosing (elements s)) (fields s, seen s) t).
Proof.
  destruct s as [es fs sn]. unfold push_text, append_required_text, of_fields, add_text. cbn.
  by case_split.
Qed.

Lemma split_find_text t l :
  forallb (λ c, negb (is_char "<" c)) t = true →
  split_find (to_chars "<") (t ++ l) =
  match split_find (to_chars "<") l with Some (a, b) => Some (t ++ a, b) | None => None end.
Proof.
  change (to_chars "<") with ["<"%char].
  induction t as [|c t IH]; cbn [forallb app]; [by destruct (split_find _ _) as [[]|]|].
  intros [Hc Ht]%andb_prop. cbn [split_find has_prefix].
  change (is_char "<" c) with ((c =? "<")%char || false) in Hc. rewrite orb_false_r, Ascii.eqb_sym in Hc.
  apply negb_true_iff in Hc. rewrite Hc. cbn [andb]. rewrite IH by done.
  by destruct (split_find _ l) as [[a b]|].
Qed.

Lemma scan_text s t l :
  forallb (λ c, negb (is_char "<" c)) t = true → scan s (t ++ l) = scan (push_text s t) l.
Proof.
  intros Ht. destruct (decide (t = [])) as [->|Hne]; [by rewrite push_text_nil|].
  rewrite scan_cons by (by destruct t). unfold extract_step. rewrite split_find_text by done.
  destruct (decide (l = [])) as [->|Hl].
  - cbn [split_find has_prefix to_chars String.list_ascii_of_string]. by rewrite app_nil_r.
  - rewrite (scan_cons _ l) by done. unfold extract_step.
    destruct (split_find _ l) as [[a b]|]; by rewrite push_text_app.
Qed.

Lemma scan_at_markup s m :
  scan s (to_chars "<" ++ m) = r ← scan_markup s (to_chars "<" ++ m); scan (fst r) (snd r).
Proof.
  rewrite scan_cons by done.
  change (extract_step s (to_chars "<" ++ m)) with (scan_markup (push_text s []) (to_chars "<" ++ m)).
  by rewrite push_text_nil.
Qed.

Lemma scan_markup_step s m m' :
  m = to_chars "<" ++ m' → scan s m = r ← scan_markup s m; scan (fst r) (snd r).
Proof. intros ->. apply scan_at_markup. Qed.

Lemma ends_first_find p t rest :
  ends_first p t = true → split_find (to_chars p) (t ++ to_chars p ++ rest) = Some (t, to_chars p ++ rest).
Proof.
  intros H%bool_decide_eq_true. rewrite app_assoc. by erewrite split_find_extend.
Qed.

Lemma skip_past_rendered o p t rest w :
  ends_first p t = true →
  skip_past (String.length o) p (to_chars o ++ t ++ to_chars p ++ rest) w = Ok (t, rest).
Proof.
  intros H. unfold skip_past.
  assert (∀ s, length (to_chars s) = String.length s) as Hlen by (induction s; cbn; auto).
  rewrite drop_app_length' by done. rewrite ends_first_find by done. by rewrite drop_app_length'.
Qed.

Lemma name_char_spec c :
  name_char c = true →
  is_ascii_whitespace c = false ∧ is_slash c = false ∧ is_char ">" c = false ∧
  ((code c =? 39)%N || (code c =? 34)%N) = false ∧ (c =? "!")%char = false ∧ (c =? "?")%char = false.
Proof. destruct c as [[] [] [] [] [] [] [] []]; vm_compute; repeat split; congruence. Qed.

Lemma find_tag_end_prefix q a l :
  find_tag_end q (a ++ to_chars ">") = Ok (a, []) →
  find_tag_end q (a ++ l) = r ← find_tag_end None l; Ok (a ++ fst r, snd r).
Proof.
  revert q. induction a as [|c a IH]; intros q H.
  - destruct q as [q|]; [by cbn in H|]. cbn [app]. by destruct (find_tag_end None l) as [[]|].
  - assert (∀ q', (r ← find_tag_end q' (a ++ to_chars ">"); Ok (c :: fst r, snd r)) = Ok (c :: a, []) →
      (r ← find_tag_end q' (a ++ l); Ok (c :: fst r, snd r)) =
      (r ← find_tag_end None l; Ok ((c :: a) ++ fst r, snd r))) as Hc.
    { intros q' H'. apply bind_ok in H' as ([x y] & Hr & H'). cbn [fst snd] in H'. simplify_eq.
      rewrite (IH _ Hr). by destruct (find_tag_end None l) as [[]|]. }
    cbn [app find_tag_end] in *. destruct q; [by apply Hc|]. repeat case_split_in H; try done; by apply Hc.
Qed.

Lemma find_tag_end_name nm l :
  forallb name_char nm = true →
  find_tag_end None (nm ++ l) = r ← find_tag_end None l; Ok (nm ++ fst r, snd r).
Proof.
  induction nm as [|c nm IH]; cbn [forallb app]; [by destruct (find_tag_end None l) as [[]|]|].
  intros [Hc Hn]%andb_prop. apply name_char_spec in Hc as (_ & _ & Hg & Hq & _).
  cbn [find_tag_end]. rewrite Hq, Hg, IH by done. by destruct (find_tag_end None l) as [[]|].
Qed.

(** What a well-formed tag offers the scanner. *)
Lemma wf_tag_spec name attributes :
  wf_tag name attributes = true →
  (∃ c nm, name = c :: nm) ∧ forallb name_char name = true ∧
  match attributes with c :: _ => is_ascii_whitespace c | [] => true end = true ∧
  ∀ l, find_tag_end None (name ++ attributes ++ l) =
       r ← find_tag_end None l; Ok (name ++ attributes ++ fst r, snd r).
Proof.
  unfold wf_tag. intros [[[Hn Hc]%andb_prop Ha]%andb_prop He]%andb_prop.
  destruct (find_tag_end None (attributes ++ to_chars ">")) as [[a [|]]|] eqn:E; try done.
  apply bool_decide_eq_true in He as ->. split_and!; [|done..|].
  - destruct name; [done|eauto].
  - intros l. rewrite find_tag_end_name, (find_tag_end_prefix _ _ l E) by done.
    by destruct (find_tag_end None l) as [[]|].
Qed.

Lemma trim_tag name attributes :
  (∃ c nm, name = c :: nm) → forallb name_char name = true →
  trim_ascii_whitespace (name ++ attributes) = name ++ trim_end attributes.
Proof.
  intros (c & nm & ->) Hn. unfold trim_ascii_whitespace, trim_end.
  assert (∀ x, x ∈ c :: nm → is_ascii_whitespace x = false) as Hw.
  { intros x Hx%list_elem_of_In. by apply name_char_spec, (proj1 (forallb_forall _ _) Hn). }
  cbn [app]. rewrite drop_whitespace_clean by (apply Hw; left).
  change (c :: nm ++ attributes) with ((c :: nm) ++ attributes). rewrite rev_app_distr.
  destruct (decide (drop_whitespace (rev attributes) = [])) as [He|Hne].
  - destruct (drop_whitespace_suffix (rev attributes)) as (w & Hv & Hb). rewrite He, app_nil_r in Hv.
    rewrite Hv, drop_whitespace_blank by done. rewrite <- Hv, He. cbn [rev]. rewrite app_nil_r.
    destruct (rev nm ++ [c]) as [|d r] eqn:E; [by destruct (rev nm)|].
    change (rev nm ++ [c]) with (rev (c :: nm)) in E.
    rewrite drop_whitespace_clean, <- E, rev_involutive; [done|].
    apply Hw. apply list_elem_of_In, in_rev. rewrite E. by left.
  - rewrite drop_whitespace_app by done. by rewrite rev_app_distr, rev_involutive.
Qed.

Lemma tag_name_app name l :
  forallb name_char name = true →
  match l with c :: _ => is_ascii_whitespace c | [] => true end = true →
  tag_name (name ++ l) = name.
Proof.
  intros Hn Hl. induction name as [|c nm IH]; cbn [app].
  - destruct l as [|c l]; [done|]. cbn [tag_name]. by rewrite Hl.
  - cbn [forallb] in Hn. apply andb_prop in Hn as [Hc Hn]. cbn [tag_name].
    apply name_char_spec in Hc as (-> & _). by rewrite IH.
Qed.

Lemma trim_end_head l :
  match l with c :: _ => is_ascii_whitespace c | [] => true end = true →
  match trim_end l with c :: _ => is_ascii_whitespace c | [] => true end = true.
Proof.
  unfold trim_end. destruct (drop_whitespace_suffix (rev l)) as (w & Hw & _).
  apply (f_equal (@rev ascii)) in Hw. rewrite rev_involutive, rev_app_distr in Hw.
  destruct (rev (drop_whitespace (rev l))) as [|c r]; [done|]. by rewrite Hw.
Qed.

(** The part of [open_tag] after the name is known. *)
Definition open_element (s : Scan) (name : chars) (self_closing : bool) : result Scan :=
  if bool_decide (enclosing (elements s) ≠ None) then
    discovery_error "sensor configuration fields must contain text only"
  else
    w ← open_field (fields s, seen s) (required_tag_index name);
    let s := of_fields s w in
    Ok (if self_closing then s
        else s <| elements ::= cons (mkOpenElement name (required_tag_index name)) |>).

Lemma mark_seen_fields s i : mark_seen s i = w ← open_field (fields s, seen s) i; Ok (of_fields s w).
Proof.
  destruct s as [es fs sn]. unfold mark_seen, open_field, of_fields. cbn. destruct i as [i|]; [|done].
  destruct (sn !! i) as [[]|]; by cbn.
Qed.

Lemma open_tag_named s tag name :
  (∃ c nm, name = c :: nm) → forallb name_char name = true →
  tag_name (if match last tag with Some c => is_slash c | None => false end
            then trim_ascii_whitespace (removelast tag) else tag) = name →
  open_tag s tag = open_element s name (match last tag with Some c => is_slash c | None => false end).
Proof.
  intros (c & nm & ->) Hn Ht. unfold open_tag, open_element. rewrite Ht.
  cbn [forallb] in Hn. apply andb_prop in Hn as [Hc _]. apply name_char_spec in Hc as (_ & Hc & _).
  cbn [starts_with_slash]. rewrite Hc. cbn [orb bool_decide].
  rewrite bool_decide_eq_false_2 by done. cbn [orb]. case_split; [done|].
  rewrite mark_seen_fields. by destruct (open_field _ _).
Qed.

(** A tag at the start of the text is none of the other constructs. *)
Lemma scan_markup_tag s c m :
  (c =? "!")%char = false → (c =? "?")%char = false →
  scan_markup s (to_chars "<" ++ c :: m) =
  r ← find_tag_end None (c :: m);
  match trim_ascii_whitespace (fst r) with
  | [] => markup_error
  | c :: body =>
      s ← (if is_slash c then close_tag s body else open_tag s (c :: body)); Ok (s, snd r)
  end.
Proof.
  intros H1 H2. rewrite Ascii.eqb_sym in H1, H2. unfold scan_markup.
  assert (∀ p, has_prefix (to_chars ("<!" +:+ p)) (to_chars "<" ++ c :: m) = false) as Hp.
  { intros p. change (has_prefix (to_chars ("<!" +:+ p)) (to_chars "<" ++ c :: m))
      with (("!" =? c)%char && has_prefix (to_chars p) m). by rewrite H1. }
  rewrite (Hp "--" : has_prefix (to_chars "<!--") _ = false),
    (Hp "[CDATA[" : has_prefix (to_chars "<![CDATA[") _ = false),
    (Hp "" : has_prefix (to_chars "<!") _ = false).
  change (has_prefix (to_chars "<?") (to_chars "<" ++ c :: m)) with (("?" =? c)%char && true).
  by rewrite H2.
Qed.

Lemma scan_tag s name attributes tail rest :
  wf_tag name attributes = true →
  find_tag_end None (tail ++ rest) = Ok (removelast tail, rest) →
  scan s (to_chars "<" ++ name ++ attributes ++ tail ++ rest) =
  s ← open_tag s (trim_ascii_whitespace (name ++ attributes ++ removelast tail)); scan s rest.
Proof.
  intros ((c & nm & ->) & Hn & Ha & Hf)%wf_tag_spec Ht.
  cbn [app]. rewrite scan_at_markup. pose proof Hn as Hc. cbn [forallb] in Hc. apply andb_prop in Hc as [Hc _].
  apply name_char_spec in Hc as (Hw & Hs & _ & _ & H1 & H2).
  rewrite (scan_markup_tag s c (nm ++ attributes ++ tail ++ rest)) by done.
  change (c :: nm ++ attributes ++ tail ++ rest) with ((c :: nm) ++ attributes ++ tail ++ rest).
  rewrite Hf, Ht.
  cbn [mbind result_bind fst snd].
  change (c :: nm ++ attributes ++ removelast tail) with ((c :: nm) ++ attributes ++ removelast tail).
  rewrite trim_tag by eauto. cbn [app]. rewrite Hs.
  by destruct (open_tag s _).
Qed.

Lemma scan_open s name attributes rest :
  wf_tag name attributes = true →
  match last (trim_end attributes) with Some c => negb (is_slash c) | None => true end = true →
  scan s (to_chars "<" ++ name ++ attributes ++ to_chars ">" ++ rest) =
  s ← open_element s name false; scan s rest.
Proof.
  intros Hwf Hlast. rewrite (scan_tag s name attributes (to_chars ">")) by done.
  cbn [removelast to_chars String.list_ascii_of_string]. rewrite app_nil_r.
  apply wf_tag_spec in Hwf as (Hne & Hn & Ha & _). rewrite trim_tag by done.
  assert (match last (name ++ trim_end attributes) with Some c => is_slash c | None => false end = false) as Hs.
  { rewrite last_app. destruct (last (trim_end attributes)); [by apply negb_true_iff|].
    destruct (last name) as [c|] eqn:E; [|done]. apply last_Some_elem_of, list_elem_of_In in E.
    by apply name_char_spec, (proj1 (forallb_forall _ _) Hn). }
  rewrite (open_tag_named s _ name), Hs; try done.
  rewrite Hs. apply tag_name_app; [done|]. by apply trim_end_head.
Qed.

Lemma scan_empty s name attributes rest :
  wf_tag name attributes = true →
  scan s (to_chars "<" ++ name ++ attributes ++ to_chars "/>" ++ rest) =
  s ← open_element s name true; scan s rest.
Proof.
  intros Hwf. rewrite (scan_tag s name attributes (to_chars "/>")) by done.
  change (removelast (to_chars "/>")) with (to_chars "/").
  apply wf_tag_spec in Hwf as ((c & nm & ->) & Hn & Ha & _). rewrite app_assoc.
  assert (last ((c :: nm ++ attributes) ++ to_chars "/") = Some "/"%char) as Hl by apply last_snoc.
  cbn [app] in *. rewrite trim_clean with (d := "/"%char); [|..|done]; [| |done].
  - change (c :: (nm ++ attributes) ++ to_chars "/") with (((c :: nm) ++ attributes) ++ to_chars "/") in *.
    rewrite (open_tag_named s _ (c :: nm)), Hl; [done|eauto|done|].
    cbn iota. rewrite Hl. change (is_slash "/") with true. cbn iota.
    change (to_chars "/") with ["/"%char]. rewrite removelast_last, trim_tag by eauto.
    apply tag_name_app; [done|]. by apply trim_end_head.
  - cbn [forallb] in Hn. apply andb_prop in Hn as [Hc _]. by apply name_char_spec in Hc as (? & _).
Qed.

Lemma forallb_name_clean name :
  forallb name_char name = true → existsb (λ c, is_ascii_whitespace c || is_slash c) name = false.
Proof.
  induction name as [|c nm IH]; [done|]. cbn [forallb existsb]. intros [Hc Hn]%andb_prop.
  apply name_char_spec in Hc as (-> & -> & _). by apply IH.
Qed.

Lemma scan_close e es fs sn name rest :
  (∃ c nm, name = c :: nm) → forallb name_char name = true → element_name e = name →
  scan (mkScan (e :: es) fs sn) (to_chars "</" ++ name ++ to_chars ">" ++ rest) =
  scan (mkScan es fs sn) rest.
Proof.
  intros Hne Hn He.
  change (to_chars "</" ++ name ++ to_chars ">" ++ rest)
    with (to_chars "<" ++ "/"%char :: name ++ to_chars ">" ++ rest).
  rewrite scan_at_markup, scan_markup_tag by done.
  change (find_tag_end None ("/"%char :: name ++ to_chars ">" ++ rest))
    with (r ← find_tag_end None (name ++ to_chars ">" ++ rest); Ok ("/"%char :: fst r, snd r)).
  rewrite find_tag_end_name by done.
  change (find_tag_end None (to_chars ">" ++ rest)) with (Ok ([], rest) : result (chars * chars)).
  cbn -[scan trim_ascii_whitespace]. rewrite app_nil_r.
  pose proof (trim_tag name [] Hne Hn) as Ht. rewrite !app_nil_r in Ht.
  assert (trim_ascii_whitespace ("/"%char :: name) = "/"%char :: name) as ->.
  { destruct Hne as (c & nm & ->).
    destruct (last (c :: nm)) as [d|] eqn:E; [|by apply last_None in E].
    apply trim_clean with (d := d); [done|by cbn in *|].
    apply last_Some_elem_of, list_elem_of_In in E.
    by apply name_char_spec, (proj1 (forallb_forall _ _) Hn). }
  cbn -[scan trim_ascii_whitespace]. unfold close_tag. rewrite Ht, forallb_name_clean by done.
  destruct Hne as (c & nm & ->). rewrite bool_decide_eq_false_2 by done. cbn -[scan].
  by rewrite bool_decide_eq_true_2.
Qed.

(** *** The scanner computes the meaning of the document *)

Definition scan_spec (n : node) : Prop :=
  ∀ s rest, scan s (render n ++ rest) =
    w ← walk (enclosing (elements s)) (fields s, seen s) n; scan (of_fields s w) rest.

Lemma of_fields_of_fields s w w' : of_fields (of_fields s w) w' = of_fields s w'.
Proof. done. Qed.

Lemma of_fields_self s : of_fields s (fields s, seen s) = s.
Proof. by destruct s. Qed.

Lemma scan_nodes ns :
  Forall scan_spec ns → ∀ s rest,
  scan s (flat_map render ns ++ rest) =
  w ← fold_result (walk (enclosing (elements s))) (fields s, seen s) ns; scan (of_fields s w) rest.
Proof.
  induction 1 as [|n ns Hn _ IH]; intros s rest; cbn [flat_map fold_result app].
  - cbn [mbind result_bind]. by rewrite of_fields_self.
  - rewrite <- app_assoc, Hn. destruct (walk _ _ n) as [w|e]; [|done]. cbn [mbind result_bind].
    rewrite IH. by destruct w.
Qed.

Lemma scan_node n : wf_node n = true → scan_spec n.
Proof.
  induction n as [t|t|t|t|name a cs IH|name a] using node_nested_ind; cbn [wf_node]; intros Hwf s rest;
    cbn [render walk].
  - rewrite scan_text by done. cbn [mbind result_bind]. by rewrite push_text_fields.
  - rewrite <- !app_assoc, (scan_markup_step s _ (to_chars "!--" ++ t ++ to_chars "-->" ++ rest)) by done.
    unfold scan_markup.
    change (has_prefix (to_chars "<!--") (to_chars "<!--" ++ t ++ to_chars "-->" ++ rest)) with true.
    cbn iota. rewrite (skip_past_rendered "<!--" "-->") by done. cbn [mbind result_bind fst snd].
    by rewrite of_fields_self.
  - rewrite <- !app_assoc, (scan_markup_step s _ (to_chars "![CDATA[" ++ t ++ to_chars "]]>" ++ rest)) by done.
    unfold scan_markup.
    change (has_prefix (to_chars "<!--") (to_chars "<![CDATA[" ++ t ++ to_chars "]]>" ++ rest)) with false.
    change (has_prefix (to_chars "<![CDATA[") (to_chars "<![CDATA[" ++ t ++ to_chars "]]>" ++ rest)) with true.
    cbn iota. rewrite (skip_past_rendered "<![CDATA[" "]]>") by done. cbn [mbind result_bind fst snd].
    by rewrite push_text_fields.
  - rewrite <- !app_assoc, (scan_markup_step s _ (to_chars "?" ++ t ++ to_chars "?>" ++ rest)) by done.
    unfold scan_markup.
    change (has_prefix (to_chars "<!--") (to_chars "<?" ++ t ++ to_chars "?>" ++ rest)) with false.
    change (has_prefix (to_chars "<![CDATA[") (to_chars "<?" ++ t ++ to_chars "?>" ++ rest)) with false.
    change (has_prefix (to_chars "<?") (to_chars "<?" ++ t ++ to_chars "?>" ++ rest)) with true.
    cbn iota. rewrite (skip_past_rendered "<?" "?>") by done. cbn [mbind result_bind fst snd].
    by rewrite of_fields_self.
  - apply andb_prop in Hwf as [[Ht Hl]%andb_prop Hc]. rewrite <- !app_assoc.
    rewrite scan_open by done. unfold open_element. case_split; [done|].
    destruct (open_field _ _) as [w|e]; [|done]. cbn [mbind result_bind].
    assert (Forall scan_spec cs) as Hcs.
    { apply Forall_lookup. intros i n Hi. eapply Forall_lookup in IH; [|done]. apply IH.
      apply (proj1 (forallb_forall _ _) Hc), list_elem_of_In. by eapply list_elem_of_lookup_2. }
    rewrite (scan_nodes _ Hcs). destruct s as [es fs sn], w as [fs' sn']. cbn [elements enclosing
      set_field of_fields fields seen fst snd required_index].
    destruct (fold_result _ _ cs) as [[fs'' sn'']|e]; [|done]. cbn [mbind result_bind].
    apply wf_tag_spec in Ht as (Hne & Hn & _).
    by rewrite (scan_close (mkOpenElement name (required_tag_index name)) es fs'' sn'' name).
  - rewrite <- !app_assoc, scan_empty by done. unfold open_element. case_split; [done|].
    by destruct (open_field _ _) as [w|e].
Qed.

Definition no_fields : Fields := (replicate 5 [], replicate 5 false).

(** C29: on every well-formed document tree the scanner computes the reference
    meaning of the tree: comments and instructions are skipped, text and CDATA
    belong to the enclosing required element, each required element may be opened
    once and holds text only, and the errors are those of the tree, the checks on
    the collected fields included. *)
Theorem extract_matches_tree ns :
  forallb wf_node ns = true →
  extract_required_fields (flat_map render ns) =
  w ← fold_result (walk None) no_fields ns; finish_fields (mkScan [] (fst w) (snd w)).
Proof.
  intros Hwf. unfold extract_required_fields. fold (scan scan_init (flat_map render ns)).
  rewrite <- (app_nil_r (flat_map render ns)), scan_nodes.
  - by destruct (fold_result _ _ ns).
  - apply Forall_lookup. intros i n Hi. apply scan_node.
    apply (proj1 (forallb_forall _ _) Hwf), list_elem_of_In. by eapply list_elem_of_lookup_2.
Qed.

Definition sample_tree : list node :=
  [Instruction (to_chars "xml version='1.0'?");
   Element (to_chars "netft") []
     [Comment (to_chars " <cfgcpf> "); Text (to_chars " ");
      Element (to_chars "prodname") [] [Text (to_chars "Axia80 "); Cdata (to_chars "<M8>")];
      Element (to_chars "cfgcpt") (to_chars " unit='>'") [Text (to_chars "7")];
      EmptyElement (to_chars "cfgcpt") []]].

Lemma extract_matches_tree_witness :
  extract_required_fields (flat_map render sample_tree) =
  discovery_error "sensor configuration field 'cfgcpt' must appear exactly once".
Proof.
  rewrite (extract_matches_tree sample_tree); [vm_compute; reflexivity | vm_compute; reflexivity].
Defined.

(** ** The document a sensor serves *)

Definition field (tag : string) (text : chars) : node := Element (to_chars tag) [] [Text text].

Definition document (name f t fu tu : chars) : list node :=
  [Element (to_chars "netft") []
     [field "prodname" name; field "cfgcpf" f; field "cfgcpt" t; field "scfgfu" fu; field "scfgtu" tu]].

(** A field text: no markup, trimmed, of 1 to 128 characters. *)
Definition field_text (t : chars) : Prop :=
  forallb (λ c, negb (is_char "<" c)) t = true ∧ trimmed t ∧ t ≠ [] ∧
  (length t ≤ kMaximumFieldLength)%nat.

Lemma field_text_clean t :
  forallb (λ c, negb (is_char "<" c)) t = true → forallb (λ c, negb (is_ascii_whitespace c)) t = true →
  t ≠ [] → (length t ≤ kMaximumFieldLength)%nat → field_text t.
Proof.
  intros Ht Hw Hne Hl. split_and!; try done. unfold trimmed. rewrite forallb_forall in Hw.
  destruct t as [|c t]; [done|]. destruct (last (c :: t)) as [e|] eqn:E; [|by rewrite last_None in E].
  apply (trim_clean _ _ e); [|done|]; apply negb_true_iff, Hw; [by left|].
  by apply list_elem_of_In, last_Some_elem_of.
Qed.

Lemma extract_document name f t fu tu :
  Forall field_text [name; f; t; fu; tu] →
  extract_required_fields (flat_map render (document name f t fu tu)) = Ok [name; f; t; fu; tu].
Proof.
  intros H. repeat (apply Forall_cons in H as [? H]).
  rewrite <- (app_nil_r (flat_map render _)).
  unfold extract_required_fields. match goal with |- context [extract_loop _ _ ?l] =>
    fold (scan scan_init l) end.
  rewrite scan_nodes.
  - change (fold_result _ _ (document name f t fu tu))
      with (Ok ([name; f; t; fu; tu], replicate 5 true) : result Fields).
    cbn [mbind result_bind]. change (scan _ []) with (Ok (mkScan [] [name; f; t; fu; tu] (replicate 5 true))).
    cbn [mbind result_bind finish_fields elements].
    assert (∀ s i v, seen s !! i = Some true → fields s !! i = Some v → field_text v →
      finish_field s i = Ok v) as Hf.
    { intros s i v Hs Hv (_ & Ht & Hne & Hl). unfold finish_field. rewrite Hs, Hv. cbn [default negb id].
      unfold trimmed in Ht. rewrite Ht, bool_decide_eq_false_2 by done.
      apply Nat.ltb_ge in Hl. by rewrite Hl. }
    cbn [seq length kRequiredTags map_result].
    rewrite (Hf _ 0%nat name), (Hf _ 1%nat f), (Hf _ 2%nat t), (Hf _ 3%nat fu), (Hf _ 4%nat tu); done.
  - constructor; [|constructor]. apply scan_node. cbn [wf_node field forallb].
    repeat match goal with H : field_text _ |- _ => destruct H as [? _] end.
    repeat (apply andb_true_intro; split); done.
Qed.

(** A count whose text is read as it is. *)
Lemma parse_positive_count_text fe l x tag name u :
  ScopedRoundToNearest fe = Ok () → stream_double l = Some x → require_safe_count name x = Ok u →
  (∀ c l', l = c :: l' → is_char "+" c = false) →
  parse_positive_count fe l tag = Ok x.
Proof.
  intros Hfe Hl Hr Hplus. unfold require_safe_count in Hr. inv_ok.
  match goal with H : require_positive_finite _ _ = Ok _ |- _ =>
    unfold require_positive_finite in H; inv_ok end.
  unfold parse_positive_count. rewrite Hfe. cbn [mbind result_bind].
  destruct l as [|c l]; [done|]. rewrite (Hplus c l eq_refl).
  rewrite Hl. repeat match goal with H : _ = _ |- _ => rewrite H end. done.
Qed.
