(* ===== verification/FloatingEnvironment.v ===== *)
(** * The rounding-mode guard

    [ScopedRoundToNearest] of [detail/xml_config.cpp] around the parsing of a
    number, over the floating-point environment of the thread: the constructor may
    throw, the destructor runs on every way out of the scope, and a restore that
    fails ends the process.  [<cfenv>] is modelled by its documented effects. *)

From S2P Require Import Prelude Floating Types Text XmlConfig.

(** ** The environment *)

(** Rounding mode, raised exception flags, and whether exceptions trap. *)
Record Fenv := mkFenv { rounding : Rounding; flags : Z; traps : bool }.

Definition to_nearest (r : Rounding) : bool := match r with ToNearest => true | OtherRounding => false end.

(** Which calls succeed: [feholdexcept], [fegetround], [fesetround], [fesetenv]. *)
Record FenvAnswers := mkFenvAnswers { hold_ok : bool; get_ok : bool; set_ok : bool; restore_ok : bool }.

(** A computation in an environment; [None] is [std::terminate]. *)
Definition Scope (A : Type) : Type := Fenv → option (result A * Fenv).

(** The saved environment and [active_]. *)
Record Guard := mkGuard { environment_ : Fenv; active_ : bool }.

Definition restore_environment_or_terminate (answers : FenvAnswers) (g : Guard) : option (Guard * Fenv) :=
  if negb (restore_ok answers) then None else Some (mkGuard (environment_ g) false, environment_ g).

(** [feholdexcept] saves the environment, clears the flags and turns traps off. *)
Definition held (e : Fenv) : Fenv := mkFenv (rounding e) 0 false.

Definition construct_guard (answers : FenvAnswers) (e : Fenv) : option (result Guard * Fenv) :=
  if negb (hold_ok answers) then
    Some (Throw (DiscoveryError "failed to hold the floating-point environment"), e)
  else
    let g := mkGuard e true in
    let e := held e in
    if negb (get_ok answers) then
      '(_, e) ← restore_environment_or_terminate answers g;
      Some (Throw (DiscoveryError "failed to inspect the floating-point rounding mode"), e)
    else if negb (to_nearest (rounding e)) && negb (set_ok answers) then
      '(_, e) ← restore_environment_or_terminate answers g;
      Some (Throw (DiscoveryError "failed to select round-to-nearest floating-point parsing"), e)
    else Some (Ok g, mkFenv ToNearest (flags e) (traps e)).

Definition destroy_guard (answers : FenvAnswers) (g : Guard) (e : Fenv) : option Fenv :=
  if active_ g then '(_, e) ← restore_environment_or_terminate answers g; Some e else Some e.

(** The body of [parse_positive_count] below the guard; a destructor runs on a
    return and on an exception alike. *)
Definition scoped {A} (answers : FenvAnswers) (body : Fenv → result A * Fenv) : Scope A := λ e,
  '(g, e) ← construct_guard answers e;
  match g with
  | Throw x => Some (Throw x, e)
  | Ok g => let '(r, e) := body e in e ← destroy_guard answers g e; Some (r, e)
  end.

(** What the stream reads depends on the mode; [directed] is what it reads in
    another one.  Reading may raise flags. *)
Definition read_number (directed : chars → option double) (r : Rounding) (value : chars) : option double :=
  match r with ToNearest => stream_double value | OtherRounding => directed value end.

Definition positive_count_body (directed : chars → option double) (raised : Z → Z) (value : chars) (tag : string)
    (e : Fenv) : result double * Fenv :=
  (let error := discovery_error ("sensor configuration field '" +:+ tag +:+
                                 "' must be a finite positive number") in
   match value with
   | [] => error
   | c :: _ =>
       if is_char "+" c then error
       else match read_number directed (rounding e) value with
       | Some r => if negb (isfinite r) || SFleb r d0 then error else Ok r
       | None => error
       end
   end, mkFenv (rounding e) (raised (flags e)) (traps e)).

Definition scoped_positive_count (answers : FenvAnswers) (directed : chars → option double) (raised : Z → Z)
    (value : chars) (tag : string) : Scope double :=
  scoped answers (positive_count_body directed raised value tag).

(** The answers as [XmlConfig.v] takes them, in an environment. *)
Definition calls_in (answers : FenvAnswers) (e : Fenv) : FpCalls :=
  mkFpCalls (hold_ok answers) (if get_ok answers then Some (rounding e) else None) (set_ok answers).

(** ** Properties *)

(** Every way out of the scope leaves the environment it found, or ends the
    process because it cannot. *)
Lemma scoped_restores {A} answers (body : Fenv → result A * Fenv) e :
  match scoped answers body e with
  | Some (_, e') => e' = e
  | None => restore_ok answers = false ∧ hold_ok answers = true
  end.
Proof.
  unfold scoped, construct_guard, destroy_guard, restore_environment_or_terminate.
  destruct answers as [[] [] [] []], e as [[] f t]; cbn; try done; by destruct (body _).
Qed.

(** The body runs once, rounding to nearest with traps off, or not at all. *)
Lemma scoped_runs {A} answers (body : Fenv → result A * Fenv) e :
  restore_ok answers = true →
  scoped answers body e =
    Some (match ScopedRoundToNearest (calls_in answers e) with
          | Ok _ => fst (body (mkFenv ToNearest 0 false))
          | Throw x => Throw x
          end, e).
Proof.
  unfold scoped, construct_guard, destroy_guard, restore_environment_or_terminate.
  destruct answers as [[] [] [] []], e as [[] f t]; try done; intros _; cbn; try done; by destruct (body _).
Qed.

(** Parsing a number never leaks a change of the floating-point environment:
    whatever mode, flags and traps the calling thread has, and whichever calls of
    [<cfenv>] fail, the parser returns or throws with the environment as it was
    before (or the process ends because it cannot be restored, never otherwise); the
    number is read rounding to nearest without traps, and the answer is the one of
    [parse_positive_count]. *)
Theorem environment_restored answers directed raised value tag e :
  (∀ r e', scoped_positive_count answers directed raised value tag e = Some (r, e') →
     e' = e ∧ (restore_ok answers = true → r = parse_positive_count (calls_in answers e) value tag)) ∧
  (scoped_positive_count answers directed raised value tag e = None → restore_ok answers = false) ∧
  (restore_ok answers = true → is_Some (scoped_positive_count answers directed raised value tag e)).
Proof.
  unfold scoped_positive_count.
  pose proof (scoped_restores answers (positive_count_body directed raised value tag) e) as Hr.
  pose proof (scoped_runs answers (positive_count_body directed raised value tag) e) as Hb. split_and!.
  - intros r e' Hs. rewrite Hs in Hr. split; [done|]. intros Hok. rewrite Hb in Hs by done. injection Hs as <-.
    unfold parse_positive_count. by destruct (ScopedRoundToNearest (calls_in answers e)).
  - intros Hs. rewrite Hs in Hr. by destruct Hr.
  - intros Hok. rewrite Hb by done. by eexists.
Qed.

(** Truncation towards zero in force, every call succeeds. *)
Lemma environment_restored_witness :
  scoped_positive_count (mkFenvAnswers true true true true) (λ _, None) (Z.lor 32) (to_chars "0.1") "cfgcpf" (mkFenv OtherRounding 4 true) =
    Some (Ok (b64_ratio 1 10), mkFenv OtherRounding 4 true) ∧
  Ok (b64_ratio 1 10) =
    parse_positive_count (calls_in (mkFenvAnswers true true true true) (mkFenv OtherRounding 4 true)) (to_chars "0.1") "cfgcpf".
Proof.
  assert (scoped_positive_count (mkFenvAnswers true true true true) (λ _, None) (Z.lor 32) (to_chars "0.1") "cfgcpf"
    (mkFenv OtherRounding 4 true) = Some (Ok (b64_ratio 1 10), mkFenv OtherRounding 4 true)) as E
    by (vm_compute; reflexivity).
  split; [exact E|].
  destruct (environment_restored (mkFenvAnswers true true true true) (λ _, None) (Z.lor 32) (to_chars "0.1") "cfgcpf"
    (mkFenv OtherRounding 4 true)) as [H _].
  destruct (H _ _ E) as [_ Hr]. exact (Hr eq_refl).
Defined.
