(* ===== verification/Discovery.v ===== *)
(** * Discovery of the sensor configuration over HTTP

    [discovery.cpp].  libcurl is not part of the repository: what its functions
    answer is a parameter, a [Curl].  [curl_easy_perform] gives the chunks it
    passes to the write callback and its result code; as documented, it stops
    after a chunk for which the callback returns another number than the bytes
    of the chunk. *)

From S2P Require Import Prelude Floating Types Text XmlConfig.
From Stdlib Require Import Ascii.

Definition kMaximumResponseBytes : Z := 65536.
Definition kAtiConfigurationProtocol : string := "http".
Definition SIZE_MAX : Z := 2 ^ 64 - 1.

Record DiscoveryOptions := mkDiscoveryOptions {
  o_sensor_host : string; o_http_port : Z; connect_timeout : double; total_timeout : double
}.

Record ResponseBuffer := mkResponseBuffer {
  body : chars; too_large : bool; write_failed : bool
}.

#[export] Instance eta_ResponseBuffer : Eta ResponseBuffer := λ r,
  mkResponseBuffer (body r) (too_large r) (write_failed r).

Inductive UrlPart := UrlScheme | UrlHost | UrlPort | UrlPath.

Inductive Setting :=
  | SetUrl | SetProtocols (s : string) | SetFollowLocation (z : Z) | SetMaxRedirs (z : Z)
  | SetNoSignal (z : Z) | SetProxy (s : string) | SetConnectTimeoutMs (z : Z)
  | SetTimeoutMs (z : Z) | SetWriteFunction | SetWriteData.

(** A call of the write callback: [size] and [count], the bytes, and whether the
    string can grow to hold them. *)
Record Chunk := mkChunk { chunk_size : Z; chunk_count : Z; chunk_data : chars; chunk_stored : bool }.

Definition CURLE_OK : Z := 0.

Record Curl := mkCurl {
  curl_global_init : Z;
  curl_easy_init : bool;
  curl_url : bool;
  curl_url_set : UrlPart → string → Z;
  curl_easy_setopt : Setting → Z;
  curl_easy_perform : list (UrlPart * string) → list Setting → list Chunk * Z;
  curl_easy_strerror : Z → string;
  curl_response_code : Z * Z
}.

Definition is_ascii_blank_host (value : string) : bool := is_ascii_blank (to_chars value).

Section Discovery.
Context `{Platform}.

Definition timeout_milliseconds (seconds : double) (name : string) : result Z :=
  if negb (isfinite seconds) || SFleb seconds d0 then
    discovery_error (name +:+ " must be finite, positive, and representable")
  else
    let rounded_milliseconds := ld_ceil (ld_mul (ld_of_double seconds) (ld_of_Z 1000)) in
    if negb (isfinite rounded_milliseconds) || SFltb (ld_of_Z LONG_MAX) rounded_milliseconds then
      discovery_error (name +:+ " must be finite, positive, and representable")
    else Ok (cast_integer LONG_MAX rounded_milliseconds).

Definition validate_options (options : DiscoveryOptions) : result unit :=
  if is_ascii_blank_host (o_sensor_host options) then discovery_error "sensor_host must not be blank"
  else if (o_http_port options <? 1) || (65535 <? o_http_port options) then
    discovery_error "http_port must be in the range 1..65535"
  else
    _ ← timeout_milliseconds (connect_timeout options) "connect_timeout";
    _ ← timeout_milliseconds (total_timeout options) "total_timeout";
    Ok ().

(** The callback: the new buffer and the returned count.  [size_t] is 64 bits
    wide. *)
Definition append_response (response : ResponseBuffer) (c : Chunk) : ResponseBuffer * Z :=
  let size := chunk_size c in
  let count := chunk_count c in
  if negb (size =? 0) && (SIZE_MAX / size <? count) then (response <| too_large := true |>, 0)
  else
    let byte_count := u64 (size * count) in
    if u64 (kMaximumResponseBytes - Z.of_nat (length (body response))) <? byte_count then
      (response <| too_large := true |>, 0)
    else if chunk_stored c then (response <| body ::= λ b, b ++ chunk_data c |>, byte_count)
    else (response <| write_failed := true |>, 0).

(** The transfer feeds the callback until it refuses a chunk. *)
Fixpoint receive_body (response : ResponseBuffer) (chunks : list Chunk) : ResponseBuffer :=
  match chunks with
  | [] => response
  | c :: chunks =>
      let '(response, written) := append_response response c in
      if written =? chunk_size c * chunk_count c then receive_body response chunks else response
  end.

(** A host with a colon is an IPv6 literal and is bracketed. *)
Definition url_host (host : string) : string :=
  let l := to_chars host in
  if existsb (is_char ":") l &&
     ((length l <? 2)%nat ||
      negb (match l with c :: _ => is_char "[" c | [] => false end) ||
      negb (match last l with Some c => is_char "]" c | None => false end))
  then "[" +:+ host +:+ "]" else host.

Definition set_curl_option (curl : Curl) (s : Setting) : result unit :=
  ensure (curl_easy_setopt curl s =? CURLE_OK)
         (DiscoveryError "failed to configure sensor discovery request").

Definition set_url_part (curl : Curl) (p : UrlPart * string) : result unit :=
  ensure (curl_url_set curl (fst p) (snd p) =? 0) (DiscoveryError "invalid sensor discovery URL").

Definition url_parts (options : DiscoveryOptions) : list (UrlPart * string) :=
  [(UrlScheme, kAtiConfigurationProtocol); (UrlHost, url_host (o_sensor_host options));
   (UrlPort, pretty (o_http_port options)); (UrlPath, "/netftapi2.xml")].

(** The options in order, up to the two that compute a timeout. *)
Definition fixed_settings : list Setting :=
  [SetUrl; SetProtocols kAtiConfigurationProtocol; SetFollowLocation 0; SetMaxRedirs 0;
   SetNoSignal 1; SetProxy ""].

Definition configure (curl : Curl) (options : DiscoveryOptions) : result (list Setting) :=
  _ ← map_result (set_curl_option curl) fixed_settings;
  c ← timeout_milliseconds (connect_timeout options) "connect_timeout";
  _ ← set_curl_option curl (SetConnectTimeoutMs c);
  t ← timeout_milliseconds (total_timeout options) "total_timeout";
  _ ← set_curl_option curl (SetTimeoutMs t);
  _ ← map_result (set_curl_option curl) [SetWriteFunction; SetWriteData];
  Ok (fixed_settings ++ [SetConnectTimeoutMs c; SetTimeoutMs t; SetWriteFunction; SetWriteData]).

Definition discover_sensor (curl : Curl) (fe : nat → FpCalls) (options : DiscoveryOptions)
    : result SensorConfiguration :=
  _ ← validate_options options;
  _ ← ensure (curl_global_init curl =? CURLE_OK) (DiscoveryError "failed to initialize HTTP transport");
  _ ← ensure (curl_easy_init curl) (DiscoveryError "failed to create HTTP transport");
  _ ← ensure (curl_url curl) (DiscoveryError "failed to create sensor discovery URL");
  _ ← map_result (set_url_part curl) (url_parts options);
  settings ← configure curl options;
  let '(chunks, transfer_result) := curl_easy_perform curl (url_parts options) settings in
  let response := receive_body (mkResponseBuffer [] false false) chunks in
  if too_large response then discovery_error "sensor configuration response exceeds 65536 bytes"
  else if write_failed response then discovery_error "failed to store sensor configuration response"
  else if negb (transfer_result =? CURLE_OK) then
    discovery_error ("sensor configuration request failed: " +:+ curl_easy_strerror curl transfer_result)
  else
    let '(info, status) := curl_response_code curl in
    if negb (info =? CURLE_OK) then
      discovery_error "failed to inspect sensor configuration response"
    else if negb (status =? 200) then
      discovery_error ("sensor configuration request returned HTTP " +:+ pretty status)
    else parse_sensor_configuration fe (body response).
End Discovery.

(** [Client::Impl::configuration_for_session]: the options of a session. *)
Definition session_options (config : Config) : DiscoveryOptions :=
  mkDiscoveryOptions (sensor_host config) (http_port config) (configuration_connect_timeout config)
    (configuration_timeout config).

(** A server that answers the document of [sample_document] in two chunks. *)
Definition sample_curl : Curl :=
  mkCurl 0 true true (λ _ _, 0) (λ _, 0)
    (λ _ _, ([mkChunk 1 100 (take 100 sample_document) true;
              mkChunk 1 (Z.of_nat (length sample_document) - 100) (drop 100 sample_document) true], 0))
    (λ _, "error") (0, 200).

Example discover_sample :
  discover_sensor (H := linux_x86_64) sample_curl default_fp (session_options default_config) =
  parse_sensor_configuration default_fp sample_document.
Proof. vm_compute. reflexivity. Qed.

(** ** The response buffer *)

(** What libcurl documents of a chunk: sizes of a [size_t], and the bytes. *)
Definition wf_chunk (c : Chunk) : Prop :=
  is_u64 (chunk_size c) ∧ is_u64 (chunk_count c) ∧
  Z.of_nat (length (chunk_data c)) = chunk_size c * chunk_count c.

Definition wf_response (r : ResponseBuffer) : Prop :=
  Z.of_nat (length (body r)) ≤ kMaximumResponseBytes.

(** Without the overflow test the product is the number of bytes. *)
Lemma chunk_bytes c :
  wf_chunk c → negb (chunk_size c =? 0) && (SIZE_MAX / chunk_size c <? chunk_count c) = false →
  u64 (chunk_size c * chunk_count c) = chunk_size c * chunk_count c.
Proof.
  intros (Hs & Hc & _) Ho. apply u64_small. unfold is_u64, SIZE_MAX in *.
  destruct (Z.eqb_spec (chunk_size c) 0) as [->|Hz]; [lia|]. cbn [negb andb] in Ho.
  apply Z.ltb_ge in Ho. pose proof (Z.mul_div_le (2 ^ 64 - 1) (chunk_size c)). nia.
Qed.

(** One call of the callback. *)
Lemma append_response_spec r c :
  wf_response r → wf_chunk c →
  let '(r', n) := append_response r c in
  wf_response r' ∧
  ((n = chunk_size c * chunk_count c ∧ body r' = body r ++ chunk_data c ∧
    too_large r' = too_large r ∧ write_failed r' = write_failed r) ∨
   (n = 0 ∧ body r' = body r ∧
    (too_large r' = true ∧ write_failed r' = write_failed r ∧
       kMaximumResponseBytes < Z.of_nat (length (body r ++ chunk_data c)) ∨
     write_failed r' = true ∧ too_large r' = too_large r ∧ chunk_stored c = false))).
Proof.
  intros Hr Hc. pose proof Hc as (Hs & Hn & Hl). unfold append_response, wf_response in *.
  rewrite length_app, Nat2Z.inj_add, Hl.
  assert (u64 (kMaximumResponseBytes - Z.of_nat (length (body r))) =
          kMaximumResponseBytes - Z.of_nat (length (body r))) as Hsub.
  { apply u64_small. unfold is_u64, kMaximumResponseBytes in *. lia. }
  destruct (negb _ && _) eqn:Ho.
  - split; [done|]. right. split_and!; [done..|]. left. split_and!; [done..|].
    apply andb_prop in Ho as [Hz Ho%Z.ltb_lt]. apply negb_true_iff, Z.eqb_neq in Hz.
    unfold SIZE_MAX, kMaximumResponseBytes, is_u64 in *.
    pose proof (Z.mul_succ_div_gt (2 ^ 64 - 1) (chunk_size c)). nia.
  - rewrite (chunk_bytes c Hc Ho), Hsub. destruct (Z.ltb_spec (kMaximumResponseBytes - Z.of_nat (length (body r)))
      (chunk_size c * chunk_count c)).
    + split; [done|]. right. split_and!; [done..|]. left. split_and!; [done..|lia].
    + destruct (chunk_stored c); cbn.
      * rewrite length_app, Nat2Z.inj_add, Hl. split; [lia|]. by left.
      * split; [done|]. right. split_and!; [done..|]. by right.
Qed.

(** A transfer that set no flag stored every chunk, in order, within the limit;
    a flag means that the whole response does not fit or could not be stored. *)
Lemma receive_body_spec chunks r :
  wf_response r → Forall wf_chunk chunks →
  let r' := receive_body r chunks in
  let whole := body r ++ concat (chunk_data <$> chunks) in
  wf_response r' ∧
  (too_large r' = false → write_failed r' = false →
     too_large r = false ∧ write_failed r = false ∧ body r' = whole) ∧
  (too_large r' = true → too_large r = true ∨ kMaximumResponseBytes < Z.of_nat (length whole)) ∧
  (write_failed r' = true → write_failed r = true ∨ ∃ c, In c chunks ∧ chunk_stored c = false).
Proof.
  intros Hr Hc. revert r Hr.
  induction Hc as [|c chunks Hc _ IH]; intros r Hr; cbn [receive_body fmap list_fmap concat].
  { rewrite app_nil_r. split_and!; by auto. }
  pose proof (append_response_spec r c Hr Hc) as Hs.
  destruct (append_response r c) as [r1 n]. destruct Hs as [Hr1 Hs]. rewrite app_assoc.
  destruct (IH r1 Hr1) as (H1 & H2 & H3 & H4).
  destruct (Z.eqb_spec n (chunk_size c * chunk_count c)) as [Hn|Hn].
  - assert (body r1 = body r ++ chunk_data c ∧ (too_large r1 = true → too_large r = true) ∧
      (too_large r = true → too_large r1 = true) ∧ (write_failed r = true → write_failed r1 = true) ∧
      (write_failed r1 = true → write_failed r = true ∨ chunk_stored c = false)) as (Hb & Ht1 & Ht2 & Hw1 & Hw2).
    { destruct Hs as [(_ & -> & -> & ->)|(Hn0 & Hb & Hf)]; [by split_and!; auto|].
      assert (chunk_data c = []) as Hd.
      { apply length_zero_iff_nil. destruct Hc as (_ & _ & Hl). lia. }
      rewrite Hd, app_nil_r in *. split; [done|]. unfold wf_response in Hr.
      destruct Hf as [(_ & _ & Hf)|(Hf & -> & ?)]; [lia|]. split_and!; by auto. }
    rewrite <- Hb. split_and!; [done|..].
    + intros Ha Hb'. destruct (H2 Ha Hb') as (? & ? & ?).
      destruct (too_large r), (write_failed r); naive_solver.
    + naive_solver.
    + intros Hf. destruct (H4 Hf) as [Hf'|(x & ? & ?)]; [|right; exists x; by split; [right|]].
      destruct (Hw2 Hf') as [|]; [by left|right; exists c; by split; [left|]].
  - destruct Hs as [(Hn' & _)|(_ & Hb & Hf)]; [done|].
    split_and!; [done|..]; destruct Hf as [(Hf & Hw & Hl)|(Hf & Ht & Hst)].
    + by rewrite Hf.
    + intros _. by rewrite Hf.
    + intros _. right. rewrite length_app. lia.
    + rewrite Ht. by left.
    + rewrite Hw. by left.
    + intros _. right. exists c. by split; [left|].
Qed.

(** ** Timeouts *)

Section Timeouts.
Context `{P : Platform}.

Lemma ld_emin : emin ld_prec ld_emax ≤ -1074.
Proof. unfold ld_prec, ld_emax. destruct ld_format; vm_compute; done. Qed.

Lemma ld_1000 : ∃ m e, ld_of_Z 1000 = S754_finite false m e ∧ 0 < Zdigits2 (Zpos m) + e.
Proof. unfold ld_prec, ld_emax. destruct ld_format; by do 2 eexists. Qed.

Lemma SFltb_leb x y : SFltb x y = true → SFleb x y = true.
Proof. unfold SFltb, SFleb. by destruct (SFcompare x y) as [[]|]. Qed.

(** A positive timeout below the limit of the HTTP timer is a number of
    milliseconds from 1 to [LONG_MAX]. *)
Lemma timeout_milliseconds_ok m e name :
  valid64 (S754_finite false m e) = true →
  SFleb (ld_of_Z LONG_MAX)
    (ld_ceil (ld_mul (ld_of_double (S754_finite false m e)) (ld_of_Z 1000))) = false →
  ∃ ms, timeout_milliseconds (S754_finite false m e) name = Ok ms ∧ 1 ≤ ms ≤ LONG_MAX.
Proof.
  intros Hv Hlt. pose proof ld_prec_gt_1 as Hp. pose proof ld_prec_lt_emax as He.
  assert (isfinite (ld_of_Z LONG_MAX) = true) as HM by apply ld_long_max.
  assert (SFleb (ld_of_Z LONG_MAX) (S754_infinity false) = true) as Hinf
    by (destruct (ld_of_Z LONG_MAX) as [|[]| |[]]; done).
  destruct ld_1000 as (m2 & e2 & H1000 & Hd2).
  assert (valid_binary ld_prec ld_emax (S754_finite false m2 e2) = true) as Hv2
    by (rewrite <- H1000; by apply fl_of_Z_valid).
  unfold timeout_milliseconds. cbn [isfinite negb orb].
  change (SFleb (S754_finite false m e) d0) with false. cbn [orb].
  pose proof (fl_convert_valid ld_prec ld_emax Hp (S754_finite false m e)) as Hcv.
  destruct (fl_convert_positive ld_prec ld_emax Hp m e) as [Hc|(m1 & e1 & Hc)].
  { apply (valid_finite_spec 53 1024) in Hv as (_ & Hv & _). change (emin 53 1024) with (-1074) in Hv.
    pose proof (Zdigits2_spec (Zpos m) eq_refl). pose proof ld_emin. lia. }
  { rewrite Hc, H1000 in Hlt. change (SFmul _ _ _ _) with (S754_infinity false) in Hlt. cbn [fl_ceil] in Hlt. congruence. }
  rewrite Hc in *. rewrite H1000 in *.
  pose proof (SFmul_valid ld_prec ld_emax Hp He _ _ Hcv Hv2) as Hmv.
  destruct (SFmul_positive ld_prec ld_emax Hp He m1 e1 m2 e2 Hcv Hv2 Hd2) as [Hm|(m3 & e3 & Hm)];
    rewrite Hm in *; [cbn [fl_ceil] in Hlt; congruence|].
  destruct (fl_ceil_positive ld_prec ld_emax Hp He m3 e3 Hmv) as (H1 & Hf & Hcval & Hpos).
  rewrite Hf. cbn [negb orb].
  destruct (SFltb (ld_of_Z LONG_MAX) _) eqn:E; [apply SFltb_leb in E; congruence|].
  destruct (cast_integer_below LONG_MAX (ld_ceil (S754_finite false m3 e3))) as [-> [_ H2]];
    [by unfold LONG_MAX; destruct long_64|apply ld_long_max|done..|].
  by eexists.
Qed.

(** The largest timeout the options admit is out of the range of the cast where [long
    double] rounds [LONG_MAX] up. *)
Example timeout_cast_undefined u :
  timeout_milliseconds (H := mkPlatform LdBinary64 true u) (S754_finite false 4611686018427388 1) "t" =
  Ok (u (b64_of_Z (2 ^ 63))).
Proof. vm_compute. reflexivity. Qed.

Definition http_timeout (v : double) : Prop :=
  (∃ m e, v = S754_finite false m e) ∧
  SFleb (ld_of_Z LONG_MAX) (ld_ceil (ld_mul (ld_of_double v) (ld_of_Z 1000))) = false.

Lemma require_safe_timeout_http now name v u :
  require_safe_timeout now name v true = Ok u →
  http_timeout v.
Proof.
  unfold require_safe_timeout. intros H. inv_ok. split; [by eapply positive_finite|done].
Qed.

Lemma validated_timeout v name :
  valid64 v = true → http_timeout v → ∃ ms, timeout_milliseconds v name = Ok ms ∧ 1 ≤ ms ≤ LONG_MAX.
Proof. intros Hv [(m & e & ->) Hlt]. by apply timeout_milliseconds_ok. Qed.

Lemma validate_config_http clock c :
  validate_config clock c = Ok () →
  is_blank (sensor_host c) = false ∧ 1 ≤ http_port c ≤ 65535 ∧
  http_timeout (configuration_connect_timeout c) ∧ http_timeout (configuration_timeout c).
Proof.
  unfold validate_config. intros Hv. inv_ok.
  repeat match goal with
  | H : require_safe_timeout _ _ _ true = Ok _ |- _ => apply require_safe_timeout_http in H
  | H : require_port _ _ = Ok _ |- _ => apply require_port_ok in H
  end.
  by split_and!; try lia.
Qed.

Lemma is_space_whitespace c : is_ascii_whitespace c = is_space c.
Proof. destruct c as [[] [] [] [] [] [] [] []]; reflexivity. Qed.

Lemma is_ascii_blank_is_blank s : is_ascii_blank_host s = is_blank s.
Proof.
  unfold is_ascii_blank_host, is_ascii_blank, is_blank, to_chars.
  induction (String.list_ascii_of_string s) as [|c l IH]; [done|]. cbn [forallb]. by rewrite IH, is_space_whitespace.
Qed.

(** The options the client derives from a validated configuration pass the
    checks of discovery, on every platform: both timeouts are between one
    millisecond and [LONG_MAX] milliseconds (never 0, which libcurl reads as no limit). *)
Theorem validated_discovery_options clock c :
  valid64 (configuration_connect_timeout c) = true → valid64 (configuration_timeout c) = true →
  validate_config clock c = Ok () →
  validate_options (session_options c) = Ok () ∧
  (∃ ms, timeout_milliseconds (configuration_connect_timeout c) "connect_timeout" = Ok ms ∧ 1 ≤ ms ≤ LONG_MAX) ∧
  (∃ ms, timeout_milliseconds (configuration_timeout c) "total_timeout" = Ok ms ∧ 1 ≤ ms ≤ LONG_MAX).
Proof.
  intros Hv1 Hv2 (Hb & Hp & Hc & Ht)%validate_config_http.
  destruct (validated_timeout _ "connect_timeout" Hv1 Hc) as (ms1 & Hms1 & ?).
  destruct (validated_timeout _ "total_timeout" Hv2 Ht) as (ms2 & Hms2 & ?).
  split_and!; [|by eexists..]. unfold validate_options, session_options.
  cbn [o_sensor_host o_http_port connect_timeout total_timeout].
  rewrite is_ascii_blank_is_blank, Hb, Hms1, Hms2.
  destruct (Z.ltb_spec (http_port c) 1), (Z.ltb_spec 65535 (http_port c)); done || lia.
Qed.

End Timeouts.

Lemma validated_discovery_options_witness :
  validate_options (H := linux_x86_64) (session_options default_config) = Ok ().
Proof.
  apply (validated_discovery_options (P := linux_x86_64) (λ _, 1000000) default_config);
    vm_compute; reflexivity.
Defined.

(** ** The outcome of a discovery *)

(** The host part of the URL: brackets are added once, to a host with a colon. *)
Lemma url_host_idempotent host : url_host (url_host host) = url_host host.
Proof.
  unfold url_host at 2 3. case_split; [|unfold url_host; by rewrite Heqb].
  unfold url_host. case_split; [|done].
  apply andb_prop in Heqb0 as [_ Hb].
  assert (to_chars ("[" +:+ host +:+ "]") = "["%char :: to_chars host ++ ["]"%char]) as Hl.
  { change (to_chars ("[" +:+ host +:+ "]")) with ("["%char :: to_chars (host +:+ "]")).
    by rewrite to_chars_app. }
  rewrite Hl in Hb.
  assert (last ("["%char :: to_chars host ++ ["]"%char]) = Some "]"%char) as Hlast
    by apply (last_snoc ("]"%char) ("["%char :: to_chars host)).
  rewrite Hlast in Hb. cbn [length] in Hb. rewrite length_app in Hb. cbn [length] in Hb.
  replace (S (length (to_chars host) + 1) <? 2)%nat with false in Hb by (symmetry; apply Nat.ltb_ge; lia).
  done.
Qed.

Lemma ensure_discovery b w : only_discovery (ensure b (DiscoveryError w)).
Proof. by destruct b. Qed.
#[local] Hint Resolve ensure_discovery parse_sensor_configuration_discovery : discovery.

Lemma timeout_discovery `{P : Platform} v name : only_discovery (timeout_milliseconds v name).
Proof. unfold timeout_milliseconds. discovery. Qed.
#[local] Hint Resolve timeout_discovery : discovery.

Lemma discover_discovery `{P : Platform} curl fe options : only_discovery (discover_sensor curl fe options).
Proof.
  unfold discover_sensor, configure, validate_options, set_curl_option, set_url_part.
  discovery; try (apply map_result_discovery; intros ?; apply ensure_discovery).
Qed.

Lemma configure_ok `{P : Platform} curl options settings :
  configure curl options = Ok settings →
  ∃ c t, timeout_milliseconds (connect_timeout options) "connect_timeout" = Ok c ∧
         timeout_milliseconds (total_timeout options) "total_timeout" = Ok t ∧
         settings = fixed_settings ++ [SetConnectTimeoutMs c; SetTimeoutMs t; SetWriteFunction; SetWriteData].
Proof. unfold configure. intros H. inv_ok. subst. by eexists _, _. Qed.

(** C32: discovery makes one request, for "/netftapi2.xml" over HTTP on the
    bracketed host, without proxy or redirects and with both timeouts set; it
    gives a configuration only when the transfer succeeded with status 200 and
    the response has at most 65536 bytes, and then the one the whole response
    parses to.  Every failure is a discovery error. *)
Theorem discover_sensor_outcome `{P : Platform} curl fe options :
  (∀ u s, Forall wf_chunk (fst (curl_easy_perform curl u s))) →
  match discover_sensor curl fe options with
  | Ok c =>
      validate_options options = Ok () ∧
      ∃ connect total chunks,
        timeout_milliseconds (connect_timeout options) "connect_timeout" = Ok connect ∧
        timeout_milliseconds (total_timeout options) "total_timeout" = Ok total ∧
        curl_easy_perform curl
          [(UrlScheme, "http"); (UrlHost, url_host (o_sensor_host options));
           (UrlPort, pretty (o_http_port options)); (UrlPath, "/netftapi2.xml")]
          [SetUrl; SetProtocols "http"; SetFollowLocation 0; SetMaxRedirs 0; SetNoSignal 1;
           SetProxy ""; SetConnectTimeoutMs connect; SetTimeoutMs total; SetWriteFunction;
           SetWriteData] = (chunks, CURLE_OK) ∧
        curl_response_code curl = (CURLE_OK, 200) ∧
        Z.of_nat (length (concat (chunk_data <$> chunks))) ≤ 65536 ∧
        parse_sensor_configuration fe (concat (chunk_data <$> chunks)) = Ok c
  | Throw e => ∃ w, e = DiscoveryError w
  end.
Proof.
  intros Hcurl. pose proof (discover_discovery curl fe options) as Hd.
  destruct (discover_sensor curl fe options) as [c|[]] eqn:E; try done; [|by eexists].
  unfold discover_sensor in E. inv_ok.
  match goal with H : configure _ _ = Ok _ |- _ => apply configure_ok in H as (ct & tt' & Hc & Ht & ->) end.
  change (fixed_settings ++ [SetConnectTimeoutMs ct; SetTimeoutMs tt'; SetWriteFunction; SetWriteData])
    with [SetUrl; SetProtocols "http"; SetFollowLocation 0; SetMaxRedirs 0; SetNoSignal 1; SetProxy "";
          SetConnectTimeoutMs ct; SetTimeoutMs tt'; SetWriteFunction; SetWriteData] in *.
  match goal with H : context [curl_easy_perform curl ?u ?s] |- _ =>
    rename H into E; pose proof (Hcurl u s) as Hch; destruct (curl_easy_perform curl u s) as [chunks code] eqn:Hp end.
  cbn [fst] in Hch.
  destruct (receive_body_spec chunks (mkResponseBuffer [] false false)) as (Hwf & Hb & _); [by vm_compute|done|].
  repeat case_split_in E; try done.
  destruct (curl_response_code curl) as [info st] eqn:Hcode. repeat case_split_in E; try done.
  repeat match goal with H : negb (_ =? _) = false |- _ => apply negb_false_iff, Z.eqb_eq in H end. subst.
  destruct Hb as (_ & _ & Hb); [done..|]. cbn [body app] in Hb. unfold wf_response in Hwf. rewrite Hb in *.
  destruct x. split; [done|]. by exists ct, tt', chunks.
Qed.

Lemma discover_sensor_outcome_witness :
  Z.of_nat (length (concat (chunk_data <$>
    fst (curl_easy_perform sample_curl [] [])))) ≤ 65536.
Proof.
  pose proof (discover_sensor_outcome (P := linux_x86_64) sample_curl default_fp (session_options default_config)) as H.
  destruct (discover_sensor (H := linux_x86_64) sample_curl default_fp (session_options default_config)) as [c|e] eqn:E.
  - destruct H as (_ & ct & t & chunks & _ & _ & Hp & _ & Hl & _).
    + intros u s. cbn [sample_curl curl_easy_perform fst].
      repeat apply Forall_cons_2; try apply Forall_nil_2; apply (bool_decide_unpack _); by vm_compute.
    + cbn [sample_curl curl_easy_perform] in Hp. injection Hp as <-. exact Hl.
  - rewrite discover_sample in E. by vm_compute in E.
Defined.
