(* ===== verification/AdapterConfig.v ===== *)
(** * Parameters of the standalone nodes

    [ros/adapter_config.hpp]: the mapping of the node parameters to the
    configuration of the client and of the adapter. *)

From S2P Require Import Prelude Floating Types Text.
From Stdlib Require Import Ascii.

Record AdapterParameters := mkAdapterParameters {
  sensor_ip : string; sensor_port : Z; p_http_port : Z;
  p_frame_id : string; p_wrench_topic : string; p_bias_service : string;
  p_allow_bias : bool; use_sensor_calibration : bool;
  counts_per_force : double; counts_per_torque : double;
  publish_rate : double; p_receive_timeout : double;
  p_configuration_connect_timeout : double; p_configuration_timeout : double;
  p_reconnect_initial_delay : double; p_reconnect_max_delay : double;
  p_diagnostics_rate : double; p_expected_rdt_rate : double; p_rate_tolerance : double;
  publish_on_error : bool
}.

Definition default_parameters : AdapterParameters :=
  mkAdapterParameters "192.168.1.1" 49152 80 "netft_link" "/netft/wrench" "/netft/bias" true true
    (b64_of_Z 1000000) (b64_of_Z 1000000) d0 (b64_ratio 1 10) (b64_ratio 1 2) (b64_of_Z 1)
    (b64_ratio 1 4) (b64_of_Z 5) (b64_of_Z 1) (b64_of_Z 2000) (b64_ratio 1 5) false.

Record AdapterConfig := mkAdapterConfig {
  client : Config; frame_id : string; wrench_topic : string; bias_service : string;
  allow_bias : bool; diagnostics_rate : double; expected_rdt_rate : double; rate_tolerance : double
}.

Definition non_empty (name value : string) : result unit :=
  if is_ascii_blank (to_chars value) then Throw (InvalidArgument (name +:+ " must be non-empty"))
  else Ok ().

Section Adapter.
Context `{P : Platform}.

(** [1.0e9L / rate]: the period in nanoseconds. *)
Definition period_nanoseconds (rate : double) : spec_float :=
  ld_div (ld_of_Z 1000000000) (ld_of_double rate).

(** The period is below 1 or not below [INT64_MAX]. *)
Definition period_out_of_range (rate : double) : bool :=
  SFltb (period_nanoseconds rate) (ld_of_Z 1) || SFleb (ld_of_Z INT64_MAX) (period_nanoseconds rate).

Definition validate_adapter_config (frame_id wrench_topic bias_service : string)
    (diagnostics_rate : double) : result unit :=
  _ ← non_empty "frame_id" frame_id;
  _ ← non_empty "wrench_topic" wrench_topic;
  _ ← non_empty "bias_service" bias_service;
  if negb (isfinite diagnostics_rate) || SFleb diagnostics_rate d0 || period_out_of_range diagnostics_rate
  then Throw (InvalidArgument "diagnostics_rate must be finite and greater than zero")
  else Ok ().

Definition mapped_client (p : AdapterParameters) : Config :=
  default_config
    <| sensor_host := sensor_ip p |>
    <| rdt_port := sensor_port p |>
    <| http_port := p_http_port p |>
    <| receive_timeout := p_receive_timeout p |>
    <| configuration_connect_timeout := p_configuration_connect_timeout p |>
    <| configuration_timeout := p_configuration_timeout p |>
    <| reconnect_initial_delay := p_reconnect_initial_delay p |>
    <| reconnect_max_delay := p_reconnect_max_delay p |>
    <| sample_rate_limit_hz := publish_rate p |>
    <| deliver_samples_with_error_status := publish_on_error p |>
    <| calibration_override :=
         if use_sensor_calibration p then None
         else Some (mkCalibration (counts_per_force p) (counts_per_torque p) Newton NewtonMeter) |>.

Definition map_adapter_parameters (clock : nat → Z) (p : AdapterParameters) : result AdapterConfig :=
  let mapped := mkAdapterConfig (mapped_client p) (p_frame_id p) (p_wrench_topic p) (p_bias_service p)
    (p_allow_bias p) (p_diagnostics_rate p) (p_expected_rdt_rate p) (p_rate_tolerance p) in
  _ ← validate_config clock (client mapped);
  _ ← validate_adapter_config (frame_id mapped) (wrench_topic mapped) (bias_service mapped)
        (diagnostics_rate mapped);
  if negb (isfinite (expected_rdt_rate mapped)) || SFleb (expected_rdt_rate mapped) d0 then
    Throw (InvalidArgument "expected_rdt_rate must be finite and greater than zero")
  else if negb (isfinite (rate_tolerance mapped)) || SFltb (rate_tolerance mapped) d0 ||
          SFltb (b64_of_Z 1) (rate_tolerance mapped) then
    Throw (InvalidArgument "rate_tolerance must be between 0 and 1")
  else Ok mapped.

(** ** The period of the diagnostics timer *)

Lemma ld_one : ∃ m e, ld_of_Z 1 = S754_finite false m e ∧
  sval ld_prec ld_emax (ld_of_Z 1) = 2 ^ (- emin ld_prec ld_emax).
Proof. unfold ld_prec, ld_emax. destruct ld_format; do 2 eexists; (split; [reflexivity|vm_compute; reflexivity]). Qed.

(** A finite value not below one truncates to at least 1. *)
Lemma fl_trunc_at_least_one x :
  valid_binary ld_prec ld_emax x = true → isfinite x = true → SFltb x (ld_of_Z 1) = false → 1 ≤ fl_trunc x.
Proof.
  intros Hv Hf Hlt. destruct ld_one as (m1 & e1 & H1 & Hs).
  pose proof ld_prec_gt_1 as Hp. pose proof ld_prec_lt_emax as He.
  assert (emin ld_prec ld_emax < 0) by (unfold emin; lia).
  assert (0 < 2 ^ (- emin ld_prec ld_emax)) by (apply Z.pow_pos_nonneg; lia).
  unfold SFltb in Hlt. rewrite (SFcompare_sval ld_prec ld_emax) in Hlt
    by (done || by apply fl_of_Z_valid || by rewrite H1). rewrite Hs in Hlt.
  destruct (Z.compare_spec (sval ld_prec ld_emax x) (2 ^ (- emin ld_prec ld_emax))) as [Hc|Hc|Hc]; try done;
    (destruct x as [|[]| |[] m e]; try done; [cbn in Hc; lia|cbn in Hc; nia|];
     rewrite (fl_trunc_floor ld_prec ld_emax) by done; apply Z.div_le_lower_bound; lia).
Qed.

(** The quotient of finite floats is not a NaN unless both are zero. *)
Lemma period_not_nan m e : is_nan (period_nanoseconds (S754_finite false m e)) = false.
Proof.
  pose proof ld_prec_gt_1 as Hp. pose proof ld_prec_lt_emax as He.
  assert (∃ m1 e1, ld_of_Z 1000000000 = S754_finite false m1 e1) as (m1 & e1 & H1)
    by (unfold ld_prec, ld_emax; destruct ld_format; by do 2 eexists).
  unfold period_nanoseconds. rewrite H1.
  destruct (ld_of_double (S754_finite false m e)) as [s|s| |s m2 e2] eqn:E; try done.
  - pose proof (fl_convert_not_nan ld_prec ld_emax Hp false m e) as Hn. by rewrite E in Hn.
  - by apply SFdiv_finite_not_nan.
Qed.

(** A rate that passes the test has a period of 1 to [INT64_MAX] nanoseconds. *)
Lemma period_in_range rate :
  isfinite rate = true → SFleb rate d0 = false → period_out_of_range rate = false →
  isfinite (period_nanoseconds rate) = true ∧ 1 ≤ fl_trunc (period_nanoseconds rate) ≤ INT64_MAX.
Proof.
  intros Hf Hpos [Hlo Hhi]%orb_false_elim.
  destruct rate as [| | |[] m e]; try done.
  pose proof ld_prec_gt_1 as Hp. pose proof ld_prec_lt_emax as He.
  assert (valid_binary ld_prec ld_emax (period_nanoseconds (S754_finite false m e)) = true) as Hv.
  { apply SFdiv_valid; [done..|by apply fl_of_Z_valid|by apply fl_convert_valid]. }
  pose proof (period_not_nan m e) as Hn.
  assert (isfinite (period_nanoseconds (S754_finite false m e)) = true) as Hfin.
  { destruct ld_int64_max as (_ & Hm & _).
    destruct (period_nanoseconds (S754_finite false m e)) as [|[]| |]; try done.
    - destruct ld_one as (? & ? & H1 & _). by rewrite H1 in Hlo.
    - by destruct (ld_of_Z INT64_MAX) as [|[]| |[]]. }
  split; [done|]. split; [by apply fl_trunc_at_least_one|].
  apply fl_trunc_below; try done; [apply ld_int64_max|].
  destruct ld_one as (m1 & e1 & H1 & _). rewrite H1 in Hlo.
  by destruct (period_nanoseconds (S754_finite false m e)) as [|[]| |[]].
Qed.

Lemma non_empty_ok name v u : non_empty name v = Ok u → is_ascii_blank (to_chars v) = false.
Proof. unfold non_empty. intros H. by inv_ok. Qed.

(** An accepted set of node parameters gives the configuration it names, with
    a client configuration that passed validation and keeps the reconnecting
    policy, names that are not blank, a diagnostics period between 1 and [INT64_MAX]
    nanoseconds, a positive expected rate and a tolerance between 0 and 1; the
    override is set exactly when the calibration of the sensor is not used. *)
Theorem map_adapter_parameters_sound clock p cfg :
  map_adapter_parameters clock p = Ok cfg →
  client cfg = mapped_client p ∧ validate_config clock (client cfg) = Ok () ∧
  recovery_policy (client cfg) = Reconnect ∧
  (calibration_override (client cfg) = None ↔ use_sensor_calibration p = true) ∧
  Forall (λ s, is_ascii_blank (to_chars s) = false) [frame_id cfg; wrench_topic cfg; bias_service cfg] ∧
  1 ≤ fl_trunc (period_nanoseconds (diagnostics_rate cfg)) ≤ INT64_MAX ∧
  (∃ m e, expected_rdt_rate cfg = S754_finite false m e) ∧
  SFleb d0 (rate_tolerance cfg) = true ∧ SFleb (rate_tolerance cfg) (b64_of_Z 1) = true.
Proof.
  unfold map_adapter_parameters, validate_adapter_config. intros H. inv_ok. subst cfg.
  repeat match goal with H : non_empty _ _ = Ok _ |- _ => apply non_empty_ok in H end.
  match goal with H : validate_config _ _ = Ok ?u |- _ => destruct u end.
  cbn [client frame_id wrench_topic bias_service diagnostics_rate expected_rdt_rate rate_tolerance] in *.
  split_and!; try done.
  - cbn. by destruct (use_sensor_calibration p).
  - by repeat (apply Forall_cons_2; [done|]).
  - by apply period_in_range.
  - by apply period_in_range.
  - destruct (p_expected_rdt_rate p) as [| | |[]]; try done. eauto.
  - apply SFltb_false_leb; [|done|done]. by destruct (p_rate_tolerance p).
  - apply SFltb_false_leb; [done| |done]. by destruct (p_rate_tolerance p).
Qed.
End Adapter.

Lemma map_adapter_parameters_sound_witness :
  is_ok (map_adapter_parameters (P := linux_x86_64) (λ _, 1000000) default_parameters) = true ∧
  fl_trunc (period_nanoseconds (P := linux_x86_64) (b64_of_Z 1)) ≤ INT64_MAX.
Proof.
  split; [vm_compute; reflexivity|].
  destruct (map_adapter_parameters (P := linux_x86_64) (λ _, 1000000) default_parameters) as [cfg|e] eqn:E.
  - destruct (map_adapter_parameters_sound (P := linux_x86_64) _ _ _ E) as (_ & _ & _ & _ & _ & [_ H] & _).
    assert (diagnostics_rate cfg = b64_of_Z 1) as <-; [|exact H].
    change (diagnostics_rate cfg) with (default d0 (Some (diagnostics_rate cfg))).
    vm_compute in E. injection E as <-. reflexivity.
  - vm_compute in E. discriminate.
Defined.
