(* ===== verification/Protocol.v ===== *)
(** * The RDT wire protocol

    [detail/protocol.hpp] and [detail/protocol.cpp]: request encoding and the
    36-byte record decoder.  [put_u32] and [make_record] are the encoder of the
    sensor side, from the repository's fake sensor. *)

From S2P Require Import Prelude.
From Stdlib Require Import Init.Byte.

(** ** Data *)

Inductive Command :=
  | StopStreaming | StartRealtime | StartBuffered | ResetConditionLatch | SetSoftwareBias.

#[global] Instance Command_eq_dec : EqDecision Command.
Proof. solve_decision. Defined.

(** The enumerators' values. *)
Definition command_value (c : Command) : Z :=
  match c with
  | StopStreaming => 0x0000
  | StartRealtime => 0x0002
  | StartBuffered => 0x0003
  | ResetConditionLatch => 0x0041
  | SetSoftwareBias => 0x0042
  end.

Record RawRecord := mkRawRecord {
  raw_rdt_sequence : Z; raw_ft_sequence : Z; raw_status : Z;
  fx : Z; fy : Z; fz : Z; tx : Z; ty : Z; tz : Z
}.

(** ** Operations *)

(** [data[i]] of a [const std::uint8_t *]. *)
Definition byte_at (data : list byte) (i : nat) : Z := byte_val (nth i data x00).

Definition read_u32 (data : list byte) : Z :=
  Z.lor (Z.lor (Z.lor (u32 (Z.shiftl (byte_at data 0) 24))
                      (u32 (Z.shiftl (byte_at data 1) 16)))
               (u32 (Z.shiftl (byte_at data 2) 8)))
        (byte_at data 3).

Definition read_i32 (data : list byte) : Z :=
  let value := read_u32 data in
  if value <=? 0x7fffffff then i32 value
  else - i32 (u32 (Z.lnot value)) - 1.

Definition encode_request (command : Command) (count : Z) : list byte :=
  let value := u16 (command_value command) in
  [x12; x34; to_byte (Z.shiftr value 8); to_byte value;
   to_byte (Z.shiftr count 24); to_byte (Z.shiftr count 16);
   to_byte (Z.shiftr count 8); to_byte count].

(** [data] is [None] for the null pointer; [data + n] is [drop n]. *)
Definition decode_record (data : option (list byte)) (size : Z) : result RawRecord :=
  if negb (size =? 36) then
    Throw (ProtocolError ("RDT record must be exactly 36 bytes, received " +:+ pretty size))
  else match data with
  | None => Throw (ProtocolError "RDT record data must not be null")
  | Some d =>
      Ok (mkRawRecord (read_u32 d) (read_u32 (drop 4 d)) (read_u32 (drop 8 d))
            (read_i32 (drop 12 d)) (read_i32 (drop 16 d)) (read_i32 (drop 20 d))
            (read_i32 (drop 24 d)) (read_i32 (drop 28 d)) (read_i32 (drop 32 d)))
  end.

(** The sensor side. *)
Definition put_u32 (bytes : list byte) (offset : nat) (value : Z) : list byte :=
  foldl (λ bs index, <[(offset + index)%nat := to_byte (Z.shiftr value (24 - 8 * Z.of_nat index))]> bs)
        bytes (seq 0 4).

Definition make_record (rdt_sequence status ft_sequence : Z) (axes : list Z) : list byte :=
  let data := replicate 36 x00 in
  let data := put_u32 data 0 rdt_sequence in
  let data := put_u32 data 4 ft_sequence in
  let data := put_u32 data 8 status in
  foldl (λ d '(index, axis), put_u32 d (12 + 4 * index) (u32 axis))
        data (imap pair axes).

(** The bytes a record travels as. *)
Definition encode_record (r : RawRecord) : list byte :=
  make_record (raw_rdt_sequence r) (raw_status r) (raw_ft_sequence r)
              [fx r; fy r; fz r; tx r; ty r; tz r].

(** The value ranges of the C++ field types. *)
Definition wf_record (r : RawRecord) : Prop :=
  is_u32 (raw_rdt_sequence r) ∧ is_u32 (raw_ft_sequence r) ∧ is_u32 (raw_status r) ∧
  is_i32 (fx r) ∧ is_i32 (fy r) ∧ is_i32 (fz r) ∧
  is_i32 (tx r) ∧ is_i32 (ty r) ∧ is_i32 (tz r).

(** Big-endian value of a byte string. *)
Definition be_value (bs : list byte) : Z :=
  foldl (λ acc b, 256 * acc + byte_val b) 0 bs.

(** ** Lemmas *)

Lemma lor_add a b n : 0 ≤ n → 0 ≤ b < 2 ^ n → a mod 2 ^ n = 0 → Z.lor a b = a + b.
Proof.
  intros Hn Hb Ha. rewrite <- Z.add_lor_land.
  assert (Z.land a b = 0) as ->; [|lia].
  apply Z.bits_inj'; intros i Hi. rewrite Z.land_spec, Z.bits_0.
  destruct (Z.lt_ge_cases i n) as [Hlt|Hge].
  - assert (Z.testbit a i = false) as ->; [|done].
    rewrite <- (Z.mod_pow2_bits_low a n i) by lia. by rewrite Ha, Z.bits_0.
  - assert (Z.testbit b i = false) as ->; [|by rewrite andb_false_r].
    rewrite <- (Z.mod_small b (2 ^ n)) by lia. by apply Z.mod_pow2_bits_high.
Qed.

Lemma read_u32_value d :
  read_u32 d = 16777216 * byte_at d 0 + 65536 * byte_at d 1 + 256 * byte_at d 2 + byte_at d 3.
Proof.
  unfold read_u32, byte_at.
  pose proof (byte_val_range (nth 0 d x00)). pose proof (byte_val_range (nth 1 d x00)).
  pose proof (byte_val_range (nth 2 d x00)). pose proof (byte_val_range (nth 3 d x00)).
  rewrite !Z.shiftl_mul_pow2 by lia.
  rewrite !u32_small by width_lia.
  rewrite (lor_add (_ * 2 ^ 24) (_ * 2 ^ 16) 24), (lor_add _ (_ * 2 ^ 8) 16),
    (lor_add _ (byte_val _) 8); try lia; Z.div_mod_to_equations; lia.
Qed.

Lemma read_u32_range d : is_u32 (read_u32 d).
Proof.
  rewrite read_u32_value. unfold byte_at.
  pose proof (byte_val_range (nth 0 d x00)). pose proof (byte_val_range (nth 1 d x00)).
  pose proof (byte_val_range (nth 2 d x00)). pose proof (byte_val_range (nth 3 d x00)).
  width_lia.
Qed.

(** The four bytes [put_u32] stores are read back. *)
Definition be_bytes (v : Z) : list byte :=
  [to_byte (Z.shiftr v 24); to_byte (Z.shiftr v 16); to_byte (Z.shiftr v 8); to_byte v].

Lemma read_be_bytes v rest : is_u32 v → read_u32 (be_bytes v ++ rest) = v.
Proof.
  intros Hv. rewrite read_u32_value. unfold byte_at, be_bytes; cbn [nth app].
  rewrite !byte_val_to_byte, !Z.shiftr_div_pow2 by lia. width_lia.
Qed.

Lemma be_bytes_read b0 b1 b2 b3 rest :
  be_bytes (read_u32 (b0 :: b1 :: b2 :: b3 :: rest)) = [b0; b1; b2; b3].
Proof.
  rewrite read_u32_value. unfold byte_at, be_bytes; cbn [nth].
  pose proof (byte_val_range b0). pose proof (byte_val_range b1).
  pose proof (byte_val_range b2). pose proof (byte_val_range b3).
  assert (∀ z b, u8 z = byte_val b → to_byte z = b) as Hb.
  { intros z b E. rewrite <- (to_byte_val b), <- E. unfold to_byte. do 2 f_equal.
    width_lia. }
  rewrite !Z.shiftr_div_pow2 by lia.
  repeat f_equal; apply Hb; width_lia.
Qed.

(** The signed reader is the two's complement reading. *)
Lemma read_i32_twos_complement d : read_i32 d = i32 (read_u32 d).
Proof.
  unfold read_i32. pose proof (read_u32_range d) as H. revert H.
  generalize (read_u32 d) as v. intros v H.
  destruct (Z.leb_spec v 0x7fffffff); [done|].
  unfold Z.lnot. width_lia.
Qed.

Lemma i32_injective_u32 a b : is_u32 a → is_u32 b → i32 a = i32 b → a = b.
Proof. intros; width_lia. Qed.

Lemma read_i32_be_bytes v rest : is_i32 v → read_i32 (be_bytes (u32 v) ++ rest) = v.
Proof.
  intros H. rewrite read_i32_twos_complement, read_be_bytes by auto with netft.
  by apply i32_u32.
Qed.


(** A record as the concatenation of its nine big-endian words. *)
Lemma encode_record_words r :
  encode_record r =
    be_bytes (raw_rdt_sequence r) ++ be_bytes (raw_ft_sequence r) ++ be_bytes (raw_status r) ++
    be_bytes (u32 (fx r)) ++ be_bytes (u32 (fy r)) ++ be_bytes (u32 (fz r)) ++
    be_bytes (u32 (tx r)) ++ be_bytes (u32 (ty r)) ++ be_bytes (u32 (tz r)).
Proof. by destruct r. Qed.

Lemma length_encode_record r : length (encode_record r) = 36%nat.
Proof. by rewrite encode_record_words. Qed.

Lemma drop_be_bytes n v rest : drop (4 + n) (be_bytes v ++ rest) = drop n rest.
Proof. done. Qed.

Lemma u32_i32_read d : u32 (read_i32 d) = read_u32 d.
Proof. rewrite read_i32_twos_complement. apply u32_i32, read_u32_range. Qed.

Lemma read_i32_range d : is_i32 (read_i32 d).
Proof. rewrite read_i32_twos_complement. apply i32_range. Qed.
#[export] Hint Resolve read_u32_range read_i32_range : netft.

Lemma decode_record_wf d size r : decode_record (Some d) size = Ok r → wf_record r.
Proof.
  unfold decode_record. case_split; [done|]. intros [= <-].
  repeat split; cbn; apply read_u32_range || apply read_i32_range.
Qed.

(** ** Properties *)

(** C39: the decoder inverts the sensor's encoder: every record whose fields are
    in the range of their C++ types is read back exactly, sign included, from the
    36 bytes it is sent as. *)
Theorem decode_encode_record r :
  wf_record r → decode_record (Some (encode_record r)) 36 = Ok r.
Proof.
  intros (?&?&?&?&?&?&?&?&?). unfold decode_record; cbn -[drop encode_record].
  rewrite encode_record_words.
  repeat match goal with
  | |- context [drop (S (S (S (S ?n)))) (be_bytes ?v ++ ?t)] =>
      change (drop (S (S (S (S n)))) (be_bytes v ++ t)) with (drop n t)
  end.
  rewrite !drop_0, <- (app_nil_r (be_bytes (u32 (tz r)))).
  rewrite !read_be_bytes, !read_i32_be_bytes by done. by destruct r.
Qed.

Lemma decode_encode_record_witness :
  let r := mkRawRecord 7 (2 ^ 32 - 1) 0x80010000 (-1) (- 2 ^ 31) (2 ^ 31 - 1) 0 5 (-256) in
  decode_record (Some (encode_record r)) 36 = Ok r.
Proof.
  intros r. apply (decode_encode_record r).
  repeat split; vm_compute; first [reflexivity | discriminate].
Defined.

(** No two datagrams decode alike: any 36 bytes decode to a record with
    fields in range, and encoding that record gives the same 36 bytes. *)
Theorem encode_decode_record data :
  length data = 36%nat →
  ∃ r, decode_record (Some data) 36 = Ok r ∧ wf_record r ∧ encode_record r = data.
Proof.
  intros Hl. unfold decode_record; cbn -[drop encode_record wf_record]. eexists; split; [done|]. split.
  { repeat split; cbn -[drop]; apply read_u32_range || apply read_i32_range. }
  rewrite encode_record_words; cbn [raw_rdt_sequence raw_ft_sequence raw_status fx fy fz tx ty tz].
  rewrite !u32_i32_read.
  do 36 (destruct data as [|? data]; [discriminate|]).
  destruct data; [|discriminate]. cbn [drop].
  by rewrite !be_bytes_read.
Qed.

Lemma encode_decode_record_witness :
  ∃ r, decode_record (Some (replicate 36 xff)) 36 = Ok r ∧ wf_record r ∧
    encode_record r = replicate 36 xff.
Proof. apply (encode_decode_record (replicate 36 xff)). reflexivity. Defined.

(** Decoding succeeds on a non-null buffer of exactly 36 bytes and on
    nothing else, and every failure is a [ProtocolError] that names the size. *)
Theorem decode_record_total data size :
  match decode_record data size with
  | Ok _ => size = 36 ∧ data ≠ None
  | Throw e =>
      (size ≠ 36 ∧ e = ProtocolError ("RDT record must be exactly 36 bytes, received " +:+ pretty size))
      ∨ (size = 36 ∧ data = None ∧ e = ProtocolError "RDT record data must not be null")
  end.
Proof.
  unfold decode_record. destruct (Z.eqb_spec size 36); cbn; [|by left].
  destruct data; [done|by right].
Qed.

Lemma command_value_inj : Inj (=) (=) command_value.
Proof. intros [] []; done. Qed.

Lemma be_value_request c n :
  is_u32 n → be_value (encode_request c n) = 0x1234 * 2 ^ 48 + command_value c * 2 ^ 32 + n.
Proof.
  intros Hn. unfold be_value, encode_request; cbn [foldl].
  change (byte_val x12) with 0x12. change (byte_val x34) with 0x34.
  rewrite !byte_val_to_byte, !Z.shiftr_div_pow2 by lia.
  destruct c; cbn [command_value]; width_lia.
Qed.

(** A request is the eight bytes of the big-endian word made of the header
    0x1234, the 16-bit command and the 32-bit sample count, so the encoding is
    injective. *)
Theorem encode_request_spec c n :
  is_u32 n →
  length (encode_request c n) = 8%nat ∧
  be_value (encode_request c n) = 0x1234 * 2 ^ 48 + command_value c * 2 ^ 32 + n ∧
  ∀ c' n', is_u32 n' → encode_request c n = encode_request c' n' → c = c' ∧ n = n'.
Proof.
  intros Hn. split_and!; [done|by apply be_value_request|].
  intros c' n' Hn' E. apply (f_equal be_value) in E.
  rewrite !be_value_request in E by done.
  assert (command_value c = command_value c' ∧ n = n') as [Hc ->].
  { destruct c, c'; cbn [command_value] in *; width_lia. }
  split; [by apply command_value_inj|done].
Qed.

Lemma encode_request_spec_witness :
  encode_request StartRealtime 0 = [x12; x34; x00; x02; x00; x00; x00; x00] ∧
  be_value (encode_request StartRealtime 0) = 0x1234 * 2 ^ 48 + 0x0002 * 2 ^ 32.
Proof.
  split; [reflexivity|].
  destruct (encode_request_spec StartRealtime 0 ltac:(vm_compute; split; [discriminate|reflexivity]))
    as (_ & H & _).
  exact H.
Defined.
