(* ===== verification/Sequence.v ===== *)
(** * RDT and FT sequence tracking

    [detail/sequence.hpp] and [detail/sequence.cpp].  The trackers are records;
    [observe] is a function from the tracker and the observed 32-bit counter to
    the observation and the new tracker. *)

From S2P Require Import Prelude.

(** ** RDT sequence *)

Inductive SequenceKind := First | Contiguous | Gap | Duplicate | OutOfOrder.

#[global] Instance SequenceKind_eq_dec : EqDecision SequenceKind.
Proof. solve_decision. Defined.

Record SequenceObservation := mkObs { kind : SequenceKind; gap : Z }.

Record RdtSequenceTracker := mkRdt { rdt_has_last : bool; rdt_previous : Z }.

Definition rdt_tracker_init : RdtSequenceTracker := mkRdt false 0.

Definition rdt_observe (t : RdtSequenceTracker) (current : Z)
    : SequenceObservation * RdtSequenceTracker :=
  if negb (rdt_has_last t) then (mkObs First 0, mkRdt true current)
  else
    let delta := u32 (current - rdt_previous t) in
    if delta =? 0 then (mkObs Duplicate 0, t)
    else if delta <? 0x80000000 then
      (if delta =? 1 then mkObs Contiguous 0 else mkObs Gap (u32 (delta - 1)),
       mkRdt (rdt_has_last t) current)
    else (mkObs OutOfOrder 0, t).

Definition rdt_reset (t : RdtSequenceTracker) : RdtSequenceTracker :=
  mkRdt false (rdt_previous t).

(** ** FT sequence *)

Inductive FtSequenceKind := FtFirst | FtForward | FtStall | FtBackward | FtRestart.

#[global] Instance FtSequenceKind_eq_dec : EqDecision FtSequenceKind.
Proof. solve_decision. Defined.

Record FtSequenceTracker := mkFt {
  ft_has_last : bool; ft_previous : Z;
  has_restart_candidate : bool; restart_candidate : Z
}.

Definition ft_tracker_init : FtSequenceTracker := mkFt false 0 false 0.

Definition kRestartLowMax : Z := 0x0000ffff.
Definition kRestartMinBaseline : Z := u32 (kRestartLowMax + 1).

Definition ft_begin_session (t : FtSequenceTracker) : FtSequenceTracker :=
  mkFt (ft_has_last t) (ft_previous t) false (restart_candidate t).

Definition ft_observe (t : FtSequenceTracker) (current : Z) : FtSequenceKind * FtSequenceTracker :=
  if negb (ft_has_last t) then
    (FtFirst, mkFt true current (has_restart_candidate t) (restart_candidate t))
  else if current =? ft_previous t then
    (FtStall, mkFt true (ft_previous t) false (restart_candidate t))
  else
    let delta := u32 (current - ft_previous t) in
    if delta <? 0x80000000 then
      (FtForward, mkFt true current false (restart_candidate t))
    else
      let candidate_delta := u32 (current - restart_candidate t) in
      if (kRestartMinBaseline <=? ft_previous t) && has_restart_candidate t &&
         (restart_candidate t <=? kRestartLowMax) && (current <=? kRestartLowMax) &&
         ((0 <? candidate_delta) && (candidate_delta <? 0x80000000)) then
        (FtRestart, mkFt true current false (restart_candidate t))
      else (FtBackward, mkFt true (ft_previous t) true current).

(** The two trackers over a list of observed counters. *)
Fixpoint rdt_run (t : RdtSequenceTracker) (cs : list Z)
    : list SequenceObservation * RdtSequenceTracker :=
  match cs with
  | [] => ([], t)
  | c :: cs =>
      let '(o, t) := rdt_observe t c in
      let '(os, t) := rdt_run t cs in (o :: os, t)
  end.

Fixpoint ft_run (t : FtSequenceTracker) (cs : list Z)
    : list FtSequenceKind * FtSequenceTracker :=
  match cs with
  | [] => ([], t)
  | c :: cs =>
      let '(k, t) := ft_observe t c in
      let '(ks, t) := ft_run t cs in (k :: ks, t)
  end.

(** ** Serial number arithmetic *)

(** [a] is ahead of [b] by less than half the counter's range. *)
Definition serial_ahead (a b : Z) : Prop := 0 < u32 (a - b) < 2 ^ 31.

Definition accepted (k : SequenceKind) : bool :=
  match k with First | Contiguous | Gap => true | _ => false end.

Definition rdt_wf (t : RdtSequenceTracker) : Prop := is_u32 (rdt_previous t).

(** The RDT tracker classifies every counter by its serial distance from the
    baseline: the first one is accepted, an equal one is a duplicate, one ahead
    is accepted with the exact number of counters skipped, one behind is out of
    order; an accepted counter becomes the baseline and a rejected one leaves
    the tracker as it was. *)
Theorem rdt_observe_spec t c :
  rdt_wf t → is_u32 c →
  let '(o, t') := rdt_observe t c in
  (rdt_has_last t = false → kind o = First ∧ gap o = 0) ∧
  (rdt_has_last t = true → c = rdt_previous t → kind o = Duplicate ∧ gap o = 0) ∧
  (rdt_has_last t = true → serial_ahead c (rdt_previous t) →
     (kind o = Contiguous ∨ kind o = Gap) ∧
     (kind o = Contiguous ↔ c = u32 (rdt_previous t + 1)) ∧
     c = u32 (rdt_previous t + 1 + gap o) ∧ 0 ≤ gap o < 2 ^ 31) ∧
  (rdt_has_last t = true → c ≠ rdt_previous t → ¬ serial_ahead c (rdt_previous t) →
     kind o = OutOfOrder ∧ gap o = 0) ∧
  (if accepted (kind o) then t' = mkRdt true c else t' = t).
Proof.
  unfold rdt_wf, serial_ahead, rdt_observe. intros Hp Hc.
  destruct t as [[] p]; cbn [rdt_has_last rdt_previous negb] in *; [|done].
  destruct (Z.eqb_spec (u32 (c - p)) 0); cbn.
  { split_and!; try done; intros; width_lia. }
  destruct (Z.ltb_spec (u32 (c - p)) 0x80000000); cbn.
  - destruct (Z.eqb_spec (u32 (c - p)) 1); cbn; split_and!; try done.
    all: try (intros; exfalso; width_lia).
    all: intros _ _; split_and!; auto; try split; try done; intros; width_lia.
  - split_and!; try done; intros; exfalso; width_lia.
Qed.

Lemma rdt_observe_spec_witness :
  kind (fst (rdt_observe (mkRdt true 0xfffffffe) 1)) = Gap ∧
  snd (rdt_observe (mkRdt true 0xfffffffe) 1) = mkRdt true 1.
Proof.
  split; [reflexivity|].
  destruct (rdt_observe_spec (mkRdt true 0xfffffffe) 1 ltac:(vm_compute; done)
              ltac:(vm_compute; done)) as (_ & _ & _ & _ & H).
  exact H.
Defined.

(** ** Exact loss accounting *)

Definition Zsum (l : list Z) : Z := foldr Z.add 0 l.

(** The 32-bit counters a sensor sends when its unbounded counter, at [n], is
    advanced by the steps [ds]. *)
Fixpoint counters (n : Z) (ds : list Z) : list Z :=
  match ds with
  | [] => []
  | d :: ds => u32 (n + d) :: counters (n + d) ds
  end.

Lemma rdt_observe_step n d :
  0 < d < 2 ^ 31 →
  ∃ k, accepted k = true ∧
    rdt_observe (mkRdt true (u32 n)) (u32 (n + d)) = (mkObs k (d - 1), mkRdt true (u32 (n + d))).
Proof.
  intros Hd. unfold rdt_observe; cbn [rdt_has_last rdt_previous negb].
  assert (u32 (u32 (n + d) - u32 n) = d) as -> by width_lia.
  destruct (Z.eqb_spec d 0); [lia|]. destruct (Z.ltb_spec d 0x80000000); [|lia].
  destruct (Z.eqb_spec d 1) as [->|]; [by exists Contiguous|].
  exists Gap. split; [done|]. do 2 f_equal. width_lia.
Qed.

(** The loss count is exact across wrap-around: when the sensor's counter
    advances by steps below half its range, every record is accepted, the gaps
    add up to exactly the number of records that never arrived, and the baseline
    ends at the last counter sent. *)
Theorem rdt_lost_exact n ds :
  Forall (λ d, 0 < d < 2 ^ 31) ds →
  let '(os, t) := rdt_run (mkRdt true (u32 n)) (counters n ds) in
  Forall (λ o, accepted (kind o) = true) os ∧
  Zsum (gap <$> os) = Zsum ds - Z.of_nat (length ds) ∧
  t = mkRdt true (u32 (n + Zsum ds)).
Proof.
  revert n. induction ds as [|d ds IH]; intros n Hds.
  { cbn. by rewrite Z.add_0_r. }
  cbn [rdt_run counters]. apply Forall_cons in Hds as [Hd Hds].
  destruct (rdt_observe_step n d Hd) as (k & Hk & ->). specialize (IH (n + d) Hds).
  destruct (rdt_run _ _) as [os t]. destruct IH as (Ha & Hs & Ht).
  cbn. split_and!; [by constructor| |].
  - fold (Zsum ds). fold (Zsum (gap <$> os)). lia.
  - fold (Zsum ds). rewrite Ht. do 2 f_equal. lia.
Qed.

Lemma rdt_lost_exact_witness :
  let '(os, t) := rdt_run (mkRdt true (u32 0xfffffffe)) (counters 0xfffffffe [1; 3; 1]) in
  Zsum (gap <$> os) = 2 ∧ t = mkRdt true 3.
Proof.
  assert (Forall (λ d, 0 < d < 2 ^ 31) [1; 3; 1]) as H by (repeat constructor).
  destruct (rdt_lost_exact 0xfffffffe [1; 3; 1] H) as (_ & Hs & Ht).
  split; [exact Hs|exact Ht].
Defined.

(** ** FT tracking *)

Definition ft_behind (a b : Z) : Prop := 2 ^ 31 ≤ u32 (a - b).

(** The candidate is a counter behind the baseline, and there is none before the
    first record. *)
Definition ft_wf (t : FtSequenceTracker) : Prop :=
  is_u32 (ft_previous t) ∧ is_u32 (restart_candidate t) ∧
  (has_restart_candidate t = true →
     ft_has_last t = true ∧ ft_behind (restart_candidate t) (ft_previous t)).

Lemma ft_wf_init : ft_wf ft_tracker_init.
Proof. by vm_compute. Qed.

Lemma ft_begin_session_wf t : ft_wf t → ft_wf (ft_begin_session t).
Proof. intros (?&?&?). by split_and!. Qed.

(** What an observation of [c] with the answer [k] does to the tracker. *)
Definition ft_transition (t : FtSequenceTracker) (c : Z) (k : FtSequenceKind)
    (t' : FtSequenceTracker) : Prop :=
  match k with
  | FtFirst => ft_has_last t = false ∧ ft_previous t' = c
  | FtForward => ft_has_last t = true ∧ serial_ahead c (ft_previous t) ∧ ft_previous t' = c
  | FtStall => ft_has_last t = true ∧ c = ft_previous t ∧ ft_previous t' = ft_previous t
  | FtBackward => ft_has_last t = true ∧ ft_behind c (ft_previous t) ∧
                  ft_previous t' = ft_previous t ∧ restart_candidate t' = c
  | FtRestart => ft_has_last t = true ∧ ft_behind c (ft_previous t) ∧ ft_previous t' = c
  end.

Lemma ft_observe_step t c k t' :
  ft_wf t → is_u32 c → ft_observe t c = (k, t') →
  ft_wf t' ∧ ft_has_last t' = true ∧
  has_restart_candidate t' = bool_decide (k = FtBackward) ∧ ft_transition t c k t'.
Proof.
  intros (Hp & Hr & Hc) Hcur. unfold ft_wf, ft_observe, ft_transition, serial_ahead, ft_behind in *.
  destruct t as [hl p hc rc]; cbn [ft_has_last ft_previous has_restart_candidate restart_candidate] in *.
  destruct hl; cbn [negb].
  2: { destruct hc; [by destruct Hc|]. intros [= <- <-]. cbn. by split_and!. }
  destruct (Z.eqb_spec c p) as [->|Hne]; [by intros [= <- <-]; cbn; split_and!|].
  destruct (Z.ltb_spec (u32 (c - p)) 0x80000000).
  { intros [= <- <-]. cbn. split_and!; try done; width_lia. }
  case_split; intros [= <- <-]; cbn; split_and!; try done; auto; width_lia.
Qed.

(** The FT tracker is well formed after every sequence of observations that
    starts in a well-formed state, and each observation moves the baseline
    exactly on the kinds that accept progress: First, Forward and Restart set it
    to the counter and drop the candidate, Stall keeps it and drops the
    candidate, Backward keeps it and makes the counter the candidate. *)
Theorem ft_observe_inv t cs c :
  ft_wf t → Forall is_u32 cs → is_u32 c →
  let '(_, t1) := ft_run t cs in
  let '(k, t2) := ft_observe t1 c in
  ft_wf t2 ∧ ft_has_last t2 = true ∧
  has_restart_candidate t2 = bool_decide (k = FtBackward) ∧ ft_transition t1 c k t2.
Proof.
  intros Hwf Hcs Hc. revert t Hwf. induction Hcs as [|c1 cs Hc1 Hcs IH]; intros t Hwf; cbn [ft_run].
  - destruct (ft_observe t c) as [k t2] eqn:E. by eapply ft_observe_step.
  - destruct (ft_observe t c1) as [k t1] eqn:E.
    apply ft_observe_step in E as [Hwf1 _]; [|done..]. specialize (IH t1 Hwf1).
    by destruct (ft_run t1 cs).
Qed.

Lemma ft_observe_inv_witness :
  let '(k, t') := ft_observe (mkFt true 70000 true 5) 9 in k = FtRestart ∧ ft_wf t'.
Proof.
  assert (ft_wf (mkFt true 70000 true 5)) as Hwf.
  { split_and!; [vm_compute; done..|]. intros _. split; [done|]. vm_compute. discriminate. }
  pose proof (ft_observe_inv (mkFt true 70000 true 5) [] 9 Hwf (List.Forall_nil _)
                ltac:(vm_compute; done)) as H. cbn [ft_run] in H.
  change (ft_observe (mkFt true 70000 true 5) 9) with (FtRestart, mkFt true 9 false 5) in *.
  split; [reflexivity|apply H].
Defined.

(** C38: a sensor restart is confirmed by exactly two consecutive records: the second of
    two observations is a Restart iff the baseline was above the low window, the first
    fell back into it as a step Backward, and the second is ahead of the first inside
    it.  A confirmed restart makes the second the baseline and needs two records again;
    until then the baseline is the one before, and it outlives the session. *)
Theorem ft_restart_confirmed t a b :
  ft_wf t → is_u32 a → is_u32 b →
  let '(k1, t1) := ft_observe t a in
  let '(k2, t2) := ft_observe t1 b in
  (k2 = FtRestart ↔ k1 = FtBackward ∧ 0x10000 ≤ ft_previous t ∧ a ≤ 0xffff ∧ b ≤ 0xffff ∧ a < b) ∧
  (k2 = FtRestart → ft_previous t2 = b ∧ has_restart_candidate t2 = false) ∧
  (k1 = FtBackward → ft_previous t1 = ft_previous t) ∧
  (k2 = FtBackward → ft_previous t2 = ft_previous t1) ∧
  ft_has_last (ft_begin_session t2) = true ∧ ft_previous (ft_begin_session t2) = ft_previous t2.
Proof.
  intros Hwf Ha Hb. destruct (ft_observe t a) as [k1 t1] eqn:Hobs.
  destruct (ft_observe_step t a k1 t1 Hwf Ha Hobs) as (Hwf1 & Hl1 & Hc1 & Hk). unfold ft_transition in Hk.
  destruct (ft_observe t1 b) as [k2 t2] eqn:Hobs2.
  destruct (ft_observe_step t1 b k2 t2 Hwf1 Hb Hobs2) as (Hwf2 & Hl2 & Hc2 & Hk2). unfold ft_transition in Hk2.
  split.
  2: { split_and!; try done; intros ->; [split; [apply Hk2|done]|apply Hk|apply Hk2]. }
  change k2 with (fst (k2, t2)). rewrite <- Hobs2. clear Hobs2 Hwf2 Hl2 Hc2 Hk2.
  unfold ft_observe. rewrite Hl1, Hc1. cbn [negb].
  unfold kRestartMinBaseline, kRestartLowMax, ft_behind, serial_ahead in *.
  change (u32 (65535 + 1)) with 65536.
  destruct Hwf as (Hp & _), Hwf1 as (Hp1 & Hr1 & Hb1).
  destruct (decide (k1 = FtBackward)) as [->|Hne].
  - destruct Hk as (_ & Hbeh & -> & ->). rewrite bool_decide_eq_true_2 by done.
    destruct (Z.eqb_spec b (ft_previous t)); cbn [fst].
    { split; [done|]. intros (_ & ? & ? & ? & ?). lia. }
    destruct (Z.ltb_spec (u32 (b - ft_previous t)) 0x80000000); cbn [fst].
    { split; [done|]. intros (_ & ? & ? & ? & ?). exfalso. width_lia. }
    destruct (Z.leb_spec 65536 (ft_previous t)), (Z.leb_spec a 65535), (Z.leb_spec b 65535),
      (Z.ltb_spec 0 (u32 (b - a))), (Z.ltb_spec (u32 (b - a)) 0x80000000); cbn [andb fst];
      split; try done; try (intros; exfalso; width_lia).
    intros _. split_and!; try done. width_lia.
  - rewrite bool_decide_eq_false_2, andb_false_r by done. cbn [andb].
    repeat case_split; cbn [fst]; split; try done; by intros (? & _).
Qed.

Lemma ft_restart_confirmed_witness :
  fst (ft_observe (snd (ft_observe (mkFt true 70000 false 0) 5)) 9) = FtRestart ∧
  ft_previous (snd (ft_observe (snd (ft_observe (mkFt true 70000 false 0) 5)) 9)) = 9.
Proof.
  assert (ft_wf (mkFt true 70000 false 0)) as Hwf by (by vm_compute).
  destruct (ft_restart_confirmed (mkFt true 70000 false 0) 5 9 Hwf
              ltac:(vm_compute; done) ltac:(vm_compute; done)) as (H & Hp & _).
  assert (fst (ft_observe (snd (ft_observe (mkFt true 70000 false 0) 5)) 9) = FtRestart) as Hr.
  { apply H. split; [reflexivity|]. repeat split; discriminate. }
  split; [exact Hr|]. apply Hp. exact Hr.
Defined.

(** A new session forgets the first of the two records of a restart. *)
Example session_forgets_candidate :
  fst (ft_observe (ft_begin_session (snd (ft_observe (mkFt true 70000 false 0) 5))) 9) = FtBackward.
Proof. reflexivity. Qed.
