(* ===== verification/Status.v ===== *)
(** * Device status words

    [netft/status.hpp] and [status.cpp]: severity classification and the text of
    the set status bits. *)

From S2P Require Import Prelude.
From Stdlib Require Import Ascii.

Inductive StatusSeverity := SevOk | SevWarn | SevError.

#[global] Instance StatusSeverity_eq_dec : EqDecision StatusSeverity.
Proof. solve_decision. Defined.

Definition kStatusBits : list (Z * string) := [
  (0x80000000, "error summary");
  (0x40000000, "CPU or RAM error");
  (0x20000000, "digital board error");
  (0x10000000, "analog board error");
  (0x08000000, "serial link communication error");
  (0x04000000, "program memory verification error");
  (0x02000000, "halted due to configuration errors");
  (0x01000000, "settings validation error");
  (0x00800000, "configuration incompatible with calibration");
  (0x00400000, "network communication failure");
  (0x00200000, "CAN communication error");
  (0x00100000, "RDT communication error");
  (0x00080000, "EtherNet/IP protocol failure");
  (0x00040000, "DeviceNet protocol failure");
  (0x00020000, "transducer saturation or A/D error");
  (0x00010000, "monitor condition latched");
  (0x00004000, "watchdog timeout error");
  (0x00002000, "stack check error");
  (0x00001000, "serial EEPROM I2C failure");
  (0x00000800, "serial flash SPI failure");
  (0x00000400, "analog board watchdog timeout");
  (0x00000200, "excessive strain gage excitation current");
  (0x00000100, "insufficient strain gage excitation current");
  (0x00000080, "artificial analog ground out of range");
  (0x00000040, "analog board power supply too high");
  (0x00000020, "analog board power supply too low");
  (0x00000010, "serial link data unavailable");
  (0x00000008, "reference voltage or power monitoring error");
  (0x00000004, "internal temperature error");
  (0x00000002, "HTTP protocol failure")].

Definition classify_status (status : Z) : StatusSeverity :=
  if status =? 0 then SevOk
  else if status =? 0x80010000 then SevWarn else SevError.

(** The bit test of the loop. *)
Definition bit_set (status : Z) (entry : Z * string) : bool :=
  negb (Z.land status (fst entry) =? 0).

Definition decode_status (status : Z) : string :=
  if status =? 0 then "healthy"
  else foldl (λ result entry,
         if bit_set status entry then
           (if bool_decide (result = "") then result else result +:+ ", ") +:+ snd entry
         else result) "" kStatusBits.

(** ** The text as a joined list of names *)

Definition status_names (status : Z) : list string :=
  snd <$> filter (λ e, bit_set status e = true) kStatusBits.

Definition comma_free (s : string) : bool :=
  forallb (λ c, negb (Ascii.eqb c ","%char)) (String.list_ascii_of_string s).

Lemma concat_cons_cons sep x y l :
  String.concat sep (x :: y :: l) = x +:+ (sep +:+ String.concat sep (y :: l)).
Proof. done. Qed.

Lemma concat_snoc sep l x :
  l ≠ [] → String.concat sep (l ++ [x]) = String.concat sep l +:+ (sep +:+ x).
Proof.
  induction l as [|y l IH]; [done|intros _]. destruct l as [|z l]; [done|].
  change ((y :: z :: l) ++ [x]) with (y :: ((z :: l) ++ [x])).
  change (String.concat sep (y :: (z :: l) ++ [x]))
    with (y +:+ (sep +:+ String.concat sep ((z :: l) ++ [x]))).
  rewrite IH by done. by rewrite concat_cons_cons, !string_app_assoc.
Qed.

Lemma concat_nonempty sep l :
  Forall (λ s, s ≠ "") l → (String.concat sep l = "" ↔ l = []).
Proof.
  destruct l as [|x l]; [done|]. intros [Hx _]%Forall_cons. split; [|done].
  destruct x as [|c x]; [done|]. by destruct l.
Qed.

(** What the accumulating loop builds. *)
Lemma decode_loop status es acc :
  Forall (λ s, s ≠ "") acc → Forall (λ e, snd e ≠ "") es →
  foldl (λ result entry,
         if bit_set status entry then
           (if bool_decide (result = "") then result else result +:+ ", ") +:+ snd entry
         else result) (String.concat ", " acc) es =
  String.concat ", " (acc ++ (snd <$> filter (λ e, bit_set status e = true) es)).
Proof.
  revert acc. induction es as [|[m n] es IH]; intros acc Hacc Hes; cbn [foldl].
  { rewrite filter_nil. by rewrite app_nil_r. }
  apply Forall_cons in Hes as [Hn Hes]. rewrite filter_cons.
  destruct (bit_set status (m, n)) eqn:Hb; cbn [decide snd].
  - destruct (decide (true = true)); [|done]. cbn [fmap list_fmap snd].
    change (acc ++ n :: ?t) with (acc ++ [n] ++ t). rewrite (app_assoc acc [n]).
    rewrite <- IH; [|apply Forall_app; by split; [|constructor]|done]. f_equal.
    case_bool_decide as Hempty.
    + apply concat_nonempty in Hempty as ->; done.
    + rewrite concat_snoc by (intros ->; done). by rewrite string_app_assoc.
  - destruct (decide (false = true)); [done|]. by apply IH.
Qed.

Lemma decode_status_join status :
  status ≠ 0 → decode_status status = String.concat ", " (status_names status).
Proof.
  intros Hs. unfold decode_status. destruct (Z.eqb_spec status 0); [done|].
  apply (decode_loop status kStatusBits []); [constructor|].
  by repeat (apply Forall_cons_2; [done|]).
Qed.

(** A tail of a join: empty, or starting with the separator's comma. *)
Definition comma_or_end (s : string) : bool :=
  match s with "" => true | String c _ => Ascii.eqb c ","%char end.

Lemma comma_free_split x x' r r' :
  comma_free x = true → comma_free x' = true →
  comma_or_end r = true → comma_or_end r' = true →
  x +:+ r = x' +:+ r' → x = x' ∧ r = r'.
Proof.
  revert x'. induction x as [|c x IH]; intros x' Hx Hx' Hr Hr'.
  - destruct x' as [|c' x']; [done|]. intros E. exfalso.
    change ("" +:+ r) with r in E. change (String c' x' +:+ r') with (String c' (x' +:+ r')) in E.
    subst r. unfold comma_free in Hx'. cbn in Hx', Hr. by rewrite Hr in Hx'.
  - destruct x' as [|c' x']; intros E.
    + exfalso. change ("" +:+ r') with r' in E.
      change (String c x +:+ r) with (String c (x +:+ r)) in E.
      subst r'. unfold comma_free in Hx. cbn in Hx, Hr'. by rewrite Hr' in Hx.
    + change (String c (x +:+ r) = String c' (x' +:+ r')) in E. injection E as -> E.
      unfold comma_free in *. cbn in Hx, Hx'.
      apply andb_prop in Hx as [_ Hx], Hx' as [_ Hx'].
      destruct (IH x') as [-> ->]; done.
Qed.

(** What follows the first name of a join. *)
Definition join_rest (t : list string) : string :=
  match t with [] => "" | _ => ", " +:+ String.concat ", " t end.

Lemma concat_cons_rest y t : String.concat ", " (y :: t) = y +:+ join_rest t.
Proof. destruct t; [by rewrite string_app_nil_r|done]. Qed.

Lemma join_rest_comma t : comma_or_end (join_rest t) = true.
Proof. by destruct t. Qed.

Lemma concat_comma_inj l l' :
  Forall (λ s, s ≠ "" ∧ comma_free s = true) l → Forall (λ s, s ≠ "" ∧ comma_free s = true) l' →
  String.concat ", " l = String.concat ", " l' → l = l'.
Proof.
  assert (∀ x l, Forall (λ s, s ≠ "" ∧ comma_free s = true) (x :: l) →
            String.concat ", " (x :: l) ≠ "") as Hne.
  { intros x t Ht E. apply concat_nonempty in E; [done|].
    eapply Forall_impl; [exact Ht|]. by intros s [? _]. }
  revert l'. induction l as [|x l IH]; intros [|x' l'] Hl Hl' E; [done| | |].
  - by destruct (Hne _ _ Hl').
  - by destruct (Hne _ _ Hl).
  - rewrite !concat_cons_rest in E.
    pose proof Hl as [[_ Hx] Hl1]%Forall_cons. pose proof Hl' as [[_ Hx'] Hl1']%Forall_cons.
    apply comma_free_split in E as [-> E]; try done; try apply join_rest_comma.
    f_equal. destruct l as [|y l], l' as [|y' l']; try done.
    apply IH; [done..|]. by injection E.
Qed.

Lemma status_names_ok status :
  Forall (λ s, s ≠ "" ∧ comma_free s = true) (status_names status).
Proof.
  assert (Forall (λ e : Z * string, snd e ≠ "" ∧ comma_free (snd e) = true) kStatusBits) as Hall
    by (repeat (apply Forall_cons_2; [by split|]); apply Forall_nil_2).
  apply Forall_forall. intros s Hs. unfold status_names in Hs.
  apply list_elem_of_fmap in Hs as (e & -> & He). apply list_elem_of_filter in He as [_ He].
  rewrite Forall_forall in Hall. by apply Hall.
Qed.

Lemma status_names_elem status mask name :
  (mask, name) ∈ kStatusBits → (name ∈ status_names status ↔ bit_set status (mask, name) = true).
Proof.
  intros Hin. assert (NoDup (snd <$> kStatusBits)) as Hnd by (apply (bool_decide_unpack _); by vm_compute).
  unfold status_names. rewrite list_elem_of_fmap. split.
  - intros ([m n] & Hn & Hf). cbn in Hn. subst n. apply list_elem_of_filter in Hf as [Hb He].
    apply list_elem_of_lookup in Hin as [i Hi], He as [j Hj].
    assert (i = j) as ->.
    { eapply NoDup_lookup; [exact Hnd| |]; rewrite list_lookup_fmap.
      - by rewrite Hi.
      - by rewrite Hj. }
    congruence.
  - intros Hb. exists (mask, name). split; [done|]. by apply list_elem_of_filter.
Qed.

Lemma decode_status_unhealthy status : status ≠ 0 → decode_status status ≠ "healthy".
Proof.
  intros Hz. rewrite decode_status_join by done. change "healthy" with (String.concat ", " ["healthy"]).
  intros E. apply concat_comma_inj in E;
    [|apply status_names_ok|by repeat (apply Forall_cons_2; [done|])].
  assert ("healthy" ∈ status_names status) as Hin by (rewrite E; by apply list_elem_of_here).
  apply list_elem_of_fmap in Hin as (e & He & Hf). apply list_elem_of_filter in Hf as [_ Hf].
  assert ("healthy" ∉ (snd <$> kStatusBits)) as Hni by (apply (bool_decide_unpack _); by vm_compute).
  apply Hni. apply list_elem_of_fmap. eauto.
Qed.

(** ** Properties *)

(** Severity is a partition of the status words: zero is healthy, the latched
    monitor condition with the summary bit and nothing else is a warning, every
    other word is an error; and a word is healthy exactly when its text says so. *)
Theorem classify_status_spec status :
  match classify_status status with
  | SevOk => status = 0
  | SevWarn => status = 0x80010000
  | SevError => status ≠ 0 ∧ status ≠ 0x80010000
  end ∧ (classify_status status = SevOk ↔ decode_status status = "healthy").
Proof.
  unfold classify_status. destruct (Z.eqb_spec status 0) as [->|Hz]; [done|].
  pose proof (decode_status_unhealthy status Hz) as Hh.
  destruct (Z.eqb_spec status 0x80010000) as [->|]; split; done.
Qed.

(** The text determines the status: two words with the same text have the
    same value of every bit that has a name. *)
Theorem decode_status_injective s1 s2 :
  decode_status s1 = decode_status s2 →
  ∀ mask name, (mask, name) ∈ kStatusBits →
    (Z.land s1 mask ≠ 0 ↔ Z.land s2 mask ≠ 0).
Proof.
  assert (∀ s m n, bit_set s (m, n) = true ↔ Z.land s m ≠ 0) as Hbit.
  { intros s m n. unfold bit_set; cbn. by destruct (Z.eqb_spec (Z.land s m) 0). }
  assert (∀ s, decode_status s = "healthy" ↔ s = 0) as Hh.
  { intros s. split; [|by intros ->]. intros Hs. destruct (decide (s = 0)); [done|].
    by destruct (decode_status_unhealthy s). }
  intros E mask name Hin. destruct (decide (s1 = 0)) as [->|H1].
  { symmetry in E. by apply (Hh s2) in E as ->. }
  destruct (decide (s2 = 0)) as [->|H2].
  { by apply (Hh s1) in E as ->. }
  rewrite !decode_status_join in E by done.
  apply concat_comma_inj in E; [|apply status_names_ok..].
  rewrite <- !(Hbit _ _ name), <- !status_names_elem by done. by rewrite E.
Qed.

(** The unnamed bits 0x8000 and 0x1 do not show in the text. *)
Lemma decode_status_injective_witness :
  decode_status 0x80008002 = decode_status 0x80000003 ∧
  (Z.land 0x80008002 0x2 ≠ 0 ↔ Z.land 0x80000003 0x2 ≠ 0).
Proof.
  split; [vm_compute; reflexivity|].
  apply (decode_status_injective 0x80008002 0x80000003) with (name := "HTTP protocol failure").
  - vm_compute. reflexivity.
  - apply (bool_decide_unpack _). vm_compute. exact I.
Defined.
