(* ===== verification/UnitConversion.v ===== *)
(** * Conversion of samples to SI units

    [ros/unit_conversion.hpp] and [ros/unit_conversion.cpp]. *)

From S2P Require Import Prelude Floating Types.

Record SiSample := mkSiSample {
  si_rdt_sequence : Z; si_ft_sequence : Z; si_status : Z;
  si_force : list double; si_torque : list double;
  si_configuration_revision : Z; si_received_at : Z
}.

Definition si_error : exn := InvalidArgument "measurement cannot be represented in SI units".

Definition checked_scale (value scale : double) : result double :=
  if negb (isfinite value) ||
     (SFltb (b64_of_Z 1) scale && SFltb (b64_div DBL_MAX scale) (SFabs value))
  then Throw si_error
  else
    let r := b64_mul value scale in
    if negb (isfinite r) then Throw si_error else Ok r.

Definition sample_is_finite (s : SiSample) : bool :=
  forallb isfinite (si_force s) && forallb isfinite (si_torque s).

(** Decimal literals are the correctly rounded quotients. *)
Definition force_scale_to_newtons (unit : ForceUnit) : result double :=
  match unit with
  | Newton => Ok (b64_of_Z 1)
  | KiloNewton => Ok (b64_of_Z 1000)
  | PoundForce => Ok (b64_ratio 44482216152605 10000000000000)
  | KiloPoundForce => Ok (b64_ratio 44482216152605 10000000000)
  | KilogramForce => Ok (b64_ratio 980665 100000)
  | ForceUnknown => Throw (InvalidArgument "Unknown force unit")
  end.

Definition torque_scale_to_newton_metres (unit : TorqueUnit) : result double :=
  match unit with
  | NewtonMeter => Ok (b64_of_Z 1)
  | NewtonMillimeter => Ok (b64_ratio 1 1000)
  | PoundForceInch => Ok (b64_ratio 1129848290276167 10000000000000000)
  | PoundForceFoot => Ok (b64_ratio 13558179483314004 10000000000000000)
  | KilogramForceCentimeter => Ok (b64_ratio 980665 10000000)
  | KiloNewtonMeter => Ok (b64_of_Z 1000)
  | TorqueUnknown => Throw (InvalidArgument "Unknown torque unit")
  end.

(** The loop over the three axes, force and torque of an axis together. *)
Fixpoint scale_axes (force torque : list double) (fs ts : double)
    : result (list double * list double) :=
  match force, torque with
  | f :: force, t :: torque =>
      f' ← checked_scale f fs;
      t' ← checked_scale t ts;
      rest ← scale_axes force torque fs ts;
      Ok (f' :: fst rest, t' :: snd rest)
  | _, _ => Ok ([], [])
  end.

Definition to_si_sample (s : Sample) : result SiSample :=
  force_scale ← force_scale_to_newtons (force_unit s);
  torque_scale ← torque_scale_to_newton_metres (torque_unit s);
  axes ← scale_axes (force s) (torque s) force_scale torque_scale;
  Ok (mkSiSample (rdt_sequence s) (ft_sequence s) (status s) (fst axes) (snd axes)
        (configuration_revision s) (received_at s)).

(** ** Lemmas *)

Lemma checked_scale_ok v s r :
  checked_scale v s = Ok r → r = b64_mul v s ∧ isfinite r = true ∧ isfinite v = true.
Proof.
  unfold checked_scale. intros H. inv_ok. subst. by split_and!.
Qed.

Lemma scale_axes_ok force torque fs ts fs' ts' :
  length force = length torque → scale_axes force torque fs ts = Ok (fs', ts') →
  fs' = (λ v, b64_mul v fs) <$> force ∧ ts' = (λ v, b64_mul v ts) <$> torque ∧
  forallb isfinite (fs' ++ ts') = true.
Proof.
  revert torque fs' ts'. induction force as [|f force IH]; intros [|t torque] fs' ts' Hl H; try done.
  { by injection H as <- <-. }
  cbn [scale_axes] in H. inv_ok.
  match goal with Hr : scale_axes _ _ _ _ = Ok ?x |- _ => destruct x as [r1 r2];
    destruct (IH torque r1 r2) as (-> & -> & Hf); [by injection Hl|done|] end.
  repeat match goal with Hc : checked_scale _ _ = Ok _ |- _ =>
    apply checked_scale_ok in Hc as (-> & ? & _) end.
  cbn [fst snd] in *. simplify_eq. cbn [fmap list_fmap]. split_and!; [done..|].
  rewrite forallb_app in *. cbn [forallb]. apply andb_prop in Hf as [-> ->].
  by rewrite !andb_true_r; apply andb_true_intro.
Qed.

(** A product whose factors' binades leave room does not overflow. *)
Lemma b64_mul_finite sx mx ex sy my ey :
  valid64 (S754_finite sx mx ex) = true → valid64 (S754_finite sy my ey) = true →
  Zdigits2 (Zpos mx) + ex + (Zdigits2 (Zpos my) + ey) ≤ 1023 →
  isfinite (b64_mul (S754_finite sx mx ex) (S754_finite sy my ey)) = true.
Proof.
  intros Hx Hy Hd. cbn [SFmul].
  apply (valid_finite_spec 53 1024) in Hx as (Hx1 & Hx2 & Hx3 & Hx4), Hy as (Hy1 & Hy2 & Hy3 & Hy4).
  pose proof (Zdigits2_mul (Zpos mx) (Zpos my) eq_refl eq_refl) as Hlo.
  pose proof (Zdigits2_spec (Zpos mx) eq_refl) as [? [_ Hmx]].
  pose proof (Zdigits2_spec (Zpos my) eq_refl) as [? [_ Hmy]].
  assert (Zdigits2 (Zpos mx * Zpos my) ≤ Zdigits2 (Zpos mx) + Zdigits2 (Zpos my)) as Hhi.
  { apply Zdigits2_le; [lia|lia|]. rewrite Z.pow_add_r by lia. apply Z.mul_lt_mono_nonneg; lia. }
  rewrite <- Pos2Z.inj_mul in *. unfold fexp in *. change (emin 53 1024) with (-1074) in *.
  apply (binary_round_aux_finite 53 1024); [done|done| |]; unfold fexp;
    change (emin 53 1024) with (-1074); [lia|left; lia].
Qed.

(** Components of at most [2^1000] in magnitude, far beyond any load. *)
Definition representable (v : double) : Prop :=
  valid64 v = true ∧ isfinite v = true ∧ SFleb (SFabs v) (S754_finite false (2 ^ 52) 948) = true.

(** The scales of the unit tables: below [2^13] and, against the guard, with
    [DBL_MAX / scale] above [2^1000]. *)
Definition scale_ok (s : double) : bool :=
  valid64 s && match s with
  | S754_finite false m e => Zdigits2 (Zpos m) + e <=? 13
  | _ => false
  end &&
  (negb (SFltb (b64_of_Z 1) s) ||
   isfinite (b64_div DBL_MAX s) && SFleb (S754_finite false (2 ^ 52) 948) (b64_div DBL_MAX s)).

Lemma force_scales_ok u s : force_scale_to_newtons u = Ok s → scale_ok s = true.
Proof. destruct u; intros [= <-]; vm_compute; done. Qed.
Lemma torque_scales_ok u s : torque_scale_to_newton_metres u = Ok s → scale_ok s = true.
Proof. destruct u; intros [= <-]; vm_compute; done. Qed.

Lemma checked_scale_total v s :
  representable v → scale_ok s = true → checked_scale v s = Ok (b64_mul v s).
Proof.
  intros (Hv & Hf & Hle) [[Hs Hd]%andb_prop Hg]%andb_prop.
  destruct s as [| | |[] ms es]; try done. apply Z.leb_le in Hd.
  unfold checked_scale. rewrite Hf. cbn [negb orb].
  assert (valid64 (SFabs v) = true ∧ isfinite (SFabs v) = true) as [Hva Hfa] by by destruct v.
  assert (SFltb (b64_of_Z 1) (S754_finite false ms es) &&
          SFltb (b64_div DBL_MAX (S754_finite false ms es)) (SFabs v) = false) as ->.
  { destruct (SFltb (b64_of_Z 1) _); [|done]. apply andb_prop in Hg as [Hgf Hg]. cbn [andb].
    assert (valid64 (b64_div DBL_MAX (S754_finite false ms es)) = true) as Hvd
      by (by apply (SFdiv_valid 53 1024)).
    unfold SFltb. rewrite (SFcompare_sval 53 1024) by done.
    unfold SFleb in Hle, Hg. rewrite (SFcompare_sval 53 1024) in Hle, Hg by done.
    set (c := sval 53 1024 (S754_finite false (2 ^ 52) 948)) in *. clearbody c.
    destruct (Z.compare_spec (sval 53 1024 (SFabs v)) c),
      (Z.compare_spec c (sval 53 1024 (b64_div DBL_MAX (S754_finite false ms es)))),
      (Z.compare_spec (sval 53 1024 (b64_div DBL_MAX (S754_finite false ms es))) (sval 53 1024 (SFabs v)));
      done || lia. }
  assert (isfinite (b64_mul v (S754_finite false ms es)) = true) as ->; [|done].
  destruct v as [sv| | |sv mv ev]; try done. apply b64_mul_finite; [done|done|].
  assert (Zdigits2 (Zpos mv) + ev ≤ 1001); [|lia].
  unfold SFleb in Hle. rewrite (SFcompare_sval 53 1024) in Hle by done.
  apply (valid_finite_spec 53 1024) in Hv as (_ & He & Hd3 & Hd4).
  change (emin 53 1024) with (-1074) in *.
  destruct (Z.le_gt_cases ev 948) as [|Hgt]; [lia|exfalso].
  assert (sval 53 1024 (S754_finite false (2 ^ 52) 948) < sval 53 1024 (SFabs (S754_finite sv mv ev))) as Hlt.
  { cbn [SFabs sval cond_Zopp]. change (emin 53 1024) with (-1074).
    assert (Zdigits2 (Zpos mv) = 53) as Hd53 by lia.
    destruct (Zdigits2_spec (Zpos mv) eq_refl) as (_ & Hlo & _). rewrite Hd53 in Hlo.
    change (53 - 1) with 52 in Hlo. change (Zpos (2 ^ 52)) with (2 ^ 52).
    assert (2 ^ (948 - -1074) < 2 ^ (ev - -1074)) by (apply Z.pow_lt_mono_r; lia).
    assert (0 < 2 ^ (948 - -1074)) by (apply Z.pow_pos_nonneg; lia).
    apply Z.lt_le_trans with (2 ^ 52 * 2 ^ (ev - -1074)); [by apply Z.mul_lt_mono_pos_l|].
    apply Z.mul_le_mono_nonneg_r; [apply Z.pow_nonneg; lia|done]. }
  by apply Z.compare_gt_iff in Hlt; rewrite Hlt in Hle.
Qed.

Lemma scale_axes_total force torque fs ts :
  length force = length torque → Forall representable force → Forall representable torque →
  scale_ok fs = true → scale_ok ts = true →
  is_ok (scale_axes force torque fs ts) = true.
Proof.
  intros Hl Hf Ht Hfs Hts. revert torque Hl Ht. induction Hf as [|f force Hf _ IH];
    intros [|t torque] Hl Ht; try done.
  apply Forall_cons in Ht as [Ht1 Ht]. cbn [scale_axes].
  rewrite !checked_scale_total by done. cbn. injection Hl as Hl. specialize (IH torque Hl Ht).
  by destruct (scale_axes force torque fs ts).
Qed.

(** ** The units

    The exact factors, as fractions, from the definitions of the units: a pound is
    0.45359237 kg, standard gravity 9.80665 m/s2, an inch 0.0254 m, a foot 0.3048 m. *)
Definition force_unit_newtons (u : ForceUnit) : option (Z * Z) :=
  match u with
  | Newton => Some (1, 1)
  | KiloNewton => Some (1000, 1)
  | PoundForce => Some (45359237 * 980665, 10 ^ 8 * 10 ^ 5)
  | KiloPoundForce => Some (1000 * 45359237 * 980665, 10 ^ 8 * 10 ^ 5)
  | KilogramForce => Some (980665, 10 ^ 5)
  | ForceUnknown => None
  end.
Definition torque_unit_newton_metres (u : TorqueUnit) : option (Z * Z) :=
  match u with
  | NewtonMeter => Some (1, 1)
  | NewtonMillimeter => Some (1, 1000)
  | PoundForceInch => Some (45359237 * 980665 * 254, 10 ^ 8 * 10 ^ 5 * 10 ^ 4)
  | PoundForceFoot => Some (45359237 * 980665 * 3048, 10 ^ 8 * 10 ^ 5 * 10 ^ 4)
  | KilogramForceCentimeter => Some (980665, 10 ^ 5 * 100)
  | KiloNewtonMeter => Some (1000, 1)
  | TorqueUnknown => None
  end.

(** [x] is within a relative error of [2^-53], half a unit in the last place, of a
    positive fraction. *)
Definition nearest_to (q : Z * Z) (x : double) : Prop :=
  valid64 x = true ∧ Z.abs (sval 53 1024 x * q.2 - q.1 * 2 ^ 1074) * 2 ^ 53 ≤ q.1 * 2 ^ 1074.

Lemma force_scale_exact u :
  match force_scale_to_newtons u, force_unit_newtons u with
  | Ok x, Some q => nearest_to q x
  | Throw e, None => e = InvalidArgument "Unknown force unit"
  | _, _ => False
  end.
Proof.
  destruct u; first [reflexivity | split; [vm_compute; reflexivity|apply Z.leb_le; vm_compute; reflexivity]].
Qed.

Lemma torque_scale_exact u :
  match torque_scale_to_newton_metres u, torque_unit_newton_metres u with
  | Ok x, Some q => nearest_to q x
  | Throw e, None => e = InvalidArgument "Unknown torque unit"
  | _, _ => False
  end.
Proof.
  destruct u; first [reflexivity | split; [vm_compute; reflexivity|apply Z.leb_le; vm_compute; reflexivity]].
Qed.

(** A conversion that succeeds. *)
Lemma to_si_sample_ok s si :
  length (force s) = length (torque s) → to_si_sample s = Ok si →
  sample_is_finite si = true ∧
  (∃ fs ts, force_scale_to_newtons (force_unit s) = Ok fs ∧
     torque_scale_to_newton_metres (torque_unit s) = Ok ts ∧
     si_force si = (λ v, b64_mul v fs) <$> force s ∧
     si_torque si = (λ v, b64_mul v ts) <$> torque s) ∧
  si_rdt_sequence si = rdt_sequence s ∧ si_ft_sequence si = ft_sequence s ∧ si_status si = status s ∧
  si_configuration_revision si = configuration_revision s ∧ si_received_at si = received_at s.
Proof.
  intros Hl H. unfold to_si_sample in H. inv_ok. subst si.
  match goal with Ha : scale_axes _ _ _ _ = Ok ?x |- _ => destruct x as [fs' ts'];
    destruct (scale_axes_ok _ _ _ _ _ _ Hl Ha) as (-> & -> & Hf) end.
  cbn [fst snd]. rewrite forallb_app in Hf. split_and!; try done. by eexists _, _.
Qed.

Lemma checked_scale_error v scale e : checked_scale v scale = Throw e → e = si_error.
Proof. unfold checked_scale. cbv zeta. repeat case_split; by intros [= <-]. Qed.

Lemma scale_axes_error force torque fs ts e : scale_axes force torque fs ts = Throw e → e = si_error.
Proof.
  revert torque. induction force as [|f force IH]; intros [|t torque]; cbn [scale_axes]; try done.
  destruct (checked_scale f fs) eqn:Hf; cbn [mbind result_bind];
    [|intros [= <-]; by eapply checked_scale_error].
  destruct (checked_scale t ts) eqn:Ht; cbn [mbind result_bind];
    [|intros [= <-]; by eapply checked_scale_error].
  destruct (scale_axes force torque fs ts) eqn:E; cbn [mbind result_bind]; [done|].
  intros [= <-]. by eapply IH.
Qed.

(** C34: the SI conversion is right and never lets a bad number through.  A sample that
    is converted has known units; each axis is the product, finite, with the [double]
    nearest to the exact factor of its unit, and all of the sample's metadata is kept.
    Every sample with known units and components below 2^1000 in magnitude is
    converted; a rejected one has an unknown unit, which the exception names, or a
    component beyond that. *)
Theorem to_si_sample_spec s :
  length (force s) = length (torque s) →
  match to_si_sample s with
  | Ok si =>
      sample_is_finite si = true ∧
      (∃ fq tq fs ts, force_unit_newtons (force_unit s) = Some fq ∧ nearest_to fq fs ∧
         torque_unit_newton_metres (torque_unit s) = Some tq ∧ nearest_to tq ts ∧
         si_force si = (λ v, b64_mul v fs) <$> force s ∧
         si_torque si = (λ v, b64_mul v ts) <$> torque s) ∧
      si_rdt_sequence si = rdt_sequence s ∧ si_ft_sequence si = ft_sequence s ∧
      si_status si = status s ∧ si_configuration_revision si = configuration_revision s ∧
      si_received_at si = received_at s
  | Throw e =>
      (force_unit s = ForceUnknown ∧ e = InvalidArgument "Unknown force unit") ∨
      (force_unit s ≠ ForceUnknown ∧ torque_unit s = TorqueUnknown ∧
         e = InvalidArgument "Unknown torque unit") ∨
      (force_unit s ≠ ForceUnknown ∧ torque_unit s ≠ TorqueUnknown ∧
         e = InvalidArgument "measurement cannot be represented in SI units" ∧
         ¬ (Forall representable (force s) ∧ Forall representable (torque s)))
  end.
Proof.
  intros Hl. pose proof (force_scale_exact (force_unit s)) as Hfq.
  pose proof (torque_scale_exact (torque_unit s)) as Htq.
  destruct (to_si_sample s) as [si|e] eqn:H.
  - destruct (to_si_sample_ok s si Hl H) as (Hfin & (fs & ts & Hfs & Hts & Hf & Ht) & Hm).
    rewrite Hfs in Hfq. rewrite Hts in Htq.
    destruct (force_unit_newtons _) as [fq|]; [|done]. destruct (torque_unit_newton_metres _) as [tq|]; [|done].
    split; [done|]. split; [|exact Hm]. by exists fq, tq, fs, ts.
  - unfold to_si_sample in H.
    destruct (force_scale_to_newtons (force_unit s)) as [fs|] eqn:Hfs; cbn [mbind result_bind] in H.
    2: { left. injection H as <-. by destruct (force_unit s). }
    assert (force_unit s ≠ ForceUnknown) as Hf by (intros E; by rewrite E in Hfs).
    destruct (torque_scale_to_newton_metres (torque_unit s)) as [ts|] eqn:Hts; cbn [mbind result_bind] in H.
    2: { right; left. injection H as <-. by destruct (torque_unit s). }
    right; right. assert (torque_unit s ≠ TorqueUnknown) as Ht by (intros E; by rewrite E in Hts).
    split_and!; try done.
    + destruct (scale_axes _ _ _ _) eqn:Hax; [done|]. injection H as <-. by eapply scale_axes_error.
    + intros [Hrf Hrt].
      pose proof (scale_axes_total _ _ fs ts Hl Hrf Hrt (force_scales_ok _ _ Hfs) (torque_scales_ok _ _ Hts)).
      by destruct (scale_axes _ _ _ _).
Qed.

Definition pound_sample : Sample :=
  mkSample 1 2 0 [100; 0; 0; 0; 0; 0] [b64_of_Z 10; d0; d0] [d0; d0; b64_of_Z (-2)]
    PoundForce PoundForceInch 1 5.
Definition pound_si : SiSample := Eval vm_compute in
  match to_si_sample pound_sample with Ok si => si | Throw _ => mkSiSample 0 0 0 [] [] 0 0 end.
Lemma pound_evaluated : to_si_sample pound_sample = Ok pound_si.
Proof. vm_compute. reflexivity. Qed.

Lemma to_si_sample_spec_witness :
  si_force pound_si = [b64_ratio 44482216152605 1000000000000; d0; d0] ∧
  si_ft_sequence pound_si = ft_sequence pound_sample.
Proof.
  split; [vm_compute; reflexivity|].
  pose proof (to_si_sample_spec pound_sample eq_refl) as H. rewrite pound_evaluated in H.
  destruct H as (_ & _ & _ & H & _). exact H.
Defined.
