(* ===== verification/Diagnostics.v ===== *)
(** * ROS diagnostics

    [ros/diagnostics.hpp] and [ros/diagnostics.cpp]: the text of the diagnostic
    values, the evaluator that grades a health snapshot, and the throttle of the
    fault log.  The formatting of numbers is that of an [std::ostringstream] in
    the classic locale, computed exactly on the binary value. *)

From S2P Require Import Prelude Floating Types Status.
From Stdlib Require Import Ascii.

Definition kMalformedStormThreshold : Z := 10.

(** ** Number formatting *)

(** The nearest integer to [n / d], ties to even. *)
Definition round_half_even (n d : Z) : Z :=
  let q := n / d in let r := n mod d in
  if 2 * r <? d then q
  else if d <? 2 * r then q + 1
  else if Z.even q then q else q + 1.

Fixpoint repeat_string (c : ascii) (n : nat) : string :=
  match n with O => "" | S n => String c (repeat_string c n) end.

Definition pad_left (width : nat) (c : ascii) (s : string) : string :=
  repeat_string c (width - String.length s) +:+ s.

(** The decimal [n / 10^p] with [p] decimals. *)
Definition fixed_digits (n : Z) (p : nat) : string :=
  let scale := 10 ^ Z.of_nat p in
  pretty (n / scale) +:+
  (if (p =? 0)%nat then "" else "." +:+ pad_left p "0" (pretty (n mod scale))).

Definition sign_text (s : bool) : string := if s then "-" else "".

(** A finite float's magnitude as a quotient. *)
Definition magnitude (m : positive) (e : Z) : Z * Z :=
  (Zpos m * 2 ^ Z.max e 0, 2 ^ Z.max (- e) 0).

(** [std::fixed << std::setprecision(p) << value]. *)
Definition number (value : double) (precision : nat) : string :=
  match value with
  | S754_zero s => sign_text s +:+ fixed_digits 0 precision
  | S754_infinity s => sign_text s +:+ "inf"
  | S754_nan => "nan"
  | S754_finite s m e =>
      let '(n, d) := magnitude m e in
      sign_text s +:+ fixed_digits (round_half_even (n * 10 ^ Z.of_nat precision) d) precision
  end.

Definition digit_count (n : Z) : Z := Z.of_nat (String.length (pretty n)).

(** The decimal exponent of [n / d]: the largest [x] with [10^x <= n / d]. *)
Definition decimal_exponent (n d : Z) : Z :=
  if d <=? n then digit_count (n / d) - 1 else - digit_count ((d - 1) / n).

(** [n / d] to 17 significant digits: the digits as an integer and the exponent
    of the first. *)
Definition significant_17 (n d : Z) : Z * Z :=
  let x := decimal_exponent n d in
  let k := 16 - x in
  let r := if 0 <=? k then round_half_even (n * 10 ^ k) d else round_half_even n (d * 10 ^ (- k)) in
  if r =? 10 ^ 17 then (10 ^ 16, x + 1) else (r, x).

Definition strip_zeros (s : string) : string :=
  let fix strip (l : list ascii) : list ascii :=
    match l with
    | "0"%char :: l' => strip l'
    | "."%char :: l' => l'
    | _ => l
    end in
  String.string_of_list_ascii (rev (strip (rev (String.list_ascii_of_string s)))).

(** [std::setprecision(17) << value], the [%.17g] conversion. *)
Definition calibration_number (value : double) : string :=
  match value with
  | S754_zero s => sign_text s +:+ "0"
  | S754_infinity s => sign_text s +:+ "inf"
  | S754_nan => "nan"
  | S754_finite s m e =>
      let '(n, d) := magnitude m e in
      let '(r, x) := significant_17 n d in
      sign_text s +:+
      (if (-4 <=? x) && (x <? 17) then
         let digits := fixed_digits r (Z.to_nat (16 - x)) in
         if x =? 16 then digits else strip_zeros digits
       else
         strip_zeros (fixed_digits r 16) +:+ "e" +:+ (if x <? 0 then "-" else "+") +:+
         pad_left 2 "0" (pretty (Z.abs x)))
  end.

Definition sequence (value : option Z) : string :=
  match value with Some v => pretty v | None => "none" end.

Definition hex_digit (d : Z) : ascii :=
  nth (Z.to_nat d) (String.list_ascii_of_string "0123456789abcdef") "0"%char.

(** Eight hexadecimal digits of a 32-bit word. *)
Definition status_code (status : Z) : string :=
  "0x" +:+ String.string_of_list_ascii
    ((λ k, hex_digit (Z.land (Z.shiftr status (4 * Z.of_nat k)) 15)) <$> rev (seq 0 8)).

Definition configuration_source (s : CalibrationSource) : string :=
  if bool_decide (s = Sensor) then "sensor" else "override".

Example number_rate : number (b64_ratio 69995 10) 1 = "6999.5". Proof. vm_compute. reflexivity. Qed.
Example number_half : number (b64_ratio 1 8) 2 = "0.12". Proof. vm_compute. reflexivity. Qed.
Example calibration_tenth : calibration_number (b64_ratio 1 10) = "0.10000000000000001".
Proof. vm_compute. reflexivity. Qed.
Example calibration_million : calibration_number (b64_of_Z 1000000) = "1000000".
Proof. vm_compute. reflexivity. Qed.
Example calibration_small : calibration_number (b64_ratio 1 100000) = "1.0000000000000001e-05".
Proof. vm_compute. reflexivity. Qed.
Example calibration_large : calibration_number (b64_of_Z 10000000000000000000000) = "1e+22".
Proof. vm_compute. reflexivity. Qed.
Example status_code_ex : status_code 0x8001000a = "0x8001000a". Proof. vm_compute. reflexivity. Qed.

(** ** The evaluator *)

Definition kDiagnosticValueKeys : list string := [
  "state"; "sensor"; "last_rdt_sequence"; "last_ft_sequence"; "last_ft_progress";
  "device_status"; "active_status"; "receive_rate_hz"; "expected_receive_rate_hz";
  "rate_tolerance"; "delivery_rate_hz"; "received_count"; "delivered_count";
  "rate_limited_count"; "device_error_count"; "lost_count"; "duplicate_count";
  "out_of_order_count"; "ft_stall_count"; "ft_backward_count"; "ft_restart_count";
  "malformed_count"; "malformed_storm_threshold"; "malformed_storm_window";
  "reconnect_count"; "timeout_count"; "callback_error_count"; "last_record_age_s";
  "last_error"; "configuration_source"; "force_unit"; "torque_unit";
  "configuration_revision"; "calibration_change_count"; "counts_per_force_unit";
  "counts_per_torque_unit"].

Record DiagnosticReport := mkReport {
  level : Z;
  message : string;
  values : list (string * string);
  log_key : string
}.

Record DiagnosticEvaluator := mkEvaluator {
  expected_rdt_rate_ : double; rate_tolerance_ : double;
  lost_ : Z; device_error_ : Z; timeout_ : Z; malformed_ : Z;
  ft_stall_ : Z; ft_backward_ : Z; ft_restart_ : Z; callback_error_ : Z
}.

Definition evaluator_create (expected_rdt_rate rate_tolerance : double)
    : result DiagnosticEvaluator :=
  if negb (isfinite expected_rdt_rate) || SFleb expected_rdt_rate d0 then
    Throw (InvalidArgument "expected_rdt_rate must be finite and greater than zero")
  else if negb (isfinite rate_tolerance) || SFltb rate_tolerance d0 ||
          SFltb (b64_of_Z 1) rate_tolerance then
    Throw (InvalidArgument "rate_tolerance must be between 0 and 1")
  else Ok (mkEvaluator expected_rdt_rate rate_tolerance 0 0 0 0 0 0 0 0).

(** The difference; [previous] becomes [current]. *)
Definition delta (current previous : Z) : Z :=
  if previous <=? current then u64 (current - previous) else 0.

Definition diagnostic_values (e : DiagnosticEvaluator) (s : HealthSnapshot) : list (string * string) :=
  [("state", client_state_to_string (state s));
   ("sensor", h_sensor_host s +:+ ":" +:+ pretty (h_rdt_port s));
   ("last_rdt_sequence", sequence (last_rdt_sequence s));
   ("last_ft_sequence", sequence (last_ft_sequence s));
   ("last_ft_progress", last_ft_progress s);
   ("device_status", status_code (last_status s));
   ("active_status", decode_status (last_status s));
   ("receive_rate_hz", number (receive_rate_hz s) 1);
   ("expected_receive_rate_hz", number (expected_rdt_rate_ e) 1);
   ("rate_tolerance", number (rate_tolerance_ e) 3);
   ("delivery_rate_hz", number (delivery_rate_hz s) 1);
   ("received_count", pretty (received_count s));
   ("delivered_count", pretty (delivered_count s));
   ("rate_limited_count", pretty (rate_limited_count s));
   ("device_error_count", pretty (device_error_count s));
   ("lost_count", pretty (lost_count s));
   ("duplicate_count", pretty (duplicate_count s));
   ("out_of_order_count", pretty (out_of_order_count s));
   ("ft_stall_count", pretty (ft_stall_count s));
   ("ft_backward_count", pretty (ft_backward_count s));
   ("ft_restart_count", pretty (ft_restart_count s));
   ("malformed_count", pretty (malformed_count s));
   ("malformed_storm_threshold", pretty kMalformedStormThreshold);
   ("malformed_storm_window", "between_diagnostic_updates");
   ("reconnect_count", pretty (reconnect_count s));
   ("timeout_count", pretty (timeout_count s));
   ("callback_error_count", pretty (callback_error_count s));
   ("last_record_age_s", match last_record_age s with Some a => number a 3 | None => "none" end);
   ("last_error", last_error s)] ++
  match sensor_configuration s with
  | Some c =>
      [("configuration_source", configuration_source (source c));
       ("force_unit", force_unit_to_string (cal_force_unit (calibration c)));
       ("torque_unit", torque_unit_to_string (cal_torque_unit (calibration c)));
       ("configuration_revision", pretty (revision c));
       ("calibration_change_count", pretty (calibration_change_count s));
       ("counts_per_force_unit", calibration_number (counts_per_force_unit (calibration c)));
       ("counts_per_torque_unit", calibration_number (counts_per_torque_unit (calibration c)))]
  | None => []
  end.

Definition evaluate (e : DiagnosticEvaluator) (s : HealthSnapshot)
    : DiagnosticReport * DiagnosticEvaluator :=
  let report level message log_key := mkReport level message (diagnostic_values e s) log_key in
  if bool_decide (state s = Faulted) || bool_decide (fault_code s ≠ FaultNone) then
    let detail := if bool_decide (last_error s = "") then fault_code_to_string (fault_code s)
                  else last_error s in
    (report 2 ("faulted: " +:+ detail) "faulted", e)
  else
    let lost := delta (lost_count s) (lost_ e) in
    let device_error := delta (device_error_count s) (device_error_ e) in
    let timeout := delta (timeout_count s) (timeout_ e) in
    let malformed := delta (malformed_count s) (malformed_ e) in
    let ft_stall := delta (ft_stall_count s) (ft_stall_ e) in
    let ft_backward := delta (ft_backward_count s) (ft_backward_ e) in
    let ft_restart := delta (ft_restart_count s) (ft_restart_ e) in
    let callback_error := delta (callback_error_count s) (callback_error_ e) in
    let e' := mkEvaluator (expected_rdt_rate_ e) (rate_tolerance_ e) (lost_count s)
                (device_error_count s) (timeout_count s) (malformed_count s) (ft_stall_count s)
                (ft_backward_count s) (ft_restart_count s) (callback_error_count s) in
    let status_severity := classify_status (last_status s) in
    let lower_rate := b64_mul (expected_rdt_rate_ e) (b64_sub (b64_of_Z 1) (rate_tolerance_ e)) in
    let upper_rate := b64_mul (expected_rdt_rate_ e) (b64_add (b64_of_Z 1) (rate_tolerance_ e)) in
    (if bool_decide (state s = Backoff) then report 2 "connection lost; reconnecting" "backoff"
     else if bool_decide (state s = Stopped) then report 2 "client stopped" "stopped"
     else if bool_decide (status_severity = SevError) then
       report 2 ("device error: " +:+ decode_status (last_status s)) "device_error"
     else if negb (device_error =? 0) then
       report 2 "serious device status observed since last diagnostic" "device_error_event"
     else if negb (timeout =? 0) then
       report 2 "receive timeout observed since last diagnostic" "receive_timeout"
     else if kMalformedStormThreshold <=? malformed then
       report 2 "malformed-packet storm observed since last diagnostic" "malformed_storm"
     else if negb (ft_stall =? 0) then report 2 "FT sequence stalled since last diagnostic" "ft_stall"
     else if negb (ft_backward =? 0) then
       report 2 "FT sequence moved backward since last diagnostic" "ft_backward"
     else if bool_decide (state s = Connecting) then
       report 1 "waiting for first RDT record" "connecting"
     else if bool_decide (status_severity = SevWarn) then
       report 1 "monitor condition latched" "condition_latch"
     else if negb (ft_restart =? 0) then
       report 1 "FT device counter restarted since last diagnostic" "ft_restart"
     else if negb (lost =? 0) then report 1 "RDT records lost since last diagnostic" "packet_loss"
     else if SFltb (receive_rate_hz s) lower_rate || SFltb upper_rate (receive_rate_hz s) then
       report 1 "receive rate outside configured tolerance" "receive_rate"
     else if negb (callback_error =? 0) then
       report 1 "sample callback failed since last diagnostic" "callback_error"
     else report 0 "streaming normally" "healthy", e').

(** ** The log throttle *)

Record FaultLogThrottle := mkThrottle {
  repeat_interval_ : double; active_ : bool; level_ : Z; key_ : string; last_log_ : double
}.

Definition throttle_create (repeat_interval : double) : result FaultLogThrottle :=
  if negb (isfinite repeat_interval) || SFleb repeat_interval d0 then
    Throw (InvalidArgument "repeat_interval must be finite and greater than zero")
  else Ok (mkThrottle repeat_interval false 0 "" d0).

Definition should_log (t : FaultLogThrottle) (report : DiagnosticReport) (now : double)
    : bool * FaultLogThrottle :=
  if level report <=? 0 then
    (false, mkThrottle (repeat_interval_ t) false (level_ t) (key_ t) (last_log_ t))
  else if negb (active_ t) || negb (level report =? level_ t) ||
          negb (bool_decide (log_key report = key_ t)) ||
          SFleb (repeat_interval_ t) (b64_sub now (last_log_ t)) then
    (true, mkThrottle (repeat_interval_ t) true (level report) (log_key report) now)
  else (false, t).

(** Successive reports with their times. *)
Fixpoint throttle_run (t : FaultLogThrottle) (reports : list (DiagnosticReport * double))
    : list bool * FaultLogThrottle :=
  match reports with
  | [] => ([], t)
  | (r, now) :: reports =>
      let '(b, t) := should_log t r now in
      let '(bs, t) := throttle_run t reports in (b :: bs, t)
  end.

(** ** What a snapshot reports *)

(** The evaluator saw all the counts of this snapshot already. *)
Definition new_events (seen current : Z) : Prop := seen < current.

(** The conditions that make a report an error and a warning. *)
Definition error_condition (e : DiagnosticEvaluator) (s : HealthSnapshot) : Prop :=
  state s = Faulted ∨ fault_code s ≠ FaultNone ∨ state s = Backoff ∨ state s = Stopped ∨
  classify_status (last_status s) = SevError ∨
  new_events (device_error_ e) (device_error_count s) ∨
  new_events (timeout_ e) (timeout_count s) ∨
  malformed_ e + 10 ≤ malformed_count s ∨
  new_events (ft_stall_ e) (ft_stall_count s) ∨
  new_events (ft_backward_ e) (ft_backward_count s).

Definition warning_condition (e : DiagnosticEvaluator) (s : HealthSnapshot) : Prop :=
  state s = Connecting ∨ classify_status (last_status s) = SevWarn ∨
  new_events (ft_restart_ e) (ft_restart_count s) ∨ new_events (lost_ e) (lost_count s) ∨
  SFltb (receive_rate_hz s)
    (b64_mul (expected_rdt_rate_ e) (b64_sub (b64_of_Z 1) (rate_tolerance_ e))) = true ∨
  SFltb (b64_mul (expected_rdt_rate_ e) (b64_add (b64_of_Z 1) (rate_tolerance_ e)))
    (receive_rate_hz s) = true ∨
  new_events (callback_error_ e) (callback_error_count s).

(** The counts are in the range of their type. *)
Definition counts_in_range (e : DiagnosticEvaluator) (s : HealthSnapshot) : Prop :=
  Forall is_u64 [lost_ e; device_error_ e; timeout_ e; malformed_ e; ft_stall_ e; ft_backward_ e;
    ft_restart_ e; callback_error_ e; lost_count s; device_error_count s; timeout_count s;
    malformed_count s; ft_stall_count s; ft_backward_count s; ft_restart_count s;
    callback_error_count s].

Lemma delta_spec current previous :
  is_u64 current → is_u64 previous →
  delta current previous = Z.max 0 (current - previous).
Proof.
  intros Hc Hp. unfold delta. destruct (Z.leb_spec previous current); [|lia].
  rewrite u64_small by (unfold is_u64 in *; lia). lia.
Qed.

Lemma delta_new current previous :
  is_u64 current → is_u64 previous →
  negb (delta current previous =? 0) = true ↔ new_events previous current.
Proof.
  intros Hc Hp. rewrite delta_spec, negb_true_iff, Z.eqb_neq by done. unfold new_events. lia.
Qed.

(** The conditions in the order of the code, as booleans. *)
Definition error_flags (e : DiagnosticEvaluator) (s : HealthSnapshot) : bool :=
  bool_decide (state s = Faulted) || bool_decide (fault_code s ≠ FaultNone) ||
  bool_decide (state s = Backoff) || bool_decide (state s = Stopped) ||
  bool_decide (classify_status (last_status s) = SevError) ||
  negb (delta (device_error_count s) (device_error_ e) =? 0) ||
  negb (delta (timeout_count s) (timeout_ e) =? 0) ||
  (10 <=? delta (malformed_count s) (malformed_ e)) ||
  negb (delta (ft_stall_count s) (ft_stall_ e) =? 0) ||
  negb (delta (ft_backward_count s) (ft_backward_ e) =? 0).

Definition warning_flags (e : DiagnosticEvaluator) (s : HealthSnapshot) : bool :=
  bool_decide (state s = Connecting) ||
  bool_decide (classify_status (last_status s) = SevWarn) ||
  negb (delta (ft_restart_count s) (ft_restart_ e) =? 0) ||
  negb (delta (lost_count s) (lost_ e) =? 0) ||
  SFltb (receive_rate_hz s)
    (b64_mul (expected_rdt_rate_ e) (b64_sub (b64_of_Z 1) (rate_tolerance_ e))) ||
  SFltb (b64_mul (expected_rdt_rate_ e) (b64_add (b64_of_Z 1) (rate_tolerance_ e)))
    (receive_rate_hz s) ||
  negb (delta (callback_error_count s) (callback_error_ e) =? 0).

Lemma evaluate_level e s :
  level (fst (evaluate e s)) =
    (if error_flags e s then 2 else if warning_flags e s then 1 else 0) ∧
  (level (fst (evaluate e s)) = 0 ↔ log_key (fst (evaluate e s)) = "healthy").
Proof.
  unfold evaluate, error_flags, warning_flags, kMalformedStormThreshold. cbv zeta.
  repeat first
    [ match goal with
      | |- context [if ?b then _ else _] =>
          lazymatch b with context [_ || _] => fail | _ => destruct b eqn:? end
      | |- context [bool_decide ?P] => destruct (bool_decide P)
      | |- context [SFltb ?x ?y] => destruct (SFltb x y)
      | |- context [negb (?x =? 0)] => destruct (negb (x =? 0))
      | |- context [10 <=? ?x] => destruct (10 <=? x)
      end; cbn [orb fst level log_key]; try (by split) ].
Qed.

Lemma error_flags_spec e s : counts_in_range e s → (error_flags e s = true ↔ error_condition e s).
Proof.
  unfold counts_in_range, error_flags, error_condition. intros Hr.
  repeat match goal with H : Forall _ (_ :: _) |- _ => apply Forall_cons in H as [? H] end.
  rewrite !orb_true_iff, !bool_decide_eq_true, !delta_new, Z.leb_le, delta_spec by done.
  assert (10 ≤ Z.max 0 (malformed_count s - malformed_ e) ↔ malformed_ e + 10 ≤ malformed_count s)
    as -> by lia. tauto.
Qed.

Lemma warning_flags_spec e s :
  counts_in_range e s → (warning_flags e s = true ↔ warning_condition e s).
Proof.
  unfold counts_in_range, warning_flags, warning_condition. intros Hr.
  repeat match goal with H : Forall _ (_ :: _) |- _ => apply Forall_cons in H as [? H] end.
  rewrite !orb_true_iff, !bool_decide_eq_true, !delta_new by done. tauto.
Qed.

(** The conditions of a report, the worst first, with the level, the message and the key
    of the report they make. *)
Definition report_table (e : DiagnosticEvaluator) (s : HealthSnapshot)
    : list (bool * (Z * string * string)) := [
  (bool_decide (state s = Faulted ∨ fault_code s ≠ FaultNone),
     (2, "faulted: " +:+ (if bool_decide (last_error s = "") then fault_code_to_string (fault_code s)
                          else last_error s), "faulted"));
  (bool_decide (state s = Backoff), (2, "connection lost; reconnecting", "backoff"));
  (bool_decide (state s = Stopped), (2, "client stopped", "stopped"));
  (bool_decide (classify_status (last_status s) = SevError),
     (2, "device error: " +:+ decode_status (last_status s), "device_error"));
  (device_error_ e <? device_error_count s,
     (2, "serious device status observed since last diagnostic", "device_error_event"));
  (timeout_ e <? timeout_count s, (2, "receive timeout observed since last diagnostic", "receive_timeout"));
  (malformed_ e + 10 <=? malformed_count s,
     (2, "malformed-packet storm observed since last diagnostic", "malformed_storm"));
  (ft_stall_ e <? ft_stall_count s, (2, "FT sequence stalled since last diagnostic", "ft_stall"));
  (ft_backward_ e <? ft_backward_count s,
     (2, "FT sequence moved backward since last diagnostic", "ft_backward"));
  (bool_decide (state s = Connecting), (1, "waiting for first RDT record", "connecting"));
  (bool_decide (classify_status (last_status s) = SevWarn), (1, "monitor condition latched", "condition_latch"));
  (ft_restart_ e <? ft_restart_count s,
     (1, "FT device counter restarted since last diagnostic", "ft_restart"));
  (lost_ e <? lost_count s, (1, "RDT records lost since last diagnostic", "packet_loss"));
  (SFltb (receive_rate_hz s) (b64_mul (expected_rdt_rate_ e) (b64_sub (b64_of_Z 1) (rate_tolerance_ e))) ||
   SFltb (b64_mul (expected_rdt_rate_ e) (b64_add (b64_of_Z 1) (rate_tolerance_ e))) (receive_rate_hz s),
     (1, "receive rate outside configured tolerance", "receive_rate"));
  (callback_error_ e <? callback_error_count s,
     (1, "sample callback failed since last diagnostic", "callback_error"))].

Fixpoint first_row {A} (rows : list (bool * A)) (otherwise : A) : A :=
  match rows with
  | [] => otherwise
  | (holds, x) :: rows => if holds then x else first_row rows otherwise
  end.

(** The next report counts from this snapshot, unless the client is faulted. *)
Definition advanced_baselines (e : DiagnosticEvaluator) (s : HealthSnapshot) : DiagnosticEvaluator :=
  mkEvaluator (expected_rdt_rate_ e) (rate_tolerance_ e) (lost_count s) (device_error_count s)
    (timeout_count s) (malformed_count s) (ft_stall_count s) (ft_backward_count s) (ft_restart_count s)
    (callback_error_count s).

Lemma evaluate_table e s :
  counts_in_range e s →
  let '(r, e') := evaluate e s in
  (level r, message r, log_key r) = first_row (report_table e s) (0, "streaming normally", "healthy") ∧
  values r = diagnostic_values e s ∧
  e' = (if bool_decide (state s = Faulted ∨ fault_code s ≠ FaultNone) then e else advanced_baselines e s).
Proof.
  unfold counts_in_range. intros Hr.
  repeat match goal with H : Forall _ (_ :: _) |- _ => apply Forall_cons in H as [? H] end.
  assert (∀ seen current, is_u64 current → is_u64 seen → negb (delta current seen =? 0) = (seen <? current)) as Hnew.
  { intros seen current Hc Hs. apply eq_true_iff_eq. rewrite delta_new, Z.ltb_lt by done. done. }
  assert ((kMalformedStormThreshold <=? delta (malformed_count s) (malformed_ e)) =
          (malformed_ e + 10 <=? malformed_count s)) as Hstorm.
  { rewrite delta_spec by done. unfold kMalformedStormThreshold.
    destruct (Z.leb_spec 10 (Z.max 0 (malformed_count s - malformed_ e))),
      (Z.leb_spec (malformed_ e + 10) (malformed_count s)); done || lia. }
  unfold evaluate, report_table. cbv zeta. rewrite !Hnew, Hstorm by done. rewrite bool_decide_or.
  destruct (bool_decide (state s = Faulted) || bool_decide (fault_code s ≠ FaultNone)); [done|].
  cbn [first_row]. by repeat case_split.
Qed.

(** C35: a report is the one of the worst condition it covers: its level, its message and
    its key are those of the first row of the table whose condition holds - the client
    faulted, with its error or else the name of the fault, reconnecting or stopped, an
    error status, a device error, timeout, malformed storm, FT stall or FT step backward
    since the previous report, and so on - or say that the client streams normally; it
    shows the values of the snapshot; and the next report counts from the counters of
    this snapshot, all eight, unless the client was faulted.  So a report is an error
    exactly when some error condition holds, a warning exactly when none of these but
    some warning condition holds, and healthy exactly when none does. *)
Theorem evaluate_worst_condition e s :
  counts_in_range e s →
  let '(r, e') := evaluate e s in
  (level r, message r, log_key r) = first_row (report_table e s) (0, "streaming normally", "healthy") ∧
  values r = diagnostic_values e s ∧
  e' = (if bool_decide (state s = Faulted ∨ fault_code s ≠ FaultNone) then e else advanced_baselines e s) ∧
  (level r = 2 ↔ error_condition e s) ∧
  (level r = 1 ↔ ¬ error_condition e s ∧ warning_condition e s) ∧
  (level r = 0 ↔ ¬ error_condition e s ∧ ¬ warning_condition e s) ∧
  (level r = 0 ↔ log_key r = "healthy").
Proof.
  intros Hr. pose proof (evaluate_table e s Hr) as Ht. pose proof (evaluate_level e s) as [Hl Hk].
  destruct (evaluate e s) as [r e']. destruct Ht as (Ht & Hv & He). cbn [fst] in Hl, Hk.
  rewrite <- (error_flags_spec e s Hr), <- (warning_flags_spec e s Hr).
  split_and!; [done..| | | |exact Hk]; rewrite Hl; destruct (error_flags e s), (warning_flags e s);
    intuition congruence.
Qed.

Definition fresh_evaluator : DiagnosticEvaluator :=
  mkEvaluator (b64_of_Z 7000) (b64_ratio 1 10) 0 0 0 0 0 0 0 0.
Definition lossy_snapshot : HealthSnapshot :=
  default_health <| state := Streaming |> <| receive_rate_hz := b64_of_Z 7000 |> <| lost_count := 3 |>.

Definition lossy_evaluation : DiagnosticReport * DiagnosticEvaluator :=
  Eval vm_compute in evaluate fresh_evaluator lossy_snapshot.
Lemma lossy_evaluated : evaluate fresh_evaluator lossy_snapshot = lossy_evaluation.
Proof. vm_compute. reflexivity. Qed.

Lemma evaluate_worst_condition_witness :
  level (fst lossy_evaluation) = 1 ∧ log_key (fst lossy_evaluation) = "packet_loss" ∧
  lost_ (snd lossy_evaluation) = 3.
Proof.
  pose proof (evaluate_worst_condition fresh_evaluator lossy_snapshot) as H. rewrite lossy_evaluated in H.
  destruct lossy_evaluation as [r e']. cbn [fst snd].
  destruct H as (Ht & _ & -> & _).
  - apply (bool_decide_unpack _). vm_compute. exact I.
  - assert (first_row (report_table fresh_evaluator lossy_snapshot) (0, "streaming normally", "healthy") =
            (1, "RDT records lost since last diagnostic", "packet_loss")) as E by (vm_compute; reflexivity).
    rewrite E in Ht. injection Ht as -> _ ->. split; [reflexivity|]. split; reflexivity.
Defined.

(** Every report carries the documented keys once each and in order: the
    first 29, followed by the other seven exactly when a sensor configuration is
    known. *)
Theorem diagnostic_keys e s :
  fst <$> values (fst (evaluate e s)) =
    (match sensor_configuration s with
     | Some _ => kDiagnosticValueKeys
     | None => take 29 kDiagnosticValueKeys
     end) ∧ NoDup kDiagnosticValueKeys.
Proof.
  split; [|apply (bool_decide_unpack _); by vm_compute].
  assert (values (fst (evaluate e s)) = diagnostic_values e s) as ->.
  { unfold evaluate. cbv zeta. by repeat case_split. }
  unfold diagnostic_values. by destruct (sensor_configuration s).
Qed.

(** ** The throttle *)

(** The fault log neither floods nor goes stale: a report that is an error or
    a warning is logged exactly when the previous report was healthy, had another
    level or another key, or when the repeat interval has passed since the last
    log; a healthy report is never logged; so a run of equal reports after a
    logged one is logged again only at an interval's distance. *)
Theorem throttle_spacing t r now reports r' now' :
  0 < level r → fst (should_log t r now) = true →
  Forall (λ '(q, _), level q = level r ∧ log_key q = log_key r) reports →
  level r' = level r → log_key r' = log_key r →
  let '(logged, t') := throttle_run (snd (should_log t r now)) reports in
  Forall (λ b, b = false) logged →
  last_log_ t' = now ∧
  (fst (should_log t' r' now') = true ↔
     SFleb (repeat_interval_ t) (b64_sub now' now) = true).
Proof.
  intros Hl Hlog Hrs Hl' Hk'.
  assert (snd (should_log t r now) = mkThrottle (repeat_interval_ t) true (level r) (log_key r) now) as ->.
  { unfold should_log in *. destruct (Z.leb_spec (level r) 0); [lia|]. by case_split. }
  set (t1 := mkThrottle _ _ _ _ _).
  assert (∀ reports, Forall (λ '(q, _), level q = level r ∧ log_key q = log_key r) reports →
            let '(logged, t') := throttle_run t1 reports in
            Forall (λ b, b = false) logged → t' = t1) as Hrun.
  { clear Hrs reports. intros reports. induction 1 as [|[q n] reports [Hq1 Hq2] _ IH]; [done|].
    cbn [throttle_run]. destruct (should_log t1 q n) as [b t2] eqn:Hs.
    assert (b = false → t2 = t1) as Ht2.
    { intros ->. unfold should_log in Hs. rewrite Hq1 in Hs. destruct (Z.leb_spec (level r) 0); [lia|].
      case_split_in Hs; by simplify_eq. }
    destruct b.
    - destruct (throttle_run t2 reports). intros Hf. by apply Forall_cons in Hf as [? _].
    - rewrite Ht2 by done. destruct (throttle_run t1 reports). intros Hf.
      apply Forall_cons in Hf as [_ Hf]. by apply IH. }
  specialize (Hrun reports Hrs). destruct (throttle_run t1 reports) as [logged t'].
  intros Hq. rewrite (Hrun Hq). split; [done|]. unfold should_log, t1; cbn.
  rewrite Hl', Hk', Z.eqb_refl, bool_decide_eq_true_2 by done. cbn.
  destruct (Z.leb_spec (level r) 0); [lia|]. by case_split.
Qed.

Lemma throttle_spacing_witness :
  let r := mkReport 2 "client stopped" [] "stopped" in
  let t := mkThrottle (b64_of_Z 10) false 0 "" d0 in
  let '(logged, t') := throttle_run (snd (should_log t r (b64_of_Z 1))) [(r, b64_of_Z 5)] in
  Forall (λ b, b = false) logged →
  last_log_ t' = b64_of_Z 1 ∧
  (fst (should_log t' r (b64_of_Z 11)) = true ↔ SFleb (b64_of_Z 10) (b64_sub (b64_of_Z 11) (b64_of_Z 1)) = true).
Proof.
  intros r t.
  apply (throttle_spacing t r (b64_of_Z 1) [(r, b64_of_Z 5)] r (b64_of_Z 11)).
  - reflexivity.
  - vm_compute. reflexivity.
  - repeat constructor.
  - reflexivity.
  - reflexivity.
Defined.
