(* ===== verification/Decimal.v ===== *)
(** * Decimal texts

    The numbers the program prints are the numbers a reader gets back: integers
    ([std::to_string] and the stream inserters), and doubles printed with 17
    significant digits ([calibration_number] of [ros/diagnostics.cpp], the numbers
    of the JSON report), which the stream extraction of the configuration parser
    reads back exactly. *)

From stdpp Require Import list.
From S2P Require Import Prelude Floating Rounding Types Text XmlConfig Diagnostics.
From Stdlib Require Import Ascii.

(** ** Digits *)

Definition is_digit (c : ascii) : bool :=
  match digit_value 10 c with Some _ => true | None => false end.

Definition digits (l : chars) : Prop := forallb is_digit l = true.

(** The number the digits of [l] stand for, on top of [acc]. *)
Fixpoint digits_value (acc : Z) (l : chars) : Z :=
  match l with
  | [] => acc
  | c :: l => digits_value (acc * 10 + default 0 (digit_value 10 c)) l
  end.

(** A text that does not continue a run of digits; nor a mantissa. *)
Definition no_digit (l : chars) : bool := match l with [] => true | c :: _ => negb (is_digit c) end.
Definition ends_number (l : chars) : bool :=
  no_digit l && match l with [] => true | c :: _ => negb (is_char "." c) end.

Lemma digits_app l l' : digits (l ++ l') ↔ digits l ∧ digits l'.
Proof. unfold digits. rewrite forallb_app. apply andb_true_iff. Qed.

Lemma digit_range c d : digit_value 10 c = Some d → 0 ≤ d < 10.
Proof.
  unfold digit_value. set (n := Z.of_N (code c)). assert (0 ≤ n) by (unfold n; lia).
  repeat case_split; intros; simplify_eq; try lia.
  all: repeat match goal with H : (_ && _)%bool = true |- _ => apply andb_prop in H as [? ?] end; lia.
Qed.

Lemma digit_is_digit c : is_digit c = true → ∃ d, digit_value 10 c = Some d ∧ 0 ≤ d < 10.
Proof.
  unfold is_digit. destruct (digit_value 10 c) as [d|] eqn:E; [|done]. intros _.
  exists d. split; [done|]. by eapply digit_range.
Qed.

Lemma digit_not_special c :
  is_digit c = true →
  is_char "+" c = false ∧ is_char "-" c = false ∧ is_char "." c = false ∧ is_char "eE" c = false ∧
  is_char "<" c = false ∧ is_ascii_whitespace c = false.
Proof. destruct c as [[] [] [] [] [] [] [] []]; vm_compute; intros; repeat split; done. Qed.

Lemma digits_value_acc acc l : digits_value acc l = acc * 10 ^ Z.of_nat (length l) + digits_value 0 l.
Proof.
  revert acc. induction l as [|c l IH]; intros acc; cbn [digits_value length]; [lia|].
  rewrite (IH (acc * 10 + _)), (IH (0 * 10 + _)), Nat2Z.inj_succ, Z.pow_succ_r by lia. lia.
Qed.

Lemma digits_value_app acc l l' : digits_value acc (l ++ l') = digits_value (digits_value acc l) l'.
Proof. revert acc. induction l as [|c l IH]; intros acc; cbn [app digits_value]; auto. Qed.

Lemma digits_value_range l : digits l → 0 ≤ digits_value 0 l < 10 ^ Z.of_nat (length l).
Proof.
  induction l as [|c l IH]; [done|]. unfold digits. cbn [forallb digits_value length].
  intros [(d & -> & Hd)%digit_is_digit Hl]%andb_prop. specialize (IH Hl).
  rewrite digits_value_acc, Nat2Z.inj_succ, Z.pow_succ_r by lia. cbn [default id]. nia.
Qed.

Lemma scan_digits_run acc k l rest :
  digits l → scan_digits 10 acc k (l ++ rest) = scan_digits 10 (digits_value acc l) (k + length l)%nat rest.
Proof.
  revert acc k. induction l as [|c l IH]; intros acc k; [by rewrite Nat.add_0_r|].
  unfold digits. cbn [forallb digits_value length app scan_digits].
  intros [(d & -> & Hd)%digit_is_digit Hl]%andb_prop. rewrite (IH _ _ Hl). cbn [default id]. f_equal. lia.
Qed.

Lemma scan_digits_stop acc k l : no_digit l = true → scan_digits 10 acc k l = (acc, k, l).
Proof.
  destruct l as [|c l]; [done|]. cbn [no_digit scan_digits]. unfold is_digit.
  intros H. by destruct (digit_value 10 c).
Qed.

Lemma scan_digits_all acc k l : digits l → scan_digits 10 acc k l = (digits_value acc l, (k + length l)%nat, []).
Proof. intros Hl. rewrite <- (app_nil_r l) at 1. by rewrite scan_digits_run. Qed.

(** ** Integers *)

Lemma pretty_char x : (x < 10)%N → is_digit (pretty_N_char x) = true ∧ digit_value 10 (pretty_N_char x) = Some (Z.of_N x).
Proof.
  intros Hx. assert (x = 0 ∨ x = 1 ∨ x = 2 ∨ x = 3 ∨ x = 4 ∨ x = 5 ∨ x = 6 ∨ x = 7 ∨ x = 8 ∨ x = 9)%N by lia.
  repeat match goal with H : _ ∨ _ |- _ => destruct H as [-> | H] end; subst; by split.
Qed.

Lemma pretty_go_spec x :
  ∃ l, (∀ s, to_chars (pretty_N_go x s) = l ++ to_chars s) ∧ digits l ∧ digits_value 0 l = Z.of_N x ∧
    ((0 < x)%N → 10 ^ (Z.of_nat (length l) - 1) ≤ Z.of_N x ∧ l ≠ []).
Proof.
  induction (N.lt_wf_0 x) as [x _ IH]. destruct (decide (x = 0)%N) as [->|Hx].
  { exists []. split_and!; try done. }
  destruct (IH (x / 10)%N) as (l & Hl & Hd & Hv & Hlow); [apply N.div_lt; lia|].
  destruct (pretty_char (x mod 10)) as [Hc Hcv]; [apply N.mod_lt; lia|].
  exists (l ++ [pretty_N_char (x mod 10)]). split_and!.
  - intros s. rewrite pretty_N_go_step, Hl by lia. by rewrite <- app_assoc.
  - apply digits_app. split; [done|]. unfold digits. cbn [forallb]. by rewrite Hc.
  - rewrite digits_value_app, Hv. cbn [digits_value]. rewrite Hcv. cbn [default id].
    rewrite N2Z.inj_div, N2Z.inj_mod. pose proof (Z.div_mod (Z.of_N x) 10). lia.
  - intros _. split; [|by destruct l]. rewrite length_app. cbn [length].
    destruct (decide (x / 10 = 0)%N) as [Hz|Hz].
    + rewrite Hz in *. destruct l as [|c l]; [cbn; lia|].
      exfalso. specialize (Hl ""). by rewrite pretty_N_go_0 in Hl.
    + destruct Hlow as [Hlow Hne]; [by apply N.neq_0_lt_0|].
      assert (0 < length l)%nat by (destruct l; [done|cbn; lia]).
      replace (Z.of_nat (length l + 1) - 1) with (Z.succ (Z.of_nat (length l) - 1)) by lia.
      rewrite Z.pow_succ_r by lia. rewrite N2Z.inj_div in Hlow.
      pose proof (Z.div_mod (Z.of_N x) 10). pose proof (Z.mod_pos_bound (Z.of_N x) 10). lia.
Qed.

(** The text of a natural number: its digits, without leading zeros. *)
Lemma pretty_spec n :
  0 ≤ n →
  digits (to_chars (pretty n)) ∧ digits_value 0 (to_chars (pretty n)) = n ∧ to_chars (pretty n) ≠ [] ∧
  (0 < n → 10 ^ (Z.of_nat (length (to_chars (pretty n))) - 1) ≤ n).
Proof.
  intros Hn. destruct n as [|p|]; [by split_and!| |lia].
  change (pretty (Zpos p)) with (pretty_N_go (Npos p) "").
  destruct (pretty_go_spec (Npos p)) as (l & -> & Hd & Hv & Hlow). cbn [to_chars]. rewrite app_nil_r.
  destruct Hlow as [Hlow Hne]; [lia|]. by split_and!.
Qed.

Lemma pretty_length n k :
  0 ≤ n < 10 ^ Z.of_nat k → (0 < k)%nat → (length (to_chars (pretty n)) ≤ k)%nat.
Proof.
  intros Hn Hk. destruct (decide (n = 0)) as [->|]; [change (length (to_chars (pretty 0))) with 1%nat; lia|].
  destruct (pretty_spec n) as (_ & _ & _ & Hlow); [lia|]. specialize (Hlow ltac:(lia)).
  assert (Z.of_nat (length (to_chars (pretty n))) - 1 < Z.of_nat k); [|lia].
  apply (Z.pow_lt_mono_r_iff 10); lia.
Qed.

(** ** Fixed notation *)

Lemma repeat_string_chars c n : to_chars (repeat_string c n) = replicate n c.
Proof. induction n as [|n IH]; [done|]. cbn [repeat_string replicate]. by rewrite <- IH. Qed.

Lemma zeros_digits n : digits (replicate n "0"%char).
Proof. induction n as [|n IH]; [done|exact IH]. Qed.

Lemma zeros_value n acc : digits_value acc (replicate n "0"%char) = acc * 10 ^ Z.of_nat n.
Proof.
  revert acc. induction n as [|n IH]; intros acc; cbn [replicate digits_value]; [lia|].
  rewrite IH, Nat2Z.inj_succ, Z.pow_succ_r by lia. cbn [default]. change (default 0 _) with 0. ring.
Qed.

Lemma string_length_chars s : String.length s = length (to_chars s).
Proof. induction s as [|c s IH]; [done|]. cbn. by rewrite IH. Qed.

(** Zeros in front change neither the digits nor their value. *)
Lemma pad_left_spec w n :
  0 ≤ n →
  digits (to_chars (pad_left w "0" (pretty n))) ∧ digits_value 0 (to_chars (pad_left w "0" (pretty n))) = n ∧
  to_chars (pad_left w "0" (pretty n)) ≠ [] ∧
  (n < 10 ^ Z.of_nat w → (0 < w)%nat → length (to_chars (pad_left w "0" (pretty n))) = w).
Proof.
  intros Hn. destruct (pretty_spec n Hn) as (Hd & Hv & Hne & Hlow).
  unfold pad_left. rewrite to_chars_app, repeat_string_chars, string_length_chars. split_and!.
  - apply digits_app. split; [apply zeros_digits|done].
  - by rewrite digits_value_app, zeros_value.
  - by intros [_ ?]%app_nil.
  - intros Hlt Hw. rewrite length_app, length_replicate. pose proof (pretty_length n w). lia.
Qed.

(** [whole] digits, then a point and [fraction] if there is any. *)
Definition decimal_chars (whole fraction : chars) : chars :=
  whole ++ match fraction with [] => [] | _ => "."%char :: fraction end.

Lemma fixed_digits_spec n p :
  0 ≤ n →
  ∃ whole fraction, to_chars (fixed_digits n p) = decimal_chars whole fraction ∧ digits whole ∧ whole ≠ [] ∧
    whole = to_chars (pretty (n / 10 ^ Z.of_nat p)) ∧
    digits fraction ∧ length fraction = p ∧
    digits_value (digits_value 0 whole) fraction = n.
Proof.
  intros Hn. unfold fixed_digits. set (scale := 10 ^ Z.of_nat p).
  assert (0 < scale) by (apply Z.pow_pos_nonneg; lia).
  destruct (pretty_spec (n / scale)) as (Hd & Hv & Hne & _); [by apply Z.div_pos|].
  exists (to_chars (pretty (n / scale))). rewrite to_chars_app. destruct (Nat.eqb_spec p 0) as [->|Hp].
  - exists []. split_and!; try done. cbn [digits_value]. rewrite Hv. apply Z.div_1_r.
  - assert (0 ≤ n mod scale < scale) as Hr by (by apply Z.mod_pos_bound).
    destruct (pad_left_spec p (n mod scale)) as (Hd' & Hv' & Hne' & Hl'); [lia|].
    exists (to_chars (pad_left p "0" (pretty (n mod scale)))). split_and!; try done.
    + rewrite to_chars_app. unfold decimal_chars.
      by destruct (to_chars (pad_left p "0" (pretty (n mod scale)))).
    + apply Hl'; [exact (proj2 Hr)|lia].
    + rewrite digits_value_acc, Hv, Hv', Hl' by first [done|exact (proj2 Hr)|lia]. fold scale.
      pose proof (Z.div_mod n scale). lia.
Qed.

(** Trailing zeros of the fraction, and a point without fraction, are removed. *)
Lemma strip_zeros_spec s whole fraction :
  to_chars s = decimal_chars whole fraction → digits fraction → fraction ≠ [] →
  ∃ fraction' z, fraction = fraction' ++ replicate z "0"%char ∧
    to_chars (strip_zeros s) = decimal_chars whole fraction'.
Proof.
  intros Hs Hd Hne. unfold strip_zeros. rewrite to_of_chars. fold (to_chars s). rewrite Hs.
  assert (decimal_chars whole fraction = whole ++ "."%char :: fraction) as -> by (by destruct fraction).
  set (strip := fix strip l := match l with "0"%char :: l' => strip l' | "."%char :: l' => l' | _ => l end).
  rewrite rev_app_distr. cbn [rev]. rewrite <- app_assoc. cbn [app].
  assert (∀ r, digits r → ∃ r' z, r = replicate z "0"%char ++ r' ∧
    strip (r ++ "."%char :: rev whole) =
      match r' with [] => rev whole | _ => r' ++ "."%char :: rev whole end) as Hstrip.
  { induction r as [|c r IH]; [by exists [], 0%nat|]. intros Hr. apply (digits_app [c]) in Hr as [Hc Hr].
    destruct (decide (c = "0"%char)) as [->|Hc0].
    - destruct (IH Hr) as (r' & z & -> & Hr'). by exists r', (S z).
    - exists (c :: r), 0%nat. split; [done|]. apply andb_prop in Hc as [Hc _].
      destruct c as [[] [] [] [] [] [] [] []]; try done; by destruct Hc0. }
  destruct (Hstrip (rev fraction)) as (r' & z & Hr & ->).
  { unfold digits in *. rewrite forallb_forall in *. intros c Hc. apply Hd. by apply in_rev. }
  exists (rev r'), z. apply (f_equal (@rev ascii)) in Hr.
  rewrite rev_involutive, rev_app_distr in Hr. split.
  { rewrite Hr. f_equal. clear. induction z as [|z IH]; [done|]. cbn [replicate rev]. rewrite IH.
    change ["0"%char] with (replicate 1 "0"%char). rewrite <- replicate_add. by rewrite Nat.add_comm. }
  unfold decimal_chars. destruct r' as [|c r']; [by rewrite rev_involutive, app_nil_r|].
  rewrite rev_app_distr. cbn [rev]. rewrite rev_involutive, <- app_assoc.
  by destruct (rev r' ++ [c]) eqn:E; [destruct (rev r')|].
Qed.

Lemma fixed_digits_length r p :
  0 ≤ r ≤ 10 ^ 17 → (length (to_chars (fixed_digits r p)) ≤ 19 + p)%nat.
Proof.
  intros Hr. destruct (fixed_digits_spec r p) as (whole & fraction & -> & _ & _ & -> & _ & Hf & _); [lia|].
  assert (0 < 10 ^ Z.of_nat p) by (apply Z.pow_pos_nonneg; lia).
  assert (0 ≤ r / 10 ^ Z.of_nat p ≤ r) by (split; [apply Z.div_pos; lia|apply Z.div_le_upper_bound; nia]).
  pose proof (pretty_length (r / 10 ^ Z.of_nat p) 18). unfold decimal_chars. rewrite length_app.
  destruct fraction; cbn [length] in *; lia.
Qed.

Lemma strip_zeros_length s whole fraction :
  to_chars s = decimal_chars whole fraction → digits fraction → fraction ≠ [] →
  (length (to_chars (strip_zeros s)) ≤ length (to_chars s))%nat.
Proof.
  intros Hs Hd Hne. destruct (strip_zeros_spec _ _ _ Hs Hd Hne) as (f' & z & Hz & ->). rewrite Hs, Hz.
  unfold decimal_chars. rewrite !length_app. destruct f' as [|c f']; cbn [length app]; [lia|].
  rewrite length_app. lia.
Qed.

(** ** Reading a decimal *)

(** The scanner finds the digits and how many follow the point. *)
Lemma scan_mantissa_decimal whole fraction rest :
  digits whole → whole ≠ [] → digits fraction → ends_number rest = true →
  scan_mantissa 10 (decimal_chars whole fraction ++ rest) =
    Some (digits_value (digits_value 0 whole) fraction, length fraction, rest).
Proof.
  intros Hw Hne Hf [Hr1 Hr2]%andb_prop. unfold scan_mantissa, decimal_chars.
  rewrite <- app_assoc, scan_digits_run by done.
  assert (length whole ≠ 0%nat) as Hl by (by destruct whole).
  destruct fraction as [|c f] eqn:E.
  - cbn [app]. rewrite scan_digits_stop by done. rewrite Nat.add_0_l.
    destruct rest as [|c rest]; [by destruct (Nat.eqb_spec (length whole) 0)|].
    apply negb_true_iff in Hr2. rewrite Hr2. by destruct (Nat.eqb_spec (length whole) 0).
  - rewrite <- E in *. cbn [app]. rewrite scan_digits_stop by done. change (is_char "." ".") with true. cbv iota.
    rewrite scan_digits_run, scan_digits_stop by done. rewrite !Nat.add_0_l.
    destruct (Nat.eqb_spec (length whole + length fraction) 0); [lia|done].
Qed.

(** [a / b] is [r * 10^y]. *)
Definition scaled (a b r y : Z) : Prop := a * 10 ^ Z.max (- y) 0 = r * 10 ^ Z.max y 0 * b.

Lemma scaled_shift a b r y z : 0 ≤ z → scaled a b (r * 10 ^ z) y ↔ scaled a b r (y + z).
Proof.
  intros Hz. unfold scaled.
  set (g := 10 ^ (Z.max (- y) 0 - Z.max (- (y + z)) 0)).
  assert (0 < g) by (apply Z.pow_pos_nonneg; lia).
  assert (10 ^ Z.max (- y) 0 = 10 ^ Z.max (- (y + z)) 0 * g) as ->.
  { unfold g. rewrite <- Z.pow_add_r by lia. f_equal. lia. }
  assert (r * 10 ^ z * 10 ^ Z.max y 0 = r * 10 ^ Z.max (y + z) 0 * g) as ->.
  { unfold g. rewrite <- !Z.mul_assoc, <- !Z.pow_add_r by lia. do 2 f_equal. lia. }
  split; [|intros; nia]. intros H1. apply (Z.mul_reg_r _ _ g); lia.
Qed.

(** A mantissa and an exponent, as the scanner reads them. *)
Lemma decimal_quotient_spec whole fraction zeros rest e r p :
  digits whole → whole ≠ [] → digits fraction → ends_number rest = true → scan_exponent "eE" rest = Some e →
  digits_value (digits_value 0 whole) (fraction ++ replicate zeros "0"%char) = r → (length fraction + zeros = p)%nat →
  ∃ a b, decimal_quotient (decimal_chars whole fraction ++ rest) = Some (a, b) ∧ 0 < b ∧
    scaled a b r (e - Z.of_nat p).
Proof.
  intros Hw Hne Hf Hr He Hv Hp. unfold decimal_quotient. rewrite scan_mantissa_decimal, He by done.
  eexists _, _. split; [done|]. split; [apply Z.pow_pos_nonneg; lia|].
  rewrite digits_value_app, zeros_value in Hv. subst r. apply scaled_shift; [lia|].
  replace (e - Z.of_nat p + Z.of_nat zeros) with (e - Z.of_nat (length fraction)) by lia.
  unfold scaled. set (y := e - Z.of_nat (length fraction)). rewrite Z.opp_involutive || idtac.
  reflexivity.
Qed.

(** ** Seventeen digits are enough *)

Lemma digit_count_spec q : 0 < q → 0 < digit_count q ∧ 10 ^ (digit_count q - 1) ≤ q < 10 ^ digit_count q.
Proof.
  intros Hq. unfold digit_count. rewrite string_length_chars.
  destruct (pretty_spec q) as (Hd & Hv & Hne & Hlow); [lia|].
  pose proof (digits_value_range _ Hd) as Hr. rewrite Hv in Hr.
  split_and!; [|apply Hlow; lia|lia]. destruct (to_chars (pretty q)); [done|]. cbn [length]. lia.
Qed.

Lemma decimal_exponent_low n d :
  0 < n → 0 < d → let x := decimal_exponent n d in 10 ^ Z.max x 0 * d ≤ n * 10 ^ Z.max (- x) 0.
Proof.
  intros Hn Hd x. unfold x, decimal_exponent. clear x. destruct (Z.leb_spec d n) as [Hle|Hlt].
  - destruct (digit_count_spec (n / d)) as (H0 & Hlow & _); [apply Z.div_str_pos; lia|].
    rewrite (Z.max_l (digit_count _ - 1)), Z.max_r, Z.mul_1_r by lia.
    pose proof (Z.mul_div_le n d Hd). nia.
  - destruct (digit_count_spec ((d - 1) / n)) as (H0 & _ & Hup); [apply Z.div_str_pos; lia|].
    rewrite (Z.max_r (- _)), Z.max_l, Z.mul_1_l by lia. rewrite Z.opp_involutive.
    pose proof (Z.div_mod (d - 1) n ltac:(lia)). pose proof (Z.mod_pos_bound (d - 1) n Hn). nia.
Qed.

Lemma round_half_even_near n d : 0 < d → Z.abs (2 * (round_half_even n d * d - n)) ≤ d.
Proof.
  intros Hd. unfold round_half_even. pose proof (Z.div_mod n d ltac:(lia)). pose proof (Z.mod_pos_bound n d Hd).
  repeat case_split; lia.
Qed.

Lemma round_half_even_nonneg n d : 0 ≤ n → 0 < d → 0 ≤ round_half_even n d.
Proof.
  intros Hn Hd. unfold round_half_even. pose proof (Z.div_pos n d Hn Hd). repeat case_split; lia.
Qed.

(** Seventeen significant digits determine a double: the decimal is closer to the
    value than any other double could be. *)
Lemma significant_17_near n d r x a b :
  0 < n → 0 < d → significant_17 n d = (r, x) → 0 < b → scaled a b r (x - 16) →
  Z.abs (a * d - n * b) * (2 * 2 ^ 53) < n * b.
Proof.
  intros Hn Hd Hs Hb Ha.
  pose proof (decimal_exponent_low n d Hn Hd) as Hlow. unfold significant_17 in Hs. cbv zeta in Hlow.
  set (x0 := decimal_exponent n d) in *. set (k := 16 - x0) in *.
  set (r0 := if 0 <=? k then _ else _) in Hs.
  assert (scaled a b r0 (- k)) as Ha0.
  { case_split_in Hs; injection Hs as <- <-; [|by replace (- k) with (x0 - 16) by lia].
    assert (r0 = 10 ^ 16 * 10 ^ 1) as -> by lia. apply scaled_shift; [lia|].
    by replace (- k + 1) with (x0 + 1 - 16) by lia. }
  clear Hs Ha r x. unfold r0, scaled in Ha0. rewrite Z.opp_involutive in Ha0. clear r0.
  change (2 * 2 ^ 53) with 18014398509481984.
  destruct (Z.leb_spec 0 k) as [Hk|Hk].
  - rewrite (Z.max_l k), (Z.max_r (- k)), Z.mul_1_r in Ha0 by lia.
    assert (0 < 10 ^ k) by (apply Z.pow_pos_nonneg; lia).
    assert (10000000000000000 * d ≤ n * 10 ^ k) as Hn2.
    { apply (Z.mul_le_mono_pos_r _ _ (10 ^ Z.max x0 0)); [apply Z.pow_pos_nonneg; lia|].
      replace (n * 10 ^ k * 10 ^ Z.max x0 0) with (10 ^ 16 * (n * 10 ^ Z.max (- x0) 0)); [lia|].
      rewrite <- (Z.mul_assoc n), <- Z.pow_add_r by lia.
      replace (k + Z.max x0 0) with (16 + Z.max (- x0) 0) by lia. rewrite Z.pow_add_r by lia. ring. }
    pose proof (round_half_even_near (n * 10 ^ k) d Hd) as Hr.
    set (r := round_half_even (n * 10 ^ k) d) in *. set (w := 10 ^ k) in *. clearbody r w.
    apply (Z.mul_lt_mono_pos_r w); [done|].
    assert (Z.abs (a * d - n * b) * w = b * Z.abs (r * d - n * w)) as Habs.
    { rewrite <- (Z.abs_eq w) at 1 by lia. rewrite <- (Z.abs_eq b) at 2 by lia. rewrite <- !Z.abs_mul. f_equal.
      transitivity (d * (a * w) - n * b * w); [ring|rewrite Ha0; ring]. }
    nia.
  - rewrite (Z.max_r k), (Z.max_l (- k)), Z.mul_1_r in Ha0 by lia. subst a.
    assert (0 < 10 ^ (- k)) by (apply Z.pow_pos_nonneg; lia).
    assert (10000000000000000 * (d * 10 ^ (- k)) ≤ n) as Hn2.
    { rewrite (Z.max_l x0), (Z.max_r (- x0)), Z.mul_1_r in Hlow by lia.
      replace x0 with (16 + - k) in Hlow by lia. rewrite Z.pow_add_r in Hlow by lia. lia. }
    pose proof (round_half_even_near n (d * 10 ^ (- k)) ltac:(lia)) as Hr.
    set (r := round_half_even n (d * 10 ^ (- k))) in *. set (w := 10 ^ (- k)) in *. clearbody r w.
    assert (Z.abs (r * w * b * d - n * b) = b * Z.abs (r * (d * w) - n)) as ->.
    { rewrite <- (Z.abs_eq b) at 3 by lia. rewrite <- Z.abs_mul. f_equal. ring. }
    nia.
Qed.

(** The exponent of the scientific notation. *)
Definition exponent_chars (x : Z) : chars :=
  "e"%char :: (if x <? 0 then "-"%char else "+"%char) :: to_chars (pad_left 2 "0" (pretty (Z.abs x))).

Lemma scan_exponent_chars x : scan_exponent "eE" (exponent_chars x) = Some x.
Proof.
  unfold exponent_chars, scan_exponent. change (is_char "eE" "e") with true. cbv iota.
  destruct (pad_left_spec 2 (Z.abs x)) as (Hd & Hv & Hne & _); [lia|].
  set (l := to_chars (pad_left 2 "0" (pretty (Z.abs x)))) in *.
  assert (∀ c, c = "-"%char ∨ c = "+"%char → scan_sign (c :: l) = (Ascii.eqb c "-", l)) as Hs
    by (by intros c [-> | ->]).
  rewrite Hs, scan_digits_all, Hv by (done || case_split; auto).
  destruct (Nat.eqb_spec (0 + length l) 0); [by destruct l|]. rewrite bool_decide_eq_true_2 by done.
  cbn [orb negb]. destruct (Z.ltb_spec x 0); cbn; f_equal; lia.
Qed.

(** The unsigned numbers the program prints: whole digits without leading zeros,
    an optional fraction, an optional exponent. *)
Inductive printed : chars → Prop :=
  | printed_number n fraction expo :
      0 ≤ n → digits fraction → expo = [] ∨ (∃ x, expo = exponent_chars x) →
      printed (decimal_chars (to_chars (pretty n)) fraction ++ expo).

Lemma significant_17_nonneg n d r x : 0 < n → 0 < d → significant_17 n d = (r, x) → 0 ≤ r.
Proof.
  intros Hn Hd. unfold significant_17. cbv zeta. case_split; intros [= <- <-]; [lia|].
  case_split; apply round_half_even_nonneg; try lia;
    apply Z.mul_nonneg_nonneg || apply Z.mul_pos_pos; try lia; try apply Z.pow_nonneg; try apply Z.pow_pos_nonneg; lia.
Qed.

(** The text of [r * 10^(x-16)] in the notation that [%.17g] chooses. *)
Definition general_17 (r x : Z) : string :=
  if (-4 <=? x) && (x <? 17) then
    let digits := fixed_digits r (Z.to_nat (16 - x)) in
    if x =? 16 then digits else strip_zeros digits
  else
    strip_zeros (fixed_digits r 16) +:+ "e" +:+ (if x <? 0 then "-" else "+") +:+
    pad_left 2 "0" (pretty (Z.abs x)).

Lemma general_17_spec r x :
  0 ≤ r →
  ∃ a b, printed (to_chars (general_17 r x)) ∧ decimal_quotient (to_chars (general_17 r x)) = Some (a, b) ∧
    0 < b ∧ scaled a b r (x - 16).
Proof.
  intros Hr. unfold general_17.
  assert (∀ p e expo, e - Z.of_nat p = x - 16 → (0 < p)%nat → expo = [] ∧ e = 0 ∨ expo = exponent_chars e →
    ∃ a b, printed (to_chars (strip_zeros (fixed_digits r p)) ++ expo) ∧
      decimal_quotient (to_chars (strip_zeros (fixed_digits r p)) ++ expo) = Some (a, b) ∧ 0 < b ∧ scaled a b r (x - 16)) as Hstrip.
  { intros p e expo Hp Hp0 He.
    destruct (fixed_digits_spec r p Hr) as (whole & fraction & Ht & Hw & Hne & Hwhole & Hf & Hl & Hv).
    destruct (strip_zeros_spec _ _ _ Ht Hf) as (fraction' & z & Hz & ->); [by destruct fraction; [cbn in Hl; lia|]|].
    rewrite Hz in *. apply digits_app in Hf as [Hf _]. rewrite length_app, length_replicate in Hl.
    destruct (decimal_quotient_spec whole fraction' z expo e r p) as (a & b & Hq & Hb & Hs); try done.
    { by destruct He as [[-> _]| ->]. }
    { destruct He as [[-> ->]| ->]; [done|apply scan_exponent_chars]. }
    exists a, b. rewrite Hp in Hs. split_and!; try done. rewrite Hwhole. constructor; [apply Z.div_pos|..]; try done.
    - apply Z.pow_pos_nonneg; lia.
    - destruct He as [[-> _]| ->]; eauto. }
  case_split.
  - apply andb_prop in Heqb as [H1%Z.leb_le H2%Z.ltb_lt]. cbv zeta. destruct (Z.eqb_spec x 16) as [->|Hx].
    + change (Z.to_nat (16 - 16)) with 0%nat.
      destruct (fixed_digits_spec r 0 Hr) as (whole & fraction & -> & Hw & Hne & Hwhole & Hf & Hl & Hv).
      destruct fraction; [|done].
      destruct (decimal_quotient_spec whole [] 0 [] 0 r 0) as (a & b & Hq & Hb & Hs); try done.
      rewrite app_nil_r in Hq. exists a, b. split_and!; try done.
      rewrite Hwhole, <- (app_nil_r (decimal_chars _ _)). constructor; [apply Z.div_pos; lia|done|by left].
    + rewrite <- (app_nil_r (to_chars _)). apply (Hstrip _ 0); [lia|lia|by left].
  - destruct (Hstrip 16%nat x (exponent_chars x)) as (a & b & H); [lia|lia|by right|].
    exists a, b. rewrite !to_chars_app.
    replace (to_chars "e" ++ to_chars (if x <? 0 then "-" else "+") ++ to_chars (pad_left 2 "0" (pretty (Z.abs x))))
      with (exponent_chars x) by (unfold exponent_chars; by destruct (x <? 0)). exact H.
Qed.

Lemma printed_head l : printed l → ∃ c l', l = c :: l' ∧ is_digit c = true.
Proof.
  intros [n fraction expo Hn _ _]. destruct (pretty_spec n Hn) as (Hd & _ & Hne & _).
  unfold decimal_chars. destruct (to_chars (pretty n)) as [|c w]; [done|].
  apply andb_prop in Hd as [Hc _]. by exists c, ((w ++ match fraction with [] => [] | _ => "."%char :: fraction end) ++ expo).
Qed.

Lemma scan_sign_text s l : printed l → scan_sign (to_chars (sign_text s) ++ l) = (s, l).
Proof.
  intros (c & l' & -> & Hc)%printed_head. destruct s; [done|].
  change (scan_sign (c :: l') = (false, c :: l')). unfold scan_sign.
  by destruct (digit_not_special c Hc) as (-> & -> & _).
Qed.

(** The text of a finite double: its sign and a printed number. *)
Lemma calibration_number_spec x :
  isfinite x = true → ∃ s l, to_chars (calibration_number x) = to_chars (sign_text s) ++ l ∧ printed l.
Proof.
  destruct x as [s| | |s m e]; try done; intros _; exists s.
  - exists ["0"%char]. split; [apply to_chars_app|]. apply (printed_number 0 [] []); [done..|by left].
  - unfold calibration_number, magnitude. cbv iota beta.
    destruct (significant_17 _ _) as [r y] eqn:E. rewrite to_chars_app. eexists; split; [done|].
    assert (0 ≤ r) as Hr.
    { eapply significant_17_nonneg; [| |exact E]; [apply Z.mul_pos_pos; [done|]|]; apply Z.pow_pos_nonneg; lia. }
    by destruct (general_17_spec r y Hr) as (a & b & H & _).
Qed.

(** A double printed with 17 significant digits is read back exactly, sign and zeros
    included: the calibration factors that the diagnostics publish and the numbers
    of the JSON report identify the doubles of the program. *)
Lemma calibration_number_roundtrip_text x :
  valid64 x = true → isfinite x = true → stream_double (to_chars (calibration_number x)) = Some x.
Proof.
  intros Hv. destruct x as [s| | |s m e]; try done; intros _; [by destruct s|].
  unfold calibration_number, magnitude. cbv iota beta.
  set (n := Zpos m * 2 ^ Z.max e 0). set (d := 2 ^ Z.max (- e) 0).
  assert (0 < n) as Hn by (apply Z.mul_pos_pos; [done|apply Z.pow_pos_nonneg; lia]).
  assert (0 < d) as Hd by (apply Z.pow_pos_nonneg; lia).
  destruct (significant_17 n d) as [r y] eqn:E. fold (general_17 r y).
  pose proof (significant_17_nonneg _ _ _ _ Hn Hd E) as Hr.
  destruct (general_17_spec r y Hr) as (a & b & Hp & Hq & Hb & Hs).
  pose proof (significant_17_near n d r y a b Hn Hd E Hb Hs) as Hnear.
  unfold stream_double. rewrite to_chars_app, scan_sign_text, Hq by done.
  assert (round_quotient a b = S754_finite false m e) as ->; [|by destruct s].
  destruct a as [|a|a], b as [|b|b]; try lia.
  apply (fl_ratio_near 53 1024 eq_refl eq_refl); [by destruct s|exact Hnear].
Qed.

(** ** The length of a number *)

Lemma decimal_exponent_up n d :
  0 < n → 0 < d → let x := decimal_exponent n d in n * 10 ^ Z.max (- x) 0 < 10 * 10 ^ Z.max x 0 * d.
Proof.
  intros Hn Hd x. unfold x, decimal_exponent. clear x. destruct (Z.leb_spec d n) as [Hle|Hlt].
  - destruct (digit_count_spec (n / d)) as (H0 & _ & Hup); [apply Z.div_str_pos; lia|].
    rewrite (Z.max_l (digit_count _ - 1)), Z.max_r, Z.mul_1_r, <- Z.pow_succ_r by lia.
    replace (Z.succ (digit_count (n / d) - 1)) with (digit_count (n / d)) by lia.
    pose proof (Z.div_mod n d ltac:(lia)). pose proof (Z.mod_pos_bound n d Hd). nia.
  - destruct (digit_count_spec ((d - 1) / n)) as (H0 & Hlow & _); [apply Z.div_str_pos; lia|].
    rewrite Z.opp_involutive, (Z.max_l (digit_count _)), Z.max_r, Z.mul_1_r by lia.
    replace (digit_count ((d - 1) / n)) with (Z.succ (digit_count ((d - 1) / n) - 1)) at 1 by lia.
    rewrite Z.pow_succ_r by lia. pose proof (Z.mul_div_le (d - 1) n Hn). nia.
Qed.

Lemma round_half_even_le n d c : 0 < d → n < c * d → round_half_even n d ≤ c.
Proof.
  intros Hd Hn. unfold round_half_even. pose proof (Z.div_lt_upper_bound n d c Hd). repeat case_split; lia.
Qed.

Lemma significant_17_range n d r x :
  0 < n → 0 < d → significant_17 n d = (r, x) →
  r ≤ 10 ^ 17 ∧ decimal_exponent n d ≤ x ≤ decimal_exponent n d + 1.
Proof.
  intros Hn Hd. unfold significant_17. pose proof (decimal_exponent_up n d Hn Hd) as Hup. cbv zeta in *.
  set (y := decimal_exponent n d) in *. case_split; intros [= <- <-]; [lia|]. split; [|lia].
  destruct (Z.leb_spec 0 (16 - y)) as [Hy|Hy]; apply round_half_even_le; try lia.
  - apply (Z.mul_lt_mono_pos_r (10 ^ Z.max y 0)); [apply Z.pow_pos_nonneg; lia|].
    replace (n * 10 ^ (16 - y) * 10 ^ Z.max y 0) with (10 ^ 16 * (n * 10 ^ Z.max (- y) 0)); [lia|].
    rewrite <- (Z.mul_assoc n), <- Z.pow_add_r by lia.
    replace (16 - y + Z.max y 0) with (16 + Z.max (- y) 0) by lia. rewrite Z.pow_add_r by lia. ring.
  - rewrite (Z.max_r (- y)), (Z.max_l y) in Hup by lia. replace y with (16 + - (16 - y)) in Hup by lia.
    rewrite Z.pow_add_r in Hup by lia. lia.
Qed.

Lemma decimal_exponent_range n d :
  0 < n < 2 ^ 1024 → 0 < d ≤ 2 ^ 1074 → -324 ≤ decimal_exponent n d ≤ 308.
Proof.
  intros Hn Hd. unfold decimal_exponent, digit_count. rewrite !string_length_chars.
  destruct (Z.leb_spec d n) as [Hle|Hlt].
  - assert (0 < n / d < 10 ^ Z.of_nat 309) as Hq.
    { split; [apply Z.div_str_pos; lia|]. apply Z.div_lt_upper_bound; [lia|].
      assert (2 ^ 1024 < 10 ^ Z.of_nat 309) by (by apply Z.ltb_lt; vm_compute). nia. }
    pose proof (pretty_length (n / d) 309 ltac:(lia) ltac:(lia)). lia.
  - assert (0 < (d - 1) / n < 10 ^ Z.of_nat 324) as Hq.
    { split; [apply Z.div_str_pos; lia|]. apply Z.div_lt_upper_bound; [lia|].
      assert (2 ^ 1074 < 10 ^ Z.of_nat 324) by (by apply Z.ltb_lt; vm_compute). nia. }
    pose proof (pretty_length ((d - 1) / n) 324 ltac:(lia) ltac:(lia)). lia.
Qed.

Lemma general_17_length r x :
  0 ≤ r ≤ 10 ^ 17 → -1000 < x < 1000 → (length (to_chars (general_17 r x)) ≤ 44)%nat.
Proof.
  intros Hr Hx. unfold general_17.
  assert (∀ p, (0 < p)%nat → (length (to_chars (strip_zeros (fixed_digits r p))) ≤ 19 + p)%nat) as Hs.
  { intros p Hp. pose proof (fixed_digits_length r p Hr).
    destruct (fixed_digits_spec r p) as (w & f & Ht & _ & _ & _ & Hf & Hl & _); [lia|].
    pose proof (strip_zeros_length _ _ _ Ht Hf). destruct f; [cbn in Hl; lia|].
    etransitivity; [apply H0|]; done. }
  case_split.
  - apply andb_prop in Heqb as [H1%Z.leb_le H2%Z.ltb_lt]. cbv zeta. case_split.
    + pose proof (fixed_digits_length r (Z.to_nat (16 - x)) Hr). lia.
    + apply Z.eqb_neq in Heqb. specialize (Hs (Z.to_nat (16 - x))). lia.
  - rewrite !to_chars_app, !length_app. specialize (Hs 16%nat ltac:(lia)).
    assert (length (to_chars (pad_left 2 "0" (pretty (Z.abs x)))) ≤ 3)%nat.
    { unfold pad_left. rewrite to_chars_app, repeat_string_chars, string_length_chars, length_app, length_replicate.
      pose proof (pretty_length (Z.abs x) 3 ltac:(lia)). lia. }
    assert (length (to_chars (if x <? 0 then "-" else "+")) = 1%nat) as -> by (by destruct (x <? 0)).
    change (length (to_chars "e")) with 1%nat. lia.
Qed.

Lemma calibration_number_length x :
  valid64 x = true → isfinite x = true → (length (to_chars (calibration_number x)) ≤ 45)%nat.
Proof.
  intros Hv. destruct x as [s| | |s m e]; try done; intros _; [apply Nat.leb_le; by destruct s|].
  apply valid_finite_spec in Hv as (_ & He & Hd & _); [|done..]. change (emin 53 1024) with (-1074) in He.
  destruct (Zdigits2_spec (Zpos m) eq_refl) as (_ & _ & Hm).
  assert (2 ^ Zdigits2 (Zpos m) ≤ 2 ^ 53) by (apply Z.pow_le_mono_r; lia).
  unfold calibration_number, magnitude. cbv iota beta.
  set (n := Zpos m * 2 ^ Z.max e 0). set (d := 2 ^ Z.max (- e) 0).
  assert (0 < n < 2 ^ 1024) as Hn.
  { split; [apply Z.mul_pos_pos; [done|apply Z.pow_pos_nonneg; lia]|]. unfold n.
    assert (2 ^ Z.max e 0 ≤ 2 ^ 971) by (apply Z.pow_le_mono_r; lia).
    replace (2 ^ 1024) with (2 ^ 53 * 2 ^ 971) by (by rewrite <- Z.pow_add_r).
    apply Z.lt_le_trans with (2 ^ 53 * 2 ^ Z.max e 0); [|by apply Z.mul_le_mono_nonneg_l].
    apply Z.mul_lt_mono_pos_r; [apply Z.pow_pos_nonneg|]; lia. }
  assert (0 < d ≤ 2 ^ 1074) as Hd'.
  { split; [apply Z.pow_pos_nonneg; lia|]. apply Z.pow_le_mono_r; lia. }
  destruct (significant_17 n d) as [r y] eqn:E. fold (general_17 r y).
  pose proof (significant_17_nonneg _ _ _ _ (proj1 Hn) (proj1 Hd') E).
  pose proof (significant_17_range _ _ _ _ (proj1 Hn) (proj1 Hd') E).
  pose proof (decimal_exponent_range n d Hn Hd').
  rewrite to_chars_app, length_app. pose proof (general_17_length r y ltac:(lia) ltac:(lia)).
  assert (length (to_chars (sign_text s)) ≤ 1)%nat by (apply Nat.leb_le; by destruct s). lia.
Qed.

(** ** The document of a configuration *)

(** The characters of numbers. *)
Definition number_char (c : ascii) : bool := is_digit c || is_char "+-.e" c.

Lemma number_char_clean c :
  number_char c = true → is_char "<" c = false ∧ is_ascii_whitespace c = false.
Proof. destruct c as [[] [] [] [] [] [] [] []]; vm_compute; intros; repeat split; done. Qed.

Lemma digits_number l : digits l → forallb number_char l = true.
Proof.
  unfold digits. rewrite !forallb_forall. intros H c Hc. unfold number_char. by rewrite (H c Hc).
Qed.

Lemma printed_chars l : printed l → forallb number_char l = true.
Proof.
  intros [n fraction expo Hn Hf He]. destruct (pretty_spec n Hn) as (Hd & _).
  rewrite forallb_app. apply andb_true_intro; split.
  - unfold decimal_chars. rewrite forallb_app. apply andb_true_intro; split; [by apply digits_number|].
    destruct fraction as [|c f]; [done|]. exact (digits_number _ Hf).
  - destruct He as [-> |[x ->]]; [done|]. unfold exponent_chars. cbn [forallb]. change (number_char "e") with true.
    destruct (pad_left_spec 2 (Z.abs x)) as (Hp & _); [lia|].
    assert (number_char (if x <? 0 then "-"%char else "+"%char) = true) as -> by (by destruct (x <? 0)).
    by apply digits_number.
Qed.

Lemma calibration_number_chars x : isfinite x = true → forallb number_char (to_chars (calibration_number x)) = true.
Proof.
  intros (s & l & -> & Hl%printed_chars)%calibration_number_spec. rewrite forallb_app, Hl. by destruct s.
Qed.

Lemma calibration_number_field x :
  valid64 x = true → isfinite x = true → field_text (to_chars (calibration_number x)).
Proof.
  intros Hv Hx. pose proof (calibration_number_chars x Hx) as Hc. rewrite forallb_forall in Hc.
  pose proof (calibration_number_length x Hv Hx). destruct (calibration_number_spec x Hx) as (s & l & Hl & Hp).
  apply field_text_clean.
  - apply forallb_forall. intros c Hi. by destruct (number_char_clean c (Hc c Hi)) as [-> _].
  - apply forallb_forall. intros c Hi. by destruct (number_char_clean c (Hc c Hi)) as [_ ->].
  - rewrite Hl. apply printed_head in Hp as (c & l' & -> & _). by destruct s.
  - unfold kMaximumFieldLength. lia.
Qed.

Lemma calibration_number_plus x c l :
  isfinite x = true → to_chars (calibration_number x) = c :: l → is_char "+" c = false.
Proof.
  intros (s & l' & -> & (d & l'' & -> & Hd)%printed_head)%calibration_number_spec.
  apply digit_not_special in Hd as (Hd & _). destruct s; [by intros [= <- _]|by intros [= <- _]].
Qed.

(** A printed count is read back. *)
Lemma parse_positive_count_printed fe x tag name u :
  ScopedRoundToNearest fe = Ok () → valid64 x = true → require_safe_count name x = Ok u →
  isfinite x = true ∧ parse_positive_count fe (to_chars (calibration_number x)) tag = Ok x.
Proof.
  intros Hfe Hv Hr.
  assert (isfinite x = true) as Hx.
  { unfold require_safe_count in Hr. inv_ok.
    match goal with H : require_positive_finite _ _ = Ok _ |- _ => unfold require_positive_finite in H; inv_ok end.
    done. }
  split; [done|]. eapply parse_positive_count_text; [done| |exact Hr|].
  - by apply calibration_number_roundtrip_text.
  - intros c l. by apply calibration_number_plus.
Qed.

(** C30: a configuration printed as the document a sensor serves is read back
    exactly: for every name that fits a field, every calibration the client accepts
    and all units, the parser returns the name, the very doubles and the units. *)
Theorem parse_document_roundtrip fe name c :
  (∀ n, ScopedRoundToNearest (fe n) = Ok ()) → field_text name →
  valid64 (counts_per_force_unit c) = true → valid64 (counts_per_torque_unit c) = true →
  validate_calibration c = Ok () →
  parse_sensor_configuration fe
    (flat_map render (document name (to_chars (calibration_number (counts_per_force_unit c)))
       (to_chars (calibration_number (counts_per_torque_unit c)))
       (to_chars (force_unit_to_string (cal_force_unit c))) (to_chars (torque_unit_to_string (cal_torque_unit c))))) =
  Ok (mkSensorConfiguration (of_chars name) c Sensor 1).
Proof.
  intros Hfe Hname Hcf Hct Hv. pose proof Hv as (Hf & Ht & Hfu & Htu)%validate_calibration_ok.
  destruct c as [cf ct fu tu]. cbn [counts_per_force_unit counts_per_torque_unit cal_force_unit cal_torque_unit] in *.
  destruct (parse_positive_count_printed (fe 0%nat) cf "cfgcpf" _ _ (Hfe _) Hcf Hf) as [Hxf Hpf].
  destruct (parse_positive_count_printed (fe 1%nat) ct "cfgcpt" _ _ (Hfe _) Hct Ht) as [Hxt Hpt].
  unfold parse_sensor_configuration. rewrite extract_document.
  - cbn [mbind result_bind default lookup list_lookup id].
    rewrite Hpf, Hpt, !of_to_chars.
    assert (parse_force_unit (force_unit_to_string fu) = Ok fu) as -> by (by destruct fu).
    assert (parse_torque_unit (torque_unit_to_string tu) = Ok tu) as -> by (by destruct tu).
    cbn [mbind result_bind]. by rewrite Hv.
  - repeat apply Forall_cons_2; try apply Forall_nil_2; try done; try by apply calibration_number_field.
    + by destruct fu; split_and!; try apply (bool_decide_unpack _); vm_compute; try done; lia.
    + by destruct tu; split_and!; try apply (bool_decide_unpack _); vm_compute; try done; lia.
Qed.

(** A factor that no short decimal stands for. *)
Definition third : double := b64_ratio 1000000 3.

Lemma parse_document_roundtrip_witness :
  to_chars (calibration_number third) = to_chars "333333.33333333331" ∧
  parse_sensor_configuration default_fp
    (flat_map render (document (to_chars "Axia80") (to_chars (calibration_number third))
       (to_chars (calibration_number (b64_of_Z 1000000))) (to_chars "N") (to_chars "N-mm"))) =
  Ok (mkSensorConfiguration "Axia80" (mkCalibration third (b64_of_Z 1000000) Newton NewtonMillimeter) Sensor 1).
Proof.
  split; [vm_compute; reflexivity|].
  apply (parse_document_roundtrip default_fp (to_chars "Axia80")
           (mkCalibration third (b64_of_Z 1000000) Newton NewtonMillimeter)).
  - intros n. reflexivity.
  - split; [reflexivity|]. split; [vm_compute; reflexivity|]. split; [discriminate|]. vm_compute. lia.
  - vm_compute. reflexivity.
  - vm_compute. reflexivity.
  - vm_compute. reflexivity.
Defined.
