(* ===== verification/FaultLatch.v ===== *)
(** * The first-fault latch

    [detail/fault_latch.hpp] and [fault_latch.cpp].  The latch is the value of
    its atomic; [publish] also takes the health snapshot the caller passes and
    returns both.  The body runs under [data_mutex], so it is one atomic step. *)

From S2P Require Import Prelude Floating Types.

Definition FaultLatch : Type := FaultCode.

(** [FaultLatch code_{FaultCode::None}]. *)
Definition fault_latch_init : FaultLatch := FaultNone.

(** The result is [published], the latch and the snapshot. *)
Definition publish (latch : FaultLatch) (code : FaultCode) (message : string)
    (health : HealthSnapshot) : bool * FaultLatch * HealthSnapshot :=
  if negb (bool_decide (latch = FaultNone)) then (false, latch, health)
  else
    (true, code,
     health <| state := Faulted |> <| fault_code := code |> <| last_error := message |>).

Definition latch_reset (_ : FaultLatch) : FaultLatch := FaultNone.

Definition latch_faulted (latch : FaultLatch) : bool := negb (bool_decide (latch = FaultNone)).

Definition latch_code (latch : FaultLatch) : FaultCode := latch.

(** Successive attempts to publish, with the answers. *)
Fixpoint publish_all (latch : FaultLatch) (health : HealthSnapshot)
    (attempts : list (FaultCode * string)) : list bool * FaultLatch * HealthSnapshot :=
  match attempts with
  | [] => ([], latch, health)
  | (code, message) :: attempts =>
      let '(b, latch, health) := publish latch code message health in
      let '(bs, latch, health) := publish_all latch health attempts in
      (b :: bs, latch, health)
  end.

Lemma publish_all_latched latch h attempts :
  latch ≠ FaultNone →
  publish_all latch h attempts = (replicate (length attempts) false, latch, h).
Proof.
  intros Hl. induction attempts as [|[c m] attempts IH]; [done|]. cbn [publish_all].
  unfold publish. rewrite bool_decide_eq_false_2 by done. cbn [negb]. by rewrite IH.
Qed.

(** The first fault wins: of any sequence of faults published on a reset
    latch, the first is the one latched and recorded with its message in the
    health snapshot, only its publisher is told it published, and every later
    one changes nothing until the latch is reset. *)
Theorem first_fault_wins code message attempts h :
  code ≠ FaultNone →
  publish_all fault_latch_init h ((code, message) :: attempts) =
    (true :: replicate (length attempts) false, code,
     h <| state := Faulted |> <| fault_code := code |> <| last_error := message |>) ∧
  latch_faulted code = true ∧ latch_faulted (latch_reset code) = false.
Proof.
  intros Hc. split_and!; [|by apply negb_true_iff, bool_decide_eq_false_2|done].
  cbn [publish_all]. unfold publish, fault_latch_init at 1.
  rewrite bool_decide_eq_true_2 by done. cbn [negb].
  by rewrite publish_all_latched.
Qed.

Lemma first_fault_wins_witness :
  let '(bs, latch, h) := publish_all fault_latch_init default_health
    [(FaultTimeout, "t"); (FaultSocket, "s")] in
  bs = [true; false] ∧ latch = FaultTimeout ∧ last_error h = "t" ∧ state h = Faulted.
Proof.
  destruct (first_fault_wins FaultTimeout "t" [(FaultSocket, "s")] default_health) as [H _].
  - discriminate.
  - rewrite H. repeat split.
Defined.
