(* ===== verification/ClientImpl.v ===== *)
(** * The client: state and critical sections

    [detail/client_impl.hpp] and [client_impl.cpp]: the members of
    [Client::Impl] and one definition per critical section of its operations, a
    function of the whole object.  Each runs under the mutexes the source holds
    there, so it is atomic for the interleavings of [Session.v].  Readings of the
    steady clock, answers of the transport, of discovery and of the callback, and
    thread identifiers are arguments. *)

From S2P Require Import Prelude Floating Types Protocol Sequence Status FaultLatch.
From Stdlib Require Import Sorting.Sorted.

(** ** State *)

(** A [std::function]: [None] when empty, otherwise which callable it holds.
    The client only stores, copies and invokes it. *)
Definition SampleCallback : Type := option nat.

(** [std::thread::id] of a running thread. *)
Definition thread_id : Type := nat.

Record Impl := mkImpl {
  config_ : Config;
  (* lifecycle_mutex_ *)
  worker_ : option thread_id;
  active_worker_id_ : option thread_id;
  joining_ : bool;
  callback_ : SampleCallback;
  (* command_mutex_ *)
  session_started_ : bool;
  (* record_mutex_ *)
  rdt_sequence_ : RdtSequenceTracker;
  ft_sequence_ : FtSequenceTracker;
  last_delivery_at_ : Z;
  (* atomics *)
  stopping_ : bool;
  worker_exited_ : bool;
  fault_latch_ : FaultLatch;
  (* data_mutex_ *)
  health_ : HealthSnapshot;
  latest_ : option Sample;
  last_record_at_ : Z;
  generation_ : Z;
  delivered_generation_ : Z;
  receive_times_ : list Z;
  delivery_times_ : list Z;
  consecutive_malformed_ : Z
}.

#[export] Instance eta_Impl : Eta Impl := λ i,
  mkImpl (config_ i) (worker_ i) (active_worker_id_ i) (joining_ i) (callback_ i)
    (session_started_ i) (rdt_sequence_ i) (ft_sequence_ i) (last_delivery_at_ i) (stopping_ i)
    (worker_exited_ i) (fault_latch_ i) (health_ i) (latest_ i) (last_record_at_ i)
    (generation_ i) (delivered_generation_ i) (receive_times_ i) (delivery_times_ i)
    (consecutive_malformed_ i).

Inductive SessionResult :=
  | RStopped | RSensorConfiguration | RTimeout | RSocket | RSeriousStatus
  | RFtStall | RFtBackward | RMalformedStorm | RCallback.

#[global] Instance SessionResult_eq_dec : EqDecision SessionResult.
Proof. solve_decision. Defined.

Record SessionOutcome := mkOutcome {
  outcome_result : SessionResult;
  outcome_message : string;
  received_valid_record : bool
}.

(** ** Helpers *)

Definition kMalformedStormThreshold : Z := 10.

Definition fault_for (r : SessionResult) : FaultCode :=
  match r with
  | RSensorConfiguration => FaultSensorConfiguration
  | RTimeout => FaultTimeout
  | RSocket => FaultSocket
  | RSeriousStatus => FaultSeriousStatus
  | RFtStall => Types.FaultFtStall
  | RFtBackward => Types.FaultFtBackward
  | RMalformedStorm => FaultMalformedStorm
  | RCallback => FaultCallback
  | RStopped => FaultNone
  end.

Definition message_for (r : SessionResult) : string :=
  match r with
  | RSensorConfiguration => "sensor configuration discovery failed"
  | RTimeout => "no valid RDT record before timeout"
  | RSocket => "UDP socket failure"
  | RSeriousStatus => "serious device status"
  | RFtStall => "FT sequence stalled"
  | RFtBackward => "FT sequence moved backward"
  | RMalformedStorm => "malformed packet storm"
  | RCallback => "sample callback failed"
  | RStopped => ""
  end.

(** [operator==] on [double]. *)
Definition same_calibration (left right : Calibration) : bool :=
  SFeqb (counts_per_force_unit left) (counts_per_force_unit right) &&
  SFeqb (counts_per_torque_unit left) (counts_per_torque_unit right) &&
  bool_decide (cal_force_unit left = cal_force_unit right) &&
  bool_decide (cal_torque_unit left = cal_torque_unit right).

Definition one_second : Z := 1000000000.

Fixpoint prune_rate_window (times : list Z) (now : Z) : list Z :=
  match times with
  | [] => []
  | front :: rest => if one_second <? now - front then prune_rate_window rest now else times
  end.

Definition ft_progress_name (k : FtSequenceKind) : string :=
  match k with
  | FtFirst => "first" | FtForward => "forward" | Sequence.FtStall => "stall"
  | Sequence.FtBackward => "backward" | FtRestart => "restart"
  end.

(** [static_cast<double>(times.size())]. *)
Definition rate_of (times : list Z) : double := b64_of_Z (Z.of_nat (length times)).

(** A steady-clock duration as [duration<double>]. *)
Definition seconds_of (ticks : Z) : double :=
  b64_div (b64_of_Z ticks) (b64_of_Z period_den).

Definition faulted (i : Impl) : bool := latch_faulted (fault_latch_ i).

(** The constructor, after [validate]; [stopping_{false}], [worker_exited_{true}]. *)
Definition construct `{Platform} (clock : nat → Z) (config : Config) : result Impl :=
  _ ← validate_config clock config;
  Ok (mkImpl config None None false None false rdt_tracker_init ft_tracker_init 0 false true
        fault_latch_init
        (default_health <| h_sensor_host := sensor_host config |>
                        <| h_rdt_port := rdt_port config |>)
        None 0 0 0 [] [] 0).

(** ** Sessions *)

(** [configuration_for_session]; [discovered] is the answer of
    [discover_sensor]. *)
Definition configuration_for_session (i : Impl) (discovered : result SensorConfiguration)
    : result SensorConfiguration :=
  match calibration_override (config_ i) with
  | Some c => Ok (mkSensorConfiguration "" c Override 1)
  | None => discovered
  end.

Definition apply_configuration (configuration : SensorConfiguration) (i : Impl) : Impl :=
  match sensor_configuration (health_ i) with
  | Some previous =>
      if same_calibration (calibration previous) (calibration configuration) then
        i <| health_ ::= λ h, h <| sensor_configuration :=
               Some (configuration <| revision := revision previous |>) |> |>
      else
        i <| health_ ::= λ h, h
               <| calibration_change_count ::= incr |>
               <| sensor_configuration :=
                    Some (configuration <| revision := incr (revision previous) |>) |> |>
  | None =>
      i <| health_ ::= λ h, h <| sensor_configuration :=
             Some (configuration <| revision := 1 |>) |> |>
  end.

(** The first critical section of [receive_session]. *)
Definition session_connecting (i : Impl) : Impl :=
  i <| health_ ::= λ h, h <| state := Connecting |> |>.

(** After [connect], under the command mutex: [None] is the early return of a
    stopping client. *)
Definition session_start (sent : result unit) (i : Impl) : option (result unit) * Impl :=
  if stopping_ i then (None, i)
  else match sent with
  | Throw e => (Some (Throw e), i)
  | Ok _ => (Some (Ok ()), i <| session_started_ := true |>)
  end.

Definition session_baseline (i : Impl) : Impl :=
  i <| rdt_sequence_ ::= rdt_reset |> <| ft_sequence_ ::= ft_begin_session |>.

(** The deadline has passed, or the socket reported an empty read. *)
Definition session_timeout (i : Impl) : SessionResult * Impl :=
  if stopping_ i then (RStopped, i)
  else (RTimeout, i <| health_ ::= λ h, h <| timeout_count ::= incr |> |>).

(** The result is whether the storm threshold is reached. *)
Definition count_malformed (i : Impl) : bool * Impl :=
  let i := i <| health_ ::= λ h, h <| malformed_count ::= incr |> |>
             <| consecutive_malformed_ ::= incr |> in
  (kMalformedStormThreshold <=? consecutive_malformed_ i, i).

(** ** Records *)

Record Gate := mkGate { deliver : bool; gate_outcome : option SessionResult }.

Definition account_receipt (record : RawRecord) (received_at : Z) (i : Impl) : Impl :=
  let times := prune_rate_window (receive_times_ i ++ [received_at]) received_at in
  i <| receive_times_ := times |>
    <| last_record_at_ := received_at |>
    <| health_ ::= λ h, h
         <| state := Streaming |>
         <| received_count ::= incr |>
         <| receive_rate_hz := rate_of times |>
         <| last_rdt_sequence := Some (raw_rdt_sequence record) |>
         <| last_ft_sequence := Some (raw_ft_sequence record) |>
         <| last_status := raw_status record |> |>.

(** [switch (rdt.kind)]. *)
Definition account_rdt (rdt : SequenceObservation) (h : HealthSnapshot) : bool * HealthSnapshot :=
  match kind rdt with
  | Gap => (true, h <| lost_count ::= λ n, u64 (n + gap rdt) |>)
  | Duplicate => (false, h <| duplicate_count ::= incr |>)
  | OutOfOrder => (false, h <| out_of_order_count ::= incr |>)
  | First | Contiguous => (true, h)
  end.

(** [switch (ft.kind)]. *)
Definition account_ft (ft : FtSequenceKind) (h : HealthSnapshot) : HealthSnapshot :=
  let h := h <| last_ft_progress := ft_progress_name ft |> in
  match ft with
  | Sequence.FtStall => h <| ft_stall_count ::= incr |>
  | Sequence.FtBackward => h <| ft_backward_count ::= incr |>
  | FtRestart => h <| ft_restart_count ::= incr |>
  | FtFirst | FtForward => h
  end.

Definition account_severity (severity : StatusSeverity) (config : Config) (g : Gate)
    (h : HealthSnapshot) : Gate * HealthSnapshot :=
  match severity with
  | SevWarn => (g, h <| warning_count ::= incr |>)
  | SevError =>
      (mkGate (deliver_samples_with_error_status config && deliver g) (Some RSeriousStatus),
       h <| device_error_count ::= incr |>)
  | SevOk => (g, h)
  end.

Definition gate_ft (ft : FtSequenceKind) (config : Config) (g : Gate) : Gate :=
  let outcome :=
    match gate_outcome g, ft with
    | None, Sequence.FtStall => Some RFtStall
    | None, Sequence.FtBackward => Some RFtBackward
    | o, _ => o
    end in
  let ft_discontinuity := bool_decide (ft = Sequence.FtStall) || bool_decide (ft = Sequence.FtBackward) in
  if ft_discontinuity then
    mkGate false
      (if bool_decide (recovery_policy config = Reconnect) &&
          (bool_decide (outcome = Some RFtStall) || bool_decide (outcome = Some RFtBackward))
       then None else outcome)
  else mkGate (deliver g) outcome.

(** [received_at - last_delivery_at_ < duration<double>{1.0 / rate}]: both sides
    become [double] nanoseconds, the common type of the comparison. *)
Definition within_period (rate : double) (elapsed : Z) : bool :=
  SFltb (b64_of_Z elapsed) (b64_mul (b64_div (b64_of_Z 1) rate) (b64_of_Z period_den)).

Definition gate_rate (received_at : Z) (g : Gate) (i : Impl) : Gate * Impl :=
  if deliver g && SFltb d0 (sample_rate_limit_hz (config_ i)) &&
     negb (last_delivery_at_ i =? 0) &&
     within_period (sample_rate_limit_hz (config_ i)) (received_at - last_delivery_at_ i)
  then (mkGate false (gate_outcome g),
        i <| health_ ::= λ h, h <| rate_limited_count ::= incr |> |>)
  else (g, i).

(** The first half of [handle_record], up to [record_lock.unlock()]. *)
Definition observe_record (record : RawRecord) (received_at : Z) (i : Impl)
    : result (SensorConfiguration * Gate) * Impl :=
  let '(rdt, rdt_sequence) := rdt_observe (rdt_sequence_ i) (raw_rdt_sequence record) in
  let '(ft, ft_sequence) := ft_observe (ft_sequence_ i) (raw_ft_sequence record) in
  let severity := classify_status (raw_status record) in
  let i := i <| rdt_sequence_ := rdt_sequence |> <| ft_sequence_ := ft_sequence |> in
  match sensor_configuration (health_ i) with
  | None => (Throw (LogicError "sensor configuration is unavailable while streaming"), i)
  | Some configuration =>
      let i := account_receipt record received_at i in
      let '(deliver, h) := account_rdt rdt (health_ i) in
      let h := account_ft ft h in
      let '(g, h) := account_severity severity (config_ i) (mkGate deliver None) h in
      let g := gate_ft ft (config_ i) g in
      let '(g, i) := gate_rate received_at g (i <| health_ := h |>) in
      (Ok (configuration, g), i)
  end.

(** The sample [handle_record] hands to the callback; [None] when a component
    is not finite. *)
Definition make_sample (configuration : SensorConfiguration) (record : RawRecord) (received_at : Z)
    : option Sample :=
  let c := calibration configuration in
  let scale count per := b64_div (b64_of_Z count) per in
  let force := [scale (fx record) (counts_per_force_unit c);
                scale (fy record) (counts_per_force_unit c);
                scale (fz record) (counts_per_force_unit c)] in
  let torque := [scale (tx record) (counts_per_torque_unit c);
                 scale (ty record) (counts_per_torque_unit c);
                 scale (tz record) (counts_per_torque_unit c)] in
  if negb (forallb isfinite force) || negb (forallb isfinite torque) then None
  else Some (mkSample (raw_rdt_sequence record) (raw_ft_sequence record) (raw_status record)
               [fx record; fy record; fz record; tx record; ty record; tz record]
               force torque (cal_force_unit c) (cal_torque_unit c) (revision configuration)
               received_at).

Definition callback_failure_outcome (config : Config) (outcome : option SessionResult)
    : option SessionResult :=
  if bool_decide (outcome ≠ None) || bool_decide (recovery_policy config = Reconnect) then outcome
  else Some RCallback.

Definition record_callback_error (message : string) (i : Impl) : Impl :=
  i <| health_ ::= λ h, h <| callback_error_count ::= incr |> <| last_error := message |> |>.

(** The second critical section, after the callback returned. *)
Definition commit_delivery (sample : Sample) (i : Impl) : Impl :=
  let times := prune_rate_window (delivery_times_ i ++ [received_at sample]) (received_at sample) in
  i <| last_delivery_at_ := received_at sample |>
    <| latest_ := Some sample |>
    <| delivery_times_ := times |>
    <| delivered_generation_ := generation_ i |>
    <| health_ ::= λ h, h <| delivered_count ::= incr |> <| delivery_rate_hz := rate_of times |> |>.

(** ** End of a session and of the worker *)

(** The command sent is the answer; the result of [send] is ignored. *)
Definition close_session (i : Impl) : list Command * Impl :=
  if session_started_ i then ([StopStreaming], i <| session_started_ := false |>) else ([], i).

Definition set_fault (code : FaultCode) (message : string) (i : Impl) : Impl :=
  let '(_, latch, h) := publish (fault_latch_ i) code message (health_ i) in
  i <| fault_latch_ := latch |> <| health_ := h |>.

(** The section between a failed session and the wait. *)
Definition enter_backoff (message : string) (i : Impl) : Impl :=
  i <| health_ ::= λ h, h <| last_error := message |> <| state := Backoff |>
                          <| reconnect_count ::= incr |> |>.

Definition mark_stopped (i : Impl) : Impl :=
  if faulted i then i else i <| health_ ::= λ h, h <| state := Stopped |> |>.

(** [finish_session] after its [close_session], in its two steps. *)
Definition worker_exit (i : Impl) : Impl := i <| worker_exited_ := true |>.
Definition finish_state (i : Impl) : Impl := mark_stopped i.

(** ** Operations of other threads *)

(** The branch of [start] that has no joinable worker; [created] is the answer of
    [create_worker_thread]. *)
Definition start_fresh (callback : SampleCallback) (created : result thread_id) (i : Impl)
    : result unit * Impl :=
  let previous := i in
  let i := i <| last_delivery_at_ := 0 |> in
  let i := i
    <| fault_latch_ ::= latch_reset |>
    <| health_ ::= λ h, h <| state := Connecting |> <| fault_code := FaultNone |>
         <| last_error := "" |> <| receive_rate_hz := d0 |> <| delivery_rate_hz := d0 |> |>
    <| latest_ := None |> <| last_record_at_ := 0 |> <| generation_ ::= incr |>
    <| delivered_generation_ := 0 |> <| receive_times_ := [] |> <| delivery_times_ := [] |>
    <| consecutive_malformed_ := 0 |> in
  let i := i <| stopping_ := false |> <| worker_exited_ := false |> <| callback_ := callback |> in
  match created with
  | Throw e =>
      let i := i
        <| stopping_ := stopping_ previous |> <| worker_exited_ := worker_exited_ previous |>
        <| callback_ := callback_ previous |>
        <| last_delivery_at_ := last_delivery_at_ previous |>
        <| health_ := health_ previous |> <| latest_ := latest_ previous |>
        <| last_record_at_ := last_record_at_ previous |>
        <| generation_ := generation_ previous |>
        <| delivered_generation_ := delivered_generation_ previous |>
        <| receive_times_ := receive_times_ previous |>
        <| delivery_times_ := delivery_times_ previous |>
        <| consecutive_malformed_ := consecutive_malformed_ previous |>
        <| fault_latch_ ::= latch_reset |> in
      let previous_fault := latch_code (fault_latch_ previous) in
      (Throw e,
       if bool_decide (previous_fault ≠ FaultNone)
       then set_fault previous_fault (last_error (health_ previous)) i else i)
  | Ok id =>
      (Ok (), i <| worker_ := Some id |> <| active_worker_id_ := Some id |>)
  end.

(** [joining_ = true; ... = std::move(worker_);] of [start] and [stop], and the
    section after the join. *)
Definition take_worker (i : Impl) : Impl := i <| joining_ := true |> <| worker_ := None |>.
Definition release_worker (i : Impl) : Impl := i <| active_worker_id_ := None |> <| joining_ := false |>.

(** [stop]: [stopping_ = true;], then the section under the command mutex. *)
Definition stop_flag (i : Impl) : Impl := i <| stopping_ := true |>.
Definition stop_command (i : Impl) : list Command * Impl := close_session i.

(** [bias]; [sent1] and [sent2] are the answers of the two sends.  The commands
    that were sent are the second component. *)
Definition bias (sent1 sent2 : result unit) (i : Impl) : result unit * list Command * Impl :=
  if stopping_ i || negb (session_started_ i) || faulted i ||
     negb (bool_decide (state (health_ i) = Streaming))
  then (Throw (NotConnectedError "client is not streaming"), [], i)
  else match sent1 with
  | Throw e => (Throw e, [], i)
  | Ok _ =>
      match sent2 with
      | Throw e => (Throw e, [SetSoftwareBias], i)
      | Ok _ => (Ok (), [SetSoftwareBias; StartRealtime], i <| rdt_sequence_ ::= rdt_reset |>)
      end
  end.

(** [health]: the snapshot, and the object with its two windows pruned. *)
Definition health (now : Z) (i : Impl) : HealthSnapshot * Impl :=
  let i := i <| receive_times_ ::= λ ts, prune_rate_window ts now |>
             <| delivery_times_ ::= λ ts, prune_rate_window ts now |> in
  let code := latch_code (fault_latch_ i) in
  let s := (health_ i) <| fault_code := code |> in
  let s := if bool_decide (code ≠ FaultNone) then s <| state := Faulted |> else s in
  let s := s <| receive_rate_hz := rate_of (receive_times_ i) |>
             <| delivery_rate_hz := rate_of (delivery_times_ i) |> in
  (if negb (last_record_at_ i =? 0)
   then s <| last_record_age := Some (seconds_of (now - last_record_at_ i)) |> else s, i).

Definition latest_sample (i : Impl) : option Sample := latest_ i.

(** [wait_for_first_sample]: the generation it captures, the predicate of its
    wait and its answer once woken. *)
Definition wait_capture (i : Impl) : option Z :=
  if generation_ i =? 0 then None else Some (generation_ i).

Definition wait_ready (captured : Z) (i : Impl) : bool :=
  negb (generation_ i =? captured) || (delivered_generation_ i =? captured) ||
  stopping_ i || faulted i.

Definition wait_answer (captured : Z) (i : Impl) : bool :=
  if negb (generation_ i =? captured) then false else delivered_generation_ i =? captured.

(** ** The decision table of a record

    What [observe_record] decides, as a closed expression of the observations. *)

Definition ft_discontinuity (k : FtSequenceKind) : bool :=
  match k with Sequence.FtStall | Sequence.FtBackward => true | _ => false end.

(** Fit for delivery, the rate limit apart. *)
Definition deliverable (config : Config) (o : SequenceObservation) (k : FtSequenceKind)
    (s : StatusSeverity) : bool :=
  accepted (kind o) && negb (ft_discontinuity k) &&
  (negb (bool_decide (s = SevError)) || deliver_samples_with_error_status config).

(** Held back by the rate limit: a limit is set, a sample was delivered since
    [start] and the last one is less than a period ago. *)
Definition rate_limited (config : Config) (last received_at : Z) : bool :=
  SFltb d0 (sample_rate_limit_hz config) && negb (last =? 0) &&
  within_period (sample_rate_limit_hz config) (received_at - last).

(** Which session end a record asks for: an error status always does, an FT
    discontinuity only under fail-stop. *)
Definition session_end (config : Config) (k : FtSequenceKind) (s : StatusSeverity)
    : option SessionResult :=
  match s, recovery_policy config, k with
  | SevError, _, _ => Some RSeriousStatus
  | _, FailStop, Sequence.FtStall => Some RFtStall
  | _, FailStop, Sequence.FtBackward => Some RFtBackward
  | _, _, _ => None
  end.

Definition bump (b : bool) (n : Z) : Z := if b then incr n else n.

(** The health snapshot after a record. *)
Definition observed_health (record : RawRecord) (o : SequenceObservation) (k : FtSequenceKind)
    (s : StatusSeverity) (limited : bool) (rate : double) (h : HealthSnapshot) : HealthSnapshot :=
  h <| state := Streaming |>
    <| last_rdt_sequence := Some (raw_rdt_sequence record) |>
    <| last_ft_sequence := Some (raw_ft_sequence record) |>
    <| last_status := raw_status record |>
    <| receive_rate_hz := rate |>
    <| received_count ::= incr |>
    <| rate_limited_count ::= bump limited |>
    <| device_error_count ::= bump (bool_decide (s = SevError)) |>
    <| warning_count ::= bump (bool_decide (s = SevWarn)) |>
    <| lost_count ::= λ n, if bool_decide (kind o = Gap) then u64 (n + gap o) else n |>
    <| duplicate_count ::= bump (bool_decide (kind o = Duplicate)) |>
    <| out_of_order_count ::= bump (bool_decide (kind o = OutOfOrder)) |>
    <| ft_stall_count ::= bump (bool_decide (k = Sequence.FtStall)) |>
    <| ft_backward_count ::= bump (bool_decide (k = Sequence.FtBackward)) |>
    <| ft_restart_count ::= bump (bool_decide (k = FtRestart)) |>
    <| last_ft_progress := ft_progress_name k |>.

(** ** Lemmas: record handling *)

(** The outcome and delivery before the rate limit. *)
Lemma gate_decision config o k s h h1 d1 :
  account_rdt o h = (d1, h1) →
  gate_ft k config (fst (account_severity s config (mkGate d1 None) (account_ft k h1))) =
    mkGate (deliverable config o k s) (session_end config k s).
Proof.
  unfold account_rdt, gate_ft, deliverable, session_end, account_severity.
  destruct (kind o), k, s; intros [= <- <-]; cbn; destruct (recovery_policy config); cbn;
    rewrite ?andb_true_r, ?andb_false_r, ?orb_false_r; reflexivity.
Qed.

Lemma account_health config o k s h h1 d1 :
  account_rdt o h = (d1, h1) →
  snd (account_severity s config (mkGate d1 None) (account_ft k h1)) =
    h <| device_error_count ::= bump (bool_decide (s = SevError)) |>
      <| warning_count ::= bump (bool_decide (s = SevWarn)) |>
      <| lost_count ::= λ n, if bool_decide (kind o = Gap) then u64 (n + gap o) else n |>
      <| duplicate_count ::= bump (bool_decide (kind o = Duplicate)) |>
      <| out_of_order_count ::= bump (bool_decide (kind o = OutOfOrder)) |>
      <| ft_stall_count ::= bump (bool_decide (k = Sequence.FtStall)) |>
      <| ft_backward_count ::= bump (bool_decide (k = Sequence.FtBackward)) |>
      <| ft_restart_count ::= bump (bool_decide (k = FtRestart)) |>
      <| last_ft_progress := ft_progress_name k |>.
Proof.
  unfold account_rdt, account_severity, account_ft.
  destruct h. destruct (kind o), k, s; intros [= <- <-]; reflexivity.
Qed.

(** The state and answer of [observe_record] in closed form. *)
Lemma observe_record_closed record at_ i c o rdt' k ft' :
  sensor_configuration (health_ i) = Some c →
  rdt_observe (rdt_sequence_ i) (raw_rdt_sequence record) = (o, rdt') →
  ft_observe (ft_sequence_ i) (raw_ft_sequence record) = (k, ft') →
  let s := classify_status (raw_status record) in
  let fit := deliverable (config_ i) o k s in
  let limited := fit && rate_limited (config_ i) (last_delivery_at_ i) at_ in
  let times := prune_rate_window (receive_times_ i ++ [at_]) at_ in
  observe_record record at_ i =
    (Ok (c, mkGate (fit && negb limited) (session_end (config_ i) k s)),
     i <| rdt_sequence_ := rdt' |> <| ft_sequence_ := ft' |> <| receive_times_ := times |>
       <| last_record_at_ := at_ |>
       <| health_ ::= observed_health record o k s limited (rate_of times) |>).
Proof.
  intros Hc Ho Hk s fit limited times. unfold observe_record. rewrite Ho, Hk.
  destruct i as [cfg wk aw jn cb ss rs fs ld st we fl h la lr gn dg rt dt cm].
  cbn -[account_rdt account_ft account_severity gate_ft gate_rate account_receipt] in *.
  rewrite Hc.
  destruct (account_rdt o _) as [d1 h1] eqn:Ha.
  pose proof (gate_decision cfg o k s _ _ _ Ha) as Hg.
  pose proof (account_health cfg o k s _ _ _ Ha) as Hh.
  change (classify_status (raw_status record)) with s.
  change (config_ (account_receipt _ _ _)) with cfg.
  destruct (account_severity s cfg (mkGate d1 None) (account_ft k h1)) as [g h2].
  cbn [fst snd] in Hg, Hh. rewrite Hg, Hh. fold fit.
  unfold gate_rate. cbn -[prune_rate_window SFltb within_period b64_of_Z incr bump].
  unfold limited, rate_limited. cbn [config_ last_delivery_at_].
  destruct fit; cbn [andb negb].
  2: { destruct h; reflexivity. }
  destruct (SFltb d0 (sample_rate_limit_hz cfg)); cbn [andb negb];
    [destruct (ld =? 0); cbn [andb negb]; [|destruct (within_period _ _)]|];
    destruct h; reflexivity.
Qed.

(** ** Properties: record handling *)

(** C21: the decision on a record is the documented table: the record is accepted
    for delivery exactly when its RDT counter is new, its FT counter made
    progress, its status is not an error (or error samples are wanted) and the
    rate limit allows it; the session ends on an error status and, under
    fail-stop only, on an FT stall or step backward; and the snapshot changes by
    exactly the counters of those observations. *)
Theorem observe_record_decision record at_ i c o rdt' k ft' :
  sensor_configuration (health_ i) = Some c →
  rdt_observe (rdt_sequence_ i) (raw_rdt_sequence record) = (o, rdt') →
  ft_observe (ft_sequence_ i) (raw_ft_sequence record) = (k, ft') →
  let s := classify_status (raw_status record) in
  let limited := rate_limited (config_ i) (last_delivery_at_ i) at_ in
  ∃ g i', observe_record record at_ i = (Ok (c, g), i') ∧
    (deliver g = true ↔
       accepted (kind o) = true ∧ k ≠ Sequence.FtStall ∧ k ≠ Sequence.FtBackward ∧
       (s = SevError → deliver_samples_with_error_status (config_ i) = true) ∧
       limited = false) ∧
    gate_outcome g = session_end (config_ i) k s ∧
    rdt_sequence_ i' = rdt' ∧ ft_sequence_ i' = ft' ∧
    health_ i' = observed_health record o k s
                   (deliverable (config_ i) o k s && limited)
                   (rate_of (receive_times_ i')) (health_ i).
Proof.
  intros Hc Ho Hk s limited. eexists _, _. split.
  { by eapply observe_record_closed. }
  cbn -[deliverable session_end rate_limited observed_health prune_rate_window].
  fold s limited. split_and!; [|done..].
  unfold deliverable. destruct k, s, limited, (accepted (kind o)),
    (deliver_samples_with_error_status (config_ i)); cbn; split;
    intros; destruct_and?; split_and?; try done; naive_solver.
Qed.

Definition sample_configuration : SensorConfiguration :=
  mkSensorConfiguration "Axia80" axia_calibration Sensor 3.

Definition streaming_impl : Impl :=
  mkImpl default_config (Some 1%nat) (Some 1%nat) false (Some 7%nat) true
    (mkRdt true 41) (mkFt true 99 false 0) 5000 false false FaultNone
    (default_health <| state := Streaming |> <| sensor_configuration := Some sample_configuration |>)
    None 4000 1 1 [4000] [4000] 0.

Lemma observe_record_decision_witness :
  ∃ g i', observe_record (mkRawRecord 44 100 0 1 2 3 4 5 6) 9000 streaming_impl =
            (Ok (sample_configuration, g), i') ∧
    deliver g = true ∧ gate_outcome g = None ∧ lost_count (health_ i') = 2.
Proof.
  destruct (observe_record_decision (mkRawRecord 44 100 0 1 2 3 4 5 6) 9000 streaming_impl
              sample_configuration (mkObs Gap 2) (mkRdt true 44) FtForward (mkFt true 100 false 0)
              eq_refl eq_refl eq_refl) as (g & i' & He & Hd & Ho & _ & _ & Hh).
  exists g, i'. split_and!; [exact He| |exact Ho|by rewrite Hh].
  apply Hd. split_and!; try done; vm_compute; congruence.
Defined.

(** What [make_sample] gives. *)
Lemma make_sample_some c r at_ s :
  make_sample c r at_ = Some s →
  rdt_sequence s = raw_rdt_sequence r ∧ ft_sequence s = raw_ft_sequence r ∧
  status s = raw_status r ∧ received_at s = at_ ∧
  raw_wrench s = [fx r; fy r; fz r; tx r; ty r; tz r] ∧
  configuration_revision s = revision c ∧
  force_unit s = cal_force_unit (calibration c) ∧
  torque_unit s = cal_torque_unit (calibration c) ∧
  forallb isfinite (force s) = true ∧ forallb isfinite (torque s) = true.
Proof.
  unfold make_sample. cbv zeta. case_split; [done|]. intros [= <-]. cbn -[forallb isfinite].
  apply orb_false_elim in Heqb as [Hf%negb_false_iff Ht%negb_false_iff]. by split_and!.
Qed.

(** With a validated calibration every record in range becomes a sample: no
    record can end the session as a configuration fault, and each component of
    the sample is the finite quotient of its count by the counts per unit. *)
Theorem make_sample_total c r at_ :
  valid64 (counts_per_force_unit (calibration c)) = true →
  valid64 (counts_per_torque_unit (calibration c)) = true →
  validate_calibration (calibration c) = Ok () → wf_record r →
  ∃ s, make_sample c r at_ = Some s ∧
    force s = (λ n, b64_div (b64_of_Z n) (counts_per_force_unit (calibration c)))
                <$> [fx r; fy r; fz r] ∧
    torque s = (λ n, b64_div (b64_of_Z n) (counts_per_torque_unit (calibration c)))
                 <$> [tx r; ty r; tz r] ∧
    Forall (λ v, isfinite v = true) (force s ++ torque s).
Proof.
  intros Hvf Hvt (Hf & Ht & _)%validate_calibration_ok (_ & _ & _ & Hr).
  assert (∀ n, is_i32 n → isfinite (b64_div (b64_of_Z n) (counts_per_force_unit (calibration c))) = true)
    as Hqf by (intros; by eapply safe_count_quotient).
  assert (∀ n, is_i32 n → isfinite (b64_div (b64_of_Z n) (counts_per_torque_unit (calibration c))) = true)
    as Hqt by (intros; by eapply safe_count_quotient).
  destruct Hr as (?&?&?&?&?&?).
  unfold make_sample. cbn [forallb]. rewrite !Hqf, !Hqt by done. cbn [andb negb orb].
  eexists. split_and!; [done..|]. cbn [force torque app].
  repeat (apply Forall_cons_2; [auto|]). constructor.
Qed.

Lemma make_sample_total_witness :
  ∃ s, make_sample sample_configuration (mkRawRecord 1 2 0 (- 2 ^ 31) 5 6 7 8 (2 ^ 31 - 1)) 9 = Some s
    ∧ Forall (λ v, isfinite v = true) (force s ++ torque s).
Proof.
  destruct (make_sample_total sample_configuration
              (mkRawRecord 1 2 0 (- 2 ^ 31) 5 6 7 8 (2 ^ 31 - 1)) 9) as (s & Hs & _ & _ & Hf).
  - vm_compute. reflexivity.
  - vm_compute. reflexivity.
  - vm_compute. reflexivity.
  - repeat split; vm_compute; first [reflexivity | discriminate].
  - exists s. split; [exact Hs | exact Hf].
Defined.

(** ** Properties: rate windows *)

Lemma prune_keep t ts now : now - t ≤ one_second → prune_rate_window (t :: ts) now = t :: ts.
Proof. intros H. cbn [prune_rate_window]. by destruct (Z.ltb_spec one_second (now - t)); [lia|]. Qed.

Lemma filter_all {A} (P : A → Prop) `{∀ x, Decision (P x)} l : Forall P l → filter P l = l.
Proof.
  induction 1; [done|]. rewrite filter_cons_True by done. by f_equal.
Qed.

Lemma prune_filter ts now :
  StronglySorted Z.le ts → prune_rate_window ts now = filter (λ t, now - t ≤ one_second) ts.
Proof.
  induction 1 as [|t ts Hs IH Ht]; [done|]. cbn [prune_rate_window].
  destruct (Z.ltb_spec one_second (now - t)).
  - rewrite filter_cons_False by lia. done.
  - rewrite filter_cons_True by lia. f_equal. symmetry. apply filter_all.
    eapply Forall_impl; [exact Ht|]. cbn. lia.
Qed.

Lemma StronglySorted_snoc_Z ts now :
  StronglySorted Z.le ts → Forall (λ t, t ≤ now) ts → StronglySorted Z.le (ts ++ [now]).
Proof.
  induction 1 as [|t ts Hs IH Ht]; intros Hn; cbn [app]; [by repeat constructor|].
  apply Forall_cons in Hn as [? Hn]. constructor; [by apply IH|].
  apply Forall_app; split; [done|]. by constructor.
Qed.

Lemma StronglySorted_filter_Z (P : Z → Prop) `{∀ x, Decision (P x)} ts :
  StronglySorted Z.le ts → StronglySorted Z.le (filter P ts).
Proof.
  induction 1 as [|t ts Hs IH Ht]; [constructor|]. rewrite filter_cons.
  destruct (decide (P t)); [|done]. constructor; [done|].
  apply Forall_forall. intros x [_ Hx]%list_elem_of_filter. rewrite Forall_forall in Ht. auto.
Qed.

(** Successive arrivals, each pushed and pruned as [handle_record] does. *)
Definition window_after (arrivals : list Z) : list Z :=
  foldl (λ times at_, prune_rate_window (times ++ [at_]) at_) [] arrivals.

Lemma window_after_snoc arrivals at_ :
  window_after (arrivals ++ [at_]) = prune_rate_window (window_after arrivals ++ [at_]) at_.
Proof. unfold window_after. by rewrite foldl_app. Qed.

Lemma filter_filter_le (ts : list Z) a b :
  a ≤ b →
  filter (λ t, b - t ≤ one_second) (filter (λ t, a - t ≤ one_second) ts) =
  filter (λ t, b - t ≤ one_second) ts.
Proof.
  intros Hab. rewrite list_filter_filter. apply list_filter_iff. intros t. lia.
Qed.

Lemma StronglySorted_snoc_inv_Z ts now :
  StronglySorted Z.le (ts ++ [now]) → StronglySorted Z.le ts ∧ Forall (λ t, t ≤ now) ts.
Proof.
  induction ts as [|t ts IH]; cbn [app]; intros Hs; [by split; constructor|].
  inversion Hs as [|? ? Hs' Ht]; subst. destruct (IH Hs') as [? ?].
  apply Forall_app in Ht as [Ht Hn]. apply Forall_cons in Hn as [? _].
  split; by constructor.
Qed.

Lemma window_after_filter arrivals last :
  StronglySorted Z.le (arrivals ++ [last]) →
  window_after (arrivals ++ [last]) = filter (λ t, last - t ≤ one_second) (arrivals ++ [last]).
Proof.
  revert last. induction arrivals as [|at_ arrivals IH] using rev_ind; intros last Hs.
  { unfold window_after; cbn [foldl app]. apply prune_filter. by repeat constructor. }
  rewrite window_after_snoc. apply StronglySorted_snoc_inv_Z in Hs as [Hs Hl].
  rewrite IH by done.
  assert (at_ ≤ last) by (apply Forall_app in Hl as [_ Hl]; by apply Forall_cons in Hl as [? _]).
  rewrite prune_filter.
  - rewrite !filter_app, filter_filter_le by done. f_equal. f_equal.
    rewrite <- (filter_filter_le [at_] at_ last) by done. done.
  - apply StronglySorted_snoc_Z; [by apply StronglySorted_filter_Z|].
    apply Forall_forall. intros x [_ Hx]%list_elem_of_filter.
    rewrite Forall_forall in Hl. auto.
Qed.

(** The rates are exact: with a clock that does not go back, the window that
    successive records leave, pruned again by [health] at [now], holds exactly
    the arrivals of the last second, and the reported rate is their number. *)
Theorem rate_window_exact arrivals last now i :
  StronglySorted Z.le (arrivals ++ [last; now]) →
  receive_times_ i = window_after (arrivals ++ [last]) →
  let '(s, i') := health now i in
  receive_times_ i' = filter (λ t, now - t ≤ one_second) (arrivals ++ [last]) ∧
  receive_rate_hz s =
    b64_of_Z (Z.of_nat (length (filter (λ t, now - t ≤ one_second) (arrivals ++ [last])))).
Proof.
  change [last; now] with ([last] ++ [now]). rewrite (app_assoc arrivals [last]). intros Hs Hw.
  apply StronglySorted_snoc_inv_Z in Hs as [Hs Hl].
  assert (last ≤ now) by (apply Forall_app in Hl as [_ Hl]; by apply Forall_cons in Hl as [? _]).
  assert (prune_rate_window (receive_times_ i) now =
          filter (λ t, now - t ≤ one_second) (arrivals ++ [last])) as Hp.
  { rewrite Hw, window_after_filter by done.
    rewrite prune_filter by by apply StronglySorted_filter_Z. by apply filter_filter_le. }
  unfold health, rate_of. cbn -[prune_rate_window filter b64_of_Z]. rewrite Hp.
  split; [done|]. by repeat case_split.
Qed.

Lemma rate_window_exact_witness :
  receive_rate_hz (fst (health 1500000000
    (streaming_impl <| receive_times_ := window_after [400000000; 600000000; 900000000] |>)))
  = b64_of_Z 2.
Proof.
  pose proof (rate_window_exact [400000000; 600000000] 900000000 1500000000
    (streaming_impl <| receive_times_ := window_after [400000000; 600000000; 900000000] |>)) as H.
  destruct (health _ _) as [s i']. cbn [fst].
  destruct H as [_ H]; [by repeat constructor|reflexivity|]. rewrite H. reflexivity.
Defined.

(** ** Properties: configuration revisions *)

Definition apply_all (cs : list SensorConfiguration) (i : Impl) : Impl :=
  foldl (λ i c, apply_configuration c i) i cs.

(** How many times the calibration differs from the one before. *)
Fixpoint calibration_changes (previous : Calibration) (cs : list SensorConfiguration) : Z :=
  match cs with
  | [] => 0
  | c :: cs =>
      (if same_calibration previous (calibration c) then 0 else 1) +
      calibration_changes (calibration c) cs
  end.

Lemma apply_configuration_some c p i :
  sensor_configuration (health_ i) = Some p →
  let same := same_calibration (calibration p) (calibration c) in
  apply_configuration c i =
    i <| health_ ::= λ h, h
      <| calibration_change_count ::= bump (negb same) |>
      <| sensor_configuration := Some (c <| revision := bump (negb same) (revision p) |>) |> |>.
Proof.
  intros Hp same. unfold apply_configuration. rewrite Hp. fold same.
  destruct i as [? ? ? ? ? ? ? ? ? ? ? ? h ? ? ? ? ? ? ?], h. by destruct same.
Qed.

Lemma u64_incr_bump (b : bool) n m : u64 n = n → m = (if b then 1 else 0) → bump b n = u64 (n + m).
Proof. intros Hn ->. destruct b; cbn [bump]; [done|]. by rewrite Z.add_0_r. Qed.

Lemma u64_add_l a b : u64 (u64 a + b) = u64 (a + b).
Proof. unfold u64. by rewrite Z.add_mod_idemp_l. Qed.

Lemma u64_u64 a : u64 (u64 a) = u64 a.
Proof. unfold u64. by rewrite Z.mod_mod. Qed.

(** The calibration last found does not depend on the revision it was given. *)
Lemma last_calibration cs p p' :
  calibration p = calibration p' →
  calibration (List.last cs p) = calibration (List.last cs p').
Proof. induction cs as [|c [|d cs] IH]; [done|done|exact IH]. Qed.

Lemma last_cons_default {A} (c p : A) cs : List.last (c :: cs) p = List.last cs c.
Proof.
  revert c p. induction cs as [|d cs IH]; intros c p; [done|].
  change (List.last (d :: cs) p = List.last (d :: cs) c). by rewrite !IH.
Qed.

Lemma apply_all_some cs p i :
  sensor_configuration (health_ i) = Some p → u64 (revision p) = revision p →
  u64 (calibration_change_count (health_ i)) = calibration_change_count (health_ i) →
  let n := calibration_changes (calibration p) cs in
  let i' := apply_all cs i in
  (∃ c, sensor_configuration (health_ i') = Some c ∧ revision c = u64 (revision p + n) ∧
        calibration c = calibration (List.last cs p)) ∧
  calibration_change_count (health_ i') = u64 (calibration_change_count (health_ i) + n).
Proof.
  revert p i. induction cs as [|c cs IH]; intros p i Hp Hr Hc n i'.
  { subst n i'. cbn [calibration_changes apply_all foldl]. rewrite !Z.add_0_r, Hr, Hc. eauto. }
  subst n i'. cbn [apply_all foldl calibration_changes]. fold (apply_all cs (apply_configuration c i)).
  pose proof (apply_configuration_some c p i Hp) as Hi. cbv zeta in Hi.
  set (same := same_calibration (calibration p) (calibration c)) in *.
  assert (∀ z, u64 z = z → bump (negb same) z = u64 (z + (if same then 0 else 1))) as Hb
    by (intros z Hz; apply u64_incr_bump; [done|by destruct same]).
  destruct (IH (c <| revision := bump (negb same) (revision p) |>) (apply_configuration c i))
    as [(cf & H1 & H2 & H3) H4].
  { by rewrite Hi. }
  { cbn -[u64 bump]. by rewrite Hb, u64_u64. }
  { rewrite Hi. cbn -[u64 bump]. by rewrite Hb, u64_u64. }
  split.
  - exists cf. split; [exact H1|]. split.
    + rewrite H2. cbn -[u64 bump]. by rewrite Hb, u64_add_l, Z.add_assoc by done.
    + rewrite H3, last_cons_default. by apply last_calibration.
  - rewrite H4, Hi. cbn -[u64 bump]. by rewrite Hb, u64_add_l, Z.add_assoc by done.
Qed.

(** The configuration revision identifies the calibration: over the sessions
    of a client, the revision in force is one more than the number of times the
    calibration changed, the same number is reported as the calibration change
    count, and sessions that find the calibration unchanged keep the revision. *)
Theorem configuration_revisions c cs i :
  sensor_configuration (health_ i) = None → calibration_change_count (health_ i) = 0 →
  let n := calibration_changes (calibration c) cs in
  let i' := apply_all (c :: cs) i in
  (∃ c', sensor_configuration (health_ i') = Some c' ∧ revision c' = u64 (1 + n) ∧
         calibration c' = calibration (List.last cs c)) ∧
  calibration_change_count (health_ i') = u64 n.
Proof.
  intros Hn Hc n i'. subst n i'. cbn [apply_all foldl].
  fold (apply_all cs (apply_configuration c i)).
  assert (apply_configuration c i = i <| health_ ::= λ h, h <| sensor_configuration :=
            Some (c <| revision := 1 |>) |> |>) as Hi by (unfold apply_configuration; by rewrite Hn).
  destruct (apply_all_some cs (c <| revision := 1 |>) (apply_configuration c i))
    as [(cf & H1 & H2 & H3) H4]; [by rewrite Hi|done|rewrite Hi; cbn; by rewrite Hc|].
  split.
  - exists cf. split; [done|]. split; [done|]. rewrite H3. by apply last_calibration.
  - rewrite H4, Hi. cbn -[u64]. by rewrite Hc.
Qed.

Lemma configuration_revisions_witness :
  let other := sample_configuration <| calibration := mkCalibration (b64_of_Z 5) (b64_of_Z 5) Newton NewtonMeter |> in
  let i := streaming_impl <| health_ := default_health |> in
  ∃ c', sensor_configuration (health_ (apply_all [sample_configuration; other; other; sample_configuration] i))
          = Some c' ∧ revision c' = 3.
Proof.
  intros other i.
  destruct (configuration_revisions sample_configuration [other; other; sample_configuration] i eq_refl eq_refl)
    as [(c' & H1 & H2 & _) _].
  exists c'. split; [exact H1|]. rewrite H2. vm_compute. reflexivity.
Defined.

(** ** Properties: faults, start and health *)

(** The latch and the snapshot agree: a latched fault shows. *)
Definition coherent (i : Impl) : Prop :=
  fault_latch_ i = FaultNone ∨
  (state (health_ i) = Faulted ∧ fault_code (health_ i) = fault_latch_ i).

Lemma faulted_spec i : faulted i = true ↔ fault_latch_ i ≠ FaultNone.
Proof. unfold faulted, latch_faulted. by rewrite negb_true_iff, bool_decide_eq_false. Qed.

Lemma not_faulted_spec i : faulted i = false ↔ fault_latch_ i = FaultNone.
Proof. unfold faulted, latch_faulted. by rewrite negb_false_iff, bool_decide_eq_true. Qed.

(** [set_fault] on a client without a fault, and on one that has one. *)
Lemma set_fault_first code message i :
  fault_latch_ i = FaultNone →
  set_fault code message i =
    i <| fault_latch_ := code |>
      <| health_ ::= λ h, h <| state := Faulted |> <| fault_code := code |> <| last_error := message |> |>.
Proof. intros Hl. unfold set_fault, publish. rewrite Hl. by destruct i. Qed.

Lemma set_fault_later code message i :
  fault_latch_ i ≠ FaultNone → set_fault code message i = i.
Proof.
  intros Hl. unfold set_fault, publish. rewrite bool_decide_eq_false_2 by done. by destruct i.
Qed.

Lemma start_fresh_failed callback e i :
  coherent i → start_fresh callback (Throw e) i = (Throw e, i).
Proof.
  intros Hi. unfold start_fresh, latch_code, latch_reset. cbv zeta. f_equal.
  destruct i as [? ? ? ? ? ? ? ? ? ? ? fl h ? ? ? ? ? ? ?], h. cbn.
  unfold coherent in Hi; cbn in Hi. destruct (decide (fl = FaultNone)) as [->|Hf].
  - by rewrite bool_decide_eq_false_2 by (by intros []).
  - destruct Hi as [|[-> ->]]; [done|].
    by rewrite bool_decide_eq_true_2, set_fault_first.
Qed.

(** A start whose thread cannot be created changes nothing: whatever the
    client did before, faults included, its whole state is put back and the
    exception is passed on. *)
Theorem start_rollback callback e i :
  coherent i → start_fresh callback (Throw e) i = (Throw e, i).
Proof. apply start_fresh_failed. Qed.

Definition faulted_impl : Impl :=
  set_fault FaultTimeout "no valid RDT record before timeout" streaming_impl.

Lemma start_rollback_witness :
  start_fresh None (Throw (RuntimeError "thread")) faulted_impl =
    (Throw (RuntimeError "thread"), faulted_impl) ∧ faulted faulted_impl = true.
Proof.
  split; [|reflexivity]. apply (start_rollback None (RuntimeError "thread") faulted_impl).
  right. split; reflexivity.
Defined.

(** A successful start is a clean slate for one run: the fault, the last
    sample, the rate windows and the malformed count are cleared and the
    generation advances, so that no waiter can see an old sample as the first of
    this run; the totals, the configuration in force and the FT baseline are
    kept. *)
Theorem start_fresh_clean callback id i :
  is_u64 (generation_ i) → generation_ i < 2 ^ 64 - 1 → 0 ≤ delivered_generation_ i ≤ generation_ i →
  let '(r, i') := start_fresh callback (Ok id) i in
  r = Ok () ∧ faulted i' = false ∧ coherent i' ∧
  state (health_ i') = Connecting ∧ fault_code (health_ i') = FaultNone ∧
  latest_ i' = None ∧ receive_times_ i' = [] ∧ delivery_times_ i' = [] ∧
  consecutive_malformed_ i' = 0 ∧ last_delivery_at_ i' = 0 ∧
  callback_ i' = callback ∧ worker_ i' = Some id ∧ worker_exited_ i' = false ∧ stopping_ i' = false ∧
  generation_ i < generation_ i' ∧
  (∀ captured, wait_capture i' = Some captured → wait_answer captured i' = false) ∧
  (∀ captured, wait_capture i = Some captured →
     wait_ready captured i' = true ∧ wait_answer captured i' = false) ∧
  received_count (health_ i') = received_count (health_ i) ∧
  reconnect_count (health_ i') = reconnect_count (health_ i) ∧
  sensor_configuration (health_ i') = sensor_configuration (health_ i) ∧
  ft_sequence_ i' = ft_sequence_ i.
Proof.
  intros Hg Hlt Hd.
  assert (incr (generation_ i) = generation_ i + 1) as Hinc by width_lia.
  unfold start_fresh, coherent, faulted, wait_capture, wait_ready, wait_answer.
  cbn -[incr Z.eqb]. rewrite Hinc.
  destruct Hg as [Hg _].
  destruct (Z.eqb_spec (generation_ i + 1) 0); [lia|].
  split_and!; try done; try (by left); try lia.
  - intros captured [= <-]. rewrite Z.eqb_refl. cbn [negb]. by apply Z.eqb_neq.
  - intros captured. destruct (Z.eqb_spec (generation_ i) 0); [done|]. intros [= <-].
    by destruct (Z.eqb_spec (generation_ i + 1) (generation_ i)); [lia|].
Qed.

Lemma start_fresh_clean_witness :
  let i' := snd (start_fresh (Some 3%nat) (Ok 8%nat) faulted_impl) in
  faulted i' = false ∧ wait_answer 2 i' = false.
Proof.
  destruct (start_fresh_clean (Some 3%nat) 8%nat faulted_impl)
    as (_ & Hf & _ & _ & _ & _ & _ & _ & _ & _ & _ & _ & _ & _ & _ & Hw & _).
  - split; [discriminate|reflexivity].
  - reflexivity.
  - split; discriminate.
  - split; [exact Hf|]. apply (Hw 2). reflexivity.
Defined.

(** A health snapshot is coherent: it shows Faulted with the latched code
    exactly when a fault is latched and None otherwise, the age of the last
    record whenever there is one in this run, and otherwise the counters
    unchanged; taking it changes nothing a later snapshot at the same time would
    show. *)
Theorem health_snapshot now i :
  coherent i → (fault_latch_ i = FaultNone → state (health_ i) ≠ Faulted) →
  let '(s, i') := health now i in
  (state s = Faulted ↔ fault_latch_ i ≠ FaultNone) ∧ fault_code s = fault_latch_ i ∧
  (fault_latch_ i = FaultNone → state s = state (health_ i)) ∧
  (last_record_at_ i ≠ 0 → last_record_age s = Some (seconds_of (now - last_record_at_ i))) ∧
  received_count s = received_count (health_ i) ∧ delivered_count s = delivered_count (health_ i) ∧
  last_error s = last_error (health_ i) ∧
  health_ i' = health_ i ∧ fst (health now i') = s.
Proof.
  intros Hc Hs.
  assert (∀ ts, prune_rate_window (prune_rate_window ts now) now = prune_rate_window ts now) as Hpp.
  { induction ts as [|t ts IH]; [done|]. cbn [prune_rate_window].
    destruct (one_second <? now - t) eqn:E; [done|]. cbn [prune_rate_window]. by rewrite E. }
  unfold health, latch_code. destruct (bool_decide (fault_latch_ i ≠ FaultNone)) eqn:Hl.
  - apply bool_decide_eq_true in Hl.
    cbn -[prune_rate_window rate_of seconds_of]. rewrite !Hpp, (bool_decide_eq_true_2 _ Hl).
    destruct (Z.eqb_spec (last_record_at_ i) 0) as [Hz|Hz];
      cbn -[prune_rate_window rate_of seconds_of]; split_and!; try done; by rewrite Hz.
  - apply bool_decide_eq_false in Hl.
    assert (fault_latch_ i = FaultNone) as Hn by (by destruct (decide (fault_latch_ i = FaultNone))).
    cbn -[prune_rate_window rate_of seconds_of]. rewrite !Hpp, (bool_decide_eq_false_2 _ Hl).
    destruct (Z.eqb_spec (last_record_at_ i) 0) as [Hz|Hz];
      cbn -[prune_rate_window rate_of seconds_of]; split_and!; try done; try (by rewrite Hz);
      by split; [intros ?; destruct (Hs Hn)|].
Qed.

Lemma health_snapshot_witness :
  let s := fst (health 1000000000 faulted_impl) in
  state s = Faulted ∧ fault_code s = FaultTimeout.
Proof.
  pose proof (health_snapshot 1000000000 faulted_impl) as H.
  destruct (health 1000000000 faulted_impl) as [s i']. cbn [fst].
  destruct H as (Hs & Hf & _).
  - right. split; reflexivity.
  - discriminate.
  - split; [apply Hs; discriminate | exact Hf].
Defined.

(** [bias] acts only on a client that is streaming without a fault: it sends
    the bias and start commands in this order and restarts RDT tracking, so that
    the next record is accepted whatever its counter; otherwise it sends nothing
    and throws [NotConnectedError], and a failed send leaves the tracking as it
    was. *)
Theorem bias_streaming_only sent1 sent2 i :
  let '(r, cs, i') := bias sent1 sent2 i in
  let ready := stopping_ i = false ∧ session_started_ i = true ∧ fault_latch_ i = FaultNone ∧
               state (health_ i) = Streaming in
  (¬ ready → r = Throw (NotConnectedError "client is not streaming") ∧ cs = [] ∧ i' = i) ∧
  (ready → sent1 = Ok () → sent2 = Ok () →
     r = Ok () ∧ cs = [SetSoftwareBias; StartRealtime] ∧
     ∀ c, kind (fst (rdt_observe (rdt_sequence_ i') c)) = First) ∧
  (ready → r = sent1 ≫= λ _, sent2) ∧
  (is_ok r = false → i' = i).
Proof.
  assert (stopping_ i || negb (session_started_ i) || faulted i ||
          negb (bool_decide (state (health_ i) = Streaming)) = false ↔
          (stopping_ i = false ∧ session_started_ i = true ∧ fault_latch_ i = FaultNone ∧
           state (health_ i) = Streaming)) as Hr.
  { rewrite !orb_false_iff, !negb_false_iff, bool_decide_eq_true, not_faulted_spec. tauto. }
  unfold bias. case_split.
  - split_and!; [done|..]; try done; intros Hn; by apply Hr in Hn.
  - pose proof (proj1 Hr eq_refl) as Hready. destruct sent1 as [[]|], sent2 as [[]|]; by split_and!.
Qed.
