(* ===== verification/FirstSample.v ===== *)
(** * Waiting for the first sample

    [wait_for_first_sample] called from any number of threads, and the statements of
    [start], [stop] and the worker that it watches (src/core/src/detail/client_impl.cpp),
    at the grain of [data_mutex_]: the wait tests its predicate and blocks under this
    mutex, while [stop] sets its flag and notifies without it.  A [start] whose thread
    cannot be created is seen in the middle here, since the wait does not take
    [lifecycle_mutex_]. *)

From stdpp Require Import list.
From S2P Require Import Prelude Floating Types FaultLatch ClientImpl.

(** ** The sections of [start] *)

(** The members reset under [record_mutex_] and [data_mutex_]. *)
Definition start_data (i : Impl) : Impl :=
  i <| last_delivery_at_ := 0 |>
    <| fault_latch_ ::= latch_reset |>
    <| health_ ::= λ h, h <| state := Connecting |> <| fault_code := FaultNone |>
         <| last_error := "" |> <| receive_rate_hz := d0 |> <| delivery_rate_hz := d0 |> |>
    <| latest_ := None |> <| last_record_at_ := 0 |> <| generation_ ::= incr |>
    <| delivered_generation_ := 0 |> <| receive_times_ := [] |> <| delivery_times_ := [] |>
    <| consecutive_malformed_ := 0 |>.

Definition start_flags (callback : SampleCallback) (i : Impl) : Impl :=
  i <| stopping_ := false |> <| worker_exited_ := false |> <| callback_ := callback |>.

Definition start_created (id : thread_id) (i : Impl) : Impl :=
  i <| worker_ := Some id |> <| active_worker_id_ := Some id |>.

(** The handler of a failed creation: the flags, the members under the two mutexes and
    the latch, and the fault. *)
Definition undo_flags (previous i : Impl) : Impl :=
  i <| stopping_ := stopping_ previous |> <| worker_exited_ := worker_exited_ previous |>
    <| callback_ := callback_ previous |>.

Definition undo_data (previous i : Impl) : Impl :=
  i <| last_delivery_at_ := last_delivery_at_ previous |>
    <| health_ := health_ previous |> <| latest_ := latest_ previous |>
    <| last_record_at_ := last_record_at_ previous |>
    <| generation_ := generation_ previous |>
    <| delivered_generation_ := delivered_generation_ previous |>
    <| receive_times_ := receive_times_ previous |>
    <| delivery_times_ := delivery_times_ previous |>
    <| consecutive_malformed_ := consecutive_malformed_ previous |>
    <| fault_latch_ ::= latch_reset |>.

Definition undo_fault (previous i : Impl) : Impl :=
  let previous_fault := latch_code (fault_latch_ previous) in
  if bool_decide (previous_fault ≠ FaultNone)
  then set_fault previous_fault (last_error (health_ previous)) i else i.

(** One after the other they are [start_fresh]. *)
Lemma start_fresh_sections callback created i :
  start_fresh callback created i =
    match created with
    | Ok id => (Ok (), start_created id (start_flags callback (start_data i)))
    | Throw e => (Throw e, undo_fault i (undo_data i (undo_flags i (start_flags callback (start_data i)))))
    end.
Proof.
  destruct i, created; [reflexivity|]. lazy -[set_fault incr bool_decide latch_code latch_reset]. reflexivity.
Qed.

(** ** State *)

(** The thread inside a section of [lifecycle_mutex_], with what it has saved. *)
Inductive Owner :=
  | Nobody
  | StartData (callback : SampleCallback)
  | StartFlags (callback : SampleCallback) (previous : Impl)
  | StartCreate (previous : Impl)
  | UndoFlags (previous : Impl)
  | UndoData (previous : Impl)
  | UndoFault (previous : Impl)
  | StartNotify
  | StopNotify.

(** The worker: inside [run], between a change and its notification, and in
    [finish_session]. *)
Inductive Running := NoWorker | InRun | Delivered | Faulting | Leaving | Finishing | Ended.

(** A thread in [wait_for_first_sample]: about to lock, testing the predicate and
    blocking with [data_mutex_] held, blocked, woken, past its deadline, returned. *)
Inductive Waiter :=
  | Entering (deadline : Z)
  | Testing (captured deadline : Z)
  | Blocking (captured deadline : Z)
  | Asleep (captured deadline : Z)
  | Woken (captured deadline : Z)
  | Late (captured : Z)
  | Returned (captured : option Z) (answer : bool).

(** [delivered] are the generations in which a delivery was committed. *)
Record Wait := mkWait {
  shared : Impl;
  owner : Owner;
  running : Running;
  waiters : list Waiter;
  delivered : list Z
}.

#[export] Instance eta_Wait : Eta Wait := λ s,
  mkWait (shared s) (owner s) (running s) (waiters s) (delivered s).

Definition wait_init (i : Impl) : Wait := mkWait i Nobody NoWorker [] [].

(** [data_mutex_] is held over a step by the waiters only. *)
Definition has_data (w : Waiter) : bool :=
  match w with Testing _ _ | Blocking _ _ => true | _ => false end.
Definition data_free (s : Wait) : bool := forallb (λ w, negb (has_data w)) (waiters s).

(** [first_sample_cv_.notify_all()]. *)
Definition wake_waiter (w : Waiter) : Waiter :=
  match w with Asleep g d => Woken g d | _ => w end.
Definition notify (s : Wait) : Wait := s <| waiters ::= fmap wake_waiter |>.

(** ** Steps *)

(** One step of a waiter, [now] being the time. *)
Definition waiter_step (now : Z) (free : bool) (i : Impl) (w : Waiter) : option Waiter :=
  match w with
  | Entering d =>
      if free then Some (match wait_capture i with Some g => Testing g d | None => Returned None false end)
      else None
  | Testing g d => Some (if wait_ready g i then Returned (Some g) (wait_answer g i) else Blocking g d)
  | Blocking g d => Some (Asleep g d)
  | Asleep g d => if d <=? now then Some (Late g) else None
  | Woken g d => if free then Some (Testing g d) else None
  | Late g => if free then Some (Returned (Some g) (wait_answer g i)) else None
  | Returned _ _ => None
  end.

(** One step of the owner of [lifecycle_mutex_]; [created] is the answer of
    [create_worker_thread]. *)
Definition owner_step (created : result thread_id) (s : Wait) : option Wait :=
  let locked r := if data_free s then Some r else None in
  match owner s with
  | Nobody => None
  | StartData callback =>
      locked (s <| owner := StartFlags callback (shared s) |> <| shared ::= start_data |>)
  | StartFlags callback previous =>
      Some (s <| owner := StartCreate previous |> <| shared ::= start_flags callback |>)
  | StartCreate previous =>
      Some (match created with
            | Ok id => s <| owner := StartNotify |> <| shared ::= start_created id |> <| running := InRun |>
            | Throw _ => s <| owner := UndoFlags previous |>
            end)
  | UndoFlags previous => Some (s <| owner := UndoData previous |> <| shared ::= undo_flags previous |>)
  | UndoData previous => locked (s <| owner := UndoFault previous |> <| shared ::= undo_data previous |>)
  | UndoFault previous => locked (s <| owner := StartNotify |> <| shared ::= undo_fault previous |>)
  | StartNotify | StopNotify => Some (notify (s <| owner := Nobody |>))
  end.

(** The worker's next notification, or its way out of [run]. *)
Definition running_step (s : Wait) : option Wait :=
  match running s with
  | NoWorker | Ended => None
  | InRun => if stopping_ (shared s) || faulted (shared s) then Some (s <| running := Leaving |>) else None
  | Delivered | Faulting => Some (notify (s <| running := InRun |>))
  | Leaving =>
      if faulted (shared s) || data_free s
      then Some (s <| running := Finishing |> <| shared ::= finish_state |>) else None
  | Finishing => Some (notify (s <| running := Ended |>))
  end.

Definition in_run (r : Running) : bool := match r with InRun => true | _ => false end.
Definition idle (r : Running) : bool := match r with NoWorker | Ended => true | _ => false end.
Definition nobody (o : Owner) : bool := match o with Nobody => true | _ => false end.

(** [WaiterSpurious] is a spurious wakeup; [StopEnd] and [StopEndNotify] are the end of a
    [stop] after its join. *)
Inductive WaitLabel :=
  | WaitCall (deadline : Z)
  | WaiterStep (k : nat) (now : Z)
  | WaiterSpurious (k : nat)
  | StartCall (callback : SampleCallback)
  | StopCall
  | OwnerStep (created : result thread_id)
  | Deliver (s : Sample)
  | Fault (code : FaultCode) (message : string)
  | RunningStep
  | StopEnd
  | StopEndNotify.

Definition wait_step (a : WaitLabel) (s : Wait) : option Wait :=
  match a with
  | WaitCall d => Some (s <| waiters ::= λ ws, ws ++ [Entering d] |>)
  | WaiterStep k now =>
      w ← waiters s !! k; w' ← waiter_step now (data_free s) (shared s) w;
      Some (s <| waiters ::= <[k := w']> |>)
  | WaiterSpurious k => w ← waiters s !! k; Some (s <| waiters ::= <[k := wake_waiter w]> |>)
  | StartCall callback =>
      if nobody (owner s) && idle (running s) then Some (s <| owner := StartData callback |>) else None
  | StopCall =>
      if nobody (owner s) then Some (s <| owner := StopNotify |> <| shared ::= stop_flag |>) else None
  | OwnerStep created => owner_step created s
  | Deliver sample =>
      if in_run (running s) && data_free s
      then Some (s <| running := Delivered |> <| delivered ::= cons (generation_ (shared s)) |>
                   <| shared ::= commit_delivery sample |>)
      else None
  | Fault code message =>
      if in_run (running s) && data_free s && bool_decide (code ≠ FaultNone)
      then Some (s <| running := Faulting |> <| shared ::= set_fault code message |>) else None
  | RunningStep => running_step s
  | StopEnd =>
      if nobody (owner s) && idle (running s) && (faulted (shared s) || data_free s)
      then Some (s <| shared ::= mark_stopped |>) else None
  | StopEndNotify => Some (notify s)
  end.

Inductive wait_execution (i0 : Impl) : Wait → Prop :=
  | wait_started : wait_execution i0 (wait_init i0)
  | wait_next a s s' : wait_execution i0 s → wait_step a s = Some s' → wait_execution i0 s'.

(** ** Invariant *)

(** Somebody will still notify [first_sample_cv_]: the thread in [start] or [stop], or
    the worker, which has something to notify or was told to end. *)
Definition will_notify (s : Wait) : Prop :=
  match owner s with Nobody | StartData _ => False | _ => True end ∨
  match running s with
  | NoWorker | Ended => False
  | InRun => stopping_ (shared s) = true
  | _ => True
  end.

Definition saved (o : Owner) : option Impl :=
  match o with
  | StartFlags _ i | StartCreate i | UndoFlags i | UndoData i | UndoFault i => Some i
  | _ => None
  end.
Definition starting (o : Owner) : bool :=
  match o with Nobody | StartNotify | StopNotify => false | _ => true end.

(** Without a worker nothing is to be waited for. *)
Definition settled (i : Impl) : Prop := stopping_ i = true ∨ faulted i = true ∨ generation_ i = 0.

Definition waiter_inv (s : Wait) (w : Waiter) : Prop :=
  match w with
  | Testing g _ | Woken g _ | Late g => g ≠ 0
  | Blocking g _ =>
      g ≠ 0 ∧ generation_ (shared s) = g ∧ delivered_generation_ (shared s) ≠ g ∧ faulted (shared s) = false ∧
      (stopping_ (shared s) = true →
       (∃ previous, owner s = UndoData previous) ∨
       match running s with InRun | Delivered | Leaving => True | _ => False end)
  | Asleep g _ => g ≠ 0 ∧ (wait_ready g (shared s) = true → will_notify s)
  | Returned (Some g) true => g ∈ delivered s
  | Returned None true => False
  | _ => True
  end.

Record WaitInv (s : Wait) : Prop := {
  wait_waiters k w : waiters s !! k = Some w → waiter_inv s w;
  wait_idle : starting (owner s) = true → idle (running s) = true;
  wait_saved i : saved (owner s) = Some i →
    settled i ∧ (delivered_generation_ i = 0 ∨ delivered_generation_ i ∈ delivered s);
  wait_undo : match owner s with
    | UndoData p => stopping_ (shared s) = stopping_ p
    | UndoFault p => stopping_ (shared s) = stopping_ p ∧ generation_ (shared s) = generation_ p
    | _ => True
    end;
  wait_ended : match running s with
    | Faulting => faulted (shared s) = true
    | Leaving | Finishing => stopping_ (shared s) = true ∨ faulted (shared s) = true
    | _ => True
    end;
  wait_delivered : delivered_generation_ (shared s) = 0 ∨ delivered_generation_ (shared s) ∈ delivered s;
  wait_settled : idle (running s) = true →
    match owner s with Nobody | StartData _ | StartNotify | StopNotify => settled (shared s) | _ => True end
}.

(** *** The members the wait reads *)

Lemma faulted_latch i i' : fault_latch_ i' = fault_latch_ i → faulted i' = faulted i.
Proof. unfold faulted. by intros ->. Qed.

Definition same_wait (i i' : Impl) : Prop :=
  generation_ i' = generation_ i ∧ delivered_generation_ i' = delivered_generation_ i ∧
  stopping_ i' = stopping_ i ∧ faulted i' = faulted i.

Lemma mark_stopped_wait i : same_wait i (mark_stopped i).
Proof. unfold same_wait, mark_stopped. by case_split. Qed.

Lemma set_fault_wait code message i :
  code ≠ FaultNone →
  generation_ (set_fault code message i) = generation_ i ∧
  delivered_generation_ (set_fault code message i) = delivered_generation_ i ∧
  stopping_ (set_fault code message i) = stopping_ i ∧ faulted (set_fault code message i) = true.
Proof.
  intros Hc. destruct (decide (fault_latch_ i = FaultNone)) as [Hl|Hl].
  - rewrite set_fault_first by done. split_and!; try done. by apply faulted_spec.
  - rewrite set_fault_later by done. split_and!; try done. by apply faulted_spec.
Qed.

Lemma undo_fault_wait p i :
  generation_ (undo_fault p i) = generation_ i ∧
  delivered_generation_ (undo_fault p i) = delivered_generation_ i ∧
  stopping_ (undo_fault p i) = stopping_ i ∧ (faulted p = true → faulted (undo_fault p i) = true).
Proof.
  unfold undo_fault. case_bool_decide as Hp.
  - destruct (set_fault_wait (latch_code (fault_latch_ p)) (last_error (health_ p)) i Hp) as (? & ? & ? & ?).
    by split_and!.
  - split_and!; try done. by intros []%faulted_spec.
Qed.

Lemma same_wait_ready g i i' : same_wait i i' → wait_ready g i' = wait_ready g i.
Proof. unfold wait_ready. by intros (-> & -> & -> & ->). Qed.

Lemma wait_ready_spec g i :
  wait_ready g i = false ↔
  generation_ i = g ∧ delivered_generation_ i ≠ g ∧ stopping_ i = false ∧ faulted i = false.
Proof.
  unfold wait_ready. rewrite !orb_false_iff, negb_false_iff, Z.eqb_eq, Z.eqb_neq. tauto.
Qed.

Lemma wait_answer_true g i : wait_answer g i = true ↔ generation_ i = g ∧ delivered_generation_ i = g.
Proof.
  unfold wait_answer. destruct (Z.eqb_spec (generation_ i) g); cbn; rewrite ?Z.eqb_eq; naive_solver.
Qed.

Lemma data_free_spec s : data_free s = true → ∀ k w, waiters s !! k = Some w → has_data w = false.
Proof.
  unfold data_free. rewrite forallb_forall. intros H k w Hw%list_elem_of_lookup_2%list_elem_of_In%H.
  by apply negb_true_iff.
Qed.

(** *** Preservation *)

(** What becomes of the waiters in a step that changes none of them. *)
Lemma waiters_keep s s' :
  (∀ k w, waiters s !! k = Some w → waiter_inv s w) → waiters s' = waiters s →
  (∀ w, waiter_inv s w → match w with Testing _ _ | Blocking _ _ | Asleep _ _ | Returned _ _ => waiter_inv s' w | _ => True end) →
  ∀ k w, waiters s' !! k = Some w → waiter_inv s' w.
Proof. intros H E Hw k w. rewrite E. intros Hk%H. specialize (Hw _ Hk). by destruct w. Qed.

(** A step that takes [data_mutex_]. *)
Lemma waiters_locked s s' :
  (∀ k w, waiters s !! k = Some w → waiter_inv s w) → data_free s = true → waiters s' = waiters s →
  (∀ g, g ∈ delivered s → g ∈ delivered s') → will_notify s' →
  ∀ k w, waiters s' !! k = Some w → waiter_inv s' w.
Proof.
  intros H Hf E Hd Hn k w. rewrite E. intros Hk. specialize (H k w Hk). pose proof (data_free_spec _ Hf _ _ Hk).
  destruct w as [| | |g d| | |[g|] []]; cbn in *; try done; auto. by destruct H.
Qed.

(** A notification. *)
Lemma waiters_notified s s' :
  (∀ k w, waiters s !! k = Some w → waiter_inv s w) → waiters s' = wake_waiter <$> waiters s →
  (∀ g d, waiter_inv s (Blocking g d) → waiter_inv s' (Blocking g d)) → delivered s' = delivered s →
  ∀ k w, waiters s' !! k = Some w → waiter_inv s' w.
Proof.
  intros H E Hb Hd k w. rewrite E. rewrite list_lookup_fmap. intros (w0 & Hk%H & ->)%fmap_Some.
  destruct w0 as [| | |g d| | |[g|] []]; cbn in *; rewrite ?Hd; try done; try tauto. by apply Hb in Hk.
Qed.

Lemma waiter_step_inv now s k w w' :
  WaitInv s → waiters s !! k = Some w → waiter_step now (data_free s) (shared s) w = Some w' → waiter_inv s w'.
Proof.
  intros [Hw Hid _ _ _ Hd _] Hk Hs. specialize (Hw k w Hk). destruct w as [d|g d|g d|g d|g d|g|]; cbn in Hs.
  - case_split_in Hs; [|done]. unfold wait_capture in Hs.
    destruct (Z.eqb_spec (generation_ (shared s)) 0); by injection Hs as <-.
  - injection Hs as <-. destruct (wait_ready g (shared s)) eqn:Hr; cbn.
    + destruct (wait_answer g (shared s)) eqn:Ha; [|done]. apply wait_answer_true in Ha as [_ <-]. by destruct Hd.
    + apply wait_ready_spec in Hr as (? & ? & Hst & ?). split_and!; try done. by rewrite Hst.
  - injection Hs as <-. destruct Hw as (? & Hg & Hdg & Hf & Hst). split; [done|]. intros Hr.
    destruct (stopping_ (shared s)) eqn:E.
    + destruct (Hst eq_refl) as [[p Ho]|Hl]; [left; by rewrite Ho|right]. by destruct (running s).
    + by rewrite (proj2 (wait_ready_spec g (shared s))) in Hr.
  - case_split_in Hs; [|done]. injection Hs as <-. by destruct Hw.
  - case_split_in Hs; [|done]. by injection Hs as <-.
  - case_split_in Hs; [|done]. injection Hs as <-. cbn. destruct (wait_answer g (shared s)) eqn:Ha; [|done].
    apply wait_answer_true in Ha as [_ <-]. by destruct Hd.
  - done.
Qed.

(** A step of the waiters only. *)
Lemma waiters_step_inv s ws :
  WaitInv s → (∀ k w, ws !! k = Some w → waiter_inv s w) → WaitInv (s <| waiters := ws |>).
Proof. intros [] Hw. split; try done. Qed.

(** A waiter that is blocking has left something for the worker to do. *)
Lemma blocking_live s g d :
  WaitInv s → waiter_inv s (Blocking g d) → starting (owner s) = false →
  match running s with InRun | Delivered | Leaving => True | _ => False end.
Proof.
  intros Hi (Hg & Hgen & _ & Hf & Hst) Ho. destruct (stopping_ (shared s)) eqn:E.
  - destruct (Hst eq_refl) as [[p Hp]|]; [by rewrite Hp in Ho|done].
  - pose proof (wait_settled _ Hi) as Hs. pose proof (wait_ended _ Hi) as He. unfold settled in Hs.
    rewrite E, Hf in Hs. rewrite E, Hf in He.
    destruct (running s); try done; try (by destruct He); exfalso; destruct (owner s); try done;
      destruct (Hs eq_refl) as [|[|]]; congruence.
Qed.

(** The cases of a waiter whose invariant is to be shown again. *)
Ltac waiter_cases :=
  intros [|g d|g d|g d|g d|g|[g|] []]; cbn; try done;
  [intros (? & ? & ? & ? & Hst); split_and!; try done|intros [? Hready]; split; [done|]].

Lemma owner_notify_inv s :
  WaitInv s → starting (owner s) = false → WaitInv (notify (s <| owner := Nobody |>)).
Proof.
  intros [Hw Hid Hsv Hun He Hd Hse] Ho. split; [apply (waiters_notified s)|..]; cbn; try done.
  - intros g d (? & ? & ? & ? & Hst). split_and!; try done. intros [[p Hp]|]%Hst; [by rewrite Hp in Ho|by right].
  - intros Hi%Hse. by destruct (owner s).
Qed.

Lemma owner_step_inv created s s' : WaitInv s → owner_step created s = Some s' → WaitInv s'.
Proof.
  intros Hinv Hs. pose proof Hinv as [Hw Hid Hsv Hun He Hd Hse]. unfold owner_step in Hs.
  destruct (owner s) as [|cb|cb p|p|p|p|p| |] eqn:Ho; try done; try (case_split_in Hs; [|done]).
  - injection Hs as <-. specialize (Hid eq_refl).
    split; [apply (waiters_locked s); try done; by left|..]; cbn; try done.
    + intros i [= <-]. split; [by apply Hse|done].
    + by destruct (running s).
    + by left.
  - injection Hs as <-. specialize (Hid eq_refl).
    split; [apply (waiters_keep s); try done; waiter_cases; by left|..]; cbn; try done. by destruct (running s).
  - specialize (Hid eq_refl). destruct created as [id|e]; injection Hs as <-.
    + split; [apply (waiters_keep s); try done; waiter_cases; [by right|by left]|..]; cbn; try done.
    + split; [apply (waiters_keep s); try done; waiter_cases; [|by left]|..]; cbn; try done.
      rewrite Ho in Hst. intros [[? ?]|]%Hst; [done|by right].
  - injection Hs as <-. specialize (Hid eq_refl).
    split; [apply (waiters_keep s); try done; waiter_cases; left; [by eexists|done]|..]; cbn; try done.
    by destruct (running s).
  - injection Hs as <-. specialize (Hid eq_refl).
    split; [apply (waiters_locked s); try done; by left|..]; cbn; try done.
    + by destruct (running s).
    + by apply Hsv.
  - injection Hs as <-. specialize (Hid eq_refl).
    destruct (undo_fault_wait p (shared s)) as (H1 & H2 & H3 & H4).
    split; [apply (waiters_locked s); try done; by left|..]; cbn; try done; rewrite ?H1, ?H2, ?H3; try done.
    + by destruct (running s).
    + intros _. unfold settled. rewrite H1, H3. destruct Hun as [-> ->].
      destruct (Hsv p eq_refl) as [[?|[?|?]] _]; auto.
  - injection Hs as <-. apply owner_notify_inv; [done|]. by rewrite Ho.
  - injection Hs as <-. apply owner_notify_inv; [done|]. by rewrite Ho.
Qed.

Lemma running_step_inv s s' : WaitInv s → running_step s = Some s' → WaitInv s'.
Proof.
  intros Hinv Hs. pose proof Hinv as [Hw Hid Hsv Hun He Hd Hse].
  pose proof (λ g d, blocking_live s g d Hinv) as Hb. unfold running_step in Hs.
  destruct (running s) eqn:Hr; try done; try (case_split_in Hs; [|done]);
    assert (starting (owner s) = false) as Ho by (destruct (starting (owner s)); [by specialize (Hid eq_refl)|done]);
    injection Hs as <-.
  - split; [apply (waiters_keep s); try done; waiter_cases; by right|..]; cbn; try done; try congruence.
    by apply orb_prop.
  - split; [apply (waiters_notified s)|..]; cbn; try done; try congruence.
    intros g d (? & ? & ? & ? & ?). split_and!; try done. intros _. by right.
  - split; [apply (waiters_notified s)|..]; cbn; try done; try congruence.
    intros g d (? & ? & ? & ? & ?). congruence.
  - destruct (mark_stopped_wait (shared s)) as (H1 & H2 & H3 & H4).
    assert (∀ k g d, waiters s !! k ≠ Some (Blocking g d)) as Hnb.
    { intros k g d Hk. pose proof (Hw _ _ Hk) as (_ & _ & _ & Hf & _). rewrite Hf in Heqb.
      by pose proof (data_free_spec _ Heqb _ _ Hk). }
    split; cbn; unfold finish_state; rewrite ?H1, ?H2, ?H3, ?H4; try done; try congruence.
    intros k w Hk. specialize (Hw k w Hk). destruct w as [|g d|g d|g d|g d|g|[g|] []]; cbn in *; try done.
    + by destruct (Hnb k g d).
    + destruct Hw as [? _]. split; [done|]. intros _. by right.
  - split; [apply (waiters_notified s)|..]; cbn; try done; try congruence.
    + intros g d Hbl. by specialize (Hb g d Hbl Ho).
    + intros _. unfold settled. destruct (owner s); try done; tauto.
Qed.

Lemma same_wait_inv s i : WaitInv s → same_wait (shared s) i → WaitInv (s <| shared := i |>).
Proof.
  intros [Hw Hid Hsv Hun He Hd Hse] Hi. pose proof Hi as (H1 & H2 & H3 & H4).
  split; cbn; unfold settled in *; rewrite ?H1, ?H2, ?H3, ?H4; try done.
  intros k w Hk. specialize (Hw k w Hk). destruct w as [|g d|g d|g d|g d|g|[g|] []]; cbn in *; try done.
  - by rewrite H1, H2, H3, H4.
  - rewrite (same_wait_ready _ _ _ Hi). unfold will_notify in *. cbn. by rewrite H3.
Qed.

Lemma wait_step_inv a s s' : WaitInv s → wait_step a s = Some s' → WaitInv s'.
Proof.
  intros Hinv. pose proof Hinv as [Hw Hid Hsv Hun He Hd Hse].
  assert (∀ k w, waiter_inv s w → ∀ k' w', <[k := w]> (waiters s) !! k' = Some w' → waiter_inv s w') as Hins.
  { intros k w Hk k' w' [(_ & <- & _)|(_ & ?)]%list_lookup_insert_Some; [done|by eapply Hw]. }
  destruct a as [d|k now|k|cb| |created|sample|code message| | |]; cbn [wait_step].
  - intros [= <-]. apply (waiters_step_inv s (waiters s ++ [Entering d])); [done|].
    intros k w [Hk|[_ Hk]]%lookup_app_Some; [by eapply Hw|]. by apply list_lookup_singleton_Some in Hk as [_ <-].
  - intros (w & Hk & (w' & Hs & [= <-])%bind_Some)%bind_Some. apply (waiters_step_inv s); [done|].
    apply Hins. by eapply waiter_step_inv.
  - intros (w & Hk & [= <-])%bind_Some. apply (waiters_step_inv s); [done|]. apply Hins.
    specialize (Hw _ _ Hk). destruct w; try done. by destruct Hw.
  - case_split; [|done]. intros [= <-]. apply andb_prop in Heqb as [Ho Hr].
    destruct (owner s) eqn:Eo; try done.
    split; [apply (waiters_keep s); try done; waiter_cases|..]; cbn; try done.
    + rewrite Eo in Hst. intros [[? ?]|]%Hst; [done|by right].
    + intros [Hn|Hn]%Hready; [by rewrite Eo in Hn|by right].
  - case_split; [|done]. intros [= <-]. destruct (owner s) eqn:Eo; try done.
    split; [apply (waiters_keep s); try done; intros w Hi; destruct w as [|g d|g d|g d|g d|g|[g|] []] eqn:Ew; try done|..];
      cbn; try done.
    + destruct Hi as (? & ? & ? & ? & Hst). split_and!; try done. intros _. right.
      apply (blocking_live s g d Hinv); [by split_and!|by rewrite Eo].
    + destruct Hi as [? _]. split; [done|]. intros _. by left.
    + destruct (running s); tauto.
    + intros _. by left.
  - by apply owner_step_inv.
  - case_split; [|done]. intros [= <-]. apply andb_prop in Heqb as [Hr Hf].
    destruct (running s) eqn:Er; try done.
    split; [apply (waiters_locked s); try done; [intros g ?; by right|by right]|..]; cbn; try done.
    + intros i Hi. destruct (Hsv i Hi) as [? [?|?]]; split; auto. right. by right.
    + right. by left.
  - case_split; [|done]. intros [= <-]. apply andb_prop in Heqb as [[Hr Hf]%andb_prop Hc]. bools.
    destruct (running s) eqn:Er; try done.
    destruct (set_fault_wait code message (shared s) Hc) as (H1 & H2 & H3 & H4).
    split; [apply (waiters_locked s); try done; by right|..]; cbn; rewrite ?H1, ?H2, ?H3, ?H4; try done.
  - by apply running_step_inv.
  - case_split; [|done]. intros [= <-]. apply same_wait_inv; [done|]. apply mark_stopped_wait.
  - intros [= <-]. split; [apply (waiters_notified s)|..]; cbn; try done.
Qed.

Lemma wait_execution_inv `{P : Platform} clock config i0 s : construct clock config = Ok i0 → wait_execution i0 s → WaitInv s.
Proof.
  intros Hc. induction 1 as [|a s s' _ IH Hs]; [|by eapply wait_step_inv].
  revert Hc. unfold construct. intros (u & _ & [= <-])%bind_ok. split; try done.
  - by left.
  - intros _. by right; right.
Qed.

(** ** A blocked wait is woken *)

(** The steps of the owner, the worker and the waiters that hold [data_mutex_]. *)
Definition towards (s : Wait) (a : WaitLabel) : bool :=
  match a with
  | OwnerStep _ | RunningStep => true
  | WaiterStep k _ => match waiters s !! k with Some w => has_data w | None => false end
  | _ => false
  end.

Inductive wakes (k : nat) : Wait → Prop :=
  | woken s g d : waiters s !! k = Some (Woken g d) → wakes k s
  | wakes_step a s s' : towards s a = true → wait_step a s = Some s' → wakes k s' → wakes k s.

Definition owner_rank (o : Owner) : nat :=
  match o with
  | StartFlags _ _ => 6 | StartCreate _ => 5 | UndoFlags _ => 4 | UndoData _ => 3 | UndoFault _ => 2
  | StartNotify | StopNotify => 1
  | Nobody | StartData _ => 0
  end%nat.
Definition running_rank (r : Running) : nat :=
  match r with InRun => 3 | Leaving => 2 | Finishing | Delivered | Faulting => 1 | _ => 0 end%nat.
Definition holder_rank (w : Waiter) : nat := match w with Testing _ _ => 2 | Blocking _ _ => 1 | _ => 0 end%nat.

(** What is ahead of the next notification. *)
Definition wake_rank (s : Wait) : nat :=
  (match owner_rank (owner s) with O => running_rank (running s) | r => r end +
   sum_list_with holder_rank (waiters s))%nat.

Lemma sum_ranks (l : list Waiter) k w w' :
  l !! k = Some w → (holder_rank w' < holder_rank w)%nat →
  (sum_list_with holder_rank (<[k := w']> l) < sum_list_with holder_rank l)%nat.
Proof.
  revert k. induction l as [|x l IH]; intros [|k] Hk Hw; cbn in *; try done.
  - injection Hk as ->. lia.
  - specialize (IH k Hk Hw). unfold insert in *. lia.
Qed.

(** While [data_mutex_] is held by a waiter, this waiter moves on. *)
Lemma holder_moves s k g d :
  data_free s = false → will_notify s → waiters s !! k = Some (Asleep g d) →
  ∃ a s', towards s a = true ∧ wait_step a s = Some s' ∧ will_notify s' ∧
    waiters s' !! k = Some (Asleep g d) ∧ (wake_rank s' < wake_rank s)%nat.
Proof.
  intros Hf Hn Hk.
  assert (∃ j w, waiters s !! j = Some w ∧ has_data w = true) as (j & w & Hj & Hw).
  { apply not_true_iff_false in Hf. unfold data_free in Hf. destruct (existsb has_data (waiters s)) eqn:E.
    - apply existsb_exists in E as (w & Hin & ?). apply list_elem_of_In, list_elem_of_lookup in Hin as [j ?]. eauto.
    - exfalso. apply Hf, forallb_forall. intros w Hin. apply negb_true_iff, not_true_iff_false. intros Hw.
      apply not_true_iff_false in E. apply E, existsb_exists. eauto. }
  assert (∃ w', waiter_step 0 (data_free s) (shared s) w = Some w' ∧ (holder_rank w' < holder_rank w)%nat) as
    (w' & Hs & Hr).
  { destruct w; try done; cbn; eexists; (split; [done|]); [case_split|]; cbn; lia. }
  exists (WaiterStep j 0), (s <| waiters ::= <[j := w']> |>). cbn. rewrite Hj. cbn. rewrite Hs. split_and!; try done.
  - rewrite list_lookup_insert_ne; [done|]. intros ->. rewrite Hk in Hj. by injection Hj as <-.
  - unfold wake_rank. cbn. pose proof (sum_ranks _ _ _ _ Hj Hr). lia.
Qed.

(** Otherwise the thread that is to notify goes on, or notifies. *)
Lemma notifier_moves s k g d :
  data_free s = true → will_notify s → waiters s !! k = Some (Asleep g d) →
  ∃ a s', towards s a = true ∧ wait_step a s = Some s' ∧
    (waiters s' !! k = Some (Woken g d) ∨
     will_notify s' ∧ waiters s' !! k = Some (Asleep g d) ∧ (wake_rank s' < wake_rank s)%nat).
Proof.
  intros Hf Hn Hk.
  assert ((wake_waiter <$> waiters s) !! k = Some (Woken g d)) as Hwake by (by rewrite list_lookup_fmap, Hk).
  destruct (owner_rank (owner s)) as [|r] eqn:Ho.
  - destruct Hn as [Hn|Hn]; [by destruct (owner s)|]. exists RunningStep. cbn [wait_step]. unfold running_step.
    rewrite Hf, orb_true_r. destruct (running s) eqn:Hr; try done; rewrite ?Hn; cbn; eexists;
      (split; [done|]; split; [done|]); first [by left|right]; (split_and!; [by right|done|]);
      unfold wake_rank; cbn; rewrite Hr, Ho; cbn; lia.
  - exists (OwnerStep (Throw (RuntimeError ""))). cbn [wait_step]. unfold owner_step. rewrite Hf.
    unfold wake_rank. rewrite Ho.
    destruct (owner s) eqn:Eo; try done; cbn in Ho |- *; injection Ho as <-; eexists;
      (split; [done|]; split; [done|]); first [by left|right]; (split_and!; [by left|done|]); cbn; lia.
Qed.

Lemma asleep_wakes s k g d : will_notify s → waiters s !! k = Some (Asleep g d) → wakes k s.
Proof.
  remember (wake_rank s) as n eqn:Hn. revert s Hn. induction n as [n IH] using lt_wf_ind. intros s -> Hnot Hk.
  destruct (data_free s) eqn:Hf.
  - destruct (notifier_moves _ _ _ _ Hf Hnot Hk) as (a & s' & Ha & Hs & [Hw|(? & ? & ?)]).
    + eapply wakes_step; [done..|]. by eapply woken.
    + eapply wakes_step; [done..|]. by eapply (IH (wake_rank s')).
  - destruct (holder_moves _ _ _ _ Hf Hnot Hk) as (a & s' & Ha & Hs & ? & ? & ?).
    eapply wakes_step; [done..|]. by eapply (IH (wake_rank s')).
Qed.

(** C11: waiting for the first sample, from any number of threads and however these
    interleave with [start] (its failures included), [stop] and the worker.  A call
    answers true only when the worker has committed a delivery in the generation the
    call captured, and false before its deadline only when the client was never
    started, was started again, is stopped or has a fault.  No wakeup is lost for
    good: whenever a call is blocked although it need not wait any longer, steps of the
    thread in [start] or [stop], of the worker, and of calls that hold [data_mutex_]
    lead to its wakeup, without any new call, delivery or timeout. *)
Theorem first_sample_wait `{P : Platform} clock config i0 s k :
  construct clock config = Ok i0 → wait_execution i0 s →
  (∀ captured, waiters s !! k = Some (Returned captured true) → ∃ g, captured = Some g ∧ g ∈ delivered s) ∧
  (∀ now s' w captured, waiters s !! k = Some w → (∀ g, w ≠ Late g) →
     wait_step (WaiterStep k now) s = Some s' → waiters s' !! k = Some (Returned captured false) →
     match captured with
     | None => generation_ (shared s) = 0
     | Some g => generation_ (shared s) ≠ g ∨ stopping_ (shared s) = true ∨ faulted (shared s) = true
     end) ∧
  (∀ g d, waiters s !! k = Some (Asleep g d) → wait_ready g (shared s) = true → wakes k s).
Proof.
  intros Hc Hx. pose proof (wait_execution_inv _ _ _ _ Hc Hx) as Hi. split_and!.
  - intros captured Hk. apply (wait_waiters _ Hi) in Hk. destruct captured as [g|]; [by exists g|done].
  - intros now s' w captured Hk Hl Hs Hk'. cbn [wait_step] in Hs. rewrite Hk in Hs. cbn in Hs.
    apply bind_Some in Hs as (w' & Hs & [= <-]). cbn in Hk'.
    rewrite list_lookup_insert_eq in Hk' by (by eapply lookup_lt_Some). injection Hk' as ->.
    destruct w; cbn in Hs; try done; try (by destruct (Hl captured0)); case_split_in Hs; try done.
    + unfold wait_capture in Hs. destruct (Z.eqb_spec (generation_ (shared s)) 0); [|done]. by injection Hs as <-.
    + apply (inj Some) in Hs. injection Hs as <- Ha.
      unfold wait_ready in Heqb. unfold wait_answer in Ha.
      destruct (Z.eqb_spec (generation_ (shared s)) captured0); [|by left]. cbn in Heqb, Ha. rewrite Ha in Heqb.
      right. by apply orb_prop in Heqb.
  - intros g d Hk Hr. eapply asleep_wakes; [|done]. apply (wait_waiters _ Hi) in Hk. by apply Hk.
Qed.

(** ** Concrete runs *)

Fixpoint wait_run (l : list WaitLabel) (s : Wait) : option Wait :=
  match l with [] => Some s | a :: l => s ← wait_step a s; wait_run l s end.

Lemma wait_run_execution i0 l s s' : wait_execution i0 s → wait_run l s = Some s' → wait_execution i0 s'.
Proof.
  revert s. induction l as [|a l IH]; cbn [wait_run]; intros s Hs.
  - by intros [= <-].
  - intros (s1 & Ha & H)%bind_Some. eapply IH; [|done]. by eapply wait_next.
Qed.

Definition waiting_impl : Impl := Eval vm_compute in
  match construct (H := linux_x86_64) (λ _, 0) default_config with
  | Ok i => i
  | Throw _ => mkImpl default_config None None false None false Sequence.rdt_tracker_init Sequence.ft_tracker_init
                 0 false true FaultNone default_health None 0 0 0 [] [] 0
  end.
Lemma waiting_constructed : construct (H := linux_x86_64) (λ _, 0) default_config = Ok waiting_impl.
Proof. vm_compute. reflexivity. Qed.

Definition start_labels : list WaitLabel := StartCall None :: replicate 4 (OwnerStep (Ok 1%nat)).
Definition first_sample : Sample := mkSample 1 1 0 [] [] [] Newton NewtonMeter 1 500.

(** A call that blocks, and is woken by a delivery. *)
Definition answered_labels : list WaitLabel :=
  start_labels ++ WaitCall 1000 :: replicate 3 (WaiterStep 0 10) ++
  [Deliver first_sample; RunningStep; WaiterStep 0 600; WaiterStep 0 600].
Definition answered_wait : Wait := Eval vm_compute in
  default (wait_init waiting_impl) (wait_run answered_labels (wait_init waiting_impl)).
Lemma answered_evaluated : wait_run answered_labels (wait_init waiting_impl) = Some answered_wait.
Proof. vm_compute. reflexivity. Qed.

(** A [stop] whose notification comes between the test and the block. *)
Definition missed_notification_labels : list WaitLabel :=
  start_labels ++ WaitCall 1000 :: replicate 2 (WaiterStep 0 10) ++
  [StopCall; OwnerStep (Ok 1%nat); WaiterStep 0 10].
Definition missed_notification : Wait := Eval vm_compute in
  default (wait_init waiting_impl) (wait_run missed_notification_labels (wait_init waiting_impl)).
Lemma missed_notification_evaluated :
  wait_run missed_notification_labels (wait_init waiting_impl) = Some missed_notification.
Proof. vm_compute. reflexivity. Qed.

Lemma first_sample_wait_witness :
  waiters answered_wait = [Returned (Some 1) true] ∧ (∃ g, Some 1 = Some g ∧ g ∈ delivered answered_wait) ∧
  waiters missed_notification = [Asleep 1 1000] ∧ stopping_ (shared missed_notification) = true ∧
  owner missed_notification = Nobody ∧ wakes 0 missed_notification.
Proof.
  split; [reflexivity|]. split.
  { destruct (first_sample_wait (P := linux_x86_64) _ _ _ answered_wait 0 waiting_constructed
      (wait_run_execution _ _ _ _ (wait_started _) answered_evaluated)) as (H & _).
    exact (H (Some 1) eq_refl). }
  split; [reflexivity|]. split; [reflexivity|]. split; [reflexivity|].
  destruct (first_sample_wait (P := linux_x86_64) _ _ _ missed_notification 0 waiting_constructed
    (wait_run_execution _ _ _ _ (wait_started _) missed_notification_evaluated)) as (_ & _ & H).
  exact (H 1 1000 eq_refl eq_refl).
Defined.
