(* ===== verification/ClientInterface.v ===== *)
(** * The client as its users see it

    The operations of [netft::Client] that the adapters call, as a type class with
    its laws; [ClientImpl.Impl] is an instance. *)

From S2P Require Import Prelude Types FaultLatch ClientImpl.

Class DriverClient (C : Type) := {
  client_faulted : C → bool;
  client_fault_code : C → FaultCode;
  client_health : Z → C → HealthSnapshot * C;
  client_bias : result unit → result unit → C → result unit * C
}.

Class DriverClientLaws (C : Type) `{DriverClient C} := {
  client_faulted_code c : client_faulted c = true ↔ client_fault_code c ≠ FaultNone;
  client_health_fault now c : fault_code (fst (client_health now c)) = client_fault_code c;
  client_health_state now c :
    client_faulted c = true → state (fst (client_health now c)) = Faulted
}.

#[export] Instance impl_driver_client : DriverClient Impl := {
  client_faulted := faulted;
  client_fault_code i := latch_code (fault_latch_ i);
  client_health := health;
  client_bias sent1 sent2 i := let '(r, _, i) := bias sent1 sent2 i in (r, i)
}.

#[export] Instance impl_driver_client_laws : DriverClientLaws Impl.
Proof.
  constructor.
  - intros c. cbn. unfold faulted, latch_faulted, latch_code.
    by rewrite negb_true_iff, bool_decide_eq_false.
  - intros now c. cbn. unfold health. cbn. repeat case_split; done.
  - intros now c. cbn. unfold health, faulted, latch_faulted, latch_code. cbn.
    intros H%negb_true_iff%bool_decide_eq_false. rewrite bool_decide_eq_true_2 by done.
    by repeat case_split.
Qed.
