(* ===== verification/Lifecycle.v ===== *)
(** * Starting and stopping from many threads

    The lifecycle protocol of [client_impl.cpp]: [start] and [stop] called by any
    number of threads, the receiver's own callback included, the joining of a
    worker and the end of a worker ([finish_session]).

    The critical sections of [lifecycle_mutex_] are single steps, except where
    [start] waits for the exit of a faulted worker: [worker_exited_] is set and
    [lifecycle_cv_] notified without the mutex, so the evaluation of the predicate
    and the block are steps of their own, with the mutex held.  Worker threads
    and callers are numbered in the order of their creation. *)

From S2P Require Import Prelude Floating Types FaultLatch ClientImpl.

(** Phases of a worker thread: inside [run], after [worker_exited_ = true], and
    ended (so that [join] returns). *)
Inductive Phase := WRun | WExited | WDone.

(** Where a caller is; [self] is the worker whose callback makes the call, and
    blocked callers are on [lifecycle_cv_]. *)
Inductive Pc :=
  | PStart (self : option nat)                  (* wants the mutex *)
  | PStartBlockedJoin (self : option nat)       (* waits for [!joining_] *)
  | PStartWokenJoin (self : option nat)
  | PStartExit (self : option nat)              (* holds the mutex, evaluates the predicate *)
  | PStartBlock (self : option nat)             (* holds the mutex, about to block *)
  | PStartBlockedExit (self : option nat)
  | PStartWokenExit (self : option nat)
  | PStartJoin (self : option nat) (w : nat)    (* in [reaped_worker.join()] *)
  | PStartJoined (self : option nat)            (* wants the mutex *)
  | PStartNotify (self : option nat)
  | PStop (self : option nat)
  | PStopFlagged (self : option nat)            (* holds the mutex, [stopping_] is set *)
  | PStopBlocked (self : option nat)
  | PStopWoken (self : option nat)
  | PStopJoin (self : option nat) (w : nat)
  | PStopJoined (self : option nat)
  | PStopNotify (self : option nat)
  | PDone.

#[export] Instance Phase_eq_dec : EqDecision Phase.
Proof. solve_decision. Defined.
#[export] Instance Pc_eq_dec : EqDecision Pc.
Proof. solve_decision. Defined.

Record Life := mkLife {
  stopping : bool;
  exited : bool;                (* worker_exited_ *)
  l_faulted : bool;
  joining : bool;
  joinable : option nat;        (* worker_ *)
  active : option nat;          (* active_worker_id_ *)
  workers : list Phase;
  callers : list Pc
}.

#[export] Instance eta_Life : Eta Life := λ l,
  mkLife (stopping l) (exited l) (l_faulted l) (joining l) (joinable l) (active l) (workers l) (callers l).

Definition life_init : Life := mkLife false true false false None None [] [].

Inductive Ev :=
  | EvStarted (w : nat)
  | EvCreateFailed
  | EvAlready (self : option nat)
  | EvStopped (self : option nat)
  | EvExit (w : nat).

(** The mutex is held by a caller between its predicate and its block, and between
    [stopping_ = true] and the rest of the section of [stop]. *)
Definition holds (pc : Pc) : bool :=
  match pc with PStartExit _ | PStartBlock _ | PStopFlagged _ => true | _ => false end.
Definition mutex_free (l : Life) : bool := forallb (λ pc, negb (holds pc)) (callers l).

(** [lifecycle_cv_.notify_all()]. *)
Definition wake (pc : Pc) : Pc :=
  match pc with
  | PStartBlockedJoin s => PStartWokenJoin s
  | PStartBlockedExit s => PStartWokenExit s
  | PStopBlocked s => PStopWoken s
  | _ => pc
  end.
Definition notify_all (l : Life) : Life := l <| callers ::= fmap wake |>.

Definition is_self (self : option nat) (l : Life) : bool :=
  match self with Some w => negb (exited l) && bool_decide (active l = Some w) | None => false end.

(** [worker_exited_ || !faulted()]. *)
Definition exit_predicate (l : Life) : bool := exited l || negb (l_faulted l).

(** [start] behind [!joining_]; [created] is the outcome of
    [create_worker_thread]. *)
Definition start_body (created : bool) (self : option nat) (l : Life) : Pc * Life * list Ev :=
  match joinable l with
  | Some w =>
      if negb (exited l) then
        if negb (l_faulted l) then (PDone, l, [EvAlready self]) else (PStartExit self, l, [])
      else (PStartJoin self w, l <| joining := true |> <| joinable := None |>, [])
  | None =>
      if created then
        let w := length (workers l) in
        (PDone,
         notify_all (l <| stopping := false |> <| exited := false |> <| l_faulted := false |>
            <| joinable := Some w |> <| active := Some w |> <| workers ::= λ ws, ws ++ [WRun] |>),
         [EvStarted w])
      else (PDone, notify_all l, [EvCreateFailed])
  end.

Definition start_wait_joined (created : bool) (self : option nat) (l : Life) : Pc * Life * list Ev :=
  if joining l then (PStartBlockedJoin self, l, []) else start_body created self l.

Definition start_enter (created : bool) (self : option nat) (l : Life) : Pc * Life * list Ev :=
  if is_self self l then (PDone, l, [EvAlready self]) else start_wait_joined created self l.

(** One pass of the loop of [stop]: the flag, then the rest of the section. *)
Definition stop_enter (self : option nat) (l : Life) : Pc * Life * list Ev :=
  (PStopFlagged self, notify_all (l <| stopping := true |>), []).

Definition stop_section (self : option nat) (l : Life) : Pc * Life * list Ev :=
  if is_self self l then (PDone, l, [EvStopped self])
  else if joining l then (PStopBlocked self, l, [])
  else match joinable l with
  | None => (PDone, l, [EvStopped self])
  | Some w => (PStopJoin self w, l <| joining := true |> <| joinable := None |>, [])
  end.

(** The section after a join. *)
Definition joined (l : Life) : Life := l <| active := None |> <| joining := false |>.

(** The next step of a caller at [pc]; [None] when it cannot move by itself. *)
Definition caller_step (created : bool) (pc : Pc) (l : Life) : option (Pc * Life * list Ev) :=
  let locked r := if mutex_free l then Some r else None in
  match pc with
  | PStart self => locked (start_enter created self l)
  | PStartWokenJoin self => locked (start_wait_joined created self l)
  | PStartExit self => Some (if exit_predicate l then PStart self else PStartBlock self, l, [])
  | PStartBlock self => Some (PStartBlockedExit self, l, [])
  | PStartWokenExit self =>
      locked (if exit_predicate l then PStart self else PStartBlock self, l, [])
  | PStartJoin self w =>
      if bool_decide (workers l !! w = Some WDone) then Some (PStartJoined self, l, []) else None
  | PStartJoined self => locked (PStartNotify self, joined l, [])
  | PStartNotify self => Some (PStart self, notify_all l, [])
  | PStop self => locked (stop_enter self l)
  | PStopFlagged self => Some (stop_section self l)
  | PStopWoken self =>
      locked (if joining l then (PStopBlocked self, l, []) else (PStop self, l, []))
  | PStopJoin self w =>
      if bool_decide (workers l !! w = Some WDone) then Some (PStopJoined self, l, []) else None
  | PStopJoined self => locked (PStopNotify self, joined l, [EvStopped self])
  | PStopNotify self => Some (PDone, notify_all l, [])
  | PStartBlockedJoin _ | PStartBlockedExit _ | PStopBlocked _ | PDone => None
  end.

Definition pc_self (pc : Pc) : option nat :=
  match pc with
  | PStart s | PStartBlockedJoin s | PStartWokenJoin s | PStartExit s | PStartBlock s
  | PStartBlockedExit s | PStartWokenExit s | PStartJoin s _ | PStartJoined s | PStartNotify s
  | PStop s | PStopFlagged s | PStopBlocked s | PStopWoken s | PStopJoin s _ | PStopJoined s | PStopNotify s => s
  | PDone => None
  end.

(** A worker inside a call of its callback does not move. *)
Definition in_call (w : nat) (l : Life) : bool :=
  existsb (λ pc, bool_decide (pc_self pc = Some w)) (callers l).

(** A worker latches a fault, leaves [run] ([worker_exited_ = true]; only after
    [stop] or a fault, see [Executions.v]), or notifies and ends. *)
Inductive WorkerAct := WFault | WExit | WEnd.

Definition worker_act (a : WorkerAct) (w : nat) (l : Life) : option (Life * list Ev) :=
  match a, workers l !! w with
  | WFault, Some WRun => if in_call w l then None else Some (l <| l_faulted := true |>, [])
  | WExit, Some WRun =>
      if in_call w l || negb (stopping l || l_faulted l) then None
      else Some (l <| exited := true |> <| workers ::= <[w := WExited]> |>, [EvExit w])
  | WEnd, Some WExited => Some (notify_all (l <| workers ::= <[w := WDone]> |>), [])
  | _, _ => None
  end.

Inductive Label :=
  | LCall (pc : Pc)
  | LCaller (t : nat) (created : bool)
  | LWorker (a : WorkerAct) (w : nat)
  | LSpurious (t : nat).

(** A new call: of a thread of its own, or of a running worker that is not in a
    call already. *)
Definition call_allowed (pc : Pc) (l : Life) : bool :=
  match pc with
  | PStart None | PStop None => true
  | PStart (Some w) | PStop (Some w) => bool_decide (workers l !! w = Some WRun) && negb (in_call w l)
  | _ => false
  end.

Definition life_step (a : Label) (l : Life) : option (Life * list Ev) :=
  match a with
  | LCall pc => if call_allowed pc l then Some (l <| callers ::= λ cs, cs ++ [pc] |>, []) else None
  | LCaller t created =>
      pc ← callers l !! t;
      '(pc, l, evs) ← caller_step created pc l;
      Some (l <| callers ::= <[t := pc]> |>, evs)
  | LWorker a w => worker_act a w l
  | LSpurious t =>
      pc ← callers l !! t;
      if bool_decide (wake pc ≠ pc) then Some (l <| callers ::= <[t := wake pc]> |>, []) else None
  end.

Inductive life_execution : list Ev → Life → Prop :=
  | life_start : life_execution [] life_init
  | life_next a evs l l' new :
      life_execution evs l → life_step a l = Some (l', new) → life_execution (evs ++ new) l'.

Fixpoint life_run (labels : list Label) (l : Life) : option (Life * list Ev) :=
  match labels with
  | [] => Some (l, [])
  | a :: labels =>
      '(l, evs) ← life_step a l; '(l, evs') ← life_run labels l; Some (l, evs ++ evs')
  end.

(** Start, a fault, a second start that reaps the worker and starts again, a stop
    of the callback, a stop from outside. *)
Definition restart_schedule : list Label :=
  [LCall (PStart None); LCaller 0 true; LWorker WFault 0; LWorker WExit 0;
   LCall (PStart None); LCaller 1 true; LWorker WEnd 0; LCaller 1 true; LCaller 1 true;
   LCaller 1 true; LCaller 1 true; LCall (PStop (Some 1%nat)); LCaller 2 true; LCaller 2 true;
   LCall (PStop None); LCaller 3 true; LCaller 3 true; LWorker WExit 1; LWorker WEnd 1; LCaller 3 true; LCaller 3 true].

Example restart_run :
  snd <$> life_run restart_schedule life_init =
  Some [EvStarted 0; EvExit 0; EvStarted 1; EvStopped (Some 1%nat); EvExit 1; EvStopped None].
Proof. vm_compute. reflexivity. Qed.

(** ** The invariant *)

(** A caller that took [worker_], and the worker it still has to join. *)
Definition joins (pc : Pc) : bool :=
  match pc with PStartJoin _ _ | PStartJoined _ | PStopJoin _ _ | PStopJoined _ => true | _ => false end.
Definition held (pc : Pc) : option nat :=
  match pc with PStartJoin _ w | PStopJoin _ w => Some w | _ => None end.
Definition notifies (pc : Pc) : bool :=
  match pc with PStartNotify _ | PStopNotify _ => true | _ => false end.
Definition blocked_join (pc : Pc) : bool :=
  match pc with PStartBlockedJoin _ | PStopBlocked _ => true | _ => false end.

(** Between the failed evaluation of the exit predicate and a notification. *)
Definition exit_wait (pc : Pc) : bool :=
  match pc with PStartBlock _ | PStartBlockedExit _ => true | _ => false end.

Definition flagged (pc : Pc) : bool := match pc with PStopFlagged _ => true | _ => false end.

Definition owned (w : nat) (l : Life) : Prop :=
  joinable l = Some w ∨ ∃ t pc, callers l !! t = Some pc ∧ held pc = Some w.

Record Inv (l : Life) : Prop := {
  inv_joiner : joining l = true ↔ ∃ t pc, callers l !! t = Some pc ∧ joins pc = true;
  inv_unique t t' pc pc' :
    callers l !! t = Some pc → callers l !! t' = Some pc' → joins pc = true → joins pc' = true → t = t';
  inv_joinable : joining l = true → joinable l = None;
  inv_owned w ph : workers l !! w = Some ph → ph ≠ WDone → owned w l;
  inv_active w : owned w l → active l = Some w ∧ length (workers l) = S w;
  inv_running w : workers l !! w = Some WRun → exited l = false;
  inv_exited : exited l = false → ∃ w, workers l !! w = Some WRun;
  inv_self t pc w :
    callers l !! t = Some pc → pc_self pc = Some w →
    (pc = PStart (Some w) ∨ pc = PStop (Some w) ∨ pc = PStopFlagged (Some w)) ∧
    workers l !! w = Some WRun;
  inv_blocked t pc :
    callers l !! t = Some pc → blocked_join pc = true →
    joining l = true ∨ ∃ t' pc', callers l !! t' = Some pc' ∧ notifies pc' = true;
  inv_ends : joining l = true → stopping l = true ∨ exited l = true;
  inv_waits t pc : callers l !! t = Some pc → exit_wait pc = true → l_faulted l = true;
  inv_flagged t pc : callers l !! t = Some pc → flagged pc = true → stopping l = true
}.

Lemma wake_joins pc : joins (wake pc) = joins pc.
Proof. by destruct pc. Qed.
Lemma wake_held pc : held (wake pc) = held pc.
Proof. by destruct pc. Qed.
Lemma wake_self pc : pc_self (wake pc) = pc_self pc.
Proof. by destruct pc. Qed.
Lemma wake_exit pc : exit_wait (wake pc) = true → exit_wait pc = true.
Proof. by destruct pc. Qed.
Lemma wake_flagged pc : flagged (wake pc) = flagged pc.
Proof. by destruct pc. Qed.
Lemma wake_blocked pc : blocked_join (wake pc) = false.
Proof. by destruct pc. Qed.
Lemma held_joins pc w : held pc = Some w → joins pc = true.
Proof. by destruct pc. Qed.

Lemma inv_init : Inv life_init.
Proof.
  split; cbn; try done.
  - split; [done|]. by intros (? & ? & ? & ?).
  - intros w [?|(? & ? & ? & ?)]; done.
Qed.

(** Fields the invariant does not mention. *)
Lemma inv_flags s f l :
  Inv l → (stopping l = true → s = true) → (l_faulted l = true → f = true) →
  Inv (l <| stopping := s |> <| l_faulted := f |>).
Proof.
  intros [] Hs Hf. split; try done; cbn.
  - intros Hj. destruct (inv_ends0 Hj); auto.
  - eauto.
  - eauto.
Qed.

Lemma notify_lookup l t : callers (notify_all l) !! t = wake <$> callers l !! t.
Proof. apply list_lookup_fmap. Qed.

Lemma notify_owned w l : owned w (notify_all l) ↔ owned w l.
Proof.
  unfold owned. cbn [notify_all set_field joinable]. split; (intros [?|(t & pc & Ht & Hh)]; [by left|right]).
  - rewrite notify_lookup in Ht. apply fmap_Some in Ht as (pc0 & Ht & ->).
    exists t, pc0. by rewrite wake_held in Hh.
  - exists t, (wake pc). by rewrite notify_lookup, Ht, wake_held.
Qed.

Lemma inv_notify l : Inv l → Inv (notify_all l).
Proof.
  intros [H1 H2 H3 H4 H5 H6 H7 H8 H9 H10 H11 H12].
  assert (∀ t pc, callers (notify_all l) !! t = Some pc → ∃ pc0, callers l !! t = Some pc0 ∧ pc = wake pc0)
    as Hl by (intros t pc Ht; rewrite notify_lookup in Ht; apply fmap_Some in Ht; naive_solver).
  split; try done.
  - change (joining (notify_all l)) with (joining l). rewrite H1. split.
    + intros (t & pc & Ht & Hj). exists t, (wake pc). by rewrite notify_lookup, Ht, wake_joins.
    + intros (t & pc & (pc0 & Ht & ->)%Hl & Hj). exists t, pc0. by rewrite wake_joins in Hj.
  - intros t t' pc pc' (? & ? & ->)%Hl (? & ? & ->)%Hl. rewrite !wake_joins. by eapply H2.
  - intros w ph Hw Hp. apply notify_owned. by eapply H4.
  - intros w Hw. exact (H5 w (proj1 (notify_owned w l) Hw)).
  - intros t pc w (pc0 & Ht & ->)%Hl Hs. rewrite wake_self in Hs.
    destruct (H8 _ _ _ Ht Hs) as [[-> |[-> | ->]] ?]; auto.
  - intros t pc (pc0 & Ht & ->)%Hl Hb. by rewrite wake_blocked in Hb.
  - intros t pc (pc0 & Ht & ->)%Hl Hb%wake_exit. by eapply H11.
  - intros t pc (pc0 & Ht & ->)%Hl Hb. rewrite wake_flagged in Hb. by eapply H12.
Qed.

(** One caller moves, the shared fields stay. *)
Definition move (t : nat) (pc : Pc) (l : Life) : Life := l <| callers ::= <[t := pc]> |>.

Lemma move_lookup t pc l t' pc' :
  callers (move t pc l) !! t' = Some pc' →
  (t' = t ∧ pc' = pc) ∨ (t' ≠ t ∧ callers l !! t' = Some pc').
Proof.
  unfold move. cbn. intros H. destruct (decide (t' = t)) as [->|Hn].
  - left. split; [done|]. apply list_lookup_insert_Some in H. naive_solver.
  - right. by rewrite list_lookup_insert_ne in H.
Qed.

Lemma move_self t pc0 pc l : callers l !! t = Some pc0 → callers (move t pc l) !! t = Some pc.
Proof. intros H. cbn. apply list_lookup_insert_eq. by eapply lookup_lt_Some. Qed.

Lemma move_other t pc l t' : t' ≠ t → callers (move t pc l) !! t' = callers l !! t'.
Proof. intros H. cbn. by rewrite list_lookup_insert_ne. Qed.

Lemma inv_move t pc pc' l :
  Inv l → callers l !! t = Some pc → joins pc' = joins pc →
  (held pc' = held pc ∨ ∃ w, held pc = Some w ∧ held pc' = None ∧ workers l !! w = Some WDone) →
  (∀ w, pc_self pc' = Some w → flagged pc' = true ∧ pc_self pc = Some w) →
  (blocked_join pc' = true → joining l = true) →
  (notifies pc = true → ∀ t0 pc0, callers l !! t0 = Some pc0 → blocked_join pc0 = false) →
  (exit_wait pc' = true → l_faulted l = true) → (flagged pc' = true → stopping l = true) →
  Inv (move t pc' l).
Proof.
  intros [H1 H2 H3 H4 H5 H6 H7 H8 H9 H10 H11 H12] Ht Hj Hh Hs Hb Hn Hx Hg.
  assert (∀ t0 pc0, callers (move t pc' l) !! t0 = Some pc0 → joins pc0 = true →
            ∃ pc1, callers l !! t0 = Some pc1 ∧ joins pc1 = true) as Hback.
  { intros t0 pc0 [[-> ->]|[_ ?]]%move_lookup Hj0; [exists pc; by rewrite <- Hj|by exists pc0]. }
  split; try done; cbn [move set_field joining workers joinable active exited stopping l_faulted].
  - rewrite H1. split.
    + intros (t0 & pc0 & Ht0 & Hj0). destruct (decide (t0 = t)) as [->|Hne].
      * exists t, pc'. rewrite (move_self t pc) by done. split; [done|]. rewrite Hj. by simplify_eq.
      * exists t0, pc0. by rewrite move_other.
    + intros (t0 & pc0 & Ht0 & Hj0). exists t0. by apply (Hback t0 pc0).
  - intros t1 t2 pc1 pc2 Ht1 Ht2 Hj1 Hj2.
    destruct (Hback _ _ Ht1 Hj1) as (? & ? & ?), (Hback _ _ Ht2 Hj2) as (? & ? & ?). by eapply H2.
  - intros w ph Hw Hp. destruct (H4 w ph Hw Hp) as [?|(t0 & pc0 & Ht0 & Hh0)]; [by left|right].
    destruct (decide (t0 = t)) as [->|Hne].
    + exists t, pc'. rewrite (move_self t pc) by done. split; [done|].
      destruct Hh as [->|(w' & Hw' & _ & Hd)]; by simplify_eq.
    + exists t0, pc0. by rewrite move_other.
  - intros w [?|(t0 & pc0 & Ht0 & Hh0)]; apply H5; [by left|right].
    apply move_lookup in Ht0 as [[-> ->]|[_ ?]]; [|by exists t0, pc0].
    exists t, pc. destruct Hh as [Hh|(? & ? & Hh & _)]; [by rewrite <- Hh|congruence].
  - intros t0 pc0 w [[-> ->]|[_ Ht0]]%move_lookup Hs0; [|by eapply H8].
    destruct (Hs w Hs0) as [Hf Hp]. destruct (H8 _ _ _ Ht Hp) as [_ ?]. split; [|done].
    destruct pc'; try done. cbn in Hs0. subst. auto.
  - intros t0 pc0 Ht0 Hb0. apply move_lookup in Ht0 as [[-> ->]|[Hne Ht0]]; [left; by apply Hb|].
    destruct (H9 t0 pc0 Ht0 Hb0) as [?|(t' & pcn & Ht' & Hn')]; [by left|].
    destruct (decide (t' = t)) as [->|]; [|right; exists t', pcn; by rewrite move_other].
    simplify_eq. by rewrite (Hn Hn' _ _ Ht0) in Hb0.
  - intros t0 pc0 [[-> ->]|[_ Ht0]]%move_lookup Hx0; [by apply Hx|by eapply H11].
  - intros t0 pc0 [[-> ->]|[_ Ht0]]%move_lookup Hg0; [by apply Hg|by eapply H12].
Qed.

(** With nobody joining, the workers that have not ended are [worker_]. *)
Lemma not_joining_owned l w : Inv l → joining l = false → owned w l → joinable l = Some w.
Proof.
  intros [H1 _ _ _ _ _ _ _ _ _ _ _] Hj [?|(t & pc & Ht & Hh%held_joins)]; [done|].
  assert (joining l = true) by (apply H1; by exists t, pc). congruence.
Qed.

Lemma idle_workers l w ph :
  Inv l → joining l = false → joinable l = None → workers l !! w = Some ph → ph = WDone.
Proof.
  intros Hi Hj Hn Hw. destruct (decide (ph = WDone)) as [|Hp]; [done|].
  pose proof (not_joining_owned l w Hi Hj (inv_owned l Hi w ph Hw Hp)). congruence.
Qed.

(** [worker_] is moved into a caller. *)
Lemma inv_take t pc pc' w l :
  Inv l → callers l !! t = Some pc → joins pc = false → notifies pc = false →
  joining l = false → joinable l = Some w →
  joins pc' = true → held pc' = Some w → pc_self pc' = None → blocked_join pc' = false →
  exit_wait pc' = false → (stopping l = true ∨ exited l = true) →
  Inv (move t pc' (l <| joining := true |> <| joinable := None |>)).
Proof.
  intros Hi Ht Hjp Hnp Hj Hw Hj' Hh' Hs' Hb' Hx' He. pose proof Hi as [H1 H2 H3 H4 H5 H6 H7 H8 H9 H10 H11 H12].
  set (l1 := l <| joining := true |> <| joinable := None |>).
  assert (∀ t0 pc0, callers l !! t0 = Some pc0 → joins pc0 = false) as Hnone.
  { intros t0 pc0 Ht0. destruct (joins pc0) eqn:E; [|done].
    assert (joining l = true) by (apply H1; by exists t0, pc0). congruence. }
  assert (callers (move t pc' l1) !! t = Some pc') as Hself by by apply (move_self t pc).
  split; try done.
  - split; [|done]. intros _. by exists t, pc'.
  - intros t1 t2 pc1 pc2 [[-> ->]|[_ Ht1]]%move_lookup [[-> ->]|[_ Ht2]]%move_lookup Hj1 Hj2; [done|..];
      first [by rewrite (Hnone _ _ Ht1) in Hj1|by rewrite (Hnone _ _ Ht2) in Hj2].
  - intros w' ph Hw' Hp. pose proof (not_joining_owned l w' Hi Hj (H4 w' ph Hw' Hp)). simplify_eq.
    right. by exists t, pc'.
  - intros w' [Hw'|(t0 & pc0 & Ht0 & Hh0)]; [done|].
    apply move_lookup in Ht0 as [[-> ->]|[_ Ht0]].
    + simplify_eq. apply H5. by left.
    + apply held_joins in Hh0. by rewrite (Hnone _ _ Ht0) in Hh0.
  - intros t0 pc0 w' [[-> ->]|[_ Ht0]]%move_lookup Hs0; [congruence|by eapply H8].
  - intros. by left.
  - intros t0 pc0 [[-> ->]|[_ Ht0]]%move_lookup Hx0; [congruence|by eapply H11].
  - intros t0 pc0 [[-> ->]|[_ Ht0]]%move_lookup Hg0; [by destruct pc'|by eapply H12].
Qed.

Lemma joiner_done l t pc :
  Inv l → callers l !! t = Some pc → joins pc = true → held pc = None →
  ∀ w ph, workers l !! w = Some ph → ph = WDone.
Proof.
  intros [H1 H2 H3 H4 _ _ _ _ _ _ _ _] Ht Hj Hh w ph Hw.
  destruct (decide (ph = WDone)) as [|Hp]; [done|].
  destruct (H4 w ph Hw Hp) as [Hjw|(t0 & pc0 & Ht0 & Hh0)].
  - rewrite H3 in Hjw; [done|]. apply H1. by exists t, pc.
  - assert (t0 = t) as -> by (eapply H2; [done|done|by eapply held_joins|done]). congruence.
Qed.

(** The section after the join. *)
Lemma inv_release t pc pc' l :
  Inv l → callers l !! t = Some pc → joins pc = true → held pc = None →
  joins pc' = false → notifies pc' = true → pc_self pc' = None →
  Inv (move t pc' (joined l)).
Proof.
  intros Hi Ht Hj Hh Hj' Hn' Hs'. pose proof (joiner_done l t pc Hi Ht Hj Hh) as Hdone.
  pose proof Hi as [H1 H2 H3 H4 H5 H6 H7 H8 H9 H10 H11 H12].
  assert (held pc' = None) as Hh' by (by destruct pc').
  assert (∀ t0 pc0, callers (move t pc' (joined l)) !! t0 = Some pc0 → joins pc0 = false) as Hnone.
  { intros t0 pc0 [[-> ->]|[Hne Ht0]]%move_lookup; [done|]. destruct (joins pc0) eqn:E; [|done].
    destruct Hne. by eapply H2. }
  split; try done.
  - split; [done|]. intros (t0 & pc0 & Ht0 & Hj0). by rewrite (Hnone _ _ Ht0) in Hj0.
  - intros t1 t2 pc1 pc2 Ht1 _ Hj1. by rewrite (Hnone _ _ Ht1) in Hj1.
  - intros w ph Hw Hp. by rewrite (Hdone _ _ Hw) in Hp.
  - intros w [Hw|(t0 & pc0 & Ht0 & Hh0)].
    + change (joinable l = Some w) in Hw. rewrite H3 in Hw; [done|]. apply H1. by exists t, pc.
    + apply held_joins in Hh0. by rewrite (Hnone _ _ Ht0) in Hh0.
  - intros t0 pc0 w [[-> ->]|[_ Ht0]]%move_lookup Hs0; [congruence|].
    destruct (H8 _ _ _ Ht0 Hs0) as [_ Hw]. by apply Hdone in Hw.
  - intros t0 pc0 _ _. right. exists t, pc'. split; [|done]. by apply (move_self t pc).
  - intros t0 pc0 [[-> ->]|[_ Ht0]]%move_lookup Hx0; [by destruct pc'|by eapply H11].
  - intros t0 pc0 [[-> ->]|[_ Ht0]]%move_lookup Hg0; [by destruct pc'|by eapply H12].
Qed.

(** A new worker is created. *)
Definition fresh (l : Life) : Life :=
  l <| stopping := false |> <| exited := false |> <| l_faulted := false |>
    <| joinable := Some (length (workers l)) |> <| active := Some (length (workers l)) |>
    <| workers ::= λ ws, ws ++ [WRun] |>.

Lemma inv_fresh l :
  Inv l → joining l = false → joinable l = None →
  (∀ t pc, callers l !! t = Some pc → exit_wait pc = false ∧ flagged pc = false) → Inv (fresh l).
Proof.
  intros Hi Hj Hn Hx. pose proof (idle_workers l) as Hdone. pose proof Hi as [H1 H2 H3 H4 H5 H6 H7 H8 H9 H10 H11 H12].
  assert (∀ w ph, workers (fresh l) !! w = Some ph → ph ≠ WDone → w = length (workers l)) as Hnew.
  { intros w ph Hw Hp. cbn in Hw. apply lookup_app_Some in Hw as [Hw|[Hl Hw]].
    - by apply Hdone in Hw.
    - apply list_lookup_singleton_Some in Hw as [? _]. lia. }
  assert (∀ t pc, callers l !! t = Some pc → joins pc = false) as Hnone.
  { intros t pc Ht. destruct (joins pc) eqn:E; [|done].
    assert (joining l = true) by (apply H1; by exists t, pc). congruence. }
  split; try done.
  - change (joining (fresh l)) with (joining l). by rewrite Hj.
  - intros w ph Hw Hp. left. by rewrite (Hnew w ph Hw Hp).
  - intros w [Hw|(t & pc & Ht & Hh)].
    + cbn in Hw. injection Hw as <-. split; [done|]. cbn. rewrite length_app. cbn. lia.
    + apply held_joins in Hh. by rewrite (Hnone _ _ Ht) in Hh.
  - intros _. exists (length (workers l)). cbn. by rewrite lookup_app_r, Nat.sub_diag by lia.
  - intros t pc w Ht Hs. destruct (H8 t pc w Ht Hs) as [_ Hw]. by apply Hdone in Hw.
  - change (joining (fresh l)) with (joining l). by rewrite Hj.
  - intros t pc Ht Hw. destruct (Hx t pc Ht). congruence.
  - intros t pc Ht Hw. destruct (Hx t pc Ht). congruence.
Qed.

(** ** Workers and new calls *)

Lemma inv_workers w ph l l' :
  callers l' = callers l → joining l' = joining l → joinable l' = joinable l →
  active l' = active l → workers l' = <[w := ph]> (workers l) →
  stopping l' = stopping l → l_faulted l' = l_faulted l → (exited l = true → exited l' = true) →
  Inv l → (ph = WDone ∨ ∃ ph0, workers l !! w = Some ph0 ∧ ph0 ≠ WDone) →
  (∀ w', workers l' !! w' = Some WRun → exited l' = false) →
  (exited l' = false → ∃ w', workers l' !! w' = Some WRun) →
  in_call w l = false → Inv l'.
Proof.
  intros Ec Ej Ejn Ea Ew Es Ef Hex Hi Hlive H6' H7' Hcall. pose proof Hi as [H1 H2 H3 H4 H5 H6 H7 H8 H9 H10 H11 H12].
  assert (∀ w', owned w' l' ↔ owned w' l) as Ho by (intros w'; unfold owned; by rewrite Ec, Ejn).
  split; rewrite ?Ec, ?Ej, ?Ejn, ?Ea, ?Es, ?Ef; try done.
  - intros w' ph' Hw' Hp'. apply Ho. rewrite Ew in Hw'.
    apply list_lookup_insert_Some in Hw' as [(-> & -> & _)|(Hne & Hw')]; [|by eapply H4].
    destruct Hlive as [?|(ph0 & Hw & Hp0)]; [done|by eapply H4].
  - intros w' Hw'. rewrite Ew, length_insert. exact (H5 w' (proj1 (Ho w') Hw')).
  - intros t pc w' Ht Hs. destruct (H8 t pc w' Ht Hs) as [? Hw']. split; [done|].
    rewrite Ew. rewrite list_lookup_insert_ne; [done|]. intros <-.
    assert (in_call w l = true); [|congruence]. unfold in_call. apply existsb_exists. exists pc. split.
    + apply list_elem_of_In. by eapply list_elem_of_lookup_2.
    + by apply bool_decide_eq_true_2.
  - intros Hj. destruct (H10 Hj); auto.
Qed.

(** There is at most one running worker, the active one. *)
Lemma running_active l w : Inv l → workers l !! w = Some WRun → active l = Some w.
Proof. intros Hi Hw. apply (inv_active l Hi). by eapply (inv_owned l Hi). Qed.

Lemma inv_worker a w l l' evs : Inv l → worker_act a w l = Some (l', evs) → Inv l'.
Proof.
  intros Hi. unfold worker_act. destruct a, (workers l !! w) as [[]|] eqn:Hw; try done.
  - case_split; [done|]. intros [= <- _]. by apply (inv_flags (stopping l) true).
  - destruct (in_call w l) eqn:Hc; [done|]. case_split; [done|]. intros [= <- _].
    apply (inv_workers w WExited l); try done.
    + right. by exists WRun.
    + intros w' Hw'. exfalso. apply list_lookup_insert_Some in Hw' as [(_ & ? & _)|(Hne & Hw')]; [done|].
      apply Hne. pose proof (running_active l w Hi Hw). pose proof (running_active l w' Hi Hw'). congruence.
  - intros [= <- _]. apply inv_notify.
    apply (inv_workers w WDone l); try done; [by left|..].
    + intros w' Hw'. apply list_lookup_insert_Some in Hw' as [(_ & ? & _)|(Hne & Hw')]; [done|].
      by eapply (inv_running l Hi).
    + intros He. destruct (inv_exited l Hi He) as [w' Hw']. exists w'. cbn.
      rewrite list_lookup_insert_ne; [done|]. intros <-. congruence.
    + destruct (in_call w l) eqn:E; [|done]. unfold in_call in E. apply existsb_exists in E as (pc & Hin & Hs).
      apply bool_decide_eq_true in Hs. apply list_elem_of_In, list_elem_of_lookup in Hin as [t Ht].
      destruct (inv_self l Hi t pc w Ht Hs) as [_ ?]. congruence.
Qed.

Lemma inv_call pc l :
  Inv l → call_allowed pc l = true → Inv (l <| callers ::= λ cs, cs ++ [pc] |>).
Proof.
  intros [H1 H2 H3 H4 H5 H6 H7 H8 H9 H10 H11 H12] Hc.
  assert (joins pc = false ∧ held pc = None ∧ blocked_join pc = false ∧
    exit_wait pc = false ∧ flagged pc = false ∧
    ∀ w, pc_self pc = Some w →
      (pc = PStart (Some w) ∨ pc = PStop (Some w) ∨ pc = PStopFlagged (Some w)) ∧ workers l !! w = Some WRun)
    as (Hj & Hh & Hb & Hx & Hg & Hs).
  { destruct pc as [[w|]| | | | | | | | | |[w|]| | | | | | |]; try done; cbn in Hc.
    - apply andb_prop in Hc as [Hw%bool_decide_eq_true _]. split_and!; try done. intros w' [= <-]. auto.
    - apply andb_prop in Hc as [Hw%bool_decide_eq_true _]. split_and!; try done. intros w' [= <-]. auto. }
  set (l' := l <| callers ::= λ cs, cs ++ [pc] |>).
  assert (∀ t pc0, callers l' !! t = Some pc0 → callers l !! t = Some pc0 ∨ pc0 = pc) as Hback.
  { intros t pc0 Ht. cbn in Ht. apply lookup_app_Some in Ht as [?|[_ Ht]]; [by left|right].
    by apply list_lookup_singleton_Some in Ht as [_ ?]. }
  assert (∀ t pc0, callers l !! t = Some pc0 → callers l' !! t = Some pc0) as Hfwd
    by (intros t pc0 Ht; by apply lookup_app_l_Some).
  assert (∀ w, owned w l' → owned w l) as Ho.
  { intros w [?|(t & pc0 & [Ht| ->]%Hback & Hh0)]; [by left|right; by exists t, pc0|congruence]. }
  split; try done.
  - change (joining l') with (joining l). rewrite H1. split; intros (t & pc0 & Ht & Hj0).
    + exists t, pc0. auto.
    + destruct (Hback _ _ Ht) as [?| ->]; [by exists t, pc0|congruence].
  - intros t1 t2 pc1 pc2 [Ht1| ->]%Hback [Ht2| ->]%Hback; try congruence. by eapply H2.
  - intros w ph Hw Hp. destruct (H4 w ph Hw Hp) as [?|(t & pc0 & Ht & Hh0)]; [by left|right].
    exists t, pc0. auto.
  - intros w Hw%Ho. exact (H5 w Hw).
  - intros t pc0 w [Ht| ->]%Hback Hs0; [by eapply H8|by apply Hs].
  - intros t pc0 [Ht| ->]%Hback Hb0; [|congruence].
    destruct (H9 _ _ Ht Hb0) as [?|(t' & pc' & Ht' & Hn)]; [by left|right; exists t', pc'; auto].
  - intros t pc0 [Ht| ->]%Hback Hx0; [by eapply H11|congruence].
  - intros t pc0 [Ht| ->]%Hback Hg0; [by eapply H12|congruence].
Qed.

Lemma inv_spurious t pc l : Inv l → callers l !! t = Some pc → wake pc ≠ pc → Inv (move t (wake pc) l).
Proof.
  intros Hi Ht Hw. apply (inv_move t pc); try done.
  - by rewrite wake_joins.
  - left. by rewrite wake_held.
  - rewrite wake_self. destruct (pc_self pc) as [w|] eqn:Hs; [|done].
    destruct (inv_self l Hi t pc w Ht Hs) as [[-> |[-> | ->]] _]; done.
  - by rewrite wake_blocked.
  - by destruct pc.
  - intros Hx%wake_exit. by eapply inv_waits.
  - rewrite wake_flagged. intros. by eapply inv_flagged.
Qed.

(** ** Callers *)

(** A worker inside its callback is the active one, so its calls end at once. *)
Lemma self_call l t pc w :
  Inv l → callers l !! t = Some pc → pc_self pc = Some w → is_self (Some w) l = true.
Proof.
  intros Hi Ht Hs. destruct (inv_self l Hi t pc w Ht Hs) as [_ Hw].
  unfold is_self. rewrite (inv_running l Hi w Hw), (running_active l w Hi Hw). by apply bool_decide_eq_true_2.
Qed.

Definition resting (pc : Pc) : Prop := joins pc = false ∧ notifies pc = false.
Definition quiet (pc : Pc) : Prop := joins pc = false ∧ held pc = None ∧ pc_self pc = None.

Lemma inv_rest t pc pc' l :
  Inv l → callers l !! t = Some pc → resting pc → quiet pc' →
  (blocked_join pc' = true → joining l = true) → (exit_wait pc' = true → l_faulted l = true) →
  flagged pc' = false → Inv (move t pc' l).
Proof.
  intros Hi Ht [Hj Hn] (Hj' & Hh' & Hs') Hb Hx Hg. apply (inv_move t pc); try done; [congruence| |congruence..].
  left. rewrite Hh'. by destruct pc.
Qed.

Lemma notify_unblocked l t pc : callers (notify_all l) !! t = Some pc → blocked_join pc = false.
Proof. rewrite notify_lookup. intros (pc0 & _ & ->)%fmap_Some. apply wake_blocked. Qed.

(** After a notification with the mutex free nobody waits for the exit or is inside
    the section of [stop]. *)
Lemma notify_no_wait l t pc :
  mutex_free l = true → callers (notify_all l) !! t = Some pc → exit_wait pc = false ∧ flagged pc = false.
Proof.
  intros Hm. rewrite notify_lookup. intros (pc0 & Ht & ->)%fmap_Some.
  unfold mutex_free in Hm. rewrite forallb_forall in Hm.
  assert (negb (holds pc0) = true) as Hh by (apply Hm, list_elem_of_In; by eapply list_elem_of_lookup_2).
  by destruct pc0.
Qed.

(** A caller moves and everybody is notified. *)
Lemma inv_rest_notify t pc pc' l :
  Inv l → callers l !! t = Some pc → joins pc = false → quiet pc' →
  (blocked_join pc' = true → joining l = true) → exit_wait pc' = false →
  (flagged pc' = true → stopping l = true) →
  Inv (move t pc' (notify_all l)).
Proof.
  intros Hi Ht Hj (Hj' & Hh' & Hs') Hb Hx Hg. apply (inv_move t (wake pc)); try done.
  - by apply inv_notify.
  - by rewrite notify_lookup, Ht.
  - by rewrite wake_joins, Hj.
  - left. rewrite Hh', wake_held. by destruct pc.
  - congruence.
  - intros _ t0 pc0. apply notify_unblocked.
  - congruence.
Qed.

Lemma inv_take_quiet t pc pc' w l :
  Inv l → callers l !! t = Some pc → resting pc → joining l = false → joinable l = Some w →
  (∃ self, self = None ∧ (pc' = PStartJoin self w ∨ pc' = PStopJoin self w)) →
  (stopping l = true ∨ exited l = true) →
  Inv (move t pc' (l <| joining := true |> <| joinable := None |>)).
Proof. intros Hi Ht [Hj Hn] Hnj Hw (self & -> & [-> | ->]) He; by eapply inv_take. Qed.

Lemma inv_start_body created t pc l pc' l' evs :
  Inv l → callers l !! t = Some pc → resting pc →
  mutex_free l = true → joining l = false → start_body created None l = (pc', l', evs) →
  Inv (move t pc' l').
Proof.
  intros Hi Ht Hr Hm Hnj. unfold start_body. destruct (joinable l) as [w|] eqn:Hw.
  - destruct (exited l) eqn:He; cbn [negb].
    + intros [= <- <- _]. eapply inv_take_quiet; eauto.
    + destruct (l_faulted l) eqn:Hf; cbn [negb]; intros [= <- <- _]; by eapply inv_rest.
  - case_split; intros [= <- <- _].
    + apply (inv_rest t (wake pc) PDone (fresh (notify_all l))); try done.
      * apply inv_fresh; try done; [by apply inv_notify|]. intros t0 pc0. by apply notify_no_wait.
      * change (callers (fresh (notify_all l))) with (callers (notify_all l)). by rewrite notify_lookup, Ht.
      * destruct Hr. by destruct pc.
    + apply (inv_rest_notify t pc PDone l); try done. apply Hr.
Qed.

Lemma inv_start_wait created t pc l pc' l' evs :
  Inv l → callers l !! t = Some pc → resting pc → mutex_free l = true →
  start_wait_joined created None l = (pc', l', evs) → Inv (move t pc' l').
Proof.
  intros Hi Ht Hr Hm. unfold start_wait_joined. destruct (joining l) eqn:Hj.
  - intros [= <- <- _]. by eapply inv_rest.
  - by eapply inv_start_body.
Qed.

Lemma inv_stop_section t pc l pc' l' evs :
  Inv l → callers l !! t = Some pc → resting pc → stopping l = true →
  stop_section None l = (pc', l', evs) → Inv (move t pc' l').
Proof.
  intros Hi Ht Hr Hst. unfold stop_section. cbn [is_self].
  destruct (joining l) eqn:Hj; [|destruct (joinable l) as [w|] eqn:Hw]; intros [= <- <- _];
    [by eapply inv_rest| |by eapply inv_rest].
  apply (inv_take_quiet t pc _ w l); try done; [eauto|by left].
Qed.

Lemma inv_stop_enter self t pc l :
  Inv l → callers l !! t = Some pc → resting pc → pc_self pc = self →
  Inv (move t (PStopFlagged self) (notify_all (l <| stopping := true |>))).
Proof.
  intros Hi Ht [Hj _] <-. set (l1 := l <| stopping := true |>).
  apply (inv_move t (wake pc)); try done.
  - apply inv_notify. by apply (inv_flags true (l_faulted l)).
  - rewrite notify_lookup. change (callers l1) with (callers l). by rewrite Ht.
  - by rewrite wake_joins, Hj.
  - left. rewrite wake_held. by destruct pc.
  - intros w Hs. by rewrite wake_self.
  - intros _ t0 pc0. apply notify_unblocked.
Qed.

(** What a caller on behalf of a callback does. *)
Lemma inv_self_step created t pc w l pc' l' evs :
  Inv l → callers l !! t = Some pc → pc_self pc = Some w →
  caller_step created pc l = Some (pc', l', evs) → Inv (move t pc' l').
Proof.
  intros Hi Ht Hs. pose proof (self_call l t pc w Hi Ht Hs) as Hself.
  destruct (inv_self l Hi t pc w Ht Hs) as [[-> |[-> | ->]] _]; cbn [caller_step];
    try (case_split; [|done]); intros Heq%(inj Some); revert Heq.
  - unfold start_enter. rewrite Hself. intros [= <- <- _]. by eapply inv_rest.
  - intros [= <- <- _]. by eapply inv_stop_enter.
  - unfold stop_section. rewrite Hself. intros [= <- <- _]. by eapply inv_rest.
Qed.

Lemma inv_caller created t pc l pc' l' evs :
  Inv l → callers l !! t = Some pc → caller_step created pc l = Some (pc', l', evs) →
  Inv (move t pc' l').
Proof.
  intros Hi Ht Hc. destruct (pc_self pc) as [w|] eqn:Hs.
  { by eapply inv_self_step. }
  revert Hc. destruct pc; cbn in Hs; subst; cbn [caller_step]; try done;
    try (case_split; [|done]); intros Heq%(inj Some); revert Heq.
  - by eapply inv_start_wait.
  - by eapply inv_start_wait.
  - intros [= <- <- _]. unfold exit_predicate. destruct (exited l), (l_faulted l) eqn:Hf; by eapply inv_rest.
  - intros [= <- <- _]. pose proof (inv_waits l Hi t _ Ht eq_refl). by eapply inv_rest.
  - intros [= <- <- _]. unfold exit_predicate. destruct (exited l), (l_faulted l) eqn:Hf; by eapply inv_rest.
  - intros [= <- <- _]. apply (inv_move t (PStartJoin None w)); try done. right. exists w.
    by apply bool_decide_eq_true in Heqb.
  - intros [= <- <- _]. by eapply inv_release.
  - intros [= <- <- _]. by eapply inv_rest_notify.
  - intros [= <- <- _]. by eapply inv_stop_enter.
  - eapply inv_stop_section; [done..|]. by apply (inv_flagged l Hi t _ Ht).
  - destruct (joining l) eqn:Hj; intros [= <- <- _]; by eapply inv_rest.
  - intros [= <- <- _]. apply (inv_move t (PStopJoin None w)); try done. right. exists w.
    by apply bool_decide_eq_true in Heqb.
  - intros [= <- <- _]. by eapply inv_release.
  - intros [= <- <- _]. by eapply inv_rest_notify.
Qed.

Lemma inv_step a l l' evs : Inv l → life_step a l = Some (l', evs) → Inv l'.
Proof.
  intros Hi. destruct a as [pc|t created|a w|t]; cbn [life_step].
  - case_split; [|done]. intros [= <- _]. by apply inv_call.
  - intros (pc & Ht & Hs)%bind_Some. apply bind_Some in Hs as ([[pc' l1] evs1] & Hs & [= <- _]).
    change (l1 <| callers ::= <[t := pc']> |>) with (move t pc' l1). by eapply inv_caller.
  - by apply inv_worker.
  - intros (pc & Ht & Hs)%bind_Some. revert Hs. case_split; [|done]. intros [= <- _].
    apply (inv_spurious t pc); try done. by apply bool_decide_eq_true in Heqb.
Qed.

Lemma execution_inv evs l : life_execution evs l → Inv l.
Proof. induction 1; [apply inv_init|by eapply inv_step]. Qed.

Lemma run_execution labels evs l l' new :
  life_execution evs l → life_run labels l = Some (l', new) → life_execution (evs ++ new) l'.
Proof.
  revert evs l new. induction labels as [|a labels IH]; cbn; intros evs l new Hx.
  - intros [= <- <-]. by rewrite app_nil_r.
  - intros ([l1 evs1] & H1 & ([l2 evs2] & H2 & [= <- <-])%bind_Some)%bind_Some.
    rewrite app_assoc. eapply IH; [|done]. by eapply life_next.
Qed.

(** Prefixes of [restart_schedule]. *)
Lemma restart_execution n l evs :
  life_run (take n restart_schedule) life_init = Some (l, evs) → life_execution evs l.
Proof. apply (run_execution (take n restart_schedule) []). constructor. Qed.
