(* ===== verification/LifecycleSpec.v ===== *)
(** * The contract of the lifecycle protocol

    The abstract service that [start] and [stop] implement, the refinement, what a
    return of [stop] guarantees, and which calls can always make progress. *)

From S2P Require Import Prelude Floating Types FaultLatch ClientImpl Lifecycle.

(** ** The abstract service *)

(** The abstract service: workers are numbered, one serves at a time. *)
Inductive Service := Idle (next : nat) | Serving (w : nat) (failed : bool).

Inductive serves : Service → option Ev → Service → Prop :=
  | serve_start w : serves (Idle w) (Some (EvStarted w)) (Serving w false)
  | serve_create_failed n : serves (Idle n) (Some EvCreateFailed) (Idle n)
  | serve_fault w f : serves (Serving w f) None (Serving w true)
  | serve_already w : serves (Serving w false) (Some (EvAlready None)) (Serving w false)
  | serve_already_self w f : serves (Serving w f) (Some (EvAlready (Some w))) (Serving w f)
  | serve_stopped n : serves (Idle n) (Some (EvStopped None)) (Idle n)
  | serve_stopped_self w f : serves (Serving w f) (Some (EvStopped (Some w))) (Serving w f)
  | serve_exit w f : serves (Serving w f) (Some (EvExit w)) (Idle (S w)).

Inductive serves_all : Service → list Ev → Service → Prop :=
  | all_nil s : serves_all s [] s
  | all_next s e s' evs s'' : serves s e s' → serves_all s' evs s'' → serves_all s (option_list e ++ evs) s''.

Definition service (l : Life) : Service :=
  if exited l then Idle (length (workers l)) else Serving (pred (length (workers l))) (l_faulted l).

Lemma serves_one s e s' : serves s e s' → serves_all s (option_list e) s'.
Proof. intros H. rewrite <- (app_nil_r (option_list e)). eapply all_next; [done|constructor]. Qed.

Lemma serves_app s evs s' evs' s'' :
  serves_all s evs s' → serves_all s' evs' s'' → serves_all s (evs ++ evs') s''.
Proof. induction 1; [done|]. intros. rewrite <- app_assoc. eapply all_next; eauto. Qed.

Lemma service_running l w : Inv l → workers l !! w = Some WRun → service l = Serving w (l_faulted l).
Proof.
  intros Hi Hw. unfold service. rewrite (inv_running l Hi w Hw).
  destruct (inv_active l Hi w) as [_ ->]; [by eapply (inv_owned l Hi)|done].
Qed.

Lemma all_done_exited l : Inv l → (∀ w ph, workers l !! w = Some ph → ph = WDone) → exited l = true.
Proof.
  intros Hi Hd. destruct (exited l) eqn:He; [done|]. by destruct (inv_exited l Hi He) as [w ?%Hd].
Qed.

Lemma idle_service l : Inv l → joining l = false → joinable l = None → service l = Idle (length (workers l)).
Proof.
  intros Hi Hj Hn. unfold service. rewrite all_done_exited; try done. intros w ph. by apply idle_workers.
Qed.

Lemma service_stable l l' :
  exited l' = exited l → workers l' = workers l → l_faulted l' = l_faulted l → service l' = service l.
Proof. unfold service. by intros -> -> ->. Qed.

Lemma serves_stable l l' :
  exited l' = exited l → workers l' = workers l → l_faulted l' = l_faulted l →
  serves_all (service l) [] (service l').
Proof. intros. rewrite (service_stable l l') by done. constructor. Qed.

Lemma serves_start_wait created l pc' l' evs :
  Inv l → start_wait_joined created None l = (pc', l', evs) → serves_all (service l) evs (service l').
Proof.
  intros Hi. unfold start_wait_joined, start_body.
  destruct (joining l) eqn:Hj; [intros [= <- <- <-]; constructor|].
  destruct (joinable l) as [w|] eqn:Hw.
  - destruct (exited l) eqn:He; cbn [negb]; [intros [= <- <- <-]|].
    { by apply serves_stable. }
    destruct (inv_exited l Hi He) as [w' Hw']. rewrite (service_running l w' Hi Hw').
    destruct (l_faulted l) eqn:Hf; cbn [negb]; intros [= <- <- <-]; rewrite (service_running l w' Hi Hw'), Hf.
    + constructor.
    + apply (serves_one _ (Some (EvAlready None))). constructor.
  - rewrite (idle_service l) by done.
    destruct created; intros [= <- <- <-].
    + apply (serves_one _ (Some (EvStarted _))). unfold service. cbn. rewrite length_app. cbn.
      rewrite Nat.add_1_r. constructor.
    + rewrite (service_stable l (notify_all l)), idle_service by done.
      apply (serves_one _ (Some EvCreateFailed)). constructor.
Qed.

Lemma serves_stop l pc' l' evs :
  Inv l → stop_section None l = (pc', l', evs) → serves_all (service l) evs (service l').
Proof.
  intros Hi. unfold stop_section. cbn [is_self].
  destruct (joining l) eqn:Hj; [|destruct (joinable l) as [w|] eqn:Hw]; intros [= <- <- <-].
  - constructor.
  - by apply serves_stable.
  - rewrite idle_service by done. apply (serves_one _ (Some (EvStopped None))). constructor.
Qed.

Lemma serves_self_call created t pc w l pc' l' evs :
  Inv l → callers l !! t = Some pc → pc_self pc = Some w →
  caller_step created pc l = Some (pc', l', evs) → serves_all (service l) evs (service l').
Proof.
  intros Hi Ht Hs. pose proof (self_call l t pc w Hi Ht Hs) as Hself.
  destruct (inv_self l Hi t pc w Ht Hs) as [[-> |[-> | ->]] Hw]; cbn [caller_step];
    try (case_split; [|done]); intros Heq%(inj Some); revert Heq.
  - unfold start_enter. rewrite Hself. intros [= <- <- <-]. rewrite (service_running l w Hi Hw).
    apply (serves_one _ (Some (EvAlready (Some w)))). constructor.
  - intros [= <- <- <-]. by apply serves_stable.
  - unfold stop_section. rewrite Hself. intros [= <- <- <-]. rewrite (service_running l w Hi Hw).
    apply (serves_one _ (Some (EvStopped (Some w)))). constructor.
Qed.

Lemma serves_caller created t pc l pc' l' evs :
  Inv l → callers l !! t = Some pc → caller_step created pc l = Some (pc', l', evs) →
  serves_all (service l) evs (service l').
Proof.
  intros Hi Ht Hc. destruct (pc_self pc) as [w|] eqn:Hs; [by eapply serves_self_call|].
  revert Hc. destruct pc; cbn in Hs; subst; cbn [caller_step]; try done;
    try (case_split; [|done]); intros Heq%(inj Some); revert Heq;
    try (by apply serves_start_wait); try (by apply serves_stop);
    try (by intros [= <- <- <-]; apply serves_stable).
  - case_split; intros [= <- <- <-]; constructor.
  - intros [= <- <- <-]. rewrite (service_stable l (joined l)) by done.
    pose proof (joiner_done l t _ Hi Ht eq_refl eq_refl) as Hd. unfold service.
    rewrite (all_done_exited l Hi Hd). apply (serves_one _ (Some (EvStopped None))). constructor.
Qed.

Lemma serves_worker a w l l' evs :
  Inv l → worker_act a w l = Some (l', evs) → serves_all (service l) evs (service l').
Proof.
  intros Hi. unfold worker_act. destruct a, (workers l !! w) as [[]|] eqn:Hw; try done.
  - case_split; [done|]. intros [= <- <-]. rewrite (service_running l w Hi Hw).
    set (l1 := l <| l_faulted := true |>).
    assert (Inv l1) as Hi1 by (by apply (inv_flags (stopping l) true)).
    change (serves_all (Serving w (l_faulted l)) [] (service l1)).
    rewrite (service_running l1 w) by done. apply (serves_one _ None). constructor.
  - case_split; [done|]. intros [= <- <-]. rewrite (service_running l w Hi Hw).
    unfold service. cbn. rewrite length_insert.
    destruct (inv_active l Hi w) as [_ ->]; [by eapply (inv_owned l Hi)|].
    apply (serves_one _ (Some (EvExit w))). constructor.
  - intros [= <- <-]. unfold service. cbn. rewrite length_insert. constructor.
Qed.

Lemma serves_step a l l' new :
  Inv l → life_step a l = Some (l', new) → serves_all (service l) new (service l').
Proof.
  intros Hi. destruct a as [pc|t created|a w|t]; cbn [life_step].
  - case_split; [|done]. intros [= <- <-]. by apply serves_stable.
  - intros (pc & Ht & Hs)%bind_Some. apply bind_Some in Hs as ([[pc' l1] evs1] & Hs & [= <- <-]).
    change (serves_all (service l) evs1 (service l1)). by eapply serves_caller.
  - by apply serves_worker.
  - intros (pc & Ht & Hs)%bind_Some. revert Hs. case_split; [|done]. intros [= <- <-].
    by apply serves_stable.
Qed.

(** The protocol implements the service. *)
Lemma life_serves evs l : life_execution evs l → serves_all (Idle 0) evs (service l).
Proof.
  induction 1 as [|a evs l l' new Hx IH Hs]; [constructor|].
  eapply serves_app; [done|]. eapply serves_step; [by eapply execution_inv|done].
Qed.

Lemma start_no_stop created self l pc' l' evs :
  start_enter created self l = (pc', l', evs) ∨ start_wait_joined created self l = (pc', l', evs) →
  EvStopped None ∉ evs.
Proof.
  unfold start_enter, start_wait_joined, start_body.
  intros [H|H] Hin; revert H; repeat case_split; intros [= <- <- <-];
    apply list_elem_of_In in Hin; cbn in Hin; naive_solver.
Qed.

(** Where the call of an outside [stop] ends. *)
Lemma caller_stopped created t pc l pc' l' evs :
  Inv l → callers l !! t = Some pc → caller_step created pc l = Some (pc', l', evs) →
  EvStopped None ∈ evs → ∀ w ph, workers l' !! w = Some ph → ph = WDone.
Proof.
  intros Hi Ht Hc Hin w ph. revert Hc.
  destruct pc as [| | | | | | | | |self|self|self| | | |self|self|]; cbn [caller_step]; try done;
    try (case_split; [|done]); intros Heq%(inj Some); revert Heq;
    try (intros Heq; exfalso; apply (start_no_stop _ _ _ _ _ _ (or_introl Heq) Hin));
    try (intros Heq; exfalso; apply (start_no_stop _ _ _ _ _ _ (or_intror Heq) Hin));
    try (intros [= <- <- <-]; by apply not_elem_of_nil in Hin).
  - unfold stop_section. destruct (is_self self l) eqn:Hs; [|destruct (joining l) eqn:Hj; [|destruct (joinable l) eqn:Hn]];
      intros [= <- <- <-].
    + destruct self; [|done]. apply list_elem_of_singleton in Hin. congruence.
    + by apply not_elem_of_nil in Hin.
    + by apply not_elem_of_nil in Hin.
    + by apply (idle_workers l).
  - case_split; intros [= <- <- <-]; by apply not_elem_of_nil in Hin.
  - intros [= <- <- <-]. by apply (joiner_done l t (PStopJoined self)).
Qed.

(** C10: [stop] from outside returns only when every worker thread has ended: at
    the step in which it takes effect no thread created by [start] is alive; and a
    call made inside the callback never waits for a worker: [start] returns with
    "already running" as soon as it gets the mutex; [stop] sets its flag as soon as
    it gets the mutex, and returns in its next step; every worker stays as it was. *)
Theorem stop_waits_callback_does_not evs l t pc created :
  life_execution evs l → callers l !! t = Some pc →
  (∀ l' new, life_step (LCaller t created) l = Some (l', new) → EvStopped None ∈ new →
     ∀ w ph, workers l' !! w = Some ph → ph = WDone) ∧
  (∀ w, pc_self pc = Some w → mutex_free l = true ∨ pc = PStopFlagged (Some w) →
     ∃ l' new, life_step (LCaller t created) l = Some (l', new) ∧ workers l' = workers l ∧
       ((new = [EvAlready (Some w)] ∨ new = [EvStopped (Some w)]) ∧ callers l' !! t = Some PDone ∨
        new = [] ∧ callers l' !! t = Some (PStopFlagged (Some w)) ∧ stopping l' = true)).
Proof.
  intros Hx Ht. pose proof (execution_inv evs l Hx) as Hi. cbn [life_step]. rewrite Ht. cbn [mbind option_bind].
  split.
  - intros l' new (([pc' l1] & evs1) & Hs & [= <- <-])%bind_Some Hin.
    change (∀ w ph, workers l1 !! w = Some ph → ph = WDone). by eapply caller_stopped.
  - intros w Hs Hm. pose proof (self_call l t pc w Hi Ht Hs) as Hself.
    destruct (inv_self l Hi t pc w Ht Hs) as [[-> |[-> | ->]] _]; cbn [caller_step];
      try (destruct Hm as [->|?]; [|done]); cbn [mbind option_bind].
    + unfold start_enter. rewrite Hself. eexists _, _. split_and!; [done..|left].
      split; [by left|by eapply (move_self t)].
    + eexists _, _. split_and!; [done..|right]. split_and!; [done| |done].
      apply (move_self t (wake (PStop (Some w)))). rewrite notify_lookup.
      change (callers (l <| stopping := true |>)) with (callers l). by rewrite Ht.
    + unfold stop_section. rewrite Hself. eexists _, _. split_and!; [done..|left].
      split; [by right|by eapply (move_self t)].
Qed.

(** The callback's stop (after 12 steps) and the outside stop (after 20). *)
Lemma stop_waits_callback_does_not_witness :
  (∃ evs l, life_execution evs l ∧ callers l !! 2%nat = Some (PStop (Some 1%nat)) ∧
     ∃ l' new, life_step (LCaller 2 true) l = Some (l', new) ∧ workers l' = workers l ∧
       ((new = [EvAlready (Some 1%nat)] ∨ new = [EvStopped (Some 1%nat)]) ∧ callers l' !! 2%nat = Some PDone ∨
        new = [] ∧ callers l' !! 2%nat = Some (PStopFlagged (Some 1%nat)) ∧ stopping l' = true)) ∧
  (∃ evs l l', life_execution evs l ∧ life_step (LCaller 3 true) l = Some (l', [EvStopped None]) ∧
     ∀ w ph, workers l' !! w = Some ph → ph = WDone).
Proof.
  split.
  - set (l := mkLife false false false false (Some 1%nat) (Some 1%nat) [WDone; WRun] [PDone; PDone; PStop (Some 1%nat)]).
    exists [EvStarted 0; EvExit 0; EvStarted 1], l.
    assert (life_execution [EvStarted 0; EvExit 0; EvStarted 1] l) as Hx
      by (apply (restart_execution 12); vm_compute; reflexivity).
    split_and!; [exact Hx|reflexivity|].
    destruct (stop_waits_callback_does_not _ l 2 (PStop (Some 1%nat)) true Hx eq_refl) as [_ H].
    apply H; [reflexivity|left; reflexivity].
  - set (l := mkLife true true false true None (Some 1%nat) [WDone; WDone] [PDone; PDone; PDone; PStopJoined None]).
    assert (life_execution [EvStarted 0; EvExit 0; EvStarted 1; EvStopped (Some 1%nat); EvExit 1] l) as Hx
      by (apply (restart_execution 20); vm_compute; reflexivity).
    exists [EvStarted 0; EvExit 0; EvStarted 1; EvStopped (Some 1%nat); EvExit 1], l,
      (mkLife true true false false None None [WDone; WDone] [PDone; PDone; PDone; PStopNotify None]).
    split_and!; [exact Hx|reflexivity|].
    destruct (stop_waits_callback_does_not _ l 3 (PStopJoined None) true Hx eq_refl) as [H _].
    apply (H _ [EvStopped None]); [reflexivity|by left].
Defined.

(** ** Progress *)

(** A step of a caller, the exit of a worker, the end of its thread: faults,
    spurious wakeups and new calls are not counted on. *)
Definition productive (a : Label) : bool :=
  match a with LCaller _ _ | LWorker WExit _ | LWorker WEnd _ => true | _ => false end.
Definition can_move (l : Life) : Prop := ∃ a, productive a = true ∧ is_Some (life_step a l).

Lemma caller_moves l t pc : callers l !! t = Some pc → is_Some (caller_step true pc l) → can_move l.
Proof.
  intros Ht [[[pc' l'] evs] Hs]. exists (LCaller t true). split; [done|]. cbn [life_step].
  rewrite Ht. cbn [mbind option_bind]. rewrite Hs. by eexists.
Qed.

Lemma mutex_or_moves l : mutex_free l = true ∨ can_move l.
Proof.
  destruct (mutex_free l) eqn:Hm; [by left|right]. unfold mutex_free in Hm.
  destruct (existsb holds (callers l)) eqn:He.
  - apply existsb_exists in He as (pc & Hin & Hh). apply list_elem_of_In, list_elem_of_lookup in Hin as [t Ht].
    apply (caller_moves l t pc Ht). destruct pc; try done; cbn; by eexists.
  - exfalso. apply not_true_iff_false in He. apply not_true_iff_false in Hm. apply Hm.
    apply forallb_forall. intros pc Hin. destruct (holds pc) eqn:E; [|done]. destruct He.
    apply existsb_exists. by exists pc.
Qed.

(** Workers end when they are asked to or have failed. *)
Lemma workers_settle l :
  Inv l → mutex_free l = true →
  can_move l ∨ (exited l = true ∧ ∀ w ph, workers l !! w = Some ph → ph = WDone) ∨
  (exited l = false ∧ stopping l = false ∧ l_faulted l = false).
Proof.
  intros Hi Hm. destruct (exited l) eqn:He.
  - destruct (decide (Forall (λ ph, ph = WDone) (workers l))) as [Hf|Hf].
    + right; left. split; [done|]. intros w ph Hw. exact (Forall_lookup_1 _ _ _ _ Hf Hw).
    + left. apply not_Forall_Exists in Hf; [|apply _]. apply Exists_exists in Hf as (ph & Hin & Hp).
      apply list_elem_of_lookup in Hin as [w Hw]. exists (LWorker WEnd w). split; [done|].
      cbn [life_step worker_act]. rewrite Hw. destruct ph; [|by eexists|by destruct Hp].
      pose proof (inv_running l Hi w Hw). congruence.
  - destruct (inv_exited l Hi He) as [w Hw]. destruct (in_call w l) eqn:Hc.
    + left. unfold in_call in Hc. apply existsb_exists in Hc as (pc & Hin & Hs%bool_decide_eq_true).
      apply list_elem_of_In, list_elem_of_lookup in Hin as [t Ht]. apply (caller_moves l t pc Ht).
      destruct (inv_self l Hi t pc w Ht Hs) as [[-> |[-> | ->]] _]; cbn [caller_step]; rewrite ?Hm; by eexists.
    + destruct (stopping l || l_faulted l) eqn:Hsf.
      * left. exists (LWorker WExit w). split; [done|]. cbn [life_step worker_act]. rewrite Hw, Hc, Hsf.
        by eexists.
      * right; right. by apply orb_false_elim in Hsf.
Qed.

Lemma joiner_moves l :
  Inv l → mutex_free l = true → joining l = true →
  (exited l = true ∧ ∀ w ph, workers l !! w = Some ph → ph = WDone) ∨
  (exited l = false ∧ stopping l = false ∧ l_faulted l = false) → can_move l.
Proof.
  intros Hi Hm Hj [[He Hd]|(He & Hs & _)]; [|destruct (inv_ends l Hi Hj); congruence].
  apply (inv_joiner l Hi) in Hj as (t & pc & Ht & Hj). apply (caller_moves l t pc Ht).
  assert (∀ w, held pc = Some w → workers l !! w = Some WDone) as Hw.
  { intros w Hh. destruct (inv_active l Hi w) as [_ Hlen]; [right; by exists t, pc|].
    destruct (lookup_lt_is_Some_2 (workers l) w) as [ph Hph]; [lia|]. by rewrite (Hd w ph Hph) in Hph. }
  destruct pc; try done; cbn [caller_step]; rewrite ?Hm; try by eexists.
  all: rewrite bool_decide_eq_true_2; [by eexists|by apply Hw].
Qed.

(** One place where a call does hang: [finish_session] sets [worker_exited_] and
    notifies [lifecycle_cv_] without the mutex, so both may fall between the
    evaluation of the predicate in [start] and its block. *)
Definition lost_wakeup_schedule : list Label :=
  [LCall (PStart None); LCaller 0 true; LWorker WFault 0; LCall (PStart None); LCaller 1 true;
   LCaller 1 true; LWorker WExit 0; LWorker WEnd 0; LCaller 1 true].

Lemma lost_wakeup :
  ∃ l, life_execution [EvStarted 0; EvExit 0] l ∧ callers l = [PDone; PStartBlockedExit None] ∧
    workers l = [WDone] ∧ exit_predicate l = true ∧ ¬ can_move l.
Proof.
  exists (mkLife false true true false (Some 0%nat) (Some 0%nat) [WDone] [PDone; PStartBlockedExit None]).
  split; [|split_and!; try done].
  - change [EvStarted 0; EvExit 0] with ([] ++ [EvStarted 0; EvExit 0]).
    eapply (run_execution lost_wakeup_schedule); [constructor|]. vm_compute. reflexivity.
  - intros ([pc|t c|[] w|t] & Ha & [x Hx]); try done; cbn in Hx.
    + destruct t as [|[|t]]; done.
    + destruct w as [|w]; done.
    + destruct w as [|w]; done.
Qed.

(** C14: no call hangs, except in one place: whenever a call of [start] or [stop]
    is unfinished, some caller or worker can move without a fault, a new call or a
    spurious wakeup happening, unless that call is a [start] that waits for the
    exit of a failed worker which has already exited; and this exception is real:
    a schedule leads to such a [start] with its predicate true, every worker ended
    and nothing that could wake it. *)
Theorem lifecycle_progress evs l t pc :
  life_execution evs l → callers l !! t = Some pc → pc ≠ PDone →
  (can_move l ∨ (exited l = true ∧ ∃ self, pc = PStartBlockedExit self)) ∧
  (∃ l, life_execution [EvStarted 0; EvExit 0] l ∧ callers l = [PDone; PStartBlockedExit None] ∧
     workers l = [WDone] ∧ exit_predicate l = true ∧ ¬ can_move l).
Proof.
  intros Hx Ht Hp. split; [|apply lost_wakeup]. pose proof (execution_inv evs l Hx) as Hi.
  destruct (mutex_or_moves l) as [Hm|]; [|by left].
  destruct (workers_settle l Hi Hm) as [|Hset]; [by left|].
  assert (joining l = true → can_move l) as Hjoin by (intros; by apply joiner_moves).
  assert (joins pc = true → can_move l) as Hjoins.
  { intros Hj. apply Hjoin, (inv_joiner l Hi). by exists t, pc. }
  assert (blocked_join pc = true → can_move l) as Hblocked.
  { intros Hb. destruct (inv_blocked l Hi t pc Ht Hb) as [?|(t' & pc' & Ht' & Hn)]; [by apply Hjoin|].
    apply (caller_moves l t' pc' Ht'). destruct pc'; try done; by eexists. }
  destruct pc; try (left; by apply Hjoins); try (left; by apply Hblocked); try done;
    try (left; apply (caller_moves l t _ Ht); cbn [caller_step]; rewrite ?Hm; by eexists).
  pose proof (inv_waits l Hi t _ Ht eq_refl) as Hf.
  destruct Hset as [[He _]|(_ & _ & ?)]; [right; eauto|congruence].
Qed.

(** The second start waits for the exit of the failed worker (after 6 steps). *)
Lemma lifecycle_progress_witness :
  ∃ evs l, life_execution evs l ∧ callers l !! 1%nat = Some (PStartJoin None 0) ∧ can_move l.
Proof.
  set (l := mkLife false true true true None (Some 0%nat) [WExited] [PDone; PStartJoin None 0]).
  assert (life_execution [EvStarted 0; EvExit 0] l) as Hx
    by (apply (restart_execution 6); vm_compute; reflexivity).
  exists [EvStarted 0; EvExit 0], l. split_and!; [exact Hx|reflexivity|].
  destruct (lifecycle_progress _ l 1 (PStartJoin None 0) Hx eq_refl) as [[H|[_ [self H]]] _];
    [discriminate|exact H|discriminate H].
Defined.
