(* ===== verification/Facade.v ===== *)
(** * The client object and its deferred destruction

    [core/src/client.cpp]: the destructor of [Client], which hands its
    implementation to a [DeferredDestroyer] when it runs inside the client's own
    callback, and the destroyer: a queue with a condition variable and one thread
    for the life of the process.  Implementations are numbered. *)

From S2P Require Import Prelude.

(** Where the destroyer's thread is. *)
Inductive Reaper :=
  | RTest                  (* wants the mutex, then evaluates the predicate *)
  | RBlocked
  | RStop (v : nat)        (* before [value->stop()] *)
  | RFree (v : nat).       (* before the end of [value]'s scope *)

(** Calls on an implementation: [stop], and the destructor, which stops it again. *)
Inductive ImplCall := IStop (v : nat) | IFree (v : nat).
Definition target (c : ImplCall) : nat := match c with IStop v | IFree v => v end.

(** [notices] counts the [enqueue]s between the push and [notify_one];
    [destroyed] are the clients whose destructor has begun, [deferred] those of
    them that were enqueued, [reaped] those the destroyer has freed. *)
Record Facade := mkFacade {
  pending : list nat; notices : nat; reaper : Reaper;
  destroyed : list nat; deferred : list nat; reaped : list nat
}.
#[export] Instance eta_Facade : Eta Facade := λ f,
  mkFacade (pending f) (notices f) (reaper f) (destroyed f) (deferred f) (reaped f).
Definition facade_init : Facade := mkFacade [] 0 RTest [] [] [].

Inductive FacadeStep :=
  | FDestroy (v : nat) (called_from_worker_thread : bool)
  | FNotify
  | FReap
  | FSpurious.

(** [~Client]; the [stop] of the first branch returns at once. *)
Definition destroy_client (v : nat) (called_from_worker_thread : bool) (f : Facade) : Facade * list ImplCall :=
  let f := f <| destroyed ::= λ d, d ++ [v] |> in
  if called_from_worker_thread then
    (f <| pending ::= λ p, p ++ [v] |> <| notices ::= S |> <| deferred ::= λ d, d ++ [v] |>, [IStop v])
  else (f, [IStop v; IFree v]).

(** One step of [run]. *)
Definition reap (f : Facade) : option (Facade * list ImplCall) :=
  match reaper f with
  | RTest =>
      match pending f with
      | [] => Some (f <| reaper := RBlocked |>, [])
      | v :: rest => Some (f <| reaper := RStop v |> <| pending := rest |>, [])
      end
  | RStop v => Some (f <| reaper := RFree v |>, [IStop v])
  | RFree v => Some (f <| reaper := RTest |> <| reaped ::= λ d, d ++ [v] |>, [IFree v])
  | RBlocked => None
  end.

(** [notify_one] wakes the thread if it is blocked. *)
Definition notified (r : Reaper) : Reaper := match r with RBlocked => RTest | _ => r end.

Definition facade_step (a : FacadeStep) (f : Facade) : option (Facade * list ImplCall) :=
  match a with
  | FDestroy v self => if bool_decide (v ∈ destroyed f) then None else Some (destroy_client v self f)
  | FNotify =>
      match notices f with
      | O => None
      | S n =>
          Some (f <| notices := n |>
                  <| reaper ::= notified |>, [])
      end
  | FReap => reap f
  | FSpurious => match reaper f with RBlocked => Some (f <| reaper := RTest |>, []) | _ => None end
  end.

Inductive facade_execution : list ImplCall → Facade → Prop :=
  | facade_start : facade_execution [] facade_init
  | facade_next a calls f f' new :
      facade_execution calls f → facade_step a f = Some (f', new) → facade_execution (calls ++ new) f'.

(** No call on a freed implementation, none freed twice. *)
Fixpoint safe_calls (freed : list nat) (calls : list ImplCall) : bool :=
  match calls with
  | [] => true
  | c :: calls =>
      negb (bool_decide (target c ∈ freed)) &&
      safe_calls (match c with IFree v => v :: freed | IStop _ => freed end) calls
  end.

Definition frees (calls : list ImplCall) : list nat :=
  omap (λ c, match c with IFree v => Some v | IStop _ => None end) calls.

Definition held (r : Reaper) : list nat := match r with RStop v | RFree v => [v] | _ => [] end.

Lemma held_notified r : held (notified r) = held r.
Proof. by destruct r. Qed.

Lemma safe_calls_app freed calls new :
  safe_calls freed (calls ++ new) = safe_calls freed calls && safe_calls (rev (frees calls) ++ freed) new.
Proof.
  revert freed. induction calls as [|c calls IH]; intros freed; [done|]. cbn [app safe_calls].
  rewrite IH, <- andb_assoc. do 2 f_equal. destruct c as [v|v]; [done|].
  cbn [frees omap list_omap rev]. by rewrite <- app_assoc.
Qed.

Lemma frees_app calls new : frees (calls ++ new) = frees calls ++ frees new.
Proof. apply omap_app. Qed.

Record FacadeInv (calls : list ImplCall) (f : Facade) : Prop := {
  f_safe : safe_calls [] calls = true;
  f_freed v : v ∈ frees calls → v ∈ destroyed f;
  f_queue : NoDup (held (reaper f) ++ pending f);
  f_live v : v ∈ held (reaper f) ++ pending f → v ∈ destroyed f ∧ v ∉ frees calls;
  f_order : deferred f = reaped f ++ held (reaper f) ++ pending f;
  f_wake : reaper f = RBlocked → pending f ≠ [] → (0 < notices f)%nat
}.

(** New calls on implementations that are not freed. *)
Lemma safe_extend calls v new :
  safe_calls [] calls = true → v ∉ frees calls → new = [IStop v] ∨ new = [IFree v] ∨ new = [IStop v; IFree v] →
  safe_calls [] (calls ++ new) = true.
Proof.
  intros Hs Hv Hnew. rewrite safe_calls_app, Hs, app_nil_r. cbn [andb].
  assert (v ∉ rev (frees calls)) as Hr by (by rewrite list_elem_of_In, <- in_rev, <- list_elem_of_In).
  destruct Hnew as [->|[->| ->]]; cbn [safe_calls target]; by rewrite bool_decide_eq_false_2.
Qed.

Lemma facade_inv_step a calls f f' new :
  FacadeInv calls f → facade_step a f = Some (f', new) → FacadeInv (calls ++ new) f'.
Proof.
  intros [H1 H2 H3 H4 H5 H6]. destruct a as [v self| | |]; cbn [facade_step].
  - case_split; [done|]. apply bool_decide_eq_false in Heqb.
    assert (v ∉ frees calls) as Hv by (intros ?%H2; done).
    assert (v ∉ held (reaper f) ++ pending f) as Hq by (intros [? _]%H4; done).
    unfold destroy_client. destruct self; intros [= <- <-].
    + split; cbn [set_field pending notices reaper destroyed deferred reaped].
      * apply (safe_extend _ v); auto.
      * intros u. rewrite frees_app. cbn. rewrite app_nil_r. intros ?%H2. apply elem_of_app. by left.
      * rewrite app_assoc. apply NoDup_app. split; [done|]. split; [|apply NoDup_singleton].
        by intros u Hu ->%list_elem_of_singleton.
      * intros u. rewrite frees_app, app_assoc. cbn. rewrite app_nil_r.
        intros [[? ?]%H4| ->%list_elem_of_singleton]%elem_of_app; (split; [apply elem_of_app|done]);
          [by left|right; by apply list_elem_of_singleton].
      * by rewrite H5, <- !app_assoc.
      * lia.
    + split; cbn [set_field pending notices reaper destroyed deferred reaped]; try done.
      * apply (safe_extend _ v); auto.
      * intros u. rewrite frees_app. cbn. intros [?%H2|Hu]%elem_of_app; apply elem_of_app; auto.
      * intros u Hu. destruct (H4 u Hu) as [Hd Hf]. split; [apply elem_of_app; by left|].
        rewrite frees_app. cbn. intros [?| ->%list_elem_of_singleton]%elem_of_app; done.
  - destruct (notices f) as [|n] eqn:Hn; [done|]. intros [= <- <-]. rewrite app_nil_r.
    pose proof (held_notified (reaper f)) as Hh.
    split; cbn [set_field pending notices reaper destroyed deferred reaped]; rewrite ?Hh; try done.
    by destruct (reaper f).
  - unfold reap. destruct (reaper f) as [| |v|v] eqn:Hr; cbn [held app] in *; [|done|..].
    + destruct (pending f) as [|v rest] eqn:Hp; intros [= <- <-]; rewrite app_nil_r;
        (split; cbn [set_field pending notices reaper destroyed deferred reaped held app]; try done; by rewrite ?Hp).
    + intros [= <- <-]. destruct (H4 v) as [Hd Hf]; [by apply list_elem_of_here|].
      split; cbn [set_field pending notices reaper destroyed deferred reaped held app]; try done.
      * apply (safe_extend _ v); auto.
      * rewrite frees_app. cbn. by rewrite app_nil_r.
      * rewrite frees_app. cbn. by rewrite app_nil_r.
    + intros [= <- <-]. destruct (H4 v) as [Hd Hf]; [by apply list_elem_of_here|].
      apply NoDup_cons in H3 as [Hnv H3].
      split; cbn [set_field pending notices reaper destroyed deferred reaped held app]; try done.
      * apply (safe_extend _ v); auto.
      * intros u. rewrite frees_app. cbn. intros [?%H2| ->%list_elem_of_singleton]%elem_of_app; done.
      * intros u Hu. destruct (H4 u) as [? ?]; [by apply list_elem_of_further|]. split; [done|].
        rewrite frees_app. cbn. intros [?| ->%list_elem_of_singleton]%elem_of_app; done.
      * by rewrite H5, <- app_assoc.
  - destruct (reaper f) eqn:Hr; try done. intros [= <- <-]. rewrite app_nil_r. by split.
Qed.

Lemma facade_execution_inv calls f : facade_execution calls f → FacadeInv calls f.
Proof.
  induction 1; [|by eapply facade_inv_step].
  split; try done; [constructor|by intros ? ?%not_elem_of_nil].
Qed.

(** C13: destruction is safe and complete: however the destructors of clients (in
    and outside their own callbacks), the notifications and the destroyer
    interleave, no implementation is used after it was freed or freed twice; those
    handed to the destroyer are freed in the order they came in; and as long as
    one of them is left, the destroyer or a notification can move, so that none is
    forgotten. *)
Theorem deferred_destruction calls f :
  facade_execution calls f →
  safe_calls [] calls = true ∧
  deferred f = reaped f ++ held (reaper f) ++ pending f ∧
  (reaped f ≠ deferred f → is_Some (facade_step FReap f) ∨ is_Some (facade_step FNotify f)).
Proof.
  intros [H1 _ _ _ H5 H6]%facade_execution_inv. split_and!; [done|done|]. intros Hne.
  cbn [facade_step]. unfold reap. destruct (reaper f) as [| |v|v] eqn:Hr; cbn [held app] in *; try by (left; eexists).
  - left. destruct (pending f); by eexists.
  - right. assert (0 < notices f)%nat as Hn.
    { apply H6; [done|]. intros Hp. apply Hne. by rewrite H5, Hp, app_nil_r. }
    destruct (notices f); [lia|by eexists].
Qed.

(** One client destroyed in its callback, one outside. *)
Lemma deferred_destruction_witness :
  ∃ f, facade_execution (((([] ++ [IStop 1]) ++ [IStop 2; IFree 2]) ++ []) ++ [IStop 1%nat]) f ∧
    deferred f = [1%nat] ∧ (is_Some (facade_step FReap f) ∨ is_Some (facade_step FNotify f)).
Proof.
  set (f := mkFacade [] 1 (RFree 1) [1%nat; 2%nat] [1%nat] []). exists f.
  assert (facade_execution (((([] ++ [IStop 1]) ++ [IStop 2; IFree 2]) ++ []) ++ [IStop 1%nat]) f) as Hx.
  { refine (facade_next FReap _ (mkFacade [] 1 (RStop 1) [1%nat; 2%nat] [1%nat] []) _ _ _ _);
      [|vm_compute; reflexivity].
    refine (facade_next FReap _ (mkFacade [1%nat] 1 RTest [1%nat; 2%nat] [1%nat] []) _ _ _ _);
      [|vm_compute; reflexivity].
    refine (facade_next (FDestroy 2 false) _ (mkFacade [1%nat] 1 RTest [1%nat] [1%nat] []) _ _ _ _);
      [|vm_compute; reflexivity].
    refine (facade_next (FDestroy 1 true) _ facade_init _ _ _ _); [constructor|vm_compute; reflexivity]. }
  split; [exact Hx|]. split; [reflexivity|].
  destruct (deferred_destruction _ _ Hx) as (_ & _ & H). apply H. discriminate.
Defined.
