(* ===== verification/Locks.v ===== *)
(** * Mutexes

    The order in which the threads of a client take its mutexes
    (src/core/src/detail/client_impl.cpp, udp_transport_posix.cpp, fault_latch.cpp
    and src/core/src/client.cpp).  Each function is written as its blocks under a
    lock, its waits, its early exits and its blocking calls, with every condition
    left open; any number of threads run them, the callback's calls included.

    A statement that neither locks nor blocks is [Plain], or [MayThrow] where an
    exception can leave it.  The destruction and the copy of a callback object, and a
    UDP [send], count as such statements.  The test hooks are left out. *)

From stdpp Require Import list.
From S2P Require Import Prelude.

(** ** Code and threads *)

(** The mutexes of [Client::Impl], [UdpTransport] and [DeferredDestroyer]. *)
Inductive Mutex :=
  | lifecycle_mutex_ | command_mutex_ | record_mutex_ | data_mutex_ | transport_mutex | destroyer_mutex.
#[export] Instance Mutex_eq_dec : EqDecision Mutex.
Proof. solve_decision. Defined.

Inductive Jump := Break | Continue | Return | Raise.

Inductive Code :=
  | Skip
  | Plain
  | MayThrow
  | Block                            (* a join, a poll, a name lookup, a transfer *)
  | Exit (j : Jump)
  | Seq (c d : Code)
  | Choose (c d : Code)
  | Locked (m : Mutex) (c : Code)    (* the rest of the scope of a lock *)
  | WaitFor (m : Mutex)              (* [cv.wait(lock, predicate)] *)
  | Waiting (m : Mutex)              (* blocked in it, the mutex released *)
  | Loop (ends : bool) (c : Code)    (* [while (condition)], or [for (;;)] *)
  | TryCatch (c handler : Code)
  | Call (c : Code)                  (* the body of a function *)
  | Callback.                        (* the user's callback, and what it calls *)

Declare Scope locks_scope.
Notation "c ;; d" := (Seq c d) (at level 100, d at level 200, right associativity) : locks_scope.
#[local] Open Scope locks_scope.

(** What a thread returns to. *)
Inductive Frame :=
  | KSeq (c : Code)
  | KUnlock (m : Mutex)
  | KLoop (ends : bool) (c : Code)
  | KTry (handler : Code)
  | KCall.

Record Thread := mkThread { code : Code; frames : list Frame }.

Definition unlocks (k : list Frame) : list Mutex := omap (λ f, match f with KUnlock m => Some m | _ => None end) k.

(** The mutexes a thread holds, the innermost first. *)
Definition locks (t : Thread) : list Mutex :=
  match code t with
  | Waiting m => filter (λ m', m' ≠ m) (unlocks (frames t))
  | _ => unlocks (frames t)
  end.

(** ** The functions *)

Definition May (c : Code) : Code := Choose c Skip.

Definition transport_connect_code : Code := Call (Block ;; MayThrow ;; Locked transport_mutex Plain).
Definition transport_send_code : Code := Call (Locked transport_mutex MayThrow).
Definition transport_receive_code : Code :=
  Call (
    Locked transport_mutex (MayThrow ;; May (Exit Return) ;; Plain) ;;
    MayThrow ;;
    Loop false (Block ;; May (Exit Break) ;; MayThrow ;; May (Exit Return) ;; Plain) ;;
    May (Exit Return) ;;
    Locked transport_mutex (May (Exit Return)) ;;
    MayThrow ;;
    Block).
Definition transport_shutdown_code : Code := Call (Locked transport_mutex Plain).
Definition transport_close_code : Code := Call (Locked transport_mutex Plain).

Definition latch_publish_code : Code :=
  Call (TryCatch (Locked data_mutex_ (May (Exit Return) ;; Plain ;; Exit Return)) (Exit Return)).

Definition set_fault_code : Code := Call (latch_publish_code ;; Plain).

Definition start_code : Code :=
  Call (Loop false (
    Locked lifecycle_mutex_ (
      May (Exit Raise) ;;
      WaitFor lifecycle_mutex_ ;;
      Choose
        (May (May (Exit Raise) ;; WaitFor lifecycle_mutex_ ;; Exit Continue) ;; Plain)
        (Plain ;;
         Locked record_mutex_ Plain ;;
         Locked data_mutex_ MayThrow ;;
         Plain ;;
         TryCatch MayThrow
           (Plain ;;
            Locked record_mutex_ Plain ;;
            Locked data_mutex_ MayThrow ;;
            Plain ;; May latch_publish_code ;; Plain ;; Exit Raise) ;;
         Plain ;; Exit Return)) ;;
    Block ;;
    Locked lifecycle_mutex_ Plain ;;
    Plain)).

Definition stop_session_code : Code := May (TryCatch transport_send_code Skip ;; Plain).
Definition mark_stopped_code : Code := May (Locked data_mutex_ Plain).

Definition stop_code : Code :=
  Call (Loop false (
    Locked lifecycle_mutex_ (
      Plain ;;
      Locked command_mutex_ (stop_session_code ;; transport_shutdown_code) ;;
      May (Exit Return) ;;
      May (WaitFor lifecycle_mutex_ ;; Exit Continue) ;;
      May (mark_stopped_code ;; Exit Return) ;;
      Plain) ;;
    Block ;;
    Locked lifecycle_mutex_ (mark_stopped_code ;; Plain) ;;
    Plain ;;
    Exit Return)).

Definition bias_code : Code :=
  Call (Locked command_mutex_ (Locked record_mutex_ (
    Locked data_mutex_ MayThrow ;; transport_send_code ;; transport_send_code ;; Plain))).

Definition wait_for_first_sample_code : Code :=
  Call (MayThrow ;; Locked data_mutex_ (May (Exit Return) ;; WaitFor data_mutex_ ;; Exit Return)).

Definition health_code : Code := Call (Locked data_mutex_ MayThrow).
Definition latest_sample_code : Code := Call (Locked data_mutex_ MayThrow).
Definition called_from_worker_thread_code : Code := Call (Locked lifecycle_mutex_ (Exit Return)).

Definition configuration_for_session_code : Code := Call (May (Exit Return) ;; Block ;; MayThrow).
Definition apply_configuration_code : Code := Call (Locked data_mutex_ MayThrow).

Definition record_callback_error_code : Code :=
  Call (TryCatch (Locked data_mutex_ (Plain ;; TryCatch MayThrow Skip)) Skip).

Definition handle_record_code : Code :=
  Call (
    Locked record_mutex_ (Plain ;; Locked data_mutex_ MayThrow) ;;
    May (Exit Return) ;;
    Plain ;; May (Exit Return) ;;
    TryCatch (MayThrow ;; May Callback) (record_callback_error_code ;; Exit Return) ;;
    Locked record_mutex_ (Plain ;; Locked data_mutex_ MayThrow) ;;
    Plain ;; Exit Return).

Definition receive_session_code : Code :=
  Call (
    Locked data_mutex_ Plain ;;
    May (Exit Return) ;;
    TryCatch (configuration_for_session_code ;; apply_configuration_code) (Choose (Exit Return) (Exit Raise)) ;;
    May (Exit Return) ;;
    TryCatch (transport_connect_code ;; Locked command_mutex_ (May (Exit Return) ;; transport_send_code ;; Plain))
      (Exit Return) ;;
    Locked record_mutex_ Plain ;;
    MayThrow ;;
    Loop true (
      May (Locked data_mutex_ (May (Exit Return) ;; Plain ;; Exit Return)) ;;
      TryCatch transport_receive_code (Exit Return) ;;
      May (Exit Return) ;;
      May (Locked data_mutex_ (May (Exit Return) ;; Plain ;; Exit Return)) ;;
      TryCatch MayThrow (Locked data_mutex_ (Plain ;; May (Exit Return) ;; Exit Continue)) ;;
      Locked data_mutex_ Plain ;;
      MayThrow ;;
      handle_record_code ;; May (Exit Return)) ;;
    Exit Return).

Definition close_session_code : Code := Call (Locked command_mutex_ (stop_session_code ;; transport_close_code)).
Definition finish_session_code : Code :=
  Call (close_session_code ;; Plain ;; May (TryCatch (Locked data_mutex_ Plain) Skip) ;; Plain).

Definition run_code : Code :=
  Call (
    TryCatch
      (Loop true (
         receive_session_code ;; close_session_code ;;
         May (set_fault_code ;; Exit Break) ;;
         May (Exit Break) ;;
         Plain ;;
         Locked data_mutex_ MayThrow ;;
         Locked data_mutex_ (MayThrow ;; WaitFor data_mutex_) ;;
         Plain))
      (May set_fault_code) ;;
    finish_session_code).

(** *** [Client::~Client] and the destroyer *)

Definition enqueue_code : Code := Call (Locked destroyer_mutex MayThrow ;; Plain).
(** [~Impl]. *)
Definition destroy_impl_code : Code := Call stop_code.
Definition destroy_client_code : Code :=
  Call (
    May (called_from_worker_thread_code ;; May (stop_code ;; MayThrow ;; enqueue_code ;; Exit Return)) ;;
    stop_code ;;
    destroy_impl_code).
Definition destroyer_run_code : Code :=
  Call (Loop false (
    Locked destroyer_mutex (WaitFor destroyer_mutex ;; Plain) ;;
    stop_code ;;
    destroy_impl_code)).

(** What a thread outside the client, or a callback, calls; [faulted] and [fault_code]
    are loads of an atomic. *)
Inductive Operation := OpStart | OpStop | OpBias | OpWaitForFirstSample | OpHealth | OpLatestSample | OpDestroy.
Definition operation (o : Operation) : Code :=
  match o with
  | OpStart => start_code
  | OpStop => stop_code
  | OpBias => bias_code
  | OpWaitForFirstSample => wait_for_first_sample_code
  | OpHealth => health_code
  | OpLatestSample => latest_sample_code
  | OpDestroy => destroy_client_code
  end.

(** What the threads of the program run. *)
Inductive Entry := EntryOperation (o : Operation) | EntryWorker | EntryDestroyer.
Definition entry (e : Entry) : Code :=
  match e with EntryOperation o => operation o | EntryWorker => run_code | EntryDestroyer => destroyer_run_code end.

(** ** Steps *)

(** How a statement that leaves a choice goes on; a callback goes on with a call, whose
    exception it may catch. *)
Inductive Pick := PickFirst | PickSecond | PickCall (o : Operation) (caught : bool).

Definition resume (j : Jump) (k : list Frame) : option Thread :=
  match k with
  | [] => None
  | KSeq _ :: k | KUnlock _ :: k => Some (mkThread (Exit j) k)
  | KTry h :: k => Some (mkThread (match j with Raise => h | _ => Exit j end) k)
  | KLoop ends c :: k =>
      Some (mkThread (match j with Break => Skip | Continue => Loop ends c | _ => Exit j end) k)
  | KCall :: k => Some (mkThread (match j with Raise => Exit Raise | _ => Skip end) k)
  end.

Definition fall_through (k : list Frame) : option Thread :=
  match k with
  | [] => None
  | KSeq c :: k => Some (mkThread c k)
  | KUnlock _ :: k | KTry _ :: k | KCall :: k => Some (mkThread Skip k)
  | KLoop ends c :: k => Some (mkThread (Loop ends c) k)
  end.

(** One step of a thread; [free] says which mutexes no thread holds. *)
Definition thread_step (free : Mutex → bool) (p : Pick) (t : Thread) : option Thread :=
  let k := frames t in
  match code t with
  | Skip => fall_through k
  | Exit j => resume j k
  | Plain => Some (mkThread Skip k)
  | MayThrow | Block => Some (mkThread (match p with PickFirst => Skip | _ => Exit Raise end) k)
  | Seq c d => Some (mkThread c (KSeq d :: k))
  | Choose c d => Some (mkThread (match p with PickFirst => c | _ => d end) k)
  | Locked m c => if free m then Some (mkThread c (KUnlock m :: k)) else None
  | WaitFor m => Some (mkThread (match p with PickFirst => Skip | _ => Waiting m end) k)
  | Waiting m => if free m then Some (mkThread (WaitFor m) k) else None
  | Loop ends c =>
      Some (match p, ends with PickFirst, true => mkThread Skip k | _, _ => mkThread c (KLoop ends c :: k) end)
  | TryCatch c h => Some (mkThread c (KTry h :: k))
  | Call c => Some (mkThread c (KCall :: k))
  | Callback =>
      Some (match p with
            | PickFirst => mkThread Skip k
            | PickSecond => mkThread (Exit Raise) k
            | PickCall o caught =>
                mkThread (if caught then TryCatch (operation o) Skip else operation o) (KSeq Callback :: k)
            end)
  end.

Definition is_free (ts : list Thread) (m : Mutex) : bool := forallb (λ t, bool_decide (m ∉ locks t)) ts.

Inductive Move := Spawn (e : Entry) | Run (i : nat) (p : Pick).

Definition threads_step (a : Move) (ts : list Thread) : option (list Thread) :=
  match a with
  | Spawn e => Some (ts ++ [mkThread (entry e) []])
  | Run i p => t ← ts !! i; t' ← thread_step (is_free ts) p t; Some (<[i := t']> ts)
  end.

Fixpoint threads_run (l : list Move) (ts : list Thread) : option (list Thread) :=
  match l with [] => Some ts | a :: l => ts ← threads_step a ts; threads_run l ts end.

Inductive reachable : list Thread → Prop :=
  | no_threads : reachable []
  | reached a ts ts' : reachable ts → threads_step a ts = Some ts' → reachable ts'.

(** ** The order *)

(** [command_mutex_], [record_mutex_] and [data_mutex_] in this order, as
    client_impl.hpp says; [lifecycle_mutex_] before them and the transport's after. *)
Definition lock_level (m : Mutex) : nat :=
  match m with
  | lifecycle_mutex_ => 0
  | command_mutex_ => 1
  | record_mutex_ => 2
  | data_mutex_ => 3
  | transport_mutex => 4
  | destroyer_mutex => 5
  end%nat.

Definition above (held : list Mutex) (m : Mutex) : bool := forallb (λ m', lock_level m' <? lock_level m)%nat held.

(** [c], run with the mutexes [held], takes mutexes in order, and calls back, loops and
    blocks with none. *)
Fixpoint ordered (held : list Mutex) (c : Code) : bool :=
  match c with
  | Skip | Plain | MayThrow | Exit _ => true
  | Block | Callback => bool_decide (held = [])
  | Seq c d | Choose c d | TryCatch c d => ordered held c && ordered held d
  | Locked m c => above held m && ordered (m :: held) c
  | WaitFor m | Waiting m => bool_decide (held = [m])
  | Loop _ c => bool_decide (held = []) && ordered held c
  | Call c => ordered held c
  end.

Fixpoint ordered_frames (k : list Frame) : bool :=
  match k with
  | [] => true
  | f :: k =>
      match f with
      | KSeq c | KTry c => ordered (unlocks k) c
      | KUnlock m => above (unlocks k) m
      | KLoop _ c => bool_decide (unlocks k = []) && ordered (unlocks k) c
      | KCall => true
      end && ordered_frames k
  end.

Definition ordered_thread (t : Thread) : bool := ordered (unlocks (frames t)) (code t) && ordered_frames (frames t).

(** The functions of the source, checked. *)
Lemma operation_ordered o : ordered [] (operation o) = true.
Proof. by destruct o. Qed.
Lemma entry_ordered e : ordered [] (entry e) = true.
Proof. destruct e as [o| |]; [apply operation_ordered|done..]. Qed.

(** *** A thread *)

#[local] Arguments unlocks : simpl never.

Lemma unlocks_cons f k : unlocks (f :: k) = match f with KUnlock m => m :: unlocks k | _ => unlocks k end.
Proof. by destruct f. Qed.

(** The cases of a step [Hs] of a thread. *)
Ltac thread_cases Hs :=
  cbn [thread_step code frames] in Hs;
  repeat match type of Hs with
  | context [fall_through ?k] => destruct k as [|[] ?]; cbn [fall_through] in Hs
  | context [resume ?j ?k] => destruct k as [|[] ?]; cbn [resume] in Hs; destruct j
  | context [match ?p with PickFirst => _ | _ => _ end] => destruct p as [| |? []]
  | context [if ?b then _ else _] => destruct b eqn:?
  end;
  try discriminate Hs; injection Hs as <-.

Lemma step_ordered free p t t' :
  ordered_thread t = true → thread_step free p t = Some t' → ordered_thread t' = true.
Proof.
  unfold ordered_thread. destruct t as [c k]. cbn [code frames]. intros Hck Hs.
  destruct c; thread_cases Hs; cbn in *; bools; rewrite ?unlocks_cons in *;
    repeat (apply andb_true_intro; split); try done; try (by apply bool_decide_eq_true);
    try (replace (unlocks k) with (@nil Mutex) by done; by destruct o).
Qed.

Lemma locks_unlocks t : ∀ m, m ∈ locks t → m ∈ unlocks (frames t).
Proof.
  intros m. unfold locks. destruct (code t); try done. intros Hin. by apply list_elem_of_filter in Hin as [_ ?].
Qed.

(** A step takes free mutexes only. *)
Lemma step_locks free p t t' m :
  thread_step free p t = Some t' → m ∈ locks t' → m ∈ locks t ∨ free m = true.
Proof.
  intros Hs Hin%locks_unlocks. destruct t as [c k].
  destruct c; thread_cases Hs; unfold locks; cbn [code frames] in *; rewrite ?unlocks_cons in *; auto.
  1-5: left; by right.
  - apply elem_of_cons in Hin as [->|Hin]; auto.
  - destruct (decide (m = m0)) as [->|]; [by right|left]. by apply list_elem_of_filter.
Qed.

(** What the order says of the statement a thread is at. *)
Definition lock_disciplined (t : Thread) : Prop :=
  match code t with
  | Locked m _ => ∀ m', m' ∈ locks t → (lock_level m' < lock_level m)%nat
  | WaitFor m => locks t = [m]
  | Waiting _ | Block | Callback => locks t = []
  | _ => True
  end.

Lemma above_spec held m : above held m = true ↔ ∀ m', m' ∈ held → (lock_level m' < lock_level m)%nat.
Proof.
  unfold above. rewrite forallb_forall. setoid_rewrite list_elem_of_In.
  split; intros H m' Hin; apply H in Hin; by apply Nat.ltb_lt.
Qed.

Lemma ordered_disciplined t : ordered_thread t = true → lock_disciplined t.
Proof.
  unfold ordered_thread, lock_disciplined, locks. destruct t as [c k]. cbn [code frames].
  destruct c; cbn; intros; bools; try done; [by eapply (proj1 (above_spec _ _))|].
  match goal with H : unlocks _ = _ |- _ => rewrite H end. rewrite filter_cons. by case_decide.
Qed.

(** A thread that holds a mutex has a next step when the mutexes after its own are free. *)
Lemma holder_step free t m p :
  ordered_thread t = true → m ∈ locks t → (∀ m', (lock_level m < lock_level m')%nat → free m' = true) →
  is_Some (thread_step free p t).
Proof.
  intros Ho Hm Hfree. pose proof (ordered_disciplined t Ho) as Hd. unfold lock_disciplined in Hd.
  assert (frames t ≠ []) as Hk.
  { intros E. apply locks_unlocks in Hm. rewrite E in Hm. by apply not_elem_of_nil in Hm. }
  destruct t as [c k]. cbn [code frames] in *. destruct c; cbn; try (by eexists).
  - destruct k as [|[]]; [done|..]; by eexists.
  - destruct k as [|[]]; [done|..]; by eexists.
  - rewrite Hfree by auto. by eexists.
  - rewrite Hd in Hm. by apply not_elem_of_nil in Hm.
Qed.

(** *** All threads *)

Definition locks_exclusive (ts : list Thread) : Prop :=
  ∀ i j t u m, i ≠ j → ts !! i = Some t → ts !! j = Some u → m ∈ locks t → m ∉ locks u.

Lemma is_free_spec ts m : is_free ts m = true ↔ ∀ i t, ts !! i = Some t → m ∉ locks t.
Proof.
  unfold is_free. rewrite forallb_forall. split.
  - intros H i t Hi. apply list_elem_of_lookup_2, list_elem_of_In, H in Hi. by bools.
  - intros H t [i Hi]%list_elem_of_In%list_elem_of_lookup. apply bool_decide_eq_true. by eapply H.
Qed.

Record LockInv (ts : list Thread) : Prop := {
  inv_ordered : Forall (λ t, ordered_thread t = true) ts;
  inv_exclusive : locks_exclusive ts
}.

Lemma exclusive_step ts i p t t' :
  locks_exclusive ts → ts !! i = Some t → thread_step (is_free ts) p t = Some t' → locks_exclusive (<[i := t']> ts).
Proof.
  intros Hx Ht Hs.
  assert (∀ j u m, i ≠ j → ts !! j = Some u → m ∈ locks t' → m ∉ locks u) as Hnew.
  { intros j u m Hij Hu [Hm|Hm]%(step_locks _ _ _ _ _ Hs); [by eapply Hx|]. by eapply is_free_spec. }
  intros j1 j2 u1 u2 m Hj [(<- & <- & _)|(? & H1)]%list_lookup_insert_Some
    [(<- & <- & _)|(? & H2)]%list_lookup_insert_Some.
  - done.
  - by apply (Hnew j2).
  - intros Hm Hm'. by eapply (Hnew j1 u1).
  - by apply (Hx j1 j2).
Qed.

Lemma move_inv a ts ts' : LockInv ts → threads_step a ts = Some ts' → LockInv ts'.
Proof.
  intros [Ho Hx]. destruct a as [e|i p]; cbn [threads_step].
  - intros [= <-]. split.
    + apply Forall_app; split; [done|]. apply Forall_singleton. unfold ordered_thread. cbn.
      by rewrite entry_ordered.
    + intros i j t u m Hij [Ht|[? Ht]]%lookup_app_Some [Hu|[? Hu]]%lookup_app_Some;
        try apply list_lookup_singleton_Some in Ht as [? <-]; try apply list_lookup_singleton_Some in Hu as [? <-].
      * by eapply Hx.
      * intros _ Hm%locks_unlocks. by apply not_elem_of_nil in Hm.
      * intros Hm%locks_unlocks. by apply not_elem_of_nil in Hm.
      * lia.
  - intros (t & Ht & (t' & Hs & [= <-])%bind_Some)%bind_Some. split; [|by eapply exclusive_step].
    apply Forall_insert; [done|]. eapply step_ordered; [|done]. by eapply Forall_lookup_1 in Ho.
Qed.

Lemma reachable_inv ts : reachable ts → LockInv ts.
Proof.
  induction 1 as [|a ts ts' _ IH Hs]; [|by eapply move_inv]. split; [done|]. intros i j t u m _ Ht. done.
Qed.

(** ** Mutexes are released *)

Definition holding (t : Thread) : Prop := locks t ≠ [].

(** [n] steps of threads that hold a mutex. *)
Inductive drains : nat → list Thread → list Thread → Prop :=
  | drained ts : drains 0 ts ts
  | drain n i p t ts ts1 ts2 :
      ts !! i = Some t → holding t → threads_step (Run i p) ts = Some ts1 → drains n ts1 ts2 → drains (S n) ts ts2.

(** Bounds the steps of a thread until it holds nothing. *)
Fixpoint size (c : Code) : nat :=
  match c with
  | Skip | Exit _ | Waiting _ => 1
  | Plain | MayThrow | Block | WaitFor _ | Callback => 2
  | Seq c d | TryCatch c d => 1 + size c + size d
  | Choose c d => 1 + size c + size d
  | Locked _ c | Call c => 2 + size c
  | Loop _ c => 1 + size c
  end%nat.
Definition frame_size (f : Frame) : nat :=
  match f with KSeq c | KTry c => size c | KLoop _ c => 2 + size c | KUnlock _ | KCall => 1 end%nat.
Definition thread_size (t : Thread) : nat := (size (code t) + sum_list_with frame_size (frames t))%nat.
Definition steps_to_release (t : Thread) : nat := if decide (locks t = []) then 0 else thread_size t.
Definition work (ts : list Thread) : nat := sum_list_with steps_to_release ts.

Lemma size_positive c : (1 ≤ size c)%nat.
Proof. destruct c; cbn; lia. Qed.

Lemma thread_size_positive t : (1 ≤ thread_size t)%nat.
Proof. unfold thread_size. pose proof (size_positive (code t)). lia. Qed.

Lemma holder_size free p t t' :
  ordered_thread t = true → holding t → thread_step free p t = Some t' → holding t' →
  (thread_size t' < thread_size t)%nat.
Proof.
  intros Ho Hh Hs Hh'. pose proof (ordered_disciplined t Ho) as Hd. unfold lock_disciplined in Hd.
  unfold ordered_thread in Ho. unfold holding, locks, thread_size in *. destruct t as [c k].
  destruct c; thread_cases Hs; cbn in *; bools; rewrite ?unlocks_cons in *; try done; try lia;
    try (match goal with c : Code |- _ => pose proof (size_positive c) end; lia).
Qed.

Lemma left_step free p t t' :
  ordered_thread t = true → holding t → thread_step free p t = Some t' →
  (steps_to_release t' < steps_to_release t)%nat.
Proof.
  intros Ho Hh Hs. unfold steps_to_release. destruct (decide (locks t = [])); [done|]. case_decide.
  - pose proof (thread_size_positive t). lia.
  - by eapply holder_size.
Qed.

Lemma sum_insert {A} (f : A → nat) l i x y :
  l !! i = Some x → (sum_list_with f (<[i := y]> l) + f x = sum_list_with f l + f y)%nat.
Proof.
  revert i. induction l as [|z l IH]; intros [|i]; cbn; try done.
  - intros [= ->]. lia.
  - intros H%IH. unfold insert in *. lia.
Qed.

Lemma work_step ts i p t ts1 :
  LockInv ts → ts !! i = Some t → holding t → threads_step (Run i p) ts = Some ts1 → (work ts1 < work ts)%nat.
Proof.
  intros [Ho _] Ht Hh. cbn [threads_step]. intros (u & Hu & (t' & Hs & [= <-])%bind_Some)%bind_Some.
  rewrite Ht in Hu. injection Hu as <-.
  pose proof (left_step _ _ _ _ (Forall_lookup_1 _ _ _ _ Ho Ht) Hh Hs).
  pose proof (sum_insert steps_to_release ts i t t' Ht). unfold work. lia.
Qed.

Lemma drains_work n ts ts' : LockInv ts → drains n ts ts' → LockInv ts' ∧ (n + work ts' ≤ work ts)%nat.
Proof.
  intros Hi Hd. induction Hd as [ts|n i p t ts ts1 ts2 Ht Hh Hm Hd IH]; [by split|].
  destruct (IH (move_inv _ _ _ Hi Hm)) as [? ?]. pose proof (work_step _ _ _ _ _ Hi Ht Hh Hm). split; [done|lia].
Qed.

Lemma top_mutex (l : list Mutex) : l ≠ [] → ∃ m, m ∈ l ∧ ∀ m', m' ∈ l → (lock_level m' ≤ lock_level m)%nat.
Proof.
  induction l as [|a [|b l] IH]; intros; [done| |].
  - exists a. split; [by left|]. by intros m' ->%list_elem_of_singleton.
  - destruct IH as (m & Hm & Htop); [done|]. destruct (decide (lock_level a ≤ lock_level m)%nat).
    + exists m. split; [by right|]. intros m' [->|Hm']%elem_of_cons; auto.
    + exists a. split; [by left|]. intros m' [->|Hm']%elem_of_cons; [done|]. apply Htop in Hm'. lia.
Qed.

(** The thread with the last mutex in the order can go on. *)
Lemma some_holder_steps ts :
  LockInv ts → ¬ Forall (λ t, locks t = []) ts → ∃ ts', drains 1 ts ts'.
Proof.
  intros [Ho _] Hn. apply not_Forall_Exists in Hn; [|apply _]. apply Exists_exists in Hn as (t0 & Hin0 & Hh0).
  destruct (top_mutex (ts ≫= locks)) as (m & (t & Hm & [i Hi]%list_elem_of_lookup)%list_elem_of_bind & Htop).
  { intros E. destruct (locks t0) as [|a l] eqn:El; [done|]. apply (not_elem_of_nil a). rewrite <- E.
    apply list_elem_of_bind. exists t0. split; [rewrite El; by left|done]. }
  destruct (holder_step (is_free ts) t m PickFirst) as [t' Hs]; [by eapply Forall_lookup_1 in Ho|done| |].
  - intros m' Hr. apply is_free_spec. intros j u Hu Hm'. pose proof (Htop m'). 
    assert (m' ∈ ts ≫= locks) as Hin%Htop; [|lia]. apply list_elem_of_bind. exists u.
    split; [done|]. by eapply list_elem_of_lookup_2.
  - exists (<[i := t']> ts). apply (drain 0 i PickFirst t ts (<[i := t']> ts)); [done| | |constructor].
    + intros E. rewrite E in Hm. by apply not_elem_of_nil in Hm.
    + cbn [threads_step]. rewrite Hi. cbn [mbind option_bind]. by rewrite Hs.
Qed.

(** C12: the mutexes of the client cannot deadlock, whatever number of threads call its
    operations, destroy it, run its worker or its destroyer, whatever the callback calls
    and throws, and however all these interleave.  Every thread takes mutexes in one
    order (lifecycle, command, record, data, then the transport's), never one that it
    holds already; a thread waits on a condition with no other mutex than the one the
    wait releases, and holds none when it joins, polls, looks up a name, transfers the
    configuration or calls back; no two threads hold one mutex.  And from every state
    the threads that hold mutexes, in whatever order and by whatever branches they go
    on, have released all of them after at most [work] steps, one of them being able
    to move until then. *)
Theorem mutexes_deadlock_free ts :
  reachable ts →
  Forall lock_disciplined ts ∧ locks_exclusive ts ∧
  ∀ n ts', drains n ts ts' →
    (n ≤ work ts)%nat ∧ (Forall (λ t, locks t = []) ts' ∨ ∃ ts'', drains 1 ts' ts'').
Proof.
  intros Hi%reachable_inv. split_and!.
  - eapply Forall_impl; [apply Hi|]. apply ordered_disciplined.
  - apply Hi.
  - intros n ts' Hd. destruct (drains_work _ _ _ Hi Hd) as [Hi' Hn]. split; [lia|].
    destruct (decide (Forall (λ t, locks t = []) ts')) as [|Hf]; [by left|right]. by apply some_holder_steps.
Qed.

(** A [bias] that waits for [data_mutex_], held by a [health], while a [stop] waits
    for [command_mutex_] with [lifecycle_mutex_]. *)
Definition contended_moves : list Move :=
  [Spawn (EntryOperation OpBias); Spawn (EntryOperation OpHealth); Spawn (EntryOperation OpStop)] ++
  replicate 4 (Run 0 PickFirst) ++ replicate 2 (Run 1 PickFirst) ++ replicate 8 (Run 2 PickFirst).
Definition contended : list Thread := Eval vm_compute in default [] (threads_run contended_moves []).

Lemma moves_reachable l ts ts' : reachable ts → threads_run l ts = Some ts' → reachable ts'.
Proof.
  revert ts. induction l as [|a l IH]; cbn [threads_run]; intros ts Hr.
  - by intros [= <-].
  - intros (ts1 & Ha & H)%bind_Some. eapply IH; [|done]. by eapply reached.
Qed.

Lemma contended_reachable : reachable contended.
Proof. apply (moves_reachable contended_moves []); [constructor|]. vm_compute. reflexivity. Qed.

(** Only the [health] can move. *)
Lemma mutexes_deadlock_free_witness :
  locks <$> contended = [[record_mutex_; command_mutex_]; [data_mutex_]; [lifecycle_mutex_]] ∧
  threads_step (Run 0 PickFirst) contended = None ∧ threads_step (Run 2 PickFirst) contended = None ∧
  locks_exclusive contended ∧ ∃ ts, drains 1 contended ts.
Proof.
  split; [reflexivity|]. split; [reflexivity|]. split; [reflexivity|].
  destruct (mutexes_deadlock_free contended contended_reachable) as (_ & Hx & Hd). split; [exact Hx|].
  destruct (Hd 0%nat contended (drained contended)) as [_ [H|H]]; [|exact H].
  apply Forall_cons in H as [H _]. discriminate H.
Defined.
