(* ===== verification/Transport.v ===== *)
(** * The UDP transport

    [detail/udp_transport_posix.cpp] over the answers of the kernel: [connect],
    [send], [receive], [shutdown] and [close], the system calls they make, and the
    interleaving of the receiver's calls with [send] and [shutdown] of other
    threads.  The sections of [mutex_] and the system calls between them are the
    steps. *)

From stdpp Require Import gmap.
From S2P Require Import Prelude Floating Types ClientImpl.

(** What the C library and the headers of the platform provide. *)
Class Posix := mkPosix {
  strerror : Z → string;
  gai_strerror : Z → string;
  EINTR : Z;
  POLLNVAL : Z
}.

Inductive Syscall :=
  | SysSocket (fd : Z)                (* a call that returned [fd] *)
  | SysConnect (fd : Z)
  | SysClose (fd : Z)
  | SysSend (fd : Z) (request : list Z)
  | SysShutdown (fd : Z)
  | SysPoll (fd : Z) (milliseconds : Z)
  | SysRecv (fd : Z) (capacity : Z).

Definition kInvalidSocket : Z := u64 (-1).
Definition INT_MAX : Z := 2 ^ 31 - 1.

Record Transport := mkTransport { socket_ : Z; shutdown_requested_ : bool }.
#[export] Instance eta_Transport : Eta Transport := λ t, mkTransport (socket_ t) (shutdown_requested_ t).
Definition transport_init : Transport := mkTransport kInvalidSocket false.

(** What the kernel answers. *)
Inductive AddressAnswer :=
  | SocketFails (errno : Z)
  | ConnectFails (fd errno : Z)
  | Connects (fd : Z).
Inductive PollAnswer :=
  | PollReady (revents : Z)
  | PollTimeout
  | PollFails (errno : Z).
Inductive RecvAnswer :=
  | Received (size : Z)
  | RecvFails (errno : Z).
Inductive SendAnswer :=
  | Sent (size : Z)
  | SendFails (errno : Z).

Definition timeout_milliseconds (timeout : double) : Z :=
  let milliseconds := fl_ceil 53 1024 (b64_mul timeout (b64_of_Z 1000)) in
  if SFleb (b64_of_Z INT_MAX) milliseconds then INT_MAX else fl_trunc milliseconds.

Section Operations.
Context `{Platform} `{Posix}.

Definition socket_error (operation : string) (errno : Z) : exn :=
  RuntimeError (operation +:+ ": " +:+ strerror errno).

(** The loop over the resolved addresses: [connected_socket], [last_error]. *)
Fixpoint try_addresses (addresses : list AddressAnswer) (last_error : Z) : Z * Z * list Syscall :=
  match addresses with
  | [] => (-1, last_error, [])
  | SocketFails errno :: rest => try_addresses rest errno
  | ConnectFails fd errno :: rest =>
      let '(connected, last_error, calls) := try_addresses rest errno in
      (connected, last_error, SysSocket fd :: SysConnect fd :: SysClose fd :: calls)
  | Connects fd :: _ => (fd, last_error, [SysSocket fd; SysConnect fd])
  end.

(** [connect] up to the lock; [resolved] is the answer of [getaddrinfo]. *)
Definition connect_open (resolved : Z + list AddressAnswer) : result Z * list Syscall :=
  match resolved with
  | inl code => (Throw (RuntimeError ("failed to resolve sensor: " +:+ gai_strerror code)), [])
  | inr addresses =>
      let '(connected, last_error, calls) := try_addresses addresses 0 in
      if connected <? 0 then (Throw (socket_error "failed to connect UDP socket" last_error), calls)
      else (Ok connected, calls)
  end.

Definition connect_install (connected : Z) (t : Transport) : Transport * list Syscall :=
  (mkTransport connected false, if socket_ t =? kInvalidSocket then [] else [SysClose (socket_ t)]).

Definition not_connected : exn := RuntimeError "UDP socket is not connected".

Definition send (request : list Z) (answer : SendAnswer) (t : Transport) : result unit * list Syscall :=
  if socket_ t =? kInvalidSocket then (Throw not_connected, [])
  else
    (match answer with
     | SendFails errno => Throw (socket_error "failed to send UDP request" errno)
     | Sent size =>
         if size =? Z.of_nat (length request) then Ok () else Throw (RuntimeError "short UDP request write")
     end, [SysSend (socket_ t) request]).

(** [receive] up to the wait: the descriptor and the deadline, [None] when it
    returns 0. *)
Definition receive_enter (timeout : double) (now : Z) (t : Transport) : result (option (Z * Z)) :=
  if socket_ t =? kInvalidSocket then Throw not_connected
  else if shutdown_requested_ t then Ok None
  else deadline ← checked_deadline now timeout; Ok (Some (socket_ t, deadline)).

(** What follows a call of [poll]; [now] is read when it was interrupted. *)
Inductive Polled :=
  | PollThrow (e : exn)
  | PollReturn
  | PollAgain (remaining : double)
  | PollGo (revents : Z).

Definition after_poll (answer : PollAnswer) (now deadline : Z) : Polled :=
  match answer with
  | PollReady revents => PollGo revents
  | PollTimeout => PollReturn
  | PollFails errno =>
      if negb (errno =? EINTR) then PollThrow (socket_error "failed to wait for UDP record" errno)
      else if deadline <=? now then PollReturn
      else PollAgain (seconds_of (deadline - now))
  end.

(** The second section of the lock and the test of [revents]: [None] goes on. *)
Definition receive_recheck (revents : Z) (t : Transport) : option (result Z) :=
  if shutdown_requested_ t then Some (Ok 0)
  else if negb (Z.land revents POLLNVAL =? 0) then Some (Throw (RuntimeError "UDP socket became invalid"))
  else None.

Definition receive_finish (answer : RecvAnswer) : result Z :=
  match answer with
  | Received size => Ok size
  | RecvFails errno =>
      if errno =? EINTR then Ok 0 else Throw (socket_error "failed to receive UDP record" errno)
  end.

Definition shutdown (t : Transport) : Transport * list Syscall :=
  (t <| shutdown_requested_ := true |>,
   if socket_ t =? kInvalidSocket then [] else [SysShutdown (socket_ t)]).

Definition close (t : Transport) : Transport * list Syscall :=
  (mkTransport kInvalidSocket true, if socket_ t =? kInvalidSocket then [] else [SysClose (socket_ t)]).

(** The wait of [receive]: the [k]-th call of [poll] gets [polls k] and the clock
    reads [clock k] after it. *)
Fixpoint poll_wait (fuel : nat) (polls : nat → PollAnswer) (clock : nat → Z) (k : nat)
    (fd deadline : Z) (remaining : double) : option (result (option Z) * list Syscall) :=
  match fuel with
  | O => None
  | S fuel =>
      let call := SysPoll fd (timeout_milliseconds remaining) in
      match after_poll (polls k) (clock k) deadline with
      | PollThrow e => Some (Throw e, [call])
      | PollReturn => Some (Ok None, [call])
      | PollGo revents => Some (Ok (Some revents), [call])
      | PollAgain remaining =>
          '(r, calls) ← poll_wait fuel polls clock (S k) fd deadline remaining; Some (r, call :: calls)
      end
  end.

(** The whole [receive]; [t'] is the transport at its second lock. *)
Definition receive (fuel : nat) (polls : nat → PollAnswer) (clock : nat → Z) (answer : RecvAnswer)
    (capacity now : Z) (timeout : double) (t t' : Transport) : option (result Z * list Syscall) :=
  match receive_enter timeout now t with
  | Throw e => Some (Throw e, [])
  | Ok None => Some (Ok 0, [])
  | Ok (Some (fd, deadline)) =>
      '(r, calls) ← poll_wait fuel polls clock 0 fd deadline timeout;
      Some match r with
      | Throw e => (Throw e, calls)
      | Ok None => (Ok 0, calls)
      | Ok (Some revents) =>
          match receive_recheck revents t' with
          | Some r => (r, calls)
          | None => (receive_finish answer, calls ++ [SysRecv fd capacity])
          end
      end
  end.
End Operations.

(** ** Timeouts of [poll] *)

(** [binary64] as a platform of its own, to use the bounds of [Types.v]. *)
Lemma int_max_bound : @ld_bound (mkPlatform LdBinary64 true fl_trunc) INT_MAX.
Proof.
  unfold ld_bound, ld_prec, ld_emax. split_and!; by vm_compute.
Qed.

(** A positive timeout neither spins nor waits forever. *)
Lemma timeout_milliseconds_range x :
  positive_or_overflow x → valid64 x = true → 1 ≤ timeout_milliseconds x ≤ INT_MAX.
Proof.
  intros [->|(m & e & ->)] Hv; [by vm_compute|]. unfold timeout_milliseconds. cbv zeta.
  assert (b64_of_Z 1000 = S754_finite false 8796093022208000 (-43)) as -> by done.
  pose proof (SFmul_valid 53 1024 eq_refl eq_refl (S754_finite false m e)
    (S754_finite false 8796093022208000 (-43)) Hv eq_refl) as Hmv.
  destruct (SFmul_positive 53 1024 eq_refl eq_refl m e 8796093022208000 (-43) Hv eq_refl eq_refl)
    as [Hm|(m3 & e3 & Hm)]; rewrite Hm in *; [by vm_compute|].
  destruct (fl_ceil_positive 53 1024 eq_refl eq_refl m3 e3 Hmv) as (H1 & Hf & Hcval & Hpos).
  case_split; [by vm_compute|]. split; [done|].
  by apply (@fl_trunc_below (mkPlatform LdBinary64 true fl_trunc) INT_MAX _ int_max_bound).
Qed.

Lemma seconds_of_positive d : 0 < d → positive_or_overflow (seconds_of d) ∧ valid64 (seconds_of d) = true.
Proof.
  intros Hd. unfold seconds_of. split;
    [|apply SFdiv_valid; (done || by apply fl_of_Z_valid)].
  assert (b64_of_Z period_den = S754_finite false 8388608000000000 (-23)) as -> by done.
  destruct (fl_of_Z_positive 53 1024 eq_refl eq_refl d Hd) as [->|(m & e & -> & He & _)]; [by left|].
  apply SFdiv_positive; [done..|]. change (Zdigits2 8388608000000000) with 53. unfold emin. lia.
Qed.

(** ** The wait of [receive] *)

Section Receive.
Context `{Platform} `{Posix}.

(** When a wait is certain to be over. *)
Definition poll_ends (polls : nat → PollAnswer) (clock : nat → Z) (deadline : Z) (n : nat) : Prop :=
  polls n ≠ PollFails EINTR ∨ deadline ≤ clock n.

Lemma poll_wait_ends polls clock fd deadline n fuel k remaining :
  poll_ends polls clock deadline n → (k ≤ n)%nat → (n < k + fuel)%nat →
  positive_or_overflow remaining → valid64 remaining = true →
  ∃ r calls, poll_wait fuel polls clock k fd deadline remaining = Some (r, calls) ∧
    (length calls ≤ S (n - k))%nat ∧
    ∀ c, c ∈ calls → ∃ ms, c = SysPoll fd ms ∧ 1 ≤ ms ≤ INT_MAX.
Proof.
  intros Hn. revert k remaining. induction fuel as [|fuel IH]; intros k remaining Hk Hf Hp Hv; [lia|].
  assert (∀ c, c = SysPoll fd (timeout_milliseconds remaining) → ∃ ms, c = SysPoll fd ms ∧ 1 ≤ ms ≤ INT_MAX)
    as Hcall by (intros c ->; eexists; split; [done|by apply timeout_milliseconds_range]).
  assert (∀ r : result (option Z), ∃ r' calls, Some (r, [SysPoll fd (timeout_milliseconds remaining)]) = Some (r', calls) ∧
    (length calls ≤ S (n - k))%nat ∧ ∀ c, c ∈ calls → ∃ ms, c = SysPoll fd ms ∧ 1 ≤ ms ≤ INT_MAX) as Hstop.
  { intros r. eexists _, _. split_and!; [done|cbn; lia|]. intros c Hc%list_elem_of_singleton. by apply Hcall. }
  cbn [poll_wait]. destruct (after_poll (polls k) (clock k) deadline) as [e| |rem|revents] eqn:Ha; try apply Hstop.
  unfold after_poll in Ha. destruct (polls k) as [|errno|errno] eqn:Hpk; try done.
  case_split_in Ha; [done|]. case_split_in Ha; [done|]. injection Ha as <-.
  apply negb_false_iff, Z.eqb_eq in Heqb. subst errno. apply Z.leb_gt in Heqb0.
  destruct (seconds_of_positive (deadline - clock k)) as [Hp' Hv']; [lia|].
  assert (k ≠ n) by (intros ->; destruct Hn; [congruence|lia]).
  destruct (IH (S k) _ ltac:(lia) ltac:(lia) Hp' Hv') as (r & calls & -> & Hl & Hc). cbn [mbind option_bind].
  eexists _, _. split_and!; [done|cbn; lia|]. intros c [->|Hin]%elem_of_cons; [by apply Hcall|by apply Hc].
Qed.

Lemma poll_wait_result polls clock fd deadline fuel k remaining revents calls :
  poll_wait fuel polls clock k fd deadline remaining = Some (Ok (Some revents), calls) →
  ∃ n, polls n = PollReady revents.
Proof.
  revert k remaining calls. induction fuel as [|fuel IH]; cbn; intros k remaining calls; [done|].
  destruct (after_poll _ _ _) as [e| |rem|ev] eqn:Ha; try done.
  - intros ([r calls'] & Hw & [= -> <-])%bind_Some. by eapply IH.
  - intros [= -> <-]. exists k. unfold after_poll in Ha. destruct (polls k); try done; [congruence|].
    by repeat case_split_in Ha.
Qed.

(** C27: [receive] returns: for a positive timeout, once one of its [poll] calls
    is not interrupted or the clock has reached the deadline ([poll_ends] at
    index [n]) at most [n + 2] system calls were made, all on the socket it
    found; every [poll] is asked to wait between 1 ms and [INT_MAX] ms, never
    without a limit; data are delivered only from [recv] after a successful
    [poll], and none once [shutdown] was requested. *)
Theorem receive_ends polls clock answer capacity now timeout t t' n fuel :
  positive_or_overflow timeout → valid64 timeout = true → (n < fuel)%nat →
  (∀ fd deadline, receive_enter timeout now t = Ok (Some (fd, deadline)) → poll_ends polls clock deadline n) →
  ∃ r calls, receive fuel polls clock answer capacity now timeout t t' = Some (r, calls) ∧
    (length calls ≤ n + 2)%nat ∧
    (∀ c, c ∈ calls → (∃ ms, c = SysPoll (socket_ t) ms ∧ 1 ≤ ms ≤ INT_MAX) ∨
       (c = SysRecv (socket_ t) capacity ∧ shutdown_requested_ t' = false ∧ r = receive_finish answer ∧
        ∃ k revents, polls k = PollReady revents ∧ Z.land revents POLLNVAL = 0)) ∧
    (∀ size, r = Ok size → size ≠ 0 → answer = Received size ∧ SysRecv (socket_ t) capacity ∈ calls).
Proof.
  intros Hp Hv Hn Hend. unfold receive.
  assert (∀ (r : result Z) calls, (∀ size, r = Ok size → size = 0) → (length calls ≤ n + 2)%nat →
    (∀ c, c ∈ calls → ∃ ms, c = SysPoll (socket_ t) ms ∧ 1 ≤ ms ≤ INT_MAX) →
    ∃ r' calls', Some (r, calls) = Some (r', calls') ∧ (length calls' ≤ n + 2)%nat ∧
    (∀ c, c ∈ calls' → (∃ ms, c = SysPoll (socket_ t) ms ∧ 1 ≤ ms ≤ INT_MAX) ∨
       (c = SysRecv (socket_ t) capacity ∧ shutdown_requested_ t' = false ∧ r' = receive_finish answer ∧
        ∃ k revents, polls k = PollReady revents ∧ Z.land revents POLLNVAL = 0)) ∧
    (∀ size, r' = Ok size → size ≠ 0 → answer = Received size ∧ SysRecv (socket_ t) capacity ∈ calls'))
    as Hquiet.
  { intros r calls Hr Hl Hc. eexists _, _. split_and!; [done|done|eauto|naive_solver]. }
  destruct (receive_enter timeout now t) as [[[fd deadline]|]|e] eqn:He.
  2, 3: apply Hquiet; [naive_solver|cbn; lia|by intros c ?%not_elem_of_nil].
  assert (fd = socket_ t) as ->.
  { unfold receive_enter in He. case_split_in He; [done|]. case_split_in He; [done|].
    inv_ok. congruence. }
  destruct (poll_wait_ends polls clock (socket_ t) deadline n fuel 0 timeout (Hend _ _ eq_refl))
    as (r & calls & Hw & Hl & Hc); [lia|lia|done|done|].
  rewrite Hw. cbn [mbind option_bind]. rewrite Nat.sub_0_r in Hl.
  destruct r as [[revents|]|e]; [|apply Hquiet; [naive_solver|lia|done]..].
  destruct (poll_wait_result _ _ _ _ _ _ _ _ _ Hw) as [k Hk].
  unfold receive_recheck. destruct (shutdown_requested_ t') eqn:Hs; [apply Hquiet; [naive_solver|lia|done]|].
  destruct (Z.eqb_spec (Z.land revents POLLNVAL) 0) as [Hnv|]; cbn [negb];
    [|apply Hquiet; [naive_solver|lia|done]].
  eexists _, _. split_and!; [done|rewrite length_app; cbn; lia| |].
  - intros c [?|Hc'%list_elem_of_singleton]%elem_of_app; [left; by apply Hc|right]. eauto 10.
  - intros size Hr Hsz. split; [|apply elem_of_app; right; by apply list_elem_of_singleton].
    unfold receive_finish in Hr. destruct answer; [congruence|]. case_split_in Hr; congruence.
Qed.
End Receive.

(** ** Who owns the descriptors

    The receiver's thread makes one call of [connect], [receive] or [close] at a
    time; [send] and [shutdown] come from any thread, between any two steps. *)
Inductive ReceiverPc :=
  | RIdle
  | RInstall (connected : Z)              (* before the lock of [connect] *)
  | RPoll (fd deadline : Z) (remaining : double)
  | RPolled (fd revents : Z)
  | RRecv (fd : Z).

Record System := mkSystem { transport : Transport; receiver : ReceiverPc }.
Definition system_init : System := mkSystem transport_init RIdle.

Inductive Action :=
  | AConnect (resolved : Z + list AddressAnswer)
  | AInstall
  | AReceive (timeout : double) (now : Z)
  | APoll (answer : PollAnswer) (now : Z)
  | ARecheck
  | ARecv (answer : RecvAnswer) (capacity : Z)
  | AClose
  | ASend (request : list Z) (answer : SendAnswer)
  | AShutdown.

Section Machine.
Context `{Platform} `{Posix}.

Definition transport_step (a : Action) (s : System) : option (System * list Syscall) :=
  let t := transport s in
  match a, receiver s with
  | AConnect resolved, RIdle =>
      let '(r, calls) := connect_open resolved in
      Some (mkSystem t (match r with Ok fd => RInstall fd | Throw _ => RIdle end), calls)
  | AInstall, RInstall fd => let '(t, calls) := connect_install fd t in Some (mkSystem t RIdle, calls)
  | AReceive timeout now, RIdle =>
      Some (mkSystem t (match receive_enter timeout now t with
                        | Ok (Some (fd, deadline)) => RPoll fd deadline timeout
                        | _ => RIdle
                        end), [])
  | APoll answer now, RPoll fd deadline remaining =>
      Some (mkSystem t (match after_poll answer now deadline with
                        | PollAgain remaining => RPoll fd deadline remaining
                        | PollGo revents => RPolled fd revents
                        | _ => RIdle
                        end), [SysPoll fd (timeout_milliseconds remaining)])
  | ARecheck, RPolled fd revents =>
      Some (mkSystem t (match receive_recheck revents t with Some _ => RIdle | None => RRecv fd end), [])
  | ARecv answer capacity, RRecv fd => Some (mkSystem t RIdle, [SysRecv fd capacity])
  | AClose, RIdle => let '(t, calls) := close t in Some (mkSystem t RIdle, calls)
  | ASend request answer, _ => Some (s, snd (send request answer t))
  | AShutdown, pc => let '(t, calls) := shutdown t in Some (mkSystem t pc, calls)
  | _, _ => None
  end.

(** The table of open descriptors; [None] when a call names none of them, or a
    new one that is open already. *)
Definition kernel_call (c : Syscall) (open : gset Z) : option (gset Z) :=
  match c with
  | SysSocket fd => if bool_decide (fd ∈ open) then None else Some ({[fd]} ∪ open)
  | SysClose fd => if bool_decide (fd ∈ open) then Some (open ∖ {[fd]}) else None
  | SysConnect fd | SysSend fd _ | SysShutdown fd | SysPoll fd _ | SysRecv fd _ =>
      if bool_decide (fd ∈ open) then Some open else None
  end.
Fixpoint kernel_run (calls : list Syscall) (open : gset Z) : option (gset Z) :=
  match calls with
  | [] => Some open
  | c :: calls => open ← kernel_call c open; kernel_run calls open
  end.

(** A descriptor that [socket] returns is a nonnegative [int] and not open. *)
Definition answered (x : AddressAnswer) : list Z :=
  match x with SocketFails _ => [] | ConnectFails fd _ | Connects fd => [fd] end.
Definition descriptor (fd : Z) : Prop := 0 ≤ fd ≤ INT_MAX.
Definition fresh_answers (a : Action) (open : gset Z) : Prop :=
  match a with
  | AConnect (inr addresses) => ∀ x fd, x ∈ addresses → fd ∈ answered x → fd ∉ open ∧ descriptor fd
  | _ => True
  end.

Inductive transport_execution : list Syscall → System → Prop :=
  | transport_start : transport_execution [] system_init
  | transport_next a calls s s' new :
      transport_execution calls s →
      (∀ open, kernel_run calls ∅ = Some open → fresh_answers a open) →
      transport_step a s = Some (s', new) → transport_execution (calls ++ new) s'.

(** What the transport is responsible for. *)
Definition installed (t : Transport) : gset Z :=
  if socket_ t =? kInvalidSocket then ∅ else {[socket_ t]}.
Definition owned_descriptors (s : System) : gset Z :=
  installed (transport s) ∪ match receiver s with RInstall fd => {[fd]} | _ => ∅ end.

Definition system_ok (s : System) : Prop :=
  (socket_ (transport s) = kInvalidSocket ∨ descriptor (socket_ (transport s))) ∧
  match receiver s with
  | RIdle => True
  | RInstall fd => descriptor fd ∧ fd ≠ socket_ (transport s)
  | RPoll fd _ _ | RPolled fd _ | RRecv fd =>
      fd = socket_ (transport s) ∧ socket_ (transport s) ≠ kInvalidSocket
  end.

Lemma descriptor_valid fd : descriptor fd → fd ≠ kInvalidSocket.
Proof. unfold descriptor. intros [_ Hle] ->. revert Hle. by vm_compute. Qed.

Lemma kernel_run_app calls calls' open :
  kernel_run (calls ++ calls') open = kernel_run calls open ≫= kernel_run calls'.
Proof.
  revert open. induction calls as [|c calls IH]; intros open; [done|]. cbn.
  destruct (kernel_call c open); [apply IH|done].
Qed.

Lemma kernel_use open fd c :
  fd ∈ open → (∀ open, kernel_call c open = if bool_decide (fd ∈ open) then Some open else None) →
  kernel_run [c] open = Some open.
Proof. intros Hin Hc. cbn. rewrite Hc, bool_decide_eq_true_2 by done. done. Qed.

(** A socket that did not connect is closed; one that did stays. *)
Lemma kernel_refused fd calls open :
  fd ∉ open → kernel_run (SysSocket fd :: SysConnect fd :: SysClose fd :: calls) open = kernel_run calls open.
Proof.
  intros Hfd. cbn [kernel_run kernel_call]. rewrite bool_decide_eq_false_2 by done. cbn [mbind option_bind].
  rewrite !bool_decide_eq_true_2 by set_solver. cbn [mbind option_bind].
  rewrite bool_decide_eq_true_2 by set_solver. cbn [mbind option_bind].
  by assert (({[fd]} ∪ open) ∖ {[fd]} = open) as -> by set_solver.
Qed.

Lemma kernel_connected fd open :
  fd ∉ open → kernel_run [SysSocket fd; SysConnect fd] open = Some ({[fd]} ∪ open).
Proof.
  intros Hfd. cbn [kernel_run kernel_call]. rewrite bool_decide_eq_false_2 by done. cbn [mbind option_bind].
  by rewrite bool_decide_eq_true_2 by set_solver.
Qed.

(** The loop over the addresses closes what it does not keep. *)
Lemma try_addresses_kernel addresses open err :
  (∀ x fd, x ∈ addresses → fd ∈ answered x → fd ∉ open ∧ descriptor fd) →
  let '(connected, _, calls) := try_addresses addresses err in
  (connected < 0 ∧ kernel_run calls open = Some open) ∨
  (descriptor connected ∧ connected ∉ open ∧ kernel_run calls open = Some ({[connected]} ∪ open)).
Proof.
  revert err. induction addresses as [|[e|fd e|fd] addresses IH]; intros err Hf; cbn [try_addresses];
    [left; by split; [lia|]|assert (∀ x fd, x ∈ addresses → fd ∈ answered x → fd ∉ open ∧ descriptor fd) as Hf'
      by (intros ? ? ? ?; eapply Hf; [by apply list_elem_of_further|done])..].
  - by apply IH.
  - specialize (IH e). destruct (try_addresses addresses e) as [[connected err'] calls].
    destruct (Hf (ConnectFails fd e) fd) as [Hfd _]; [by apply list_elem_of_here..|].
    rewrite kernel_refused by done. by apply IH.
  - right. destruct (Hf (Connects fd) fd) as [Hfd Hd]; [by apply list_elem_of_here..|]. split_and!; [done|done|].
    by apply kernel_connected.
Qed.

Lemma installed_none t : socket_ t = kInvalidSocket → installed t = ∅.
Proof. intros Ht. unfold installed. by rewrite Ht, Z.eqb_refl. Qed.
Lemma installed_some t : socket_ t ≠ kInvalidSocket → installed t = {[socket_ t]}.
Proof. intros Ht. unfold installed. by destruct (Z.eqb_spec (socket_ t) kInvalidSocket). Qed.

(** Calls on the installed socket. *)
Lemma use_installed c t rest :
  socket_ t ≠ kInvalidSocket →
  (∀ open, kernel_call c open = if bool_decide (socket_ t ∈ open) then Some open else None) →
  kernel_run [c] (installed t ∪ rest) = Some (installed t ∪ rest).
Proof. intros Ht. apply kernel_use. rewrite installed_some by done. set_solver. Qed.

Lemma close_installed t rest :
  socket_ t ∉ rest →
  kernel_run (if socket_ t =? kInvalidSocket then [] else [SysClose (socket_ t)]) (installed t ∪ rest) =
    Some rest.
Proof.
  intros Hn. destruct (Z.eqb_spec (socket_ t) kInvalidSocket) as [Ht|Ht].
  - cbn [kernel_run]. rewrite installed_none by done. f_equal. set_solver.
  - rewrite installed_some by done. cbn [kernel_run kernel_call].
    rewrite bool_decide_eq_true_2 by set_solver. cbn [mbind option_bind]. f_equal. set_solver.
Qed.

Lemma send_calls request answer t rest :
  kernel_run (snd (send request answer t)) (installed t ∪ rest) = Some (installed t ∪ rest).
Proof.
  unfold send. destruct (Z.eqb_spec (socket_ t) kInvalidSocket); [done|]. cbn [snd]. by apply use_installed.
Qed.

Lemma shutdown_calls t rest :
  kernel_run (snd (shutdown t)) (installed t ∪ rest) = Some (installed t ∪ rest).
Proof.
  unfold shutdown. cbn [snd]. destruct (Z.eqb_spec (socket_ t) kInvalidSocket); [done|]. by apply use_installed.
Qed.

Lemma receive_enter_some timeout now t fd deadline :
  receive_enter timeout now t = Ok (Some (fd, deadline)) → fd = socket_ t ∧ socket_ t ≠ kInvalidSocket.
Proof.
  unfold receive_enter. destruct (Z.eqb_spec (socket_ t) kInvalidSocket); [done|]. case_split; [done|].
  intros He. inv_ok. by simplify_eq.
Qed.

Lemma connect_step resolved open :
  fresh_answers (AConnect resolved) open →
  let '(r, calls) := connect_open resolved in
  match r with
  | Ok fd => descriptor fd ∧ fd ∉ open ∧ kernel_run calls open = Some ({[fd]} ∪ open)
  | Throw _ => kernel_run calls open = Some open
  end.
Proof.
  destruct resolved as [code|addresses]; [done|]. cbn [connect_open fresh_answers]. intros Hf.
  pose proof (try_addresses_kernel addresses open 0 Hf) as Hk.
  destruct (try_addresses addresses 0) as [[fd err] calls].
  destruct Hk as [[Hfd Hk]|[Hd [Hn Hk]]].
  - by rewrite (proj2 (Z.ltb_lt fd 0) Hfd).
  - by rewrite (proj2 (Z.ltb_ge fd 0) (proj1 Hd)).
Qed.

Lemma transport_step_ok a s s' new :
  system_ok s → fresh_answers a (owned_descriptors s) → transport_step a s = Some (s', new) →
  system_ok s' ∧ kernel_run new (owned_descriptors s) = Some (owned_descriptors s').
Proof.
  destruct s as [t pc]. intros [Ht Hp] Hf. unfold system_ok, owned_descriptors in *. cbn [transport receiver] in *.
  destruct a as [resolved| |timeout now|answer now| |answer capacity| |request answer|]; cbn [transport_step].
  8: { intros [= <- <-]. split; [done|]. apply send_calls. }
  8: { intros [= <- <-]. split; [by destruct pc|]. exact (shutdown_calls t _). }
  all: destruct pc as [|fd|fd deadline remaining|fd revents|fd]; try done.
  - rewrite (right_id_L ∅ (∪)) in *. pose proof (connect_step resolved (installed t) Hf) as Hc.
    destruct (connect_open resolved) as [[fd|e] calls]; intros [= <- <-]; cbn [receiver].
    + destruct Hc as (Hd & Hn & ->). split; [|f_equal; set_solver]. split; [done|]. split; [done|].
      cbn [transport]. intros E. apply Hn. rewrite installed_some by (rewrite <- E; by apply descriptor_valid). set_solver.
    + rewrite Hc. split; [done|]. f_equal. set_solver.
  - intros [= <- <-]. destruct Hp as [Hd Hne]. cbn [transport receiver socket_]. split; [auto|].
    rewrite close_installed by set_solver. f_equal.
    rewrite (installed_some (mkTransport fd false)) by (by apply descriptor_valid). cbn [socket_]. set_solver.
  - intros [= <- <-]. cbn [transport receiver].
    destruct (receive_enter timeout now t) as [[[fd deadline]|]|e] eqn:He; [|done..].
    apply receive_enter_some in He as [-> ?]. done.
  - destruct Hp as [-> Hv]. intros [= <- <-]. cbn [transport receiver].
    assert (kernel_run [SysPoll (socket_ t) (timeout_milliseconds remaining)] (installed t ∪ ∅) =
      Some (installed t ∪ ∅)) as -> by (by apply use_installed).
    by destruct (after_poll _ _ _).
  - intros [= <- <-]. cbn [transport receiver]. by destruct (receive_recheck revents t).
  - destruct Hp as [-> Hv]. intros [= <- <-]. cbn [transport receiver]. split; [done|]. by apply use_installed.
  - intros [= <- <-]. cbn [transport receiver socket_]. split; [auto|].
    by rewrite close_installed by set_solver.
Qed.

(** At most the installed descriptor and one more. *)
Lemma owned_size t (rest : gset Z) : (size rest ≤ 1)%nat → (size (installed t ∪ rest) ≤ 2)%nat.
Proof.
  intros Hr. rewrite size_union_alt.
  assert (size (rest ∖ installed t) ≤ size rest)%nat by (apply subseteq_size; set_solver).
  assert (size (installed t) ≤ 1)%nat
    by (unfold installed; case_split; rewrite ?size_singleton, ?size_empty; lia).
  lia.
Qed.

(** C26: descriptors are neither leaked nor misused: after any sequence of
    [connect], [receive] and [close] of the receiver, interleaved with [send] and
    [shutdown] of other threads and failing where the kernel makes them fail,
    every system call was made on a descriptor open at that time, no descriptor
    was closed twice, and the open ones are exactly the installed socket and the
    one [connect] is about to install; after [close] there is none. *)
Theorem descriptors_owned calls s :
  transport_execution calls s →
  kernel_run calls ∅ = Some (owned_descriptors s) ∧
  (size (owned_descriptors s) ≤ 2)%nat ∧
  (∀ s' new, transport_step AClose s = Some (s', new) → kernel_run (calls ++ new) ∅ = Some ∅).
Proof.
  intros Hx.
  assert (system_ok s ∧ kernel_run calls ∅ = Some (owned_descriptors s)) as [Hok Hk].
  { induction Hx as [|a calls s s' new Hx [IH1 IH2] Hf Hs].
    - split; [by split; [left|]|]. cbn [kernel_run]. f_equal.
    - destruct (transport_step_ok a s s' new IH1 (Hf _ IH2) Hs) as [? Hk]. split; [done|].
      by rewrite kernel_run_app, IH2. }
  split_and!; [done| |].
  - apply owned_size. destruct (receiver s); rewrite ?size_singleton, ?size_empty; lia.
  - intros s' new Hs. rewrite kernel_run_app, Hk. cbn [mbind option_bind].
    destruct (transport_step_ok AClose s s' new Hok I Hs) as [_ ->]. cbn [transport_step] in Hs.
    destruct (receiver s); try done. injection Hs as <- _. done.
Qed.
End Machine.

(** ** Examples *)

Definition linux_posix : Posix :=
  mkPosix (λ e, "errno " +:+ pretty e) (λ e, "resolver error " +:+ pretty e) 4 32.

Definition connected_example : Transport := mkTransport 7 false.
Definition interrupted_polls (k : nat) : PollAnswer :=
  match k with O => PollFails 4 | _ => PollReady 1 end.

Example interrupted_receive :
  @receive linux_x86_64 linux_posix 2 interrupted_polls (λ _, 60000000) (Received 36) 36 0 (b64_ratio 1 10)
    connected_example connected_example =
  Some (Ok 36, [SysPoll 7 100; SysPoll 7 40; SysRecv 7 36]).
Proof. vm_compute. reflexivity. Qed.

Lemma receive_ends_witness :
  ∃ r calls, @receive linux_x86_64 linux_posix 2 interrupted_polls (λ _, 60000000) (Received 36) 36 0
      (b64_ratio 1 10) connected_example connected_example = Some (r, calls) ∧ (length calls ≤ 1 + 2)%nat.
Proof.
  destruct (@receive_ends linux_x86_64 linux_posix interrupted_polls (λ _, 60000000) (Received 36) 36 0
    (b64_ratio 1 10) connected_example connected_example 1 2) as (r & calls & Hr & Hl & _).
  - right. eexists _, _. vm_compute. reflexivity.
  - vm_compute. reflexivity.
  - lia.
  - intros fd deadline _. left. discriminate.
  - exists r, calls. split; [exact Hr|exact Hl].
Defined.

(** Two addresses, of which the first refuses; a shutdown and the end. *)
Lemma example_execution :
  @transport_execution linux_x86_64 linux_posix
    ((([] ++ [SysSocket 5; SysConnect 5; SysClose 5; SysSocket 5; SysConnect 5]) ++ []) ++ [SysShutdown 5])
    (mkSystem (mkTransport 5 true) RIdle).
Proof.
  refine (@transport_next linux_x86_64 linux_posix AShutdown _ (mkSystem (mkTransport 5 false) RIdle) _ _ _ _ _);
    [|done|vm_compute; reflexivity].
  refine (@transport_next linux_x86_64 linux_posix AInstall _ (mkSystem transport_init (RInstall 5)) _ [] _ _ _);
    [|done|vm_compute; reflexivity].
  refine (@transport_next linux_x86_64 linux_posix (AConnect (inr [ConnectFails 5 111; Connects 5]))
    [] system_init _ _ _ _ _); [constructor| |vm_compute; reflexivity].
  cbn. intros open [= <-] x fd [->|[->|[]%not_elem_of_nil]%elem_of_cons]%elem_of_cons ->%list_elem_of_singleton;
    (split; [set_solver|by vm_compute]).
Qed.

Lemma descriptors_owned_witness :
  kernel_run ((([] ++ [SysSocket 5; SysConnect 5; SysClose 5; SysSocket 5; SysConnect 5]) ++ []) ++ [SysShutdown 5]) ∅ =
    Some (owned_descriptors (mkSystem (mkTransport 5 true) RIdle)).
Proof. exact (proj1 (@descriptors_owned linux_x86_64 linux_posix _ _ example_execution)). Defined.
