(* ===== verification/TransportWindows.v ===== *)
(** * The UDP transport on Windows

    [detail/udp_transport_windows.cpp]: every operation, the WinSock runtime around
    them, and the interleaving with [send] and [shutdown] of other threads.  The wait
    of [receive] is cut into slices of 50 ms, and the flag of [shutdown] is read
    before each, because a blocked [WSAPoll] is not woken.  What the two transports
    have in common (the object, the system calls, the table of open descriptors) is
    that of [Transport.v]. *)

From stdpp Require Import gmap.
From S2P Require Import Prelude Floating Types ClientImpl Transport.

(** What the WinSock headers provide. *)
Class WinSock := mkWinSock {
  WSAEINTR : Z; WSAESHUTDOWN : Z; WSAECONNRESET : Z; WSAENOTSOCK : Z; WSAEHOSTUNREACH : Z;
  W_POLLERR : Z; W_POLLHUP : Z; W_POLLNVAL : Z
}.

Section Operations.
Context `{Platform} `{WinSock}.

Definition winsock_error (operation : string) (error : Z) : exn :=
  RuntimeError (operation +:+ " (WinSock error " +:+ pretty error +:+ ")").

(** The loop over the addresses: [connected_socket], [last_error]. *)
Fixpoint w_try_addresses (addresses : list AddressAnswer) (connected last_error : Z) : Z * Z * list Syscall :=
  match addresses with
  | [] => (connected, last_error, [])
  | SocketFails error :: rest => w_try_addresses rest kInvalidSocket error
  | ConnectFails fd error :: rest =>
      let '(connected, last_error, calls) := w_try_addresses rest kInvalidSocket error in
      (connected, last_error, SysSocket fd :: SysConnect fd :: SysClose fd :: calls)
  | Connects fd :: _ => (fd, last_error, [SysSocket fd; SysConnect fd])
  end.

Definition w_connect_open (resolved : Z + list AddressAnswer) : result Z * list Syscall :=
  match resolved with
  | inl code => (Throw (winsock_error "failed to resolve sensor" code), [])
  | inr addresses =>
      let '(connected, last_error, calls) := w_try_addresses addresses kInvalidSocket WSAEHOSTUNREACH in
      if connected =? kInvalidSocket
      then (Throw (winsock_error "failed to connect UDP socket" last_error), calls)
      else (Ok connected, calls)
  end.

Definition w_send (request : list Z) (answer : SendAnswer) (t : Transport) : result unit * list Syscall :=
  if socket_ t =? kInvalidSocket then (Throw not_connected, [])
  else
    (match answer with
     | SendFails error => Throw (winsock_error "failed to send UDP request" error)
     | Sent size =>
         if size =? Z.of_nat (length request) then Ok () else Throw (RuntimeError "short UDP request write")
     end, [SysSend (socket_ t) request]).

Definition w_receive_enter (timeout : double) (now : Z) (t : Transport) : result (option (Z * Z)) :=
  if socket_ t =? kInvalidSocket then Throw not_connected
  else if shutdown_requested_ t then Ok None
  else
    _ ← checked_duration timeout;
    deadline ← checked_deadline now timeout; Ok (Some (socket_ t, deadline)).

Definition kShutdownCheckIntervalMilliseconds : Z := 50.
(** [duration<double>{milliseconds{50}}]. *)
Definition kShutdownCheckInterval : double :=
  b64_div (b64_of_Z kShutdownCheckIntervalMilliseconds) (b64_of_Z 1000).

(** The argument of one [WSAPoll]. *)
Definition slice_milliseconds (remaining : Z) : Z :=
  let poll_timeout :=
    if 0 <? remaining then
      if SFltb kShutdownCheckInterval (seconds_of remaining) then kShutdownCheckInterval else seconds_of remaining
    else d0 in
  Z.min kShutdownCheckIntervalMilliseconds (timeout_milliseconds poll_timeout).

(** What one pass of the wait finds: the flag, the clock before the poll, its
    answer, the clock after it. *)
Record Slice := mkSlice { s_shutdown : bool; s_before : Z; s_poll : PollAnswer; s_after : Z }.

Fixpoint w_poll_wait (fuel : nat) (slices : nat → Slice) (k : nat) (fd deadline : Z)
    : option (result (option Z) * list Syscall) :=
  match fuel with
  | O => None
  | S fuel =>
      let s := slices k in
      if s_shutdown s then Some (Ok None, [])
      else
        let call := SysPoll fd (slice_milliseconds (deadline - s_before s)) in
        match s_poll s with
        | PollFails error =>
            Some (if error =? WSAEINTR then Ok None
                  else Throw (winsock_error "failed to wait for UDP record" error), [call])
        | PollReady revents => Some (Ok (Some revents), [call])
        | PollTimeout =>
            if deadline <=? s_after s then Some (Ok None, [call])
            else '(r, calls) ← w_poll_wait fuel slices (S k) fd deadline; Some (r, call :: calls)
        end
  end.

(** [so_error] is what [getsockopt] answers, if it does. *)
Definition socket_wait_error (events : Z) (so_error : option Z) : Z :=
  if negb (Z.land events W_POLLNVAL =? 0) then WSAENOTSOCK
  else match so_error with
  | Some error =>
      if negb (Z.land events W_POLLERR =? 0) && negb (error =? 0) then error else WSAECONNRESET
  | None => WSAECONNRESET
  end.

Definition w_receive_recheck (revents : Z) (so_error : option Z) (t : Transport) : option (result Z) :=
  if shutdown_requested_ t then Some (Ok 0)
  else if negb (Z.land revents (Z.lor W_POLLERR (Z.lor W_POLLHUP W_POLLNVAL)) =? 0) then
    Some (Throw (winsock_error "failed to wait for UDP record" (socket_wait_error revents so_error)))
  else None.

(** [t] is the transport when the error of [recv] is looked at. *)
Definition w_receive_finish (answer : RecvAnswer) (t : Transport) : result Z :=
  match answer with
  | Received size => Ok size
  | RecvFails error =>
      if shutdown_requested_ t then Ok 0
      else if (error =? WSAEINTR) || (error =? WSAESHUTDOWN) then Ok 0
      else Throw (winsock_error "failed to receive UDP record" error)
  end.

Definition w_connect_install (connected : Z) (t : Transport) : Transport * list Syscall :=
  (mkTransport connected false, if negb (socket_ t =? kInvalidSocket) then [SysClose (socket_ t)] else []).

Definition w_shutdown (t : Transport) : Transport * list Syscall :=
  (t <| shutdown_requested_ := true |>,
   if negb (socket_ t =? kInvalidSocket) then [SysShutdown (socket_ t)] else []).

Definition w_close (t : Transport) : Transport * list Syscall :=
  let t := t <| shutdown_requested_ := true |> in
  if negb (socket_ t =? kInvalidSocket)
  then (t <| socket_ := kInvalidSocket |>, [SysClose (socket_ t)]) else (t, []).

(** The whole [receive]; [t1] and [t2] are the transport at its last two locks. *)
Definition w_receive (fuel : nat) (slices : nat → Slice) (so_error : option Z) (answer : RecvAnswer)
    (capacity now : Z) (timeout : double) (t t1 t2 : Transport) : option (result Z * list Syscall) :=
  match w_receive_enter timeout now t with
  | Throw e => Some (Throw e, [])
  | Ok None => Some (Ok 0, [])
  | Ok (Some (fd, deadline)) =>
      '(r, calls) ← w_poll_wait fuel slices 0 fd deadline;
      Some match r with
      | Throw e => (Throw e, calls)
      | Ok None => (Ok 0, calls)
      | Ok (Some revents) =>
          match w_receive_recheck revents so_error t1 with
          | Some r => (r, calls)
          | None => (w_receive_finish answer t2, calls ++ [SysRecv fd (Z.min capacity INT_MAX)])
          end
      end
  end.
End Operations.

(** ** The wait *)

Lemma slice_milliseconds_range remaining : 0 ≤ slice_milliseconds remaining ≤ 50.
Proof.
  unfold slice_milliseconds, kShutdownCheckIntervalMilliseconds.
  assert (∀ x, 0 ≤ timeout_milliseconds x → 0 ≤ Z.min 50 (timeout_milliseconds x) ≤ 50) as Hmin by (intros; lia).
  case_split; [|by vm_compute]. apply Z.ltb_lt in Heqb.
  destruct (seconds_of_positive remaining Heqb) as [Hp Hv].
  case_split; apply Hmin; [by vm_compute|]. pose proof (timeout_milliseconds_range _ Hp Hv). lia.
Qed.

Section Wait.
Context `{Platform} `{WinSock}.

(** A pass that ends the wait: the flag is set, the poll has something to say, or
    the deadline has passed. *)
Definition slice_ends (s : Slice) (deadline : Z) : Prop :=
  s_shutdown s = true ∨ s_poll s ≠ PollTimeout ∨ deadline ≤ s_after s.

Lemma w_poll_wait_ends slices fd deadline n fuel k :
  slice_ends (slices n) deadline → (k ≤ n)%nat → (n < k + fuel)%nat →
  ∃ r calls, w_poll_wait fuel slices k fd deadline = Some (r, calls) ∧
    (length calls ≤ n - k + (if s_shutdown (slices n) then 0 else 1))%nat ∧
    (∀ c, c ∈ calls → ∃ ms, c = SysPoll fd ms ∧ 0 ≤ ms ≤ 50) ∧
    (∀ revents, r = Ok (Some revents) → ∃ j, s_poll (slices j) = PollReady revents).
Proof.
  intros Hn. revert k. induction fuel as [|fuel IH]; intros k Hk Hf; [lia|]. cbn [w_poll_wait].
  assert (∀ x c, c ∈ [SysPoll fd (slice_milliseconds x)] → ∃ ms, c = SysPoll fd ms ∧ 0 ≤ ms ≤ 50) as Hcall.
  { intros x c ->%list_elem_of_singleton. eexists. split; [done|apply slice_milliseconds_range]. }
  destruct (s_shutdown (slices k)) eqn:Hs.
  { eexists _, _. split_and!; [done|cbn; lia|by intros c ?%not_elem_of_nil|done]. }
  assert (1 ≤ n - k + (if s_shutdown (slices n) then 0 else 1))%nat as Hone.
  { destruct (decide (k = n)) as [->|]; [rewrite Hs; lia|lia]. }
  destruct (s_poll (slices k)) as [revents| |error] eqn:Hp.
  - eexists _, _. split_and!; [done|done|by apply Hcall|]. intros ? [= <-]. by exists k.
  - destruct (Z.leb_spec deadline (s_after (slices k))).
    { eexists _, _. split_and!; [done|done|by apply Hcall|done]. }
    assert (k ≠ n) by (intros ->; destruct Hn as [?|[?|?]]; [congruence|congruence|lia]).
    destruct (IH (S k)) as (r & calls & -> & Hl & Hc & Hr); [lia|lia|]. cbn [mbind option_bind].
    eexists _, _. split_and!; [done|cbn; lia| |done].
    intros c [->|Hin]%elem_of_cons; [|by apply Hc]. eapply Hcall. by apply list_elem_of_singleton.
  - eexists _, _. split_and!; [done|done|by apply Hcall|]. by case_split.
Qed.

(** On Windows [receive] ends and notices [shutdown] between two slices: when
    pass [n] finds the flag set, at most [n] polls were made, and otherwise at most
    [n + 1] when that poll says something or the deadline has passed; every poll
    waits at most 50 ms; the socket is read only after a successful poll that
    reports no error and while no shutdown was requested, and a size is returned
    only from that read. *)
Theorem windows_receive_ends slices so_error answer capacity now timeout t t1 t2 n fuel :
  (∀ fd deadline, w_receive_enter timeout now t = Ok (Some (fd, deadline)) → slice_ends (slices n) deadline) →
  (n < fuel)%nat →
  ∃ r polls reads, w_receive fuel slices so_error answer capacity now timeout t t1 t2 = Some (r, polls ++ reads) ∧
    (length polls ≤ n + (if s_shutdown (slices n) then 0 else 1))%nat ∧
    (∀ c, c ∈ polls → ∃ ms, c = SysPoll (socket_ t) ms ∧ 0 ≤ ms ≤ 50) ∧
    (reads = [] ∨
     reads = [SysRecv (socket_ t) (Z.min capacity INT_MAX)] ∧ shutdown_requested_ t1 = false ∧
     ∃ j revents, s_poll (slices j) = PollReady revents ∧
       Z.land revents (Z.lor W_POLLERR (Z.lor W_POLLHUP W_POLLNVAL)) = 0) ∧
    (∀ size, r = Ok size → size ≠ 0 → answer = Received size ∧ reads ≠ []).
Proof.
  intros Hend Hn. unfold w_receive.
  assert (∀ r polls, (∀ size, r = Ok size → size = 0) →
    (length polls ≤ n + (if s_shutdown (slices n) then 0 else 1))%nat →
    (∀ c, c ∈ polls → ∃ ms, c = SysPoll (socket_ t) ms ∧ 0 ≤ ms ≤ 50) →
    ∃ r' polls' reads, Some (r, polls) = Some (r', polls' ++ reads) ∧
    (length polls' ≤ n + (if s_shutdown (slices n) then 0 else 1))%nat ∧
    (∀ c, c ∈ polls' → ∃ ms, c = SysPoll (socket_ t) ms ∧ 0 ≤ ms ≤ 50) ∧
    (reads = [] ∨
     reads = [SysRecv (socket_ t) (Z.min capacity INT_MAX)] ∧ shutdown_requested_ t1 = false ∧
     ∃ j revents, s_poll (slices j) = PollReady revents ∧
       Z.land revents (Z.lor W_POLLERR (Z.lor W_POLLHUP W_POLLNVAL)) = 0) ∧
    (∀ size, r' = Ok size → size ≠ 0 → answer = Received size ∧ reads ≠ [])) as Hquiet.
  { intros r polls Hr Hl Hc. exists r, polls, []. rewrite app_nil_r. split_and!; [done..|by left|naive_solver]. }
  destruct (w_receive_enter timeout now t) as [[[fd deadline]|]|e] eqn:He.
  2, 3: apply Hquiet; [naive_solver|cbn; lia|by intros c ?%not_elem_of_nil].
  assert (fd = socket_ t) as ->.
  { unfold w_receive_enter in He. case_split_in He; [done|]. case_split_in He; [done|]. inv_ok. congruence. }
  destruct (w_poll_wait_ends slices (socket_ t) deadline n fuel 0 (Hend _ _ eq_refl))
    as (r & polls & -> & Hl & Hc & Hr); [lia|lia|].
  cbn [mbind option_bind]. rewrite Nat.sub_0_r in Hl.
  destruct r as [[revents|]|e]; [|apply Hquiet; [naive_solver|done|done]..].
  destruct (Hr revents eq_refl) as [j Hj].
  unfold w_receive_recheck. destruct (shutdown_requested_ t1) eqn:Hs; [apply Hquiet; [naive_solver|done|done]|].
  destruct (Z.eqb_spec (Z.land revents (Z.lor W_POLLERR (Z.lor W_POLLHUP W_POLLNVAL))) 0) as [Hz|]; cbn [negb];
    [|apply Hquiet; [naive_solver|done|done]].
  exists (w_receive_finish answer t2), polls, [SysRecv (socket_ t) (Z.min capacity INT_MAX)].
  split_and!; [done..| |].
  - right. eauto 10.
  - intros size Hsz Hne. split; [|done]. unfold w_receive_finish in Hsz. destruct answer; [congruence|].
    by repeat (case_split_in Hsz; [congruence|]).
Qed.
End Wait.

(** ** The life of a transport

    The receiver's thread constructs the object, calls [connect], [receive] and
    [close] one at a time, and destroys it; [send] and [shutdown] come from any
    thread, between any two steps. *)

Inductive WReceiver :=
  | WIdle
  | WInstall (connected : Z)              (* before the lock of [connect] *)
  | WFlag (fd deadline : Z)               (* before the flag is read *)
  | WPoll (fd deadline : Z)
  | WPolled (fd revents : Z)
  | WRecv (fd : Z).

(** [WNone] is before the constructor or after its exception. *)
Inductive WSystem := WNone | WLive (t : Transport) (r : WReceiver) | WDestroyed.

(** The calls of the process: those on sockets, and the runtime. *)
Inductive WCall := WSAStartup (code : Z) | WSys (c : Syscall) | WSACleanup.

Inductive WAction :=
  | WConstruct (code : Z)
  | WConnect (resolved : Z + list AddressAnswer)
  | WDoInstall
  | WReceive (timeout : double) (now : Z)
  | WReadFlag
  | WDoPoll (before : Z) (answer : PollAnswer) (after : Z)
  | WRecheck (so_error : option Z)
  | WDoRecv (answer : RecvAnswer) (capacity : Z)
  | WClose
  | WSend (request : list Z) (answer : SendAnswer)
  | WShutdown
  | WDestroy.

Section Life.
Context `{Platform} `{WinSock}.

(** [WinSockRuntime::WinSockRuntime]. *)
Definition winsock_runtime (code : Z) : result unit :=
  if negb (code =? 0) then Throw (winsock_error "failed to initialize WinSock" code) else Ok ().

(** One [WSAPoll] and what follows it. *)
Definition w_after_poll (answer : PollAnswer) (after fd deadline : Z) : WReceiver :=
  match answer with
  | PollFails _ => WIdle
  | PollReady revents => WPolled fd revents
  | PollTimeout => if deadline <=? after then WIdle else WFlag fd deadline
  end.

Definition w_step (a : WAction) (s : WSystem) : option (WSystem * list WCall) :=
  match s with
  | WNone =>
      match a with
      | WConstruct code =>
          Some (match winsock_runtime code with Ok _ => WLive transport_init WIdle | Throw _ => WNone end,
                [WSAStartup code])
      | _ => None
      end
  | WDestroyed => None
  | WLive t r =>
      let live t r (calls : list Syscall) := Some (WLive t r, WSys <$> calls) in
      match a, r with
      | WConnect resolved, WIdle =>
          let '(opened, calls) := w_connect_open resolved in
          live t (match opened with Ok fd => WInstall fd | Throw _ => WIdle end) calls
      | WDoInstall, WInstall fd => let '(t, calls) := w_connect_install fd t in live t WIdle calls
      | WReceive timeout now, WIdle =>
          live t (match w_receive_enter timeout now t with
                  | Ok (Some (fd, deadline)) => WFlag fd deadline
                  | _ => WIdle
                  end) []
      | WReadFlag, WFlag fd deadline => live t (if shutdown_requested_ t then WIdle else WPoll fd deadline) []
      | WDoPoll before answer after, WPoll fd deadline =>
          live t (w_after_poll answer after fd deadline) [SysPoll fd (slice_milliseconds (deadline - before))]
      | WRecheck so_error, WPolled fd revents =>
          live t (match w_receive_recheck revents so_error t with Some _ => WIdle | None => WRecv fd end) []
      | WDoRecv answer capacity, WRecv fd => live t WIdle [SysRecv fd (Z.min capacity INT_MAX)]
      | WClose, WIdle => let '(t, calls) := w_close t in live t WIdle calls
      | WSend request answer, _ => live t r (snd (w_send request answer t))
      | WShutdown, _ => let '(t, calls) := w_shutdown t in live t r calls
      | WDestroy, WIdle =>
          let '(t, calls) := w_close t in Some (WDestroyed, (WSys <$> calls) ++ [WSACleanup])
      | _, _ => None
      end
  end.

(** WinSock: sockets only while the runtime is up; cleaning up wants every socket
    closed. *)
Definition w_call (c : WCall) (k : bool * gset Z) : option (bool * gset Z) :=
  match c with
  | WSAStartup code => if code =? 0 then Some (true, snd k) else Some k
  | WSys c => if fst k then open ← kernel_call c (snd k); Some (true, open) else None
  | WSACleanup => if fst k && bool_decide (snd k = ∅) then Some (false, ∅) else None
  end.
Fixpoint w_calls (calls : list WCall) (k : bool * gset Z) : option (bool * gset Z) :=
  match calls with [] => Some k | c :: calls => k ← w_call c k; w_calls calls k end.

(** A new socket is not open yet and not [INVALID_SOCKET]. *)
Definition w_fresh (a : WAction) (open : gset Z) : Prop :=
  match a with
  | WConnect (inr addresses) => ∀ x fd, x ∈ addresses → fd ∈ answered x → fd ∉ open ∧ fd ≠ kInvalidSocket
  | _ => True
  end.

Inductive w_execution : list WCall → WSystem → Prop :=
  | w_start : w_execution [] WNone
  | w_next a calls s s' new :
      w_execution calls s → (∀ k, w_calls calls (false, ∅) = Some k → w_fresh a (snd k)) →
      w_step a s = Some (s', new) → w_execution (calls ++ new) s'.

(** What the transport is responsible for. *)
Definition w_owned (s : WSystem) : bool * gset Z :=
  match s with
  | WLive t r => (true, installed t ∪ match r with WInstall fd => {[fd]} | _ => ∅ end)
  | _ => (false, ∅)
  end.

Definition w_ok (s : WSystem) : Prop :=
  match s with
  | WLive t r =>
      match r with
      | WIdle => True
      | WInstall fd => fd ≠ kInvalidSocket ∧ fd ≠ socket_ t
      | WFlag fd _ | WPoll fd _ | WPolled fd _ | WRecv fd => fd = socket_ t ∧ socket_ t ≠ kInvalidSocket
      end
  | _ => True
  end.

Lemma w_calls_app calls calls' k : w_calls (calls ++ calls') k = w_calls calls k ≫= w_calls calls'.
Proof.
  revert k. induction calls as [|c calls IH]; intros k; [done|]. cbn. destruct (w_call c k); [apply IH|done].
Qed.

Lemma w_calls_sys calls open open' :
  kernel_run calls open = Some open' → w_calls (WSys <$> calls) (true, open) = Some (true, open').
Proof.
  revert open. induction calls as [|c calls IH]; intros open; [by intros [= ->]|]. cbn.
  destruct (kernel_call c open) as [open1|]; [|done]. cbn. apply IH.
Qed.

Lemma w_try_addresses_kernel addresses open err :
  (∀ x fd, x ∈ addresses → fd ∈ answered x → fd ∉ open ∧ fd ≠ kInvalidSocket) →
  let '(connected, _, calls) := w_try_addresses addresses kInvalidSocket err in
  (connected = kInvalidSocket ∧ kernel_run calls open = Some open) ∨
  (connected ≠ kInvalidSocket ∧ connected ∉ open ∧ kernel_run calls open = Some ({[connected]} ∪ open)).
Proof.
  revert err. induction addresses as [|[e|fd e|fd] addresses IH]; intros err Hf; cbn [w_try_addresses];
    [by left|assert (∀ x fd, x ∈ addresses → fd ∈ answered x → fd ∉ open ∧ fd ≠ kInvalidSocket) as Hf'
      by (intros ? ? ? ?; eapply Hf; [by apply list_elem_of_further|done])..].
  - by apply IH.
  - specialize (IH e). destruct (w_try_addresses addresses kInvalidSocket e) as [[connected err'] calls].
    destruct (Hf (ConnectFails fd e) fd) as [Hfd _]; [by apply list_elem_of_here..|].
    rewrite kernel_refused by done. by apply IH.
  - right. destruct (Hf (Connects fd) fd) as [Hfd Hd]; [by apply list_elem_of_here..|]. split_and!; [done|done|].
    by apply kernel_connected.
Qed.

Lemma w_connect_step resolved open :
  w_fresh (WConnect resolved) open →
  let '(r, calls) := w_connect_open resolved in
  match r with
  | Ok fd => fd ≠ kInvalidSocket ∧ fd ∉ open ∧ kernel_run calls open = Some ({[fd]} ∪ open)
  | Throw _ => kernel_run calls open = Some open
  end.
Proof.
  destruct resolved as [code|addresses]; [done|]. cbn [w_connect_open w_fresh]. intros Hf.
  pose proof (w_try_addresses_kernel addresses open WSAEHOSTUNREACH Hf) as Hk.
  destruct (w_try_addresses addresses kInvalidSocket WSAEHOSTUNREACH) as [[fd err] calls].
  destruct Hk as [[-> Hk]|[Hd [Hn Hk]]]; [by rewrite Z.eqb_refl|]. by rewrite (proj2 (Z.eqb_neq _ _) Hd).
Qed.

(** The calls of the operations are those of the POSIX transport. *)
Lemma w_close_posix t : w_close t = close t.
Proof. unfold w_close, close. destruct t as [fd flag]. cbn. destruct (Z.eqb_spec fd kInvalidSocket) as [->|]; done. Qed.
Lemma w_install_posix fd t : w_connect_install fd t = connect_install fd t.
Proof. unfold w_connect_install, connect_install. by destruct (socket_ t =? kInvalidSocket). Qed.
Lemma w_shutdown_posix t : w_shutdown t = shutdown t.
Proof. unfold w_shutdown, shutdown. by destruct (socket_ t =? kInvalidSocket). Qed.
Lemma w_send_calls request answer t rest :
  kernel_run (snd (w_send request answer t)) (installed t ∪ rest) = Some (installed t ∪ rest).
Proof.
  unfold w_send. destruct (Z.eqb_spec (socket_ t) kInvalidSocket); [done|]. cbn [snd]. by apply use_installed.
Qed.

Lemma w_receive_enter_some timeout now t fd deadline :
  w_receive_enter timeout now t = Ok (Some (fd, deadline)) → fd = socket_ t ∧ socket_ t ≠ kInvalidSocket.
Proof.
  unfold w_receive_enter. destruct (Z.eqb_spec (socket_ t) kInvalidSocket); [done|]. case_split; [done|].
  intros He. inv_ok. by simplify_eq.
Qed.

Lemma w_close_calls t :
  kernel_run (snd (w_close t)) (installed t ∪ ∅) = Some ∅ ∧ installed (fst (w_close t)) = ∅.
Proof. rewrite w_close_posix. split; [|done]. by apply close_installed. Qed.

Lemma w_step_ok a s s' new :
  w_ok s → w_fresh a (snd (w_owned s)) → w_step a s = Some (s', new) →
  w_ok s' ∧ w_calls new (w_owned s) = Some (w_owned s').
Proof.
  destruct s as [|t r|]; cbn [w_step]; [|intros Hok Hf|done].
  { destruct a as [code| | | | | | | | | | |]; try done. intros _ _ [= <- <-]. unfold winsock_runtime. cbn [w_calls w_call].
    destruct (code =? 0) eqn:E; cbn; (split; [done|]); cbn; [|done].
    by rewrite installed_none, (left_id_L ∅ (∪)) by done. }
  cbn [w_ok w_owned snd] in *.
  destruct a as [code|resolved| |timeout now| |before answer after|so_error|answer capacity| |request answer| |]; try done.
  9: { intros [= <- <-]. split; [done|]. by apply w_calls_sys, w_send_calls. }
  9: { rewrite w_shutdown_posix. intros [= <- <-]. split; [by destruct r|]. apply w_calls_sys. exact (shutdown_calls t _). }
  all: destruct r as [|fd|fd deadline|fd deadline|fd revents|fd]; try done.
  - rewrite (right_id_L ∅ (∪)) in *. pose proof (w_connect_step resolved (installed t) Hf) as Hc.
    destruct (w_connect_open resolved) as [[fd|e] calls]; intros [= <- <-].
    + destruct Hc as (Hd & Hn & Hk). split; [|rewrite (w_calls_sys _ _ _ Hk); cbn; do 2 f_equal; set_solver].
      split; [done|]. intros E. apply Hn. rewrite installed_some by (by rewrite <- E). set_solver.
    + rewrite (w_calls_sys _ _ _ Hc). split; [done|]. cbn. by rewrite (right_id_L ∅ (∪)).
  - rewrite w_install_posix. intros [= <- <-]. destruct Hok as [Hd Hne]. split; [done|].
    rewrite (w_calls_sys _ _ {[fd]}); [|apply close_installed; set_solver].
    cbn. rewrite (installed_some (mkTransport fd false)) by done. do 2 f_equal. set_solver.
  - intros [= <- <-]. destruct (w_receive_enter timeout now t) as [[[fd deadline]|]|e] eqn:He; [|done..].
    by apply w_receive_enter_some in He as [-> ?].
  - intros [= <- <-]. by case_split.
  - destruct Hok as [-> Hv]. intros [= <- <-].
    change ([WSys ?c]) with (WSys <$> [c]).
    rewrite (w_calls_sys _ _ (installed t ∪ ∅)) by (by apply use_installed).
    unfold w_after_poll. destruct answer; try done. by case_split.
  - intros [= <- <-]. by destruct (w_receive_recheck revents so_error t).
  - destruct Hok as [-> Hv]. intros [= <- <-]. split; [done|].
    change ([WSys ?c]) with (WSys <$> [c]). by apply w_calls_sys, use_installed.
  - destruct (w_close_calls t) as [Hk He]. destruct (w_close t) as [t' calls]. cbn [fst snd] in *.
    intros [= <- <-]. split; [done|]. rewrite (w_calls_sys _ _ _ Hk). cbn. by rewrite He, (right_id_L ∅ (∪)).
  - destruct (w_close_calls t) as [Hk _]. destruct (w_close t) as [t' calls]. cbn [snd] in Hk.
    intros [= <- <-]. split; [done|]. by rewrite w_calls_app, (w_calls_sys _ _ _ Hk).
Qed.

(** C28: on Windows sockets are neither leaked nor misused, from the constructor to
    the destructor: whatever fails and however [send] and [shutdown] of other threads
    interleave with the receiver, every call on a socket happens while WinSock is up
    and on a socket open at that time, none is closed twice, and the open ones are
    the installed socket and the one [connect] is about to install; WinSock is
    cleaned up exactly when it was started, with every socket closed. *)
Theorem windows_sockets_owned calls s :
  w_execution calls s →
  w_calls calls (false, ∅) = Some (w_owned s) ∧ (size (snd (w_owned s)) ≤ 2)%nat ∧
  (s = WDestroyed → w_calls calls (false, ∅) = Some (false, ∅)).
Proof.
  intros Hx.
  assert (w_ok s ∧ w_calls calls (false, ∅) = Some (w_owned s)) as [Hok Hk].
  { induction Hx as [|a calls s s' new Hx [IH1 IH2] Hf Hs]; [done|].
    destruct (w_step_ok a s s' new IH1 (Hf _ IH2) Hs) as [? Hk]. split; [done|].
    by rewrite w_calls_app, IH2. }
  split_and!; [done| |by intros ->].
  destruct s as [|t r|]; cbn [w_owned snd]; [rewrite size_empty; lia| |rewrite size_empty; lia].
  apply owned_size. destruct r; rewrite ?size_singleton, ?size_empty; lia.
Qed.
End Life.

(** ** Examples *)

Definition winsock2 : WinSock := mkWinSock 10004 10058 10054 10038 10065 1 2 4.

(** Nothing arrives; the third pass finds the flag of a shutdown. *)
Definition quiet_slices (k : nat) : Slice :=
  mkSlice (2 <=? k)%nat (50000000 * Z.of_nat k) PollTimeout (50000000 * Z.of_nat (S k)).

Example sliced_receive :
  @w_receive linux_x86_64 winsock2 10 quiet_slices None (Received 36) 36 0 (b64_of_Z 1)
    connected_example connected_example connected_example =
  Some (Ok 0, [SysPoll 7 50; SysPoll 7 50]).
Proof. vm_compute. reflexivity. Qed.

Lemma windows_receive_ends_witness :
  ∃ r polls reads,
    @w_receive linux_x86_64 winsock2 10 quiet_slices None (Received 36) 36 0 (b64_of_Z 1)
      connected_example connected_example connected_example = Some (r, polls ++ reads) ∧
    (length polls ≤ 2)%nat.
Proof.
  destruct (@windows_receive_ends linux_x86_64 winsock2 quiet_slices None (Received 36) 36 0 (b64_of_Z 1)
    connected_example connected_example connected_example 2 10) as (r & polls & reads & Hr & Hl & _).
  - intros fd deadline _. left. reflexivity.
  - lia.
  - exists r, polls, reads. split; [exact Hr|exact Hl].
Defined.

(** A life: two addresses of which the first refuses, a shutdown, the end. *)
Definition windows_life : list WAction :=
  [WConstruct 0; WConnect (inr [ConnectFails 5 10061; Connects 5]); WDoInstall; WShutdown; WDestroy].
Definition windows_life_calls : list WCall :=
  (((([] ++ [WSAStartup 0]) ++ (WSys <$> [SysSocket 5; SysConnect 5; SysClose 5; SysSocket 5; SysConnect 5])) ++ []) ++
    [WSys (SysShutdown 5)]) ++ [WSys (SysClose 5); WSACleanup].

Lemma windows_life_execution : @w_execution linux_x86_64 winsock2 windows_life_calls WDestroyed.
Proof.
  refine (@w_next linux_x86_64 winsock2 WDestroy _ (WLive (mkTransport 5 true) WIdle) _ _ _ _ _);
    [|done|vm_compute; reflexivity].
  refine (@w_next linux_x86_64 winsock2 WShutdown _ (WLive (mkTransport 5 false) WIdle) _ _ _ _ _);
    [|done|vm_compute; reflexivity].
  refine (@w_next linux_x86_64 winsock2 WDoInstall _ (WLive transport_init (WInstall 5)) _ [] _ _ _);
    [|done|vm_compute; reflexivity].
  refine (@w_next linux_x86_64 winsock2 (WConnect (inr [ConnectFails 5 10061; Connects 5])) _
    (WLive transport_init WIdle) _ _ _ _ _); [| |vm_compute; reflexivity].
  - refine (@w_next linux_x86_64 winsock2 (WConstruct 0) [] WNone _ _ _ _ _); [constructor|done|reflexivity].
  - cbn. intros k [= <-] x fd [->|[->|[]%not_elem_of_nil]%elem_of_cons]%elem_of_cons ->%list_elem_of_singleton;
      (split; [cbn; set_solver|by vm_compute]).
Qed.

Lemma windows_sockets_owned_witness : w_calls windows_life_calls (false, ∅) = Some (false, ∅).
Proof. exact (proj1 (@windows_sockets_owned linux_x86_64 winsock2 _ _ windows_life_execution)). Defined.
