(* ===== verification/Check.v ===== *)
(** * The command-line check

    [check_main.cpp]: the options of [netft_check], the bounded acquisition, the
    JSON report, the replacement of the output file and the exit status.  The
    client is the environment's: its answers are streams the loops read, its
    calls are recorded. *)

From stdpp Require Import gmap.
From S2P Require Import Prelude Floating Types Text UnitConversion Diagnostics ClientImpl.
From Stdlib Require Import Ascii.

Record Options := mkOptions {
  o_config : Config;
  duration : double;
  output : option string;
  help : bool
}.
#[export] Instance eta_Options : Eta Options := λ o, mkOptions (o_config o) (duration o) (output o) (help o).
Definition default_options : Options := mkOptions default_config (b64_of_Z 5) None false.

Record Result := mkResult {
  endpoint : string;
  requested_duration_s : double;
  elapsed_s : double;
  r_health : HealthSnapshot;
  last : option Sample
}.

(** ** Options *)

Definition lower (c : ascii) : ascii :=
  let n := code c in if ((65 <=? n) && (n <=? 90))%N then ascii_of_N (n + 32) else c.

Definition is_nan_char (c : ascii) : bool :=
  let n := code c in
  ((48 <=? n) && (n <=? 57) || (65 <=? n) && (n <=? 90) || (97 <=? n) && (n <=? 122) || (n =? 95))%N.

(** [std::stod] of a text it consumes entirely, the literals of infinities and
    NaNs included. *)
Definition stod (l : chars) : option double :=
  let '(s, l') := scan_sign (drop_whitespace l) in
  let word := lower <$> l' in
  if bool_decide (word = to_chars "inf") || bool_decide (word = to_chars "infinity")
  then Some (S754_infinity s)
  else if bool_decide (word = to_chars "nan") ||
          (has_prefix (to_chars "nan(") word && forallb is_nan_char (removelast (drop 4 word)) &&
           bool_decide (list.last (drop 4 word) = Some ")"%char))
  then Some S754_nan
  else stod_all l.

Definition number (field value : string) : result double :=
  match stod (to_chars value) with
  | Some parsed => Ok parsed
  | None => Throw (InvalidArgument ("invalid " +:+ field +:+ " value"))
  end.

Section Options.
Context `{Platform}.

Definition integer (field value : string) : result Z :=
  match stol_all (to_chars value) with
  | Some parsed =>
      if (parsed <? - 2147483648) || (2147483647 <? parsed)
      then Throw (InvalidArgument ("invalid " +:+ field +:+ " value")) else Ok parsed
  | None => Throw (InvalidArgument ("invalid " +:+ field +:+ " value"))
  end.

(** The state of the loop over the arguments. *)
Record Parse := mkParse {
  options : Options;
  cpf : option double;
  cpt : option double
}.

Definition with_config (f : Config → Config) (p : Parse) : Parse :=
  mkParse ((options p) <| o_config ::= f |>) (cpf p) (cpt p).

Definition value_keys : list string := [
  "--host"; "--port"; "--http-port"; "--configuration-connect-timeout"; "--configuration-timeout";
  "--duration"; "--counts-per-force"; "--counts-per-torque"; "--receive-timeout"; "--output"].

(** The chain over the keys; each row is a key and what it sets. *)
Definition key_actions (value : string) (p : Parse) : list (string * result Parse) := [
  ("--host", Ok (with_config (λ c, c <| sensor_host := value |>) p));
  ("--port", v ← integer "port" value; Ok (with_config (λ c, c <| rdt_port := v |>) p));
  ("--http-port", v ← integer "http-port" value; Ok (with_config (λ c, c <| http_port := v |>) p));
  ("--configuration-connect-timeout", v ← number "configuration-connect-timeout" value;
     Ok (with_config (λ c, c <| configuration_connect_timeout := v |>) p));
  ("--configuration-timeout", v ← number "configuration-timeout" value;
     Ok (with_config (λ c, c <| configuration_timeout := v |>) p));
  ("--duration", v ← number "duration" value;
     Ok (mkParse ((options p) <| duration := v |>) (cpf p) (cpt p)));
  ("--counts-per-force", v ← number "counts-per-force" value; Ok (mkParse (options p) (Some v) (cpt p)));
  ("--counts-per-torque", v ← number "counts-per-torque" value; Ok (mkParse (options p) (cpf p) (Some v)));
  ("--receive-timeout", v ← number "receive-timeout" value;
     Ok (with_config (λ c, c <| receive_timeout := v |>) p));
  ("--output", Ok (mkParse ((options p) <| output := Some value |>) (cpf p) (cpt p)))].

Definition set_option (key value : string) (p : Parse) : result Parse :=
  match list_find (λ row, row.1 = key) (key_actions value p) with
  | Some (_, (_, r)) => r
  | None => Ok p
  end.

(** [argument.find('=')] and the two [substr]. *)
Definition split_argument (argument : string) : string * option string :=
  match split_find (to_chars "=") (to_chars argument) with
  | Some (key, _ :: value) => (of_chars key, Some (of_chars value))
  | _ => (argument, None)
  end.

(** The loop; [inl] is the early return of [--help]. *)
Fixpoint parse_arguments (arguments : list string) (p : Parse) : result (Options + Parse) :=
  match arguments with
  | [] => Ok (inr p)
  | argument :: rest =>
      if bool_decide (argument = "--json") then parse_arguments rest p
      else if bool_decide (argument = "--help") then Ok (inl ((options p) <| help := true |>))
      else
        let '(key, inline) := split_argument argument in
        if bool_decide (key ∈ value_keys) then
          match inline, rest with
          | Some value, _ => p ← set_option key value p; parse_arguments rest p
          | None, value :: rest => p ← set_option key value p; parse_arguments rest p
          | None, [] => Throw (InvalidArgument ("missing value for " +:+ key))
          end
        else Throw (InvalidArgument ("unknown argument: " +:+ argument))
  end.

(** The tests after the loop; [clock] is what the validation reads. *)
Definition finish_options (clock : nat → Z) (p : Parse) : result Options :=
  if negb (isfinite (duration (options p))) || SFleb (duration (options p)) d0 then
    Throw (InvalidArgument "duration must be finite and greater than zero")
  else if negb (Bool.eqb (bool_decide (is_Some (cpf p))) (bool_decide (is_Some (cpt p)))) then
    Throw (InvalidArgument "counts-per-force and counts-per-torque must be provided together")
  else
    let o := match cpf p, cpt p with
             | Some f, Some t =>
                 (options p) <| o_config ::= λ c, c <| calibration_override := Some (mkCalibration f t Newton NewtonMeter) |> |>
             | _, _ => options p
             end in
    _ ← validate_config clock (o_config o); Ok o.

Definition parse_options (clock : nat → Z) (arguments : list string) : result Options :=
  parsed ← parse_arguments arguments (mkParse default_options None None);
  match parsed with
  | inl o => Ok o
  | inr p => finish_options clock p
  end.
End Options.

(** ** JSON text *)

Definition backslash : ascii := "092".
Definition quote : ascii := "034".

(** [std::hex << std::setw(4) << std::setfill('0')] of a value below 256. *)
Definition hex4 (v : Z) : chars := [hex_digit 0; hex_digit 0; hex_digit (v / 16); hex_digit (v mod 16)].

Definition json_char (c : ascii) : chars :=
  let n := Z.of_N (code c) in
  if Ascii.eqb c quote || Ascii.eqb c backslash then [backslash; c]
  else if n =? 10 then [backslash; "n"%char]
  else if n =? 13 then [backslash; "r"%char]
  else if n =? 9 then [backslash; "t"%char]
  else if n <? 32 then backslash :: "u"%char :: hex4 n
  else [c].

Definition json_chars (l : chars) : chars := quote :: (l ≫= json_char) ++ [quote].
Definition json_string (value : string) : string := of_chars (json_chars (to_chars value)).

Definition json_number (value : double) : result string :=
  if isfinite value then Ok (calibration_number value) else Throw (RuntimeError "non-finite JSON value").

Definition json_optional_sequence (value : option Z) : string :=
  match value with Some v => pretty v | None => "null" end.

Fixpoint json_numbers (values : list double) : result string :=
  match values with
  | [] => Ok ""
  | [v] => json_number v
  | v :: values => a ← json_number v; b ← json_numbers values; Ok (a +:+ ", " +:+ b)
  end.

Definition json_wrench (sample : option SiSample) (use_force : bool) : result string :=
  match sample with
  | None => Ok "null"
  | Some s => a ← json_numbers (if use_force then si_force s else si_torque s); Ok ("[" +:+ a +:+ "]")
  end.

Definition or_null {A} (f : A → result string) (x : option A) : result string :=
  match x with Some x => f x | None => Ok "null" end.

(** The members of the report, in the order of the stream. *)
Definition report_fields (r : Result) : result (list (string * string)) :=
  let h := r_health r in
  let c := sensor_configuration h in
  si ← (match last r with Some s => si ← to_si_sample s; Ok (Some si) | None => Ok None end);
  cpf ← or_null (λ c, json_number (counts_per_force_unit (calibration c))) c;
  cpt ← or_null (λ c, json_number (counts_per_torque_unit (calibration c))) c;
  elapsed ← json_number (elapsed_s r);
  force ← json_wrench si true;
  torque ← json_wrench si false;
  rate ← json_number (b64_div (b64_of_Z (received_count h)) (elapsed_s r));
  requested ← json_number (requested_duration_s r);
  let configured f := match c with Some c => json_string (f c) | None => "null" end in
  Ok [("configuration_source", configured (λ c, configuration_source (source c)));
      ("force_unit", configured (λ c, force_unit_to_string (cal_force_unit (calibration c))));
      ("torque_unit", configured (λ c, torque_unit_to_string (cal_torque_unit (calibration c))));
      ("counts_per_force_unit", cpf); ("counts_per_torque_unit", cpt);
      ("device_error_count", pretty (device_error_count h));
      ("device_status", of_chars (quote :: to_chars (status_code (last_status h)) ++ [quote]));
      ("duplicate_count", pretty (duplicate_count h));
      ("elapsed_s", elapsed); ("endpoint", json_string (endpoint r));
      ("last_force_n", force);
      ("last_ft_sequence", json_optional_sequence (last_ft_sequence h));
      ("last_rdt_sequence", json_optional_sequence (last_rdt_sequence h));
      ("last_torque_nm", torque);
      ("lost_count", pretty (lost_count h)); ("malformed_count", pretty (malformed_count h));
      ("out_of_order_count", pretty (out_of_order_count h));
      ("receive_rate_hz", rate); ("reconnect_count", pretty (reconnect_count h));
      ("requested_duration_s", requested); ("sample_count", pretty (received_count h));
      ("timeout_count", pretty (timeout_count h)); ("warning_count", pretty (warning_count h))].

Definition newline : string := of_chars ["010"%char].
Definition member (field : string * string) : string :=
  "  " +:+ of_chars (quote :: to_chars field.1 ++ [quote]) +:+ ": " +:+ field.2.
Definition object_text (fields : list (string * string)) : string :=
  "{" +:+ newline +:+ String.concat ("," +:+ newline) (member <$> fields) +:+ newline +:+ "}".

Definition serialize (r : Result) : result string :=
  fields ← report_fields r; Ok (object_text fields).

Definition serialize_error (category message : string) : string :=
  object_text [("error", json_string category); ("exit_code", "2"); ("message", json_string message)].

(** ** The acquisition *)

(** A steady-clock time plus seconds, as [time_point<steady_clock, duration<double, nano>>]. *)
Definition time_plus (started : Z) (seconds : double) : double :=
  b64_add (b64_of_Z started) (b64_mul seconds (b64_of_Z 1000000000)).

Definition dmax (a b : double) : double := if SFltb a b then b else a.

(** What the client and the clock answer: to the constructor and [start], at the [k]-th pass of the two loops,
    then after the explicit stop. *)
Record CheckEnv := mkCheckEnv {
  construct_answer : result unit;
  started : Z;
  start_answer : result unit;
  health_at : nat → HealthSnapshot;
  interrupted_at : nat → bool;
  faulted_at : nat → bool;
  error_at : nat → string;
  clock_at : nat → Z;
  interrupted_later : nat → bool;
  clock_later : nat → Z;
  stopped_at : Z;
  final_health : HealthSnapshot;
  final_sample : option Sample
}.

Fixpoint wait_received (fuel : nat) (env : CheckEnv) (deadline : double) (k : nat) : option (result unit) :=
  match fuel with
  | O => None
  | S fuel =>
      if negb (received_count (health_at env k) =? 0) then Some (Ok ())
      else if interrupted_at env k then Some (Throw (RuntimeError "interrupted"))
      else if faulted_at env k then Some (Throw (RuntimeError (error_at env k)))
      else if SFleb deadline (b64_of_Z (clock_at env k)) then
        Some (Throw (RuntimeError "no Net F/T sample received"))
      else wait_received fuel env deadline (S k)
  end.

Fixpoint wait_duration (fuel : nat) (env : CheckEnv) (finish : double) (k : nat) : option (result unit) :=
  match fuel with
  | O => None
  | S fuel =>
      if negb (SFltb (b64_of_Z (clock_later env k)) finish) then Some (Ok ())
      else if interrupted_later env k then Some (Throw (RuntimeError "interrupted"))
      else wait_duration fuel env finish (S k)
  end.

Inductive ClientCall := CallStart | CallStop.

Definition first_deadline (env : CheckEnv) (o : Options) : double :=
  time_plus (started env) (dmax (b64_of_Z 1) (b64_mul (receive_timeout (o_config o)) (b64_of_Z 5))).
Definition finish_time (env : CheckEnv) (o : Options) : double := time_plus (started env) (duration o).

(** [run_check]; the guard stops the client on every way out. *)
Definition run_check (fuel : nat) (env : CheckEnv) (o : Options) : option (result Result * list ClientCall) :=
  match construct_answer env, start_answer env with
  | Throw e, _ => Some (Throw e, [])
  | Ok _, Throw e => Some (Throw e, [CallStart; CallStop])
  | Ok _, Ok _ =>
      received ← wait_received fuel env (first_deadline env o) 0;
      match received with
      | Throw e => Some (Throw e, [CallStart; CallStop])
      | Ok _ =>
          finished ← wait_duration fuel env (finish_time env o) 0;
          match finished with
          | Throw e => Some (Throw e, [CallStart; CallStop])
          | Ok _ =>
              Some (Ok (mkResult (sensor_host (o_config o) +:+ ":" +:+ pretty (rdt_port (o_config o)))
                          (duration o) (seconds_of (stopped_at env - started env))
                          (final_health env) (final_sample env)),
                    [CallStart; CallStop; CallStop])
          end
      end
  end.

(** ** The output file *)

Inductive FileCall :=
  | FileCreate (path : string)               (* [mkstemp] *)
  | FileAppend (path : string) (text : string)
  | FileRename (from to : string)
  | FileRemove (path : string).

(** What the C library answers; a failing [fwrite] or [fclose] may have written a
    part of the text. *)
Record FileEnv := mkFileEnv {
  mkstemp_path : option string;
  fdopen_ok : bool;
  fwrite_ok : bool; written : string;
  fputc_ok : bool;
  fclose_ok : bool;
  rename_answer : result unit
}.

(** [write_output] from [mkstemp] on. *)
Definition write_output (env : FileEnv) (path text : string) : result unit * list FileCall :=
  match mkstemp_path env with
  | None => (Throw (RuntimeError "unable to create output temporary file"), [])
  | Some temporary =>
      if negb (fdopen_ok env) then
        (Throw (RuntimeError "unable to write output"), [FileCreate temporary; FileRemove temporary])
      else if fwrite_ok env && fputc_ok env && fclose_ok env then
        (rename_answer env,
         [FileCreate temporary; FileAppend temporary text; FileAppend temporary newline] ++
         (if is_ok (rename_answer env) then [FileRename temporary path] else []) ++
         [FileRemove temporary])
      else
        (Throw (RuntimeError "unable to write output"),
         [FileCreate temporary; FileAppend temporary (written env); FileRemove temporary])
  end.

(** ** The program *)

Definition usage : string :=
  "usage: netft_check [--host HOST] [--port PORT] [--duration SECONDS] " +:+
  "[--http-port PORT] [--configuration-connect-timeout SECONDS] " +:+
  "[--configuration-timeout SECONDS] " +:+
  "[--counts-per-force SCALE] [--counts-per-torque SCALE] " +:+
  "[--receive-timeout SECONDS] [--output PATH] [--json]".

Record Outcome := mkOutcome { stdout : string; stderr : string; exit_code : Z }.

Definition healthy (h : HealthSnapshot) : bool :=
  (0 <? received_count h) && (device_error_count h =? 0) && (warning_count h =? 0).

(** The catch clauses of [main]. *)
Definition report_failure (e : exn) : Outcome :=
  mkOutcome "" (serialize_error (match e with InvalidArgument _ => "invalid_arguments" | _ => "check_failed" end)
                  (what e) +:+ newline) 2.

(** The [try] block once the options are known. *)
Definition report (o : Options) (file : FileEnv) (checked : result Result) : Outcome * list FileCall :=
  match checked with
  | Throw e => (report_failure e, [])
  | Ok r =>
      match serialize r with
      | Throw e => (report_failure e, [])
      | Ok text =>
          let '(written, calls) :=
            match output o with Some path => write_output file path text | None => (Ok (), []) end in
          (match written with
           | Throw e => report_failure e
           | Ok _ => mkOutcome (text +:+ newline) "" (if healthy (r_health r) then 0 else 1)
           end, calls)
      end
  end.

Section Main.
Context `{Platform}.

Definition main (fuel : nat) (clock : nat → Z) (env : CheckEnv) (file : FileEnv) (arguments : list string) :
    option (Outcome * list ClientCall * list FileCall) :=
  match parse_options clock arguments with
  | Throw e => Some (report_failure e, [], [])
  | Ok o =>
      if help o then Some (mkOutcome (usage +:+ newline) "" 0, [], [])
      else
        '(checked, calls) ← run_check fuel env o;
        let '(outcome, files) := report o file checked in Some (outcome, calls, files)
  end.
End Main.

Example serialize_error_ex :
  serialize_error "check_failed" "no" =
  of_chars (["{"; "010"] ++ to_chars "  " ++ [quote] ++ to_chars "error" ++ [quote] ++ to_chars ": " ++
    [quote] ++ to_chars "check_failed" ++ [quote] ++ [","; "010"] ++ to_chars "  " ++ [quote] ++
    to_chars "exit_code" ++ [quote] ++ to_chars ": 2," ++ ["010"] ++ to_chars "  " ++ [quote] ++
    to_chars "message" ++ [quote] ++ to_chars ": " ++ [quote] ++ to_chars "no" ++ [quote; "010"; "}"])%char.
Proof. vm_compute. reflexivity. Qed.

(** ** The options *)

Section OptionProperties.
Context `{Platform}.

(** What no option can change, and the range of the port numbers. *)
Definition parse_ok (p : Parse) : Prop :=
  help (options p) = false ∧ recovery_policy (o_config (options p)) = Reconnect ∧
  calibration_override (o_config (options p)) = None ∧
  sample_rate_limit_hz (o_config (options p)) = sample_rate_limit_hz default_config ∧
  deliver_samples_with_error_status (o_config (options p)) = false ∧
  is_i32 (rdt_port (o_config (options p))) ∧ is_i32 (http_port (o_config (options p))) ∧
  valid64 (duration (options p)) = true.

Lemma number_valid field value v : number field value = Ok v → valid64 v = true.
Proof.
  unfold number. destruct (stod (to_chars value)) as [x|] eqn:Hs; [|done]. intros [= <-]. revert Hs.
  unfold stod. destruct (scan_sign _) as [s l]. case_split; [by intros [= <-]|]. case_split; [by intros [= <-]|].
  by intros [? _]%stod_all_valid.
Qed.

Lemma integer_range field value v : integer field value = Ok v → is_i32 v.
Proof.
  unfold integer. destruct (stol_all (to_chars value)); [|done]. case_split; [done|].
  intros [= <-]. apply orb_false_elim in Heqb as [H1 H2]. width_lia.
Qed.

Lemma set_option_ok key value p p' : parse_ok p → set_option key value p = Ok p' → parse_ok p'.
Proof.
  intros Hp. unfold set_option. destruct (list_find _ _) as [[i [k r]]|] eqn:Hf; [|by intros [= <-]].
  apply list_find_Some in Hf as (Hk & _ & _). apply list_elem_of_lookup_2 in Hk.
  unfold key_actions in Hk. intros ->.
  repeat (apply elem_of_cons in Hk as [Hk|Hk]; [injection Hk as _ Hk; symmetry in Hk; inv_ok; subst p';
    repeat match goal with
    | H : integer _ _ = Ok _ |- _ => apply integer_range in H
    | H : number _ _ = Ok _ |- _ => apply number_valid in H
    end;
    by destruct Hp as (? & ? & ? & ? & ? & ? & ? & ?)|]).
  by apply not_elem_of_nil in Hk.
Qed.

Lemma parse_arguments_ok arguments p r :
  parse_ok p → parse_arguments arguments p = Ok r →
  match r with inl o => help o = true | inr p' => parse_ok p' end.
Proof.
  remember (length arguments) as n eqn:Hn. revert arguments p Hn.
  induction (lt_wf n) as [n _ IH]. intros [|argument rest] p -> Hp; cbn [parse_arguments]; [by intros [= <-]|].
  case_split; [by apply (IH (length rest)); cbn; [lia|..]|].
  case_split; [by intros [= <-]|]. destruct (split_argument argument) as [key inline].
  case_split; [|done]. destruct inline as [value|]; [|destruct rest as [|value rest]; [done|]];
    intros (p' & Hs & Hr)%bind_ok; (eapply (IH (length rest)); [cbn; lia|done| |done]);
    by eapply set_option_ok.
Qed.

Lemma parse_options_duration clock arguments o :
  parse_options clock arguments = Ok o → help o = true ∨ valid64 (duration o) = true.
Proof.
  unfold parse_options. intros (r & Hr & Ho)%bind_ok. apply parse_arguments_ok in Hr; [|by split_and!; vm_compute].
  destruct r as [o'|p]; [left; by simplify_eq|right].
  destruct Hr as (_ & _ & _ & _ & _ & _ & _ & Hd). unfold finish_options in Ho. inv_ok. subst o.
  by destruct (cpf p), (cpt p).
Qed.

(** The options [netft_check] runs with are safe: unless help was asked for,
    the configuration passed the validation of the library, the duration is a
    positive finite number, the recovery policy is to reconnect and error samples
    are not delivered, and a calibration override is one in newtons and newton
    metres. *)
Theorem parse_options_sound clock arguments o :
  parse_options clock arguments = Ok o →
  help o = true ∨
  (help o = false ∧ validate_config clock (o_config o) = Ok () ∧
   (∃ m e, duration o = S754_finite false m e) ∧
   recovery_policy (o_config o) = Reconnect ∧ deliver_samples_with_error_status (o_config o) = false ∧
   ∀ c, calibration_override (o_config o) = Some c →
     cal_force_unit c = Newton ∧ cal_torque_unit c = NewtonMeter).
Proof.
  unfold parse_options. intros (r & Hr & Ho)%bind_ok. apply parse_arguments_ok in Hr; [|by split_and!; vm_compute].
  destruct r as [o'|p]; [left; by simplify_eq|right].
  destruct Hr as (Hh & Hrp & Hc & _ & Hd & _). unfold finish_options in Ho. inv_ok. subst o.
  match goal with H : validate_config _ _ = Ok ?u |- _ => destruct u; rename H into Hv end.
  assert (∃ m e, duration (options p) = S754_finite false m e) as Hpos
    by (destruct (duration (options p)) as [|[]| |[]]; try done; eauto).
  destruct (cpf p), (cpt p); split_and!; try done; intros c Hx; cbn in Hx; [by injection Hx as <-|congruence..].
Qed.
End OptionProperties.

(** ** The output file is replaced as a whole *)

Definition file_call (c : FileCall) (fs : gmap string string) : gmap string string :=
  match c with
  | FileCreate path => <[path := ""]> fs
  | FileAppend path text => alter (λ old, old +:+ text) path fs
  | FileRename from to =>
      match fs !! from with Some content => <[to := content]> (delete from fs) | None => fs end
  | FileRemove path => delete path fs
  end.
Definition file_run (calls : list FileCall) (fs : gmap string string) : gmap string string :=
  fold_left (λ fs c, file_call c fs) calls fs.

(** C37: the output file is written whole or not at all: for every failure of the C
    library or of the rename, the report either replaces the file with the full
    text and a newline, or every file is as it was; the temporary file, which
    [mkstemp] creates under a new name, never stays. *)
Theorem output_atomic env path text fs :
  (∀ temporary, mkstemp_path env = Some temporary → fs !! temporary = None ∧ temporary ≠ path) →
  let '(r, calls) := write_output env path text in
  file_run calls fs = match r with Ok _ => <[path := text +:+ newline]> fs | Throw _ => fs end.
Proof.
  intros Ht. unfold write_output. destruct (mkstemp_path env) as [tmp|]; [|done].
  destruct (Ht tmp eq_refl) as [Hfresh Hne].
  assert (∀ x, delete tmp (<[tmp := x]> fs) = fs) as Hdel by (intros x; by rewrite delete_insert_eq, delete_id).
  case_split; [cbn; apply Hdel|]. unfold file_run.
  case_split; [|cbn [fold_left file_call]; rewrite alter_insert_eq; apply Hdel].
  rewrite !fold_left_app. cbn [fold_left file_call]. rewrite !alter_insert_eq. cbn [String.append].
  destruct (rename_answer env) as [u|e]; cbn [is_ok fold_left file_call]; [|apply Hdel].
  rewrite lookup_insert_eq, Hdel, delete_insert_ne, delete_id by congruence. done.
Qed.

(** ** The program ends, and its exit status is true *)

Lemma wait_received_ends env deadline n fuel k :
  SFleb deadline (b64_of_Z (clock_at env n)) = true → (k ≤ n)%nat → (n < k + fuel)%nat →
  is_Some (wait_received fuel env deadline k).
Proof.
  intros Hd. revert k. induction fuel as [|fuel IH]; intros k Hk Hn; [lia|]. cbn [wait_received].
  do 3 (case_split; [done|]). destruct (decide (k = n)) as [->|]; [by rewrite Hd|].
  case_split; [done|]. apply IH; lia.
Qed.

Lemma wait_duration_ends env finish n fuel k :
  SFltb (b64_of_Z (clock_later env n)) finish = false → (k ≤ n)%nat → (n < k + fuel)%nat →
  is_Some (wait_duration fuel env finish k).
Proof.
  intros Hd. revert k. induction fuel as [|fuel IH]; intros k Hk Hn; [lia|]. cbn [wait_duration].
  destruct (decide (k = n)) as [->|]; [by rewrite Hd|].
  do 2 (case_split; [done|]). apply IH; lia.
Qed.

(** When both loops are certain to be over. *)
Definition check_ends (env : CheckEnv) (o : Options) (n : nat) : Prop :=
  SFleb (first_deadline env o) (b64_of_Z (clock_at env n)) = true ∧
  SFltb (b64_of_Z (clock_later env n)) (finish_time env o) = false.

Lemma run_check_ends fuel env o n :
  check_ends env o n → (n < fuel)%nat →
  ∃ checked calls, run_check fuel env o = Some (checked, calls) ∧
    (calls = [] ∨ list.last calls = Some CallStop) ∧
    ∀ r, checked = Ok r → r_health r = final_health env.
Proof.
  intros [H1 H2] Hn. unfold run_check.
  destruct (construct_answer env) as [u|e]; [|eexists _, _; split_and!; [done|by left|done]].
  destruct (start_answer env) as [u'|e]; [|eexists _, _; split_and!; [done|by right|done]].
  destruct (wait_received_ends env _ n fuel 0 H1) as [[v|e] ->]; [lia|lia| |]; cbn [mbind option_bind];
    [|eexists _, _; split_and!; [done|by right|done]].
  destruct (wait_duration_ends env _ n fuel 0 H2) as [[v'|e] ->]; [lia|lia| |]; cbn [mbind option_bind];
    eexists _, _; (split_and!; [done|by right|by intros r [= <-]]).
Qed.

(** ** What becomes of a run

    The outcome as a relation to what the client, the clock, the signal and the C library
    answered, without the loops. *)

(** The first loop goes on at pass [k]; the second does. *)
Definition still_waiting (env : CheckEnv) (deadline : double) (k : nat) : Prop :=
  received_count (health_at env k) = 0 ∧ interrupted_at env k = false ∧ faulted_at env k = false ∧
  SFleb deadline (b64_of_Z (clock_at env k)) = false.
Definition still_running (env : CheckEnv) (finish : double) (k : nat) : Prop :=
  SFltb (b64_of_Z (clock_later env k)) finish = true ∧ interrupted_later env k = false.

(** The first pass at which the wait for a record is over decides it: a record before an
    interrupt, an interrupt before a fault, a fault before the deadline. *)
Inductive first_record (env : CheckEnv) (deadline : double) : result unit → Prop :=
  | fr_received k :
      (∀ j, (j < k)%nat → still_waiting env deadline j) → received_count (health_at env k) ≠ 0 →
      first_record env deadline (Ok ())
  | fr_interrupted k :
      (∀ j, (j < k)%nat → still_waiting env deadline j) → received_count (health_at env k) = 0 →
      interrupted_at env k = true → first_record env deadline (Throw (RuntimeError "interrupted"))
  | fr_faulted k :
      (∀ j, (j < k)%nat → still_waiting env deadline j) → received_count (health_at env k) = 0 →
      interrupted_at env k = false → faulted_at env k = true →
      first_record env deadline (Throw (RuntimeError (error_at env k)))
  | fr_deadline k :
      (∀ j, (j < k)%nat → still_waiting env deadline j) → received_count (health_at env k) = 0 →
      interrupted_at env k = false → faulted_at env k = false →
      SFleb deadline (b64_of_Z (clock_at env k)) = true →
      first_record env deadline (Throw (RuntimeError "no Net F/T sample received")).

Inductive full_duration (env : CheckEnv) (finish : double) : result unit → Prop :=
  | fd_over k :
      (∀ j, (j < k)%nat → still_running env finish j) →
      SFltb (b64_of_Z (clock_later env k)) finish = false → full_duration env finish (Ok ())
  | fd_interrupted k :
      (∀ j, (j < k)%nat → still_running env finish j) →
      SFltb (b64_of_Z (clock_later env k)) finish = true → interrupted_later env k = true →
      full_duration env finish (Throw (RuntimeError "interrupted")).

(** The deadlines, as the sums of [double] nanoseconds the code compares with. *)
Definition record_deadline (env : CheckEnv) (o : Options) : double :=
  let five := b64_mul (receive_timeout (o_config o)) (b64_of_Z 5) in
  b64_add (b64_of_Z (started env))
    (b64_mul (if SFltb (b64_of_Z 1) five then five else b64_of_Z 1) (b64_of_Z 1000000000)).
Definition duration_end (env : CheckEnv) (o : Options) : double :=
  b64_add (b64_of_Z (started env)) (b64_mul (duration o) (b64_of_Z 1000000000)).

(** The acquisition: the first thing that fails, or the result; and the calls of the
    client. *)
Inductive acquired (env : CheckEnv) (o : Options) : result Result → list ClientCall → Prop :=
  | acq_refused e : construct_answer env = Throw e → acquired env o (Throw e) []
  | acq_not_started u e :
      construct_answer env = Ok u → start_answer env = Throw e →
      acquired env o (Throw e) [CallStart; CallStop]
  | acq_no_record u u' e :
      construct_answer env = Ok u → start_answer env = Ok u' →
      first_record env (record_deadline env o) (Throw e) → acquired env o (Throw e) [CallStart; CallStop]
  | acq_cut_short u u' e :
      construct_answer env = Ok u → start_answer env = Ok u' →
      first_record env (record_deadline env o) (Ok ()) →
      full_duration env (duration_end env o) (Throw e) → acquired env o (Throw e) [CallStart; CallStop]
  | acq_done u u' r :
      construct_answer env = Ok u → start_answer env = Ok u' →
      first_record env (record_deadline env o) (Ok ()) → full_duration env (duration_end env o) (Ok ()) →
      endpoint r = sensor_host (o_config o) +:+ ":" +:+ pretty (rdt_port (o_config o)) →
      requested_duration_s r = duration o → elapsed_s r = seconds_of (stopped_at env - started env) →
      r_health r = final_health env → last r = final_sample env →
      acquired env o (Ok r) [CallStart; CallStop; CallStop].

(** What a failure prints and returns: [invalid_arguments] for [std::invalid_argument],
    [check_failed] for anything else. *)
Definition category (e : exn) : string :=
  match e with InvalidArgument _ => "invalid_arguments" | _ => "check_failed" end.
Definition fails (e : exn) (outcome : Outcome) : Prop :=
  exit_code outcome = 2 ∧ stdout outcome = "" ∧ stderr outcome = serialize_error (category e) (what e) +:+ newline.

(** The failure of a run, from the acquisition to the output file. *)
Definition run_fails (env : CheckEnv) (file : FileEnv) (o : Options) (calls : list ClientCall)
    (files : list FileCall) (e : exn) : Prop :=
  acquired env o (Throw e) calls ∧ files = [] ∨
  ∃ r, acquired env o (Ok r) calls ∧
    (serialize r = Throw e ∧ files = [] ∨
     ∃ text path, serialize r = Ok text ∧ output o = Some path ∧ write_output file path text = (Throw e, files)).

(** A completed run: the report on the output, in the file too if one was asked for, and
    status 0 exactly if records were received and none had a warning or an error. *)
Definition completes (file : FileEnv) (o : Options) (r : Result) (outcome : Outcome) (files : list FileCall) : Prop :=
  ∃ text, serialize r = Ok text ∧ stdout outcome = text +:+ newline ∧ stderr outcome = "" ∧
    match output o with
    | Some path => write_output file path text = (Ok (), files)
    | None => files = []
    end ∧
    (exit_code outcome = 0 ∨ exit_code outcome = 1) ∧
    (exit_code outcome = 0 ↔ 0 < received_count (r_health r) ∧ device_error_count (r_health r) = 0 ∧
                             warning_count (r_health r) = 0).

Lemma wait_received_decides fuel env deadline k r :
  wait_received fuel env deadline k = Some r → (∀ j, (j < k)%nat → still_waiting env deadline j) →
  first_record env deadline r.
Proof.
  revert k. induction fuel as [|fuel IH]; intros k; [done|]. cbn [wait_received]. intros Hr Hj.
  destruct (Z.eqb_spec (received_count (health_at env k)) 0) as [H0|H0]; cbn [negb] in Hr;
    [|injection Hr as <-; by eapply fr_received].
  destruct (interrupted_at env k) eqn:Hi; [injection Hr as <-; by eapply fr_interrupted|].
  destruct (faulted_at env k) eqn:Hf; [injection Hr as <-; by eapply fr_faulted|].
  destruct (SFleb deadline (b64_of_Z (clock_at env k))) eqn:Hd; [injection Hr as <-; by eapply fr_deadline|].
  apply (IH (S k) Hr). intros j Hlt. destruct (decide (j = k)) as [->|]; [by split_and!|apply Hj; lia].
Qed.

Lemma wait_duration_decides fuel env finish k r :
  wait_duration fuel env finish k = Some r → (∀ j, (j < k)%nat → still_running env finish j) →
  full_duration env finish r.
Proof.
  revert k. induction fuel as [|fuel IH]; intros k; [done|]. cbn [wait_duration]. intros Hr Hj.
  destruct (SFltb (b64_of_Z (clock_later env k)) finish) eqn:Ht; cbn [negb] in Hr;
    [|injection Hr as <-; by eapply fd_over].
  destruct (interrupted_later env k) eqn:Hi; [injection Hr as <-; by eapply fd_interrupted|].
  apply (IH (S k) Hr). intros j Hlt. destruct (decide (j = k)) as [->|]; [by split|apply Hj; lia].
Qed.

Lemma run_check_acquired fuel env o checked calls :
  run_check fuel env o = Some (checked, calls) → acquired env o checked calls.
Proof.
  unfold run_check. change (first_deadline env o) with (record_deadline env o).
  change (finish_time env o) with (duration_end env o).
  destruct (construct_answer env) as [u|e] eqn:Hc; [|intros [= <- <-]; by apply acq_refused].
  destruct (start_answer env) as [u'|e] eqn:Hs; [|intros [= <- <-]; by eapply acq_not_started].
  destruct (wait_received _ _ _ _) as [w|] eqn:Hw; cbn [mbind option_bind]; [|done].
  apply wait_received_decides in Hw; [|lia].
  destruct w as [[]|e]; [|intros [= <- <-]; by eapply acq_no_record].
  destruct (wait_duration _ _ _ _) as [w|] eqn:Hd; cbn [mbind option_bind]; [|done].
  apply wait_duration_decides in Hd; [|lia].
  destruct w as [[]|e]; intros [= <- <-]; [by eapply acq_done|by eapply acq_cut_short].
Qed.

Lemma report_failure_fails e : fails e (report_failure e).
Proof. by split_and!. Qed.

Lemma report_outcome o file checked outcome files :
  report o file checked = (outcome, files) →
  match checked with
  | Throw e => fails e outcome ∧ files = []
  | Ok r =>
      completes file o r outcome files ∨
      ∃ e, fails e outcome ∧
        (serialize r = Throw e ∧ files = [] ∨
         ∃ text path, serialize r = Ok text ∧ output o = Some path ∧ write_output file path text = (Throw e, files))
  end.
Proof.
  unfold report. destruct checked as [r|e]; [|intros [= <- <-]; split; [apply report_failure_fails|done]].
  destruct (serialize r) as [text|e] eqn:Ht.
  2: { intros [= <- <-]. right. exists e. split; [apply report_failure_fails|by left]. }
  assert (∀ fs, match output o with Some path => write_output file path text = (Ok (), fs) | None => fs = [] end →
    completes file o r (mkOutcome (text +:+ newline) "" (if healthy (r_health r) then 0 else 1)) fs) as Hok.
  { intros fs Hfs. exists text. split_and!; try done; cbn [exit_code]; unfold healthy.
    - case_split; auto.
    - destruct (Z.ltb_spec 0 (received_count (r_health r))), (Z.eqb_spec (device_error_count (r_health r)) 0),
        (Z.eqb_spec (warning_count (r_health r)) 0); cbn; split; try done; intros (? & ? & ?); (done || lia). }
  destruct (output o) as [path|] eqn:Ho.
  - destruct (write_output file path text) as [[[]|e] fs] eqn:Hw; intros [= <- <-].
    + left. by apply Hok.
    + right. exists e. split; [apply report_failure_fails|right]. by exists text, path.
  - intros [= <- <-]. left. by apply Hok.
Qed.

Section MainProperties.
Context `{Platform}.

(** How a run of [netft_check] ends, by the first thing that decides it. *)
Definition main_ends (clock : nat → Z) (env : CheckEnv) (file : FileEnv) (arguments : list string)
    (outcome : Outcome) (calls : list ClientCall) (files : list FileCall) : Prop :=
  match parse_options clock arguments with
  | Throw e => fails e outcome ∧ calls = [] ∧ files = []
  | Ok o =>
      if help o then outcome = mkOutcome (usage +:+ newline) "" 0 ∧ calls = [] ∧ files = []
      else
        (∃ e, run_fails env file o calls files e ∧ fails e outcome) ∨
        (∃ r, acquired env o (Ok r) calls ∧ completes file o r outcome files)
  end.

Lemma main_cases fuel clock env file arguments outcome calls files :
  main fuel clock env file arguments = Some (outcome, calls, files) →
  main_ends clock env file arguments outcome calls files.
Proof.
  unfold main, main_ends. destruct (parse_options clock arguments) as [o|e].
  2: { intros [= <- <- <-]. split; [apply report_failure_fails|done]. }
  destruct (help o); [by intros [= <- <- <-]|]. intros ([checked cs] & Hr & Hm)%bind_Some.
  destruct (report o file checked) as [out fs] eqn:Hrep. injection Hm as <- <- <-.
  apply run_check_acquired in Hr. apply report_outcome in Hrep.
  destruct checked as [r|e]; [|left; exists e; by destruct Hrep as [? ->]; split; [left|]].
  destruct Hrep as [Hrep|(e & He & Hrep)]; [right; by exists r|left; exists e; split; [right; by exists r|done]].
Qed.

(** C36: [netft_check] ends and its exit status and streams are true to what happened.
    Once the clock has passed the deadlines of its two loops it has returned, and a
    client it started has been stopped.  Arguments it refuses fail the run before any
    client exists; [--help] prints the usage with status 0 and does nothing else; a run
    fails with exactly the first failure - of the construction, the start, an interrupt, a
    fault or the deadline before any record, an interrupt before the end, the report or
    its file - which is status 2 with its category and message on the error stream and
    nothing on the output; only a run that received a record in time, lasted its
    duration and wrote its report prints it, with status 0 exactly if the final snapshot
    counts records and neither a warning nor an error status, and 1 otherwise.  The
    options it runs with passed the validation of the library, with a positive finite
    duration. *)
Theorem main_outcome fuel clock env file arguments n :
  (∀ o, parse_options clock arguments = Ok o → check_ends env o n) → (n < fuel)%nat →
  ∃ outcome calls files, main fuel clock env file arguments = Some (outcome, calls, files) ∧
    (calls = [] ∨ list.last calls = Some CallStop) ∧
    main_ends clock env file arguments outcome calls files ∧
    ∀ o, parse_options clock arguments = Ok o →
      help o = true ∨ validate_config clock (o_config o) = Ok () ∧ ∃ m e, duration o = S754_finite false m e.
Proof.
  intros Hend Hn.
  assert (∃ outcome calls files, main fuel clock env file arguments = Some (outcome, calls, files) ∧
    (calls = [] ∨ list.last calls = Some CallStop)) as (outcome & calls & files & Hm & Hc).
  { unfold main. destruct (parse_options clock arguments) as [o|e] eqn:Ho; [|eexists _, _, _; split; [done|by left]].
    destruct (help o); [eexists _, _, _; split; [done|by left]|].
    destruct (run_check_ends fuel env o n (Hend o eq_refl) Hn) as (checked & calls & -> & Hc & _).
    cbn [mbind option_bind]. destruct (report o file checked) as [outcome files]. by eexists _, _, _. }
  exists outcome, calls, files. split_and!; [done..|by eapply main_cases|].
  intros o [Hh|(_ & Hv & Hd & _)]%parse_options_sound; [by left|by right].
Qed.
End MainProperties.

(** ** Examples *)

Definition example_arguments : list string :=
  ["--host=10.0.0.7"; "--duration"; "0.5"; "--counts-per-force"; "1e6"; "--counts-per-torque=1000"; "--json"].
Definition example_options : option Options :=
  Eval vm_compute in
    match @parse_options linux_x86_64 (λ _, 0) example_arguments with Ok o => Some o | Throw _ => None end.

Lemma example_parse :
  Ok <$> example_options = Some (@parse_options linux_x86_64 (λ _, 0) example_arguments).
Proof. vm_compute. reflexivity. Qed.

Lemma parse_options_sound_witness :
  ∃ o, @parse_options linux_x86_64 (λ _, 0) example_arguments = Ok o ∧ help o = false ∧
    sensor_host (o_config o) = "10.0.0.7" ∧ @validate_config linux_x86_64 (λ _, 0) (o_config o) = Ok () ∧
    calibration_override (o_config o) = Some (mkCalibration (b64_of_Z 1000000) (b64_of_Z 1000) Newton NewtonMeter).
Proof.
  set (o := default default_options example_options).
  assert (@parse_options linux_x86_64 (λ _, 0) example_arguments = Ok o) as Ho by (vm_compute; reflexivity).
  exists o. split; [exact Ho|].
  destruct (@parse_options_sound linux_x86_64 _ _ _ Ho) as [Hh|(Hh & Hv & _)]; [discriminate Hh|].
  split; [exact Hh|]. split; [reflexivity|]. split; [exact Hv|]. vm_compute. reflexivity.
Defined.

Definition failing_rename : FileEnv := mkFileEnv (Some "/tmp/.out.a1b2c3") true true "" true true (Throw (RuntimeError "EXDEV")).

Lemma output_atomic_witness :
  let '(r, calls) := write_output failing_rename "/tmp/out" "{}" in
  r = Throw (RuntimeError "EXDEV") ∧
  file_run calls {["/tmp/out" := "old"]} = {["/tmp/out" := "old"]}.
Proof.
  split; [reflexivity|].
  apply (output_atomic failing_rename "/tmp/out" "{}" {["/tmp/out" := "old"]}).
  intros temporary [= <-]. split; [vm_compute; reflexivity|discriminate].
Defined.

(** A sensor that never answers. *)
Definition silent_env : CheckEnv :=
  mkCheckEnv (Ok ()) 0 (Ok ()) (λ _, default_health) (λ _, false) (λ _, false) (λ _, "")
    (λ k, 500000000 * Z.of_nat k) (λ _, false) (λ k, 10000000000 * Z.of_nat k) 0 default_health None.

Example silent_check :
  @main linux_x86_64 10 (λ _, 0) silent_env failing_rename ["--duration=1"] =
  Some (report_failure (RuntimeError "no Net F/T sample received"), [CallStart; CallStop], []).
Proof. vm_compute. reflexivity. Qed.

Lemma silent_options : 
  @parse_options linux_x86_64 (λ _, 0) ["--duration=1"] = Ok (default_options <| duration := b64_of_Z 1 |>).
Proof. vm_compute. reflexivity. Qed.

Lemma main_outcome_witness :
  ∃ outcome calls files,
    @main linux_x86_64 10 (λ _, 0) silent_env failing_rename ["--duration=1"] = Some (outcome, calls, files) ∧
    (calls = [] ∨ list.last calls = Some CallStop) ∧
    @main_ends linux_x86_64 (λ _, 0) silent_env failing_rename ["--duration=1"] outcome calls files.
Proof.
  destruct (@main_outcome linux_x86_64 10 (λ _, 0) silent_env failing_rename ["--duration=1"] 4)
    as (outcome & calls & files & Hm & Hc & He & _).
  - intros o. rewrite silent_options. intros [= <-]. split; vm_compute; reflexivity.
  - lia.
  - exists outcome, calls, files. split; [exact Hm|]. split; [exact Hc|exact He].
Defined.
