(* ===== verification/Json.v ===== *)
(** * The JSON report is read back

    A reader of JSON texts (RFC 8259) and the lemmas that what [netft_check]
    prints on its streams ([check_main.cpp]) is one JSON text with the members, the
    integers, the doubles and the strings of its result or of its error. *)

From stdpp Require Import list.
From S2P Require Import Prelude Floating Rounding Types Text UnitConversion Diagnostics Decimal ClientImpl Check.
From Stdlib Require Import Ascii.

(** ** The reader *)

(** ** Strings *)

Definition unescape (e : ascii) : option ascii :=
  if Ascii.eqb e quote || Ascii.eqb e backslash || Ascii.eqb e "/" then Some e
  else if Ascii.eqb e "n" then Some "010"%char
  else if Ascii.eqb e "r" then Some "013"%char
  else if Ascii.eqb e "t" then Some "009"%char
  else if Ascii.eqb e "b" then Some "008"%char
  else if Ascii.eqb e "f" then Some "012"%char
  else None.

(** The rest of a JSON string behind its opening quote, control characters
    refused: the text (characters up to U+00FF) and what follows. *)
Fixpoint read_json_chars (l : chars) : option (chars * chars) :=
  match l with
  | [] => None
  | c :: l =>
      if Ascii.eqb c quote then Some ([], l)
      else if Ascii.eqb c backslash then
        match l with
        | [] => None
        | e :: l =>
            if Ascii.eqb e "u" then
              match l with
              | h1 :: h2 :: h3 :: h4 :: l =>
                  let '(v, n, _) := scan_digits 16 0 0 [h1; h2; h3; h4] in
                  if (n =? 4)%nat && (v <? 256) then
                    '(text, rest) ← read_json_chars l; Some (ascii_of_N (Z.to_N v) :: text, rest)
                  else None
              | _ => None
              end
            else
              c ← unescape e; '(text, rest) ← read_json_chars l; Some (c :: text, rest)
        end
      else if (code c <? 32)%N then None
      else '(text, rest) ← read_json_chars l; Some (c :: text, rest)
  end.

(** One escaped character is read as itself. *)
Lemma read_json_char c l :
  read_json_chars (json_char c ++ l) = ('(text, rest) ← read_json_chars l; Some (c :: text, rest)).
Proof. destruct c as [[] [] [] [] [] [] [] []]; reflexivity. Qed.

(** The text behind the opening quote is read back, and what follows it is left. *)
Lemma read_json_string value rest :
  ∃ l, to_chars (json_string value) = quote :: l ∧ read_json_chars (l ++ rest) = Some (to_chars value, rest).
Proof.
  exists ((to_chars value ≫= json_char) ++ [quote]). split; [apply to_of_chars|].
  rewrite <- app_assoc. induction (to_chars value) as [|c l IH]; [done|].
  cbn [mbind list_bind]. by rewrite <- app_assoc, read_json_char, IH.
Qed.

(** ** Numbers *)

Fixpoint drop_digits (l : chars) : chars :=
  match l with c :: l' => if is_digit c then drop_digits l' else l | [] => [] end.

(** The grammar of numbers: [-? int frac? exp?], no leading zeros. *)
Definition json_exponent (l : chars) : bool :=
  match l with
  | [] => true
  | c :: l =>
      is_char "eE" c &&
      match (scan_sign l).2 with
      | [] => false
      | d :: l => is_digit d && bool_decide (drop_digits l = [])
      end
  end.

Definition json_fraction (l : chars) : bool :=
  match l with
  | c :: d :: l' => if is_char "." c then is_digit d && json_exponent (drop_digits l') else json_exponent l
  | _ => json_exponent l
  end.

Definition json_unsigned (l : chars) : bool :=
  match l with
  | [] => false
  | c :: l' => if is_char "0" c then json_fraction l' else is_digit c && json_fraction (drop_digits l')
  end.

Definition json_number_token (l : chars) : bool :=
  match l with c :: l' => json_unsigned (if is_char "-" c then l' else l) | [] => false end.

(** The characters of a token that starts like a number. *)
Definition token_char (c : ascii) : bool := is_digit c || is_char "+-.eE" c.

Fixpoint span_token (l : chars) : chars * chars :=
  match l with
  | c :: l' => if token_char c then let '(t, rest) := span_token l' in (c :: t, rest) else ([], l)
  | [] => ([], [])
  end.

(** ** Values *)

Inductive Json :=
  | JNull
  | JBool (b : bool)
  | JNumber (token : chars)
  | JString (text : chars)
  | JArray (elements : list Json)
  | JObject (members : list (chars * Json)).

Definition json_whitespace (c : ascii) : bool :=
  let n := code c in ((n =? 32) || (n =? 9) || (n =? 10) || (n =? 13))%N.

Fixpoint skip (l : chars) : chars :=
  match l with c :: l' => if json_whitespace c then skip l' else l | [] => [] end.

(** What follows a literal name. *)
Definition literal (name : string) (l : chars) : option chars :=
  if has_prefix (to_chars name) l then Some (skipn (length (to_chars name)) l) else None.

Definition open_brace : ascii := "{".
Definition close_brace : ascii := "}".

(** A value and what follows it; the fuel bounds the number of values. *)
Fixpoint read_value (fuel : nat) (l : chars) : option (Json * chars) :=
  match fuel with
  | O => None
  | S fuel =>
      match skip l with
      | [] => None
      | c :: l' =>
          if Ascii.eqb c quote then '(t, rest) ← read_json_chars l'; Some (JString t, rest)
          else if Ascii.eqb c open_brace then
            match skip l' with
            | d :: rest =>
                if Ascii.eqb d close_brace then Some (JObject [], rest)
                else '(ms, rest) ← read_members fuel l'; Some (JObject ms, rest)
            | [] => None
            end
          else if Ascii.eqb c "[" then
            match skip l' with
            | d :: rest =>
                if Ascii.eqb d "]" then Some (JArray [], rest)
                else '(vs, rest) ← read_elements fuel l'; Some (JArray vs, rest)
            | [] => None
            end
          else if token_char c then
            let '(t, rest) := span_token (c :: l') in if json_number_token t then Some (JNumber t, rest) else None
          else
            match literal "null" (c :: l'), literal "true" (c :: l'), literal "false" (c :: l') with
            | Some rest, _, _ => Some (JNull, rest)
            | _, Some rest, _ => Some (JBool true, rest)
            | _, _, Some rest => Some (JBool false, rest)
            | _, _, _ => None
            end
      end
  end
with read_members (fuel : nat) (l : chars) : option (list (chars * Json) * chars) :=
  match fuel with
  | O => None
  | S fuel =>
      match skip l with
      | [] => None
      | c :: l =>
          if negb (Ascii.eqb c quote) then None
          else
            '(key, l) ← read_json_chars l;
            match skip l with
            | [] => None
            | c :: l =>
                if negb (Ascii.eqb c ":") then None
                else
                  '(v, l) ← read_value fuel l;
                  match skip l with
                  | c :: l =>
                      if Ascii.eqb c "," then '(ms, l) ← read_members fuel l; Some ((key, v) :: ms, l)
                      else if Ascii.eqb c close_brace then Some ([(key, v)], l) else None
                  | [] => None
                  end
            end
      end
  end
with read_elements (fuel : nat) (l : chars) : option (list Json * chars) :=
  match fuel with
  | O => None
  | S fuel =>
      '(v, l) ← read_value fuel l;
      match skip l with
      | c :: l =>
          if Ascii.eqb c "," then '(vs, l) ← read_elements fuel l; Some (v :: vs, l)
          else if Ascii.eqb c "]" then Some ([v], l) else None
      | [] => None
      end
  end.

(** A whole text: one value and nothing but whitespace behind it. *)
Definition read_document (l : chars) : option Json :=
  '(v, rest) ← read_value (S (length l)) l;
  if bool_decide (skip rest = []) then Some v else None.

(** A number as an integer. *)
Definition read_integer (t : chars) : option Z :=
  let '(v, n, rest) := scan_digits 10 0 0 t in
  if (n =? 0)%nat || negb (bool_decide (rest = [])) then None else Some v.

Example read_document_ex :
  read_document (to_chars " [1, -2.5e3, [], { }, true , null] ") =
  Some (JArray [JNumber (to_chars "1"); JNumber (to_chars "-2.5e3"); JArray []; JObject []; JBool true; JNull]).
Proof. vm_compute. reflexivity. Qed.
Example read_document_bad :
  (λ t, read_document (to_chars t)) <$> ["01"; "1."; "+1"; "[1,]"; "nul"; "1 2"; "-"; "1e"; "nan"] = replicate 9 None.
Proof. vm_compute. reflexivity. Qed.

(** ** Printed values are read *)

Definition stops (l : chars) : bool := match l with [] => true | c :: _ => negb (token_char c) end.

(** [text] is read as [v], whatever does not continue it follows. *)
Definition reads (text : chars) (v : Json) : Prop :=
  ∀ fuel rest, (length text ≤ fuel)%nat → stops rest = true → read_value fuel (text ++ rest) = Some (v, rest).

Lemma reads_null : reads (to_chars "null") JNull.
Proof. intros [|fuel] rest Hf _; [cbn in Hf; lia|done]. Qed.

Lemma reads_string value : reads (to_chars (json_string value)) (JString (to_chars value)).
Proof.
  intros [|fuel] rest Hf _; destruct (read_json_string value rest) as (l & Hl & Hr); rewrite Hl in *; [cbn in Hf; lia|].
  change (('(t, rest') ← read_json_chars (l ++ rest); Some (JString t, rest')) = Some (JString (to_chars value), rest)).
  by rewrite Hr.
Qed.

(** Characters that stand for themselves. *)
Definition plain_char (c : ascii) : bool :=
  negb (Ascii.eqb c quote) && negb (Ascii.eqb c backslash) && negb (code c <? 32)%N.

Lemma read_plain l rest : forallb plain_char l = true → read_json_chars (l ++ quote :: rest) = Some (l, rest).
Proof.
  induction l as [|c l IH]; [done|]. cbn [forallb app read_json_chars].
  intros [[[H1 H2]%andb_prop H3]%andb_prop Hl]%andb_prop. apply negb_true_iff in H1, H2, H3.
  by rewrite H1, H2, H3, (IH Hl).
Qed.

Lemma reads_plain l : forallb plain_char l = true → reads (quote :: l ++ [quote]) (JString l).
Proof.
  intros Hl [|fuel] rest Hf _; [cbn in Hf; lia|].
  change (('(t, rest') ← read_json_chars ((l ++ [quote]) ++ rest); Some (JString t, rest')) = Some (JString l, rest)).
  rewrite <- app_assoc. cbn [app]. by rewrite read_plain.
Qed.

Lemma span_token_app t rest : forallb token_char t = true → stops rest = true → span_token (t ++ rest) = (t, rest).
Proof.
  intros Ht Hr. induction t as [|c t IH]; cbn [app].
  - destruct rest as [|c rest]; [done|]. cbn [stops span_token] in *. apply negb_true_iff in Hr. by rewrite Hr.
  - cbn [forallb span_token] in *. apply andb_prop in Ht as [-> Ht]. by rewrite (IH Ht).
Qed.

Lemma token_char_other c :
  token_char c = true →
  json_whitespace c = false ∧ Ascii.eqb c quote = false ∧ Ascii.eqb c open_brace = false ∧
  Ascii.eqb c "[" = false ∧ Ascii.eqb c "]" = false.
Proof. destruct c as [[] [] [] [] [] [] [] []]; vm_compute; intros; repeat split; done. Qed.

Lemma reads_number t : forallb token_char t = true → json_number_token t = true → reads t (JNumber t).
Proof.
  intros Ht Hn [|fuel] rest Hf Hr; destruct t as [|c t]; try done; [cbn in Hf; lia|].
  pose proof Ht as Hc. cbn [forallb] in Hc. apply andb_prop in Hc as [Hc _].
  destruct (token_char_other c Hc) as (H1 & H2 & H3 & H4 & _).
  cbn [read_value app skip]. rewrite H1, H2, H3, H4, Hc. change (c :: t ++ rest) with ((c :: t) ++ rest).
  by rewrite span_token_app, Hn.
Qed.

Lemma drop_digits_app l rest : digits l → no_digit rest = true → drop_digits (l ++ rest) = rest.
Proof.
  intros Hl Hr. induction l as [|c l IH]; cbn [app].
  - destruct rest as [|c rest]; [done|]. cbn [no_digit drop_digits] in *. apply negb_true_iff in Hr. by rewrite Hr.
  - unfold digits in Hl. cbn [forallb drop_digits] in *. apply andb_prop in Hl as [-> Hl]. by apply IH.
Qed.

Lemma json_exponent_chars x : json_exponent (exponent_chars x) = true.
Proof.
  unfold exponent_chars, json_exponent. change (is_char "eE" "e") with true. cbn [andb].
  destruct (pad_left_spec 2 (Z.abs x)) as (Hd & _ & Hne & _); [lia|].
  set (l := to_chars (pad_left 2 "0" (pretty (Z.abs x)))) in *.
  assert ((scan_sign ((if x <? 0 then "-"%char else "+"%char) :: l)).2 = l) as -> by (by destruct (x <? 0)).
  destruct l as [|d l]; [done|]. apply (digits_app [d]) in Hd as [Hd Hl]. apply andb_prop in Hd as [-> _].
  rewrite <- (app_nil_r l), drop_digits_app by done. by apply bool_decide_eq_true_2.
Qed.

Lemma json_fraction_spec fraction expo :
  digits fraction → expo = [] ∨ (∃ x, expo = exponent_chars x) →
  json_fraction (match fraction with [] => [] | _ => "."%char :: fraction end ++ expo) = true.
Proof.
  intros Hf He. assert (json_exponent expo = true ∧ no_digit expo = true) as [Hx Hn].
  { destruct He as [-> |[x ->]]; [done|]. split; [apply json_exponent_chars|done]. }
  destruct fraction as [|d f].
  - cbn [app]. destruct He as [-> |[x ->]]; [done|]. exact Hx.
  - apply (digits_app [d]) in Hf as [Hd Hf]. apply andb_prop in Hd as [Hd _].
    cbn [app json_fraction]. change (is_char "." ".") with true. by rewrite Hd, drop_digits_app.
Qed.

Lemma pretty_head n :
  0 < n → ∃ c l, to_chars (pretty n) = c :: l ∧ is_char "0" c = false.
Proof.
  intros Hn. destruct (pretty_spec n) as (Hd & Hv & Hne & Hlow); [lia|]. specialize (Hlow Hn).
  destruct (to_chars (pretty n)) as [|c l]; [done|]. exists c, l. split; [done|].
  destruct (is_char "0" c) eqn:Hc; [|done]. exfalso.
  assert (c = "0"%char) as -> by (destruct c as [[] [] [] [] [] [] [] []]; done).
  apply (digits_app ["0"%char]) in Hd as [_ Hd]. pose proof (digits_value_range l Hd).
  cbn [digits_value length] in *. change (0 * 10 + default 0 (digit_value 10 "0")) with 0 in Hv.
  replace (Z.of_nat (S (length l)) - 1) with (Z.of_nat (length l)) in Hlow by lia. lia.
Qed.

Lemma printed_json l : printed l → json_unsigned l = true.
Proof.
  intros [n fraction expo Hn Hf He]. unfold decimal_chars. rewrite <- app_assoc.
  pose proof (json_fraction_spec fraction expo Hf He) as Hj.
  set (tail := match fraction with [] => [] | _ => "."%char :: fraction end ++ expo) in *.
  assert (no_digit tail = true) as Hnd.
  { unfold tail. destruct fraction; [|done]. destruct He as [-> |[x ->]]; done. }
  destruct (decide (n = 0)) as [->|]; [exact Hj|].
  destruct (pretty_head n) as (c & w & Hl & Hc); [lia|]. destruct (pretty_spec n Hn) as (Hd & _).
  rewrite Hl in *. apply (digits_app [c]) in Hd as [Hdc Hd]. apply andb_prop in Hdc as [Hdc _].
  cbn [app json_unsigned]. by rewrite Hc, Hdc, drop_digits_app.
Qed.

Lemma token_of_number l : forallb number_char l = true → forallb token_char l = true.
Proof.
  rewrite !forallb_forall. intros H c Hc. specialize (H c Hc). revert H. clear.
  destruct c as [[] [] [] [] [] [] [] []]; vm_compute; done.
Qed.

Lemma signed_json s l : printed l → json_number_token (to_chars (sign_text s) ++ l) = true.
Proof.
  intros Hl. pose proof (printed_json l Hl) as Hj. apply printed_head in Hl as (c & l' & -> & Hc).
  destruct s; [exact Hj|]. change (json_number_token (c :: l') = true). unfold json_number_token.
  by destruct (digit_not_special c Hc) as (_ & -> & _).
Qed.

(** A finite double and a natural number. *)
Lemma reads_double x :
  isfinite x = true → reads (to_chars (calibration_number x)) (JNumber (to_chars (calibration_number x))).
Proof.
  intros Hx. apply reads_number; [by apply token_of_number, calibration_number_chars|].
  destruct (calibration_number_spec x Hx) as (s & l & -> & Hl). by apply signed_json.
Qed.

Lemma reads_integer n :
  0 ≤ n → reads (to_chars (pretty n)) (JNumber (to_chars (pretty n))) ∧ read_integer (to_chars (pretty n)) = Some n.
Proof.
  intros Hn. destruct (pretty_spec n Hn) as (Hd & Hv & Hne & _). split.
  - apply reads_number; [by apply token_of_number, digits_number|].
    apply (signed_json false). rewrite <- (app_nil_r (to_chars (pretty n))).
    replace (to_chars (pretty n)) with (decimal_chars (to_chars (pretty n)) []) by apply app_nil_r.
    constructor; [done..|by left].
  - unfold read_integer. rewrite scan_digits_all, Hv by done.
    destruct (Nat.eqb_spec (0 + length (to_chars (pretty n))) 0); [by destruct (to_chars (pretty n))|].
    by rewrite bool_decide_eq_true_2.
Qed.

(** ** Arrays and objects *)

(** Whitespace in front of a value, an element or a member. *)
Lemma read_value_space c fuel l : json_whitespace c = true → read_value fuel (c :: l) = read_value fuel l.
Proof. intros Hc. destruct fuel; [done|]. cbn [read_value skip]. by rewrite Hc. Qed.

Lemma read_elements_space c fuel l : json_whitespace c = true → read_elements fuel (c :: l) = read_elements fuel l.
Proof. intros Hc. destruct fuel; [done|]. cbn [read_elements]. by rewrite read_value_space. Qed.

Lemma read_members_space c fuel l : json_whitespace c = true → read_members fuel (c :: l) = read_members fuel l.
Proof. intros Hc. destruct fuel; [done|]. cbn [read_members skip]. by rewrite Hc. Qed.

Lemma bind_ok_inv {A B} (m : result A) (f : A → result B) b : m ≫= f = Ok b → ∃ a, m = Ok a ∧ f a = Ok b.
Proof. destruct m; [|done]. by exists a. Qed.

(** What the text of a number stands for. *)
Definition number_is (x : double) (j : Json) : Prop :=
  match j with JNumber t => stream_double t = Some x | _ => False end.

Lemma json_number_reads x t :
  valid64 x = true → json_number x = Ok t → ∃ j, reads (to_chars t) j ∧ number_is x j.
Proof.
  intros Hv. unfold json_number. destruct (isfinite x) eqn:Hx; [|done]. intros [= <-].
  exists (JNumber (to_chars (calibration_number x))). split; [by apply reads_double|].
  by apply calibration_number_roundtrip_text.
Qed.

Lemma json_numbers_reads values t :
  values ≠ [] → Forall (λ x, valid64 x = true) values → json_numbers values = Ok t →
  ∃ js, Forall2 number_is values js ∧
    ∀ fuel rest, (length (to_chars t) < fuel)%nat → read_elements fuel (to_chars t ++ "]"%char :: rest) = Some (js, rest).
Proof.
  intros Hne Hv. revert t. induction Hv as [|x values Hx Hv IH]; [done|]. intros t Ht.
  destruct values as [|y values]; cbn [json_numbers] in Ht.
  - destruct (json_number_reads x t Hx Ht) as (j & Hj & Hn). exists [j]. split; [by repeat constructor|].
    intros [|fuel] rest Hf; [lia|]. cbn [read_elements]. rewrite Hj by (done || lia). done.
  - apply bind_ok_inv in Ht as (a & Ha & Ht). apply bind_ok_inv in Ht as (b & Hb & [= <-]).
    destruct (json_number_reads x a Hx Ha) as (j & Hj & Hn). destruct (IH ltac:(done) b Hb) as (js & Hjs & Hr).
    exists (j :: js). split; [by constructor|]. intros [|fuel] rest Hf; [lia|].
    rewrite !to_chars_app, !length_app in *. cbn [read_elements]. rewrite <- !app_assoc.
    rewrite Hj by (done || lia). change (length (to_chars ", ")) with 2%nat in Hf.
    change (('(vs, l0) ← read_elements fuel (" "%char :: to_chars b ++ "]"%char :: rest); Some (j :: vs, l0)) =
      Some (j :: js, rest)).
    rewrite read_elements_space, Hr by (done || lia). done.
Qed.

Lemma json_number_head x t : json_number x = Ok t → ∃ c l, to_chars t = c :: l ∧ token_char c = true.
Proof.
  unfold json_number. destruct (isfinite x) eqn:Hx; [|done]. intros [= <-].
  pose proof (token_of_number _ (calibration_number_chars x Hx)) as Ht.
  destruct (calibration_number_spec x Hx) as (s & l & Hl & (c & l' & -> & _)%printed_head).
  rewrite Hl in *. destruct s; cbn [app] in *; by apply andb_prop in Ht as [? _]; eexists _, _.
Qed.

Lemma json_numbers_head values t :
  values ≠ [] → json_numbers values = Ok t → ∃ c l, to_chars t = c :: l ∧ token_char c = true.
Proof.
  destruct values as [|x [|y values]]; [done|intros _; apply json_number_head|]. intros _.
  cbn [json_numbers]. intros (a & (c & l & Hl & Hc)%json_number_head & (b & Hb & [= <-])%bind_ok_inv)%bind_ok_inv.
  rewrite to_chars_app, Hl. by eexists _, _.
Qed.

Lemma reads_array values t :
  values ≠ [] → Forall (λ x, valid64 x = true) values → json_numbers values = Ok t →
  ∃ js, Forall2 number_is values js ∧ reads (to_chars ("[" +:+ t +:+ "]")) (JArray js).
Proof.
  intros Hne Hv Ht. destruct (json_numbers_reads values t Hne Hv Ht) as (js & Hjs & Hr). exists js. split; [done|].
  intros [|fuel] rest Hf Hs; rewrite !to_chars_app, !length_app in *; [cbn in Hf; lia|].
  change (length (to_chars "[")) with 1%nat in Hf. change (length (to_chars "]")) with 1%nat in Hf.
  rewrite <- !app_assoc. specialize (Hr fuel rest ltac:(lia)).
  change (to_chars "[" ++ to_chars t ++ to_chars "]" ++ rest) with ("["%char :: to_chars t ++ "]"%char :: rest).
  destruct (json_numbers_head values t Hne Ht) as (c & l & Hl & Hc). rewrite Hl in *. cbn [app] in *.
  destruct (token_char_other c Hc) as (H1 & _ & _ & _ & H5). set (m := l ++ "]"%char :: rest) in *.
  change (read_value (S fuel) ("["%char :: c :: m)) with
    (match (if json_whitespace c then skip m else c :: m) with
     | d :: rest =>
         if Ascii.eqb d "]" then Some (JArray [], rest)
         else '(vs, rest) ← read_elements fuel (c :: m); Some (JArray vs, rest)
     | [] => None
     end).
  by rewrite H1, H5, Hr.
Qed.

(** Members whose keys stand for themselves and whose texts are read. *)
Definition member_reads (field : string * string) (v : Json) : Prop :=
  forallb plain_char (to_chars field.1) = true ∧ reads (to_chars field.2) v.

Lemma member_chars field :
  to_chars (member field) = to_chars "  " ++ quote :: to_chars field.1 ++ quote :: ":"%char :: " "%char :: to_chars field.2.
Proof. unfold member. rewrite !to_chars_app, to_of_chars. cbn. by rewrite <- app_assoc. Qed.

Lemma read_members_spec fields vs :
  fields ≠ [] → Forall2 member_reads fields vs →
  ∀ fuel rest, (length (to_chars (String.concat ("," +:+ newline) (member <$> fields))) < fuel)%nat →
    read_members fuel (to_chars (String.concat ("," +:+ newline) (member <$> fields)) ++
                       "010"%char :: close_brace :: rest) =
    Some (zip (to_chars ∘ fst <$> fields) vs, rest).
Proof.
  intros Hne H. induction H as [|field v fields vs [Hk Hv] Hall IH]; [done|]. clear Hne.
  intros fuel rest Hf.
  assert (∀ fuel rest', stops rest' = true → (length (to_chars field.2) ≤ fuel)%nat →
    read_members (S fuel) (to_chars (member field) ++ rest') =
    match skip rest' with
    | c :: l =>
        if Ascii.eqb c "," then '(ms, l) ← read_members fuel l; Some ((to_chars field.1, v) :: ms, l)
        else if Ascii.eqb c close_brace then Some ([(to_chars field.1, v)], l) else None
    | [] => None
    end) as Hone.
  { intros n rest' Hs Hn. rewrite member_chars, <- app_assoc.
    change (to_chars "  " ++ ?l) with (" "%char :: " "%char :: l). rewrite !read_members_space by done.
    cbn [app]. rewrite <- app_assoc. cbn [app read_members skip].
    change (json_whitespace quote) with false. cbn [Ascii.eqb negb]. rewrite Ascii.eqb_refl. cbn [negb].
    rewrite read_plain by done. cbn [mbind option_bind skip]. change (json_whitespace ":") with false. cbv iota.
    change (Ascii.eqb ":" ":") with true. cbn [negb].
    rewrite read_value_space, Hv by done. cbn [mbind option_bind]. reflexivity. }
  destruct Hall as [|field' v' fields vs H' Hall].
  - change (String.concat ("," +:+ newline) (member <$> [field])) with (member field) in *.
    destruct fuel as [|fuel]; [lia|]. rewrite Hone; [done|done|].
    rewrite member_chars in Hf. rewrite !length_app in Hf. cbn [length] in Hf. rewrite length_app in Hf. cbn [length] in Hf. lia.
  - change (String.concat ("," +:+ newline) (member <$> field :: field' :: fields)) with
      (member field +:+ ("," +:+ newline) +:+ String.concat ("," +:+ newline) (member <$> field' :: fields)) in *.
    set (more := String.concat ("," +:+ newline) (member <$> field' :: fields)) in *.
    rewrite !to_chars_app, !length_app in *. rewrite <- !app_assoc. destruct fuel as [|fuel]; [lia|].
    change (length (to_chars ",")) with 1%nat in Hf. rewrite Hone; [|done|].
    + change (skip (to_chars "," ++ ?l)) with (","%char :: l).
      change (to_chars newline ++ ?l) with ("010"%char :: l). cbv iota. change (Ascii.eqb "," ",") with true. cbv iota.
      rewrite read_members_space, IH by (done || lia). done.
    + rewrite member_chars, !length_app in Hf. cbn [length] in Hf. rewrite length_app in Hf. cbn [length] in Hf. lia.
Qed.

(** The object texts of the tool are read, member by member. *)
Lemma reads_object fields vs :
  fields ≠ [] → Forall2 member_reads fields vs →
  reads (to_chars (object_text fields)) (JObject (zip (to_chars ∘ fst <$> fields) vs)).
Proof.
  intros Hne H [|fuel] rest Hf Hs; unfold object_text in *; rewrite !to_chars_app, !length_app in *; [cbn in Hf; lia|].
  change (length (to_chars "{")) with 1%nat in Hf. change (length (to_chars newline)) with 1%nat in Hf.
  pose proof (read_members_spec fields vs Hne H fuel rest ltac:(lia)) as Hr.
  rewrite <- !app_assoc. change (to_chars "{" ++ to_chars newline ++ ?l) with (open_brace :: "010"%char :: l).
  change (to_chars newline ++ to_chars "}" ++ rest) with ("010"%char :: close_brace :: rest).
  set (l := to_chars _ ++ _ :: _ :: rest) in *.
  assert (∃ m, skip l = quote :: m) as [m Hm].
  { unfold l. destruct fields as [|f fields]; [done|].
    assert (∃ m, to_chars (String.concat ("," +:+ newline) (member <$> f :: fields)) = " "%char :: " "%char :: quote :: m) as [m ->].
    { destruct fields as [|f' fields].
      - change (String.concat ("," +:+ newline) (member <$> [f])) with (member f). rewrite member_chars. by eexists.
      - change (String.concat ("," +:+ newline) (member <$> f :: f' :: fields)) with
          (member f +:+ ("," +:+ newline) +:+ String.concat ("," +:+ newline) (member <$> f' :: fields)).
        rewrite to_chars_app, member_chars. by eexists. }
    by eexists. }
  rewrite <- (read_members_space "010"%char) in Hr by done.
  change (read_value (S fuel) (open_brace :: "010"%char :: l)) with
    (match skip l with
     | d :: rest =>
         if Ascii.eqb d close_brace then Some (JObject [], rest)
         else '(ms, rest) ← read_members fuel ("010"%char :: l); Some (JObject ms, rest)
     | [] => None
     end).
  rewrite Hm. change (Ascii.eqb quote close_brace) with false. cbv iota. by rewrite Hr.
Qed.

(** ** What the report says *)

Inductive Content :=
  | CNull
  | CText (s : string)
  | CInteger (z : Z)
  | CReal (x : double)
  | CReals (values : list double).

Definition means (c : Content) (j : Json) : Prop :=
  match c, j with
  | CNull, JNull => True
  | CText s, JString t => t = to_chars s
  | CInteger z, JNumber t => read_integer t = Some z
  | CReal x, j => number_is x j
  | CReals values, JArray js => Forall2 number_is values js
  | _, _ => False
  end.

Definition member_means (c : string * Content) (m : chars * Json) : Prop :=
  m.1 = to_chars c.1 ∧ means c.2 m.2.

Definition maybe {A} (f : A → Content) (x : option A) : Content := default CNull (f <$> x).

(** The members of the report of [r], whose sample is [si] in SI units. *)
Definition report_contents (r : Result) (si : option SiSample) : list (string * Content) :=
  let h := r_health r in
  let configured f := maybe f (sensor_configuration h) in
  [("configuration_source", configured (λ c, CText (configuration_source (source c))));
   ("force_unit", configured (λ c, CText (force_unit_to_string (cal_force_unit (calibration c)))));
   ("torque_unit", configured (λ c, CText (torque_unit_to_string (cal_torque_unit (calibration c)))));
   ("counts_per_force_unit", configured (λ c, CReal (counts_per_force_unit (calibration c))));
   ("counts_per_torque_unit", configured (λ c, CReal (counts_per_torque_unit (calibration c))));
   ("device_error_count", CInteger (device_error_count h));
   ("device_status", CText (status_code (last_status h)));
   ("duplicate_count", CInteger (duplicate_count h));
   ("elapsed_s", CReal (elapsed_s r)); ("endpoint", CText (endpoint r));
   ("last_force_n", maybe (λ s, CReals (si_force s)) si);
   ("last_ft_sequence", maybe CInteger (last_ft_sequence h));
   ("last_rdt_sequence", maybe CInteger (last_rdt_sequence h));
   ("last_torque_nm", maybe (λ s, CReals (si_torque s)) si);
   ("lost_count", CInteger (lost_count h)); ("malformed_count", CInteger (malformed_count h));
   ("out_of_order_count", CInteger (out_of_order_count h));
   ("receive_rate_hz", CReal (b64_div (b64_of_Z (received_count h)) (elapsed_s r)));
   ("reconnect_count", CInteger (reconnect_count h));
   ("requested_duration_s", CReal (requested_duration_s r)); ("sample_count", CInteger (received_count h));
   ("timeout_count", CInteger (timeout_count h)); ("warning_count", CInteger (warning_count h))].

(** The C++ types of what the report prints. *)
Definition typed_health (h : HealthSnapshot) : Prop :=
  Forall is_u64 [device_error_count h; duplicate_count h; lost_count h; malformed_count h; out_of_order_count h;
                 reconnect_count h; received_count h; timeout_count h; warning_count h] ∧
  (∀ n, last_ft_sequence h = Some n → is_u32 n) ∧ (∀ n, last_rdt_sequence h = Some n → is_u32 n) ∧
  (∀ c, sensor_configuration h = Some c →
     valid64 (counts_per_force_unit (calibration c)) = true ∧
     valid64 (counts_per_torque_unit (calibration c)) = true).

Definition typed_sample (s : Sample) : Prop :=
  length (force s) = 3%nat ∧ length (torque s) = 3%nat ∧
  Forall (λ v, valid64 v = true) (force s ++ torque s).

Definition typed_result (r : Result) : Prop :=
  valid64 (elapsed_s r) = true ∧ valid64 (requested_duration_s r) = true ∧ typed_health (r_health r) ∧
  ∀ s, last r = Some s → typed_sample s.

(** The sample in SI units. *)
Definition si_of (r : Result) (si : option SiSample) : Prop :=
  match last r with Some s => ∃ s', to_si_sample s = Ok s' ∧ si = Some s' | None => si = None end.

(** A member's text and what it stands for. *)
Definition prints (field : string * string) (c : string * Content) : Prop :=
  field.1 = c.1 ∧ forallb plain_char (to_chars field.1) = true ∧
  ∃ v, reads (to_chars field.2) v ∧ means c.2 v.

Lemma prints_members fields cs :
  Forall2 prints fields cs →
  ∃ vs, Forall2 member_reads fields vs ∧ Forall2 member_means cs (zip (to_chars ∘ fst <$> fields) vs).
Proof.
  induction 1 as [|field c fields cs (Hk & Hp & v & Hv & Hm) _ (vs & IH1 & IH2)]; [by exists []|].
  exists (v :: vs). split; [by constructor|]. constructor; [|done]. cbn. by rewrite Hk.
Qed.

Lemma prints_text k s : forallb plain_char (to_chars k) = true → prints (k, json_string s) (k, CText s).
Proof. intros Hk. split_and!; [done..|]. eexists; split; [apply reads_string|done]. Qed.

Lemma prints_integer k n :
  forallb plain_char (to_chars k) = true → 0 ≤ n → prints (k, pretty n) (k, CInteger n).
Proof. intros Hk [H1 H2]%reads_integer. split_and!; [done..|]. by eexists. Qed.

Lemma prints_real k x t :
  forallb plain_char (to_chars k) = true → valid64 x = true → json_number x = Ok t → prints (k, t) (k, CReal x).
Proof. intros Hk Hx (j & H1 & H2)%json_number_reads; [|done]. split_and!; [done..|]. by eexists. Qed.

Lemma prints_null k : forallb plain_char (to_chars k) = true → prints (k, "null") (k, CNull).
Proof. intros Hk. split_and!; [done..|]. eexists; split; [apply reads_null|done]. Qed.

Lemma prints_wrench k si b t :
  forallb plain_char (to_chars k) = true →
  (∀ s, si = Some s → (si_force s ≠ [] ∧ si_torque s ≠ []) ∧
     Forall (λ v, valid64 v = true) (si_force s ++ si_torque s)) →
  json_wrench si b = Ok t →
  prints (k, t) (k, maybe (λ s, CReals (if b : bool then si_force s else si_torque s)) si).
Proof.
  intros Hk Hsi Ht. destruct si as [s|]; cbn [json_wrench] in Ht; [|injection Ht as <-; by apply prints_null].
  apply bind_ok_inv in Ht as (a & Ha & [= <-]). destruct (Hsi s eq_refl) as [[Hf Ht] [Hvf Hvt]%Forall_app].
  destruct (reads_array (if b then si_force s else si_torque s) a) as (js & Hjs & Hr);
    [by destruct b|by destruct b|done|].
  split_and!; [done..|]. by exists (JArray js).
Qed.

Lemma hex_digit_plain z : plain_char (hex_digit (Z.land z 15)) = true.
Proof.
  assert (0 ≤ Z.land z 15 < 16) as Hz.
  { change 15 with (Z.ones 4). rewrite Z.land_ones by done. by apply Z.mod_pos_bound. }
  set (d := Z.land z 15) in *. clearbody d. unfold hex_digit.
  assert (∀ n, (n < 16)%nat → plain_char (nth n (String.list_ascii_of_string "0123456789abcdef") "0"%char) = true) as H
    by (intros n Hn; do 16 (destruct n as [|n]; [done|]); lia).
  apply H. lia.
Qed.

Lemma prints_status k status :
  forallb plain_char (to_chars k) = true →
  prints (k, of_chars (quote :: to_chars (status_code status) ++ [quote])) (k, CText (status_code status)).
Proof.
  intros Hk. split_and!; [done..|]. exists (JString (to_chars (status_code status))). split; [|done].
  cbn [snd]. rewrite to_of_chars. apply reads_plain. unfold status_code. rewrite to_chars_app, to_of_chars, forallb_app.
  apply andb_true_intro; split; [done|]. apply forallb_forall. intros c Hc.
  apply in_map_iff in Hc as (n & <- & _). apply hex_digit_plain.
Qed.

Lemma si_valid s si :
  typed_sample s → to_si_sample s = Ok si →
  (si_force si ≠ [] ∧ si_torque si ≠ []) ∧ Forall (λ v, valid64 v = true) (si_force si ++ si_torque si).
Proof.
  intros (Hf & Ht & [Hvf Hvt]%Forall_app) H. apply to_si_sample_ok in H as (_ & (fs & ts & Hfs & Hts & -> & ->) & _); [|congruence].
  assert (valid64 fs = true) as Hfv by (by destruct (force_unit s); inversion Hfs).
  assert (valid64 ts = true) as Htv by (by destruct (torque_unit s); inversion Hts).
  split; [by destruct (force s), (torque s)|].
  apply Forall_app; split; apply Forall_fmap; eapply Forall_impl; try done; intros v Hv; by apply SFmul_valid.
Qed.

Lemma prints_configured {A} k (f : A → string) (g : A → Content) c :
  forallb plain_char (to_chars k) = true → (∀ x, c = Some x → prints (k, f x) (k, g x)) →
  prints (k, match c with Some x => f x | None => "null" end) (k, maybe g c).
Proof. intros Hk H. destruct c; [by apply H|by apply prints_null]. Qed.

Lemma prints_or_null {A} k (f : A → double) (c : option A) t :
  forallb plain_char (to_chars k) = true → (∀ x, c = Some x → valid64 (f x) = true) →
  or_null (λ x, json_number (f x)) c = Ok t → prints (k, t) (k, maybe (λ x, CReal (f x)) c).
Proof.
  intros Hk H Ht. destruct c as [x|]; cbn [or_null] in Ht; [|injection Ht as <-; by apply prints_null].
  apply prints_real; [done|by apply H|done].
Qed.

Lemma prints_sequence k x :
  forallb plain_char (to_chars k) = true → (∀ n, x = Some n → is_u32 n) →
  prints (k, json_optional_sequence x) (k, maybe CInteger x).
Proof.
  intros Hk H. destruct x as [n|]; [|by apply prints_null]. apply prints_integer; [done|].
  specialize (H n eq_refl). width_lia.
Qed.

Lemma report_fields_print r fields :
  typed_result r → report_fields r = Ok fields →
  ∃ si, si_of r si ∧ Forall2 prints fields (report_contents r si).
Proof.
  intros (He & Hd & (Hc & Hft & Hrdt & Hcal) & Hs). unfold report_fields.
  intros (si & Hsi & H)%bind_ok_inv. exists si.
  assert (si_of r si ∧ ∀ s, si = Some s → (si_force s ≠ [] ∧ si_torque s ≠ []) ∧
    Forall (λ v, valid64 v = true) (si_force s ++ si_torque s)) as [Hof Hsv].
  { unfold si_of. destruct (last r) as [s|]; [|by injection Hsi as <-].
    apply bind_ok_inv in Hsi as (s' & Hs' & [= <-]). split; [by exists s'|].
    intros s2 [= <-]. apply (si_valid s); [by apply Hs|done]. }
  split; [done|].
  apply bind_ok_inv in H as (cpf & Hcpf & H). apply bind_ok_inv in H as (cpt & Hcpt & H).
  apply bind_ok_inv in H as (el & Hel & H). apply bind_ok_inv in H as (f & Hf & H).
  apply bind_ok_inv in H as (t & Ht & H). apply bind_ok_inv in H as (rate & Hrate & H).
  apply bind_ok_inv in H as (req & Hreq & H).
  apply (f_equal (λ x, match x with Ok a => a | Throw _ => fields end)) in H. cbv beta iota zeta in H. subst fields.
  repeat (apply Forall_cons in Hc as [? Hc]).
  assert (valid64 (b64_div (b64_of_Z (received_count (r_health r))) (elapsed_s r)) = true)
    by (apply SFdiv_valid; try done; by apply fl_of_Z_valid).
  unfold report_contents.
  repeat (apply Forall2_cons; split); try apply Forall2_nil; try done;
    try (apply prints_integer; [done|]; match goal with H : is_u64 ?x |- 0 ≤ ?x => apply H end);
    try (by apply prints_text); try (by apply prints_sequence); try (by apply prints_status);
    try (by apply prints_real);
    try (apply prints_configured; [done|intros; by apply prints_text]);
    try (apply prints_or_null; [done|intros c Hc'; by destruct (Hcal c Hc')|done]).
  - by apply (prints_wrench "last_force_n" si true).
  - by apply (prints_wrench "last_torque_nm" si false).
Qed.

(** ** Documents *)

Lemma read_document_reads text v :
  reads (to_chars text) v → read_document (to_chars (text +:+ newline)) = Some v.
Proof.
  intros H. unfold read_document. rewrite to_chars_app, H; [|rewrite length_app; lia|done].
  cbn [mbind option_bind]. done.
Qed.

(** The report of a failure. *)
Definition error_json (e : exn) : Json :=
  JObject [(to_chars "error",
              JString (to_chars (match e with InvalidArgument _ => "invalid_arguments" | _ => "check_failed" end)));
           (to_chars "exit_code", JNumber (to_chars "2")); (to_chars "message", JString (to_chars (what e)))].

Lemma fails_reads e outcome :
  fails e outcome → read_document (to_chars (stderr outcome)) = Some (error_json e).
Proof.
  intros (_ & _ & ->). apply read_document_reads. unfold serialize_error, Check.category.
  set (category := match e with InvalidArgument _ => _ | _ => _ end).
  pose proof (reads_object
    [("error", json_string category); ("exit_code", "2"); ("message", json_string (what e))]
    [JString (to_chars category); JNumber (to_chars "2"); JString (to_chars (what e))]) as H.
  apply H; [done|]. clear H. repeat (apply Forall2_cons; split); try apply Forall2_nil; try done;
    (split; [done|]); try apply reads_string. by apply (reads_integer 2).
Qed.

Lemma serialize_reads r text :
  typed_result r → serialize r = Ok text →
  ∃ si members, si_of r si ∧ read_document (to_chars (text +:+ newline)) = Some (JObject members) ∧
    Forall2 member_means (report_contents r si) members.
Proof.
  intros Ht (fields & Hf & [= <-])%bind_ok_inv.
  destruct (report_fields_print r fields Ht Hf) as (si & Hsi & Hp).
  destruct (prints_members _ _ Hp) as (vs & Hr & Hm). exists si. eexists. split_and!; [done| |exact Hm].
  apply read_document_reads, reads_object; [|done]. intros ->. inversion Hp.
Qed.

(** ** What the program prints *)

Lemma acquired_typed env o r calls :
  valid64 (duration o) = true → typed_health (final_health env) →
  (∀ s, final_sample env = Some s → typed_sample s) →
  acquired env o (Ok r) calls → typed_result r.
Proof.
  intros Hd Hh Hs Ha. inversion Ha as [| | | |? ? ? ? ? ? ? _ Hdur Hel Hrh Hrl]; subst.
  split_and!; [rewrite Hel|by rewrite Hdur|by rewrite Hrh|intros s; rewrite Hrl; apply Hs].
  apply SFdiv_valid; try done; by apply fl_of_Z_valid.
Qed.

(** What a completed run prints is read back: the output is one JSON text whose members
    are, in order and exactly, the counters, doubles and strings of its result.  Nothing
    that comes from the sensor, the command line or the operating system can break it. *)
Lemma completes_reads file o r outcome files :
  typed_result r → completes file o r outcome files →
  ∃ si members, si_of r si ∧ read_document (to_chars (stdout outcome)) = Some (JObject members) ∧
    Forall2 member_means (report_contents r si) members.
Proof. intros Ht (text & Hser & -> & _). by apply serialize_reads. Qed.

(** A run that received samples. *)
Definition good_sample : Sample :=
  mkSample 7 70 0 [1; 2; 3; 4; 5; 6] [b64_ratio 1 10; b64_ratio 1 3; b64_of_Z (-5)] [d0; d0; b64_ratio 2 7]
    PoundForce NewtonMillimeter 1 0.
Definition good_health : HealthSnapshot :=
  default_health <| received_count := 12 |> <| last_ft_sequence := Some 70 |>
    <| sensor_configuration := Some (mkSensorConfiguration "Axia80"
         (mkCalibration third (b64_of_Z 1000) PoundForce NewtonMillimeter) Sensor 1) |>.
Definition good_env : CheckEnv :=
  mkCheckEnv (Ok ()) 0 (Ok ()) (λ _, good_health) (λ _, false) (λ _, false) (λ _, "") (λ _, 1000) (λ _, false)
    (λ k, 10000000000 * Z.of_nat k) 2000000000 good_health (Some good_sample).
Definition good_outcome : Outcome := Eval vm_compute in
  match @main linux_x86_64 10 (λ _, 0) good_env failing_rename ["--duration=1"; "--host=sensor"] with
  | Some (outcome, _, _) => outcome | None => mkOutcome "" "" 2 end.

Definition good_members : list (chars * Json) := Eval vm_compute in
  match read_document (to_chars (stdout good_outcome)) with Some (JObject members) => members | _ => [] end.

(** The text of a report and what a reader finds in it. *)
Example good_report_read :
  exit_code good_outcome = 0 ∧ read_document (to_chars (stdout good_outcome)) = Some (JObject good_members) ∧
  good_members.*2 !! 9%nat = Some (JString (to_chars "sensor:49152")) ∧
  good_members.*2 !! 3%nat = Some (JNumber (to_chars "333333.33333333331")).
Proof. vm_compute. by split_and!. Qed.
