(* ===== verification/Session.v ===== *)
(** * The worker thread

    [Client::Impl::run], [receive_session], [handle_record], [close_session] and
    [finish_session] of [client_impl.cpp] as a small-step machine.  A program
    counter names the next atomic action of the worker; each step reads the
    atomics, or runs one critical section of [ClientImpl.v], with the answers of
    the environment (clock, discovery, transport, callback) for that step.
    Actions of other threads interleave between any two steps. *)

From S2P Require Import Prelude Floating Types Protocol Sequence Status FaultLatch ClientImpl.
From Stdlib Require Import Init.Byte.

(** ** Environment *)

Inductive CallbackResult := CbReturns | CbThrows (what : string) | CbThrowsUnknown.

(** What one step may ask of its environment: a reading of the steady clock, the
    answers of [discover_sensor], [connect] or [send], and [receive], and the
    behaviour of the callback. *)
Record Env := mkEnv {
  env_now : Z;
  env_discovered : result SensorConfiguration;
  env_io : result unit;
  env_received : result (list byte);
  env_callback : CallbackResult
}.

(** ** Worker *)

Inductive Pc :=
  (* run *)
  | PLoop
  | PClose (o : SessionOutcome)
  | PClosed (o : SessionOutcome)
  | PBackoff (o : SessionOutcome)
  | PWaitStart
  | PWait (until : Z)                  (* the predicate of the wait, [data_mutex_] held *)
  | PWaitBlock (until : Z)             (* it was false *)
  | PAsleep (until : Z)                (* blocked on [first_sample_cv_] *)
  | PCatch (e : exn)
  | PFinishClose | PFinishExit | PFinishState | PExited
  (* receive_session *)
  | PConnecting | PStopTest1 | PConfigure | PStopTest2 | PConnect | PStart | PBaseline
  | PFirstDeadline
  | PReceiveTest | PDeadlineTest | PTimedOut | PReceive
  | PDatagram (data : list byte)
  (* handle_record *)
  | PRecord (record : RawRecord) (at_ : Z)
  | PInvoke (sample : Sample) (outcome : option SessionResult)
  | PInCallback (sample : Sample) (outcome : option SessionResult)
  | PCommit (sample : Sample) (outcome : option SessionResult).

(** The worker's locals: [backoff] of [run]; [deadline] and
    [received_valid_record] of [receive_session]. *)
Record Worker := mkWorker {
  pc : Pc;
  backoff : double;
  deadline : Z;
  valid : bool
}.

#[export] Instance eta_Worker : Eta Worker := λ w,
  mkWorker (pc w) (backoff w) (deadline w) (valid w).

(** What a step shows to the outside: commands on the wire, datagrams taken from
    the socket, records handed to the trackers, resets of the RDT baseline and FT
    session starts, configurations put in force, silences that lasted to the deadline,
    callback invocations, exceptions of the callback, completed deliveries, ends of
    sessions, retreats into the backoff and waits.  [EvBegin] is the [start] that
    created the worker; no step of the worker shows it. *)
Inductive Event :=
  | EvBegin
  | EvSent (c : Command)
  | EvDatagram (data : list byte)
  | EvRecord (r : RawRecord) (received_at : Z)
  | EvRdtReset
  | EvFtSession
  | EvConfigured (c : SensorConfiguration)
  | EvCallback (callback : nat) (s : Sample)
  | EvCallbackThrew
  | EvDelivered (s : Sample)
  | EvTimeout
  | EvSessionEnd (r : SessionResult)
  | EvBackoff
  | EvWait (delay : double).

(** [return {result, message, received_valid_record};] *)
Definition finish (r : SessionResult) (message : string) (w : Worker) : Worker :=
  w <| pc := PClose (mkOutcome r message (valid w)) |>.

(** [if (outcome) return ...;] after [handle_record]. *)
Definition after_record (outcome : option SessionResult) (w : Worker) : Worker :=
  match outcome with
  | Some r => finish r "" w
  | None => w <| pc := PReceiveTest |>
  end.

(** The exception classes that derive from [DiscoveryError]. *)
Definition is_discovery_error (e : exn) : bool :=
  match e with DiscoveryError _ => true | _ => false end.

(** [std::min(backoff * 2.0, max)]. *)
Definition next_backoff (config : Config) (b : double) : double :=
  let doubled := b64_mul b (b64_of_Z 2) in
  if SFltb (reconnect_max_delay config) doubled then reconnect_max_delay config else doubled.

Definition unwind (e : exn) (w : Worker) : Worker := w <| pc := PCatch e |>.
Definition goto (p : Pc) (w : Worker) : Worker := w <| pc := p |>.
Definition configured_event (i : Impl) : list Event :=
  match sensor_configuration (health_ i) with Some c => [EvConfigured c] | None => [] end.
Definition sends (cs : list Command) : list Event := EvSent <$> cs.

Section Machine.
Context `{Platform}.

(** One step of [handle_record] and of the code after it. *)
Definition record_step (env : Env) (w : Worker) (i : Impl) : option (Worker * Impl * list Event) :=
  match pc w with
  | PRecord record at_ =>
      Some (match observe_record record at_ i with
      | (Throw e, i) => (unwind e w, i, [EvRecord record at_])
      | (Ok (configuration, g), i) =>
          (if negb (deliver g) then after_record (gate_outcome g) w
           else match make_sample configuration record at_ with
           | None => finish RSensorConfiguration "" w
           | Some sample => goto (PInvoke sample (gate_outcome g)) w
           end, i, [EvRecord record at_])
      end)
  | PInvoke sample outcome =>
      Some (match callback_ i with
      | Some id => (goto (PInCallback sample outcome) w, i, [EvCallback id sample])
      | None => (goto (PCommit sample outcome) w, i, [])
      end)
  | PInCallback sample outcome =>
      Some (match env_callback env with
      | CbReturns => (goto (PCommit sample outcome) w, i, [])
      | CbThrows what =>
          (after_record (callback_failure_outcome (config_ i) outcome) w,
           record_callback_error what i, [EvCallbackThrew])
      | CbThrowsUnknown =>
          (after_record (callback_failure_outcome (config_ i) outcome) w,
           record_callback_error "sample callback failed" i, [EvCallbackThrew])
      end)
  | PCommit sample outcome =>
      Some (after_record outcome w, commit_delivery sample i, [EvDelivered sample])
  | _ => None
  end.

(** One step of [receive_session]. *)
Definition session_step (env : Env) (w : Worker) (i : Impl) : option (Worker * Impl * list Event) :=
  match pc w with
  | PConnecting => Some (goto PStopTest1 w, session_connecting i, [])
  | PStopTest1 => Some (if stopping_ i then finish RStopped "" w else goto PConfigure w, i, [])
  | PConfigure =>
      Some (match configuration_for_session i (env_discovered env) with
      | Ok c =>
          let i := apply_configuration c i in (goto PStopTest2 w, i, configured_event i)
      | Throw e =>
          (if is_discovery_error e
           then finish (if stopping_ i then RStopped else RSensorConfiguration) (what e) w
           else unwind e w, i, [])
      end)
  | PStopTest2 => Some (if stopping_ i then finish RStopped "" w else goto PConnect w, i, [])
  | PConnect =>
      Some (match env_io env with
      | Ok _ => (goto PStart w, i, [])
      | Throw e => (finish (if stopping_ i then RStopped else RSocket) (what e) w, i, [])
      end)
  | PStart =>
      Some (match session_start (env_io env) i with
      | (None, i) => (finish RStopped "" w, i, [])
      | (Some (Ok _), i) => (goto PBaseline w, i, [EvSent StartRealtime])
      | (Some (Throw e), i) =>
          (finish (if stopping_ i then RStopped else RSocket) (what e) w, i, [])
      end)
  | PBaseline => Some (goto PFirstDeadline w, session_baseline i, [EvRdtReset; EvFtSession])
  | PFirstDeadline =>
      Some (match checked_deadline (env_now env) (receive_timeout (config_ i)) with
      | Ok d => (goto PReceiveTest (w <| deadline := d |>), i, [])
      | Throw e => (unwind e w, i, [])
      end)
  | PReceiveTest =>
      Some (if stopping_ i then finish RStopped "" w else goto PDeadlineTest w, i, [])
  | PDeadlineTest =>
      Some (if deadline w <=? env_now env then goto PTimedOut w else goto PReceive w, i, [])
  | PTimedOut =>
      Some (let '(r, i) := session_timeout i in
            (finish r "" w, i, match r with RTimeout => [EvTimeout] | _ => [] end))
  | PReceive =>
      Some (match env_received env with
      | Throw e => (finish (if stopping_ i then RStopped else RSocket) (what e) w, i, [])
      | Ok data =>
          if stopping_ i then (finish RStopped "" w, i, [])
          else if Z.of_nat (length data) =? 0 then (goto PTimedOut w, i, [])
          else (goto (PDatagram data) w, i, [])
      end)
  | PDatagram data =>
      Some (match decode_record (Some data) (Z.of_nat (length data)) with
      | Throw _ =>
          let '(storm, i) := count_malformed i in
          (if storm then finish RMalformedStorm "" w else goto PReceiveTest w, i,
           [EvDatagram data])
      | Ok record =>
          let at_ := env_now env in
          let i := i <| consecutive_malformed_ := 0 |> in
          let w := w <| valid := true |> in
          match checked_deadline at_ (receive_timeout (config_ i)) with
          | Throw e => (unwind e w, i, [EvDatagram data])
          | Ok d => (goto (PRecord record at_) (w <| deadline := d |>), i, [EvDatagram data])
          end
      end)
  | _ => None
  end.

(** [if (outcome.message.empty()) outcome.message = message_for(outcome.result);] *)
Definition final_message (o : SessionOutcome) : string :=
  if bool_decide (outcome_message o = "") then message_for (outcome_result o)
  else outcome_message o.

(** The line after [wait_until]. *)
Definition end_wait (w : Worker) (i : Impl) : Worker :=
  goto PLoop (w <| backoff := next_backoff (config_ i) (backoff w) |>).

(** One step of [run] and [finish_session].  A blocked worker stays so without a
    step; its step is the timeout or, before it, a spurious wakeup. *)
Definition run_step (env : Env) (w : Worker) (i : Impl) : Worker * Impl * list Event :=
  match pc w with
  | PLoop =>
      (if negb (stopping_ i) && negb (faulted i) then goto PConnecting (w <| valid := false |>)
       else goto PFinishClose w, i, [])
  | PClose o =>
      let '(cs, i) := close_session i in
      (goto (PClosed o) w, i, sends cs ++ [EvSessionEnd (outcome_result o)])
  | PClosed o =>
      if bool_decide (outcome_result o ≠ RStopped) &&
         bool_decide (recovery_policy (config_ i) = FailStop) then
        (goto PFinishClose w, set_fault (fault_for (outcome_result o)) (final_message o) i, [])
      else if bool_decide (outcome_result o = RStopped) || stopping_ i then
        (goto PFinishClose w, i, [])
      else (goto (PBackoff o) w, i, [])
  | PBackoff o =>
      (goto PWaitStart (if received_valid_record o
                        then w <| backoff := reconnect_initial_delay (config_ i) |> else w),
       enter_backoff (final_message o) i, [EvBackoff])
  | PWaitStart =>
      match checked_deadline (env_now env) (backoff w) with
      | Ok d => (goto (PWait d) w, i, [EvWait (backoff w)])
      | Throw e => (unwind e w, i, [])
      end
  | PWait until =>
      if stopping_ i then (end_wait w i, i, []) else (goto (PWaitBlock until) w, i, [])
  | PWaitBlock until => (goto (PAsleep until) w, i, [])
  | PAsleep until =>
      if until <=? env_now env then (end_wait w i, i, []) else (goto (PWait until) w, i, [])
  | PCatch e =>
      (goto PFinishClose w, if stopping_ i then i else set_fault FaultSocket (what e) i, [])
  | PFinishClose => let '(cs, i) := close_session i in (goto PFinishExit w, i, sends cs)
  | PFinishExit => (goto PFinishState w, worker_exit i, [])
  | PFinishState => (goto PExited w, finish_state i, [])
  | _ => (w, i, [])
  end.

Definition worker_step (env : Env) (w : Worker) (i : Impl) : Worker * Impl * list Event :=
  match record_step env w i with
  | Some r => r
  | None =>
      match session_step env w i with
      | Some r => r
      | None => run_step env w i
      end
  end.

(** The worker [start] creates: [backoff] is initialised on entry to [run]. *)
Definition worker_init (i : Impl) : Worker :=
  mkWorker PLoop (reconnect_initial_delay (config_ i)) 0 false.

(** ** Interleaving *)

(** Actions of other threads, or of the callback, while the worker lives. *)
Inductive Op :=
  | OStopFlag
  | OStopCommand
  | OBias (sent1 sent2 : result unit)
  | OHealth (now : Z)
  | OTakeWorker.

Definition op_step (op : Op) (i : Impl) : Impl * list Event :=
  match op with
  | OStopFlag => (stop_flag i, [])
  | OStopCommand => let '(cs, i) := stop_command i in (i, sends cs)
  | OBias sent1 sent2 =>
      let '(r, cs, i) := bias sent1 sent2 i in
      (i, sends cs ++ if is_ok r then [EvRdtReset] else [])
  | OHealth now => let '(_, i) := health now i in (i, [])
  | OTakeWorker => (take_worker i, [])
  end.

(** [first_sample_cv_.notify_all()] of [stop]: it wakes a worker that is blocked,
    and is lost on one that is about to. *)
Definition wake_worker (w : Worker) : Worker :=
  match pc w with PAsleep until => goto (PWait until) w | _ => w end.

Definition op_worker (op : Op) (w : Worker) : Worker :=
  match op with OStopFlag => wake_worker w | _ => w end.

Inductive Action := Tick (env : Env) | Call (op : Op).

Definition action_step (a : Action) (w : Worker) (i : Impl) : Worker * Impl * list Event :=
  match a with
  | Tick env => worker_step env w i
  | Call op => let '(i, evs) := op_step op i in (op_worker op w, i, evs)
  end.

Lemma wake_worker_cases w :
  (∃ until, pc w = PAsleep until ∧ wake_worker w = goto (PWait until) w) ∨
  (∀ until, pc w ≠ PAsleep until) ∧ wake_worker w = w.
Proof. unfold wake_worker. destruct (pc w); try (right; by split); left; by eexists. Qed.

(** The executions of a worker started in [i0]: the events so far, newest last. *)
Inductive execution (i0 : Impl) : list Event → Worker → Impl → Prop :=
  | exec_init : execution i0 [] (worker_init i0) i0
  | exec_step a evs w i w' i' new :
      execution i0 evs w i → action_step a w i = (w', i', new) →
      execution i0 (evs ++ new) w' i'.

(** The execution a list of actions determines. *)
Fixpoint run_actions (actions : list Action) (evs : list Event) (w : Worker) (i : Impl)
    : list Event * Worker * Impl :=
  match actions with
  | [] => (evs, w, i)
  | a :: actions =>
      let '(w, i, new) := action_step a w i in run_actions actions (evs ++ new) w i
  end.

Definition run_worker (actions : list Action) (i : Impl) : list Event * Worker * Impl :=
  run_actions actions [] (worker_init i) i.

Lemma run_actions_execution i0 actions evs w i evs' w' i' :
  execution i0 evs w i → run_actions actions evs w i = (evs', w', i') → execution i0 evs' w' i'.
Proof.
  revert evs w i. induction actions as [|a actions IH]; cbn [run_actions]; intros evs w i He.
  - by intros [= <- <- <-].
  - destruct (action_step a w i) as [[w1 i1] new] eqn:Ha. apply IH. by eapply exec_step.
Qed.

Lemma run_worker_execution i0 actions evs w i :
  run_worker actions i0 = (evs, w, i) → execution i0 evs w i.
Proof. apply run_actions_execution. constructor. Qed.
End Machine.
