(* ===== verification/Executions.v ===== *)
(** * Properties of the executions of a client

    Invariants of the machine of [Session.v] under every interleaving with the
    other threads, and what they say of its traces: faults, delivery, counters,
    stopping, recovery. *)

From S2P Require Import Prelude Floating Types Protocol Sequence Status FaultLatch ClientImpl Session.
From Stdlib Require Import Init.Byte.

(** ** Case analysis of a step *)

(** The state and answer of [observe_record], with and without a configuration. *)
Lemma observe_record_cases record at_ i r i' :
  observe_record record at_ i = (r, i') →
  ∃ o rdt' k ft',
    rdt_observe (rdt_sequence_ i) (raw_rdt_sequence record) = (o, rdt') ∧
    ft_observe (ft_sequence_ i) (raw_ft_sequence record) = (k, ft') ∧
    let s := classify_status (raw_status record) in
    let fit := deliverable (config_ i) o k s in
    let limited := fit && rate_limited (config_ i) (last_delivery_at_ i) at_ in
    let times := prune_rate_window (receive_times_ i ++ [at_]) at_ in
    (sensor_configuration (health_ i) = None ∧
     r = Throw (LogicError "sensor configuration is unavailable while streaming") ∧
     i' = i <| rdt_sequence_ := rdt' |> <| ft_sequence_ := ft' |>) ∨
    (∃ c, sensor_configuration (health_ i) = Some c ∧
     r = Ok (c, mkGate (fit && negb limited) (session_end (config_ i) k s)) ∧
     i' = i <| rdt_sequence_ := rdt' |> <| ft_sequence_ := ft' |> <| receive_times_ := times |>
            <| last_record_at_ := at_ |>
            <| health_ ::= observed_health record o k s limited (rate_of times) |>).
Proof.
  intros Hr. destruct (rdt_observe _ (raw_rdt_sequence record)) as [o rdt'] eqn:Ho.
  destruct (ft_observe _ (raw_ft_sequence record)) as [k ft'] eqn:Hk.
  exists o, rdt', k, ft'. split; [done|]. split; [done|]. cbv zeta.
  destruct (sensor_configuration (health_ i)) as [c|] eqn:Hc.
  - right. exists c. split; [done|].
    rewrite (observe_record_closed record at_ i c o rdt' k ft' Hc Ho Hk) in Hr.
    by injection Hr as <- <-.
  - left. unfold observe_record in Hr. rewrite Ho, Hk in Hr.
    cbn [set_field health_] in Hr. rewrite Hc in Hr. by injection Hr as <- <-.
Qed.

Lemma close_session_closed i :
  close_session i =
    (if session_started_ i then [StopStreaming] else [], i <| session_started_ := false |>).
Proof. unfold close_session. destruct i as [? ? ? ? ? [] ? ? ? ? ? ? ? ? ? ? ? ? ? ?]; done. Qed.

(** Whether a configuration has another calibration than the one in force. *)
Definition calibration_changed (previous : option SensorConfiguration) (c : SensorConfiguration) : bool :=
  match previous with
  | Some p =>
      negb (SFeqb (counts_per_force_unit (calibration p)) (counts_per_force_unit (calibration c)) &&
            SFeqb (counts_per_torque_unit (calibration p)) (counts_per_torque_unit (calibration c)) &&
            bool_decide (cal_force_unit (calibration p) = cal_force_unit (calibration c)) &&
            bool_decide (cal_torque_unit (calibration p) = cal_torque_unit (calibration c)))
  | None => false
  end.

Lemma apply_configuration_closed c i :
  ∃ n c', apply_configuration c i =
    i <| health_ ::= λ h, h <| calibration_change_count := n |> <| sensor_configuration := Some c' |> |> ∧
    n = bump (calibration_changed (sensor_configuration (health_ i)) c') (calibration_change_count (health_ i)).
Proof.
  destruct (sensor_configuration (health_ i)) as [p|] eqn:Hp.
  - eexists _, _. split; [by apply apply_configuration_some|done].
  - eexists (calibration_change_count (health_ i)), _. unfold apply_configuration. rewrite Hp.
    destruct i as [? ? ? ? ? ? ? ? ? ? ? ? [] ? ? ? ? ? ? ?]. done.
Qed.

Lemma set_fault_cases code message i :
  (fault_latch_ i = FaultNone ∧
   set_fault code message i =
     i <| fault_latch_ := code |>
       <| health_ ::= λ h, h <| state := Faulted |> <| fault_code := code |> <| last_error := message |> |>) ∨
  (fault_latch_ i ≠ FaultNone ∧ set_fault code message i = i).
Proof.
  destruct (decide (fault_latch_ i = FaultNone)); [left|right]; split; try done.
  - by apply set_fault_first.
  - by apply set_fault_later.
Qed.

Lemma mark_stopped_cases i :
  (fault_latch_ i = FaultNone ∧ mark_stopped i = i <| health_ ::= λ h, h <| state := Stopped |> |>) ∨
  (fault_latch_ i ≠ FaultNone ∧ mark_stopped i = i).
Proof.
  unfold mark_stopped. destruct (faulted i) eqn:Hf.
  - right. split; [by apply faulted_spec|done].
  - left. split; [by apply not_faulted_spec|done].
Qed.

Lemma health_closed now i s i' :
  health now i = (s, i') →
  i' = i <| receive_times_ ::= λ ts, prune_rate_window ts now |>
         <| delivery_times_ ::= λ ts, prune_rate_window ts now |>.
Proof. unfold health. by intros [= _ <-]. Qed.

(** Reduces the equation of a step, splitting on everything it depends on. *)
Ltac split_step H :=
  repeat (first
    [ progress cbn -[observe_record make_sample apply_configuration configured_event close_session set_fault
        health decode_record checked_deadline final_message
        configuration_for_session next_backoff callback_failure_outcome prune_rate_window mark_stopped faulted wake_worker
        kMalformedStormThreshold u64 incr] in H
    | rewrite close_session_closed in H
    | match type of H with
      | context [match ?x with _ => _ end] =>
          lazymatch x with context [match _ with _ => _ end] => fail | _ => destruct x eqn:? end
      | Some ?x = Some _ => injection H as H
      | (?a, ?b, ?c) = (_, _, _) => injection H as <- <- <-
      | (?a, ?b) = (_, _) => injection H as <- <-
      end ]).

Ltac step_cases H :=
  match type of H with
  | action_step ?a ?w ?i = _ =>
      let env := fresh "env" in
      destruct a as [env|[]]; unfold action_step, op_step, op_worker, worker_step in H;
      [ let p := fresh "p" in
        let b := fresh "b" in let d := fresh "d" in let v := fresh "v" in
        destruct w as [p b d v]; destruct p;
        unfold record_step, session_step, run_step, session_start, session_timeout, count_malformed in H
      | .. | ];
      unfold bias, after_record in H;
      split_step H
  end.


(** Replaces the operations left in a case by what they do. *)
Ltac expose :=
  repeat match goal with
  | Hr : observe_record _ _ _ = _ |- _ =>
      apply observe_record_cases in Hr as
        (?o & ?rdt & ?k & ?ft & ?Ho & ?Hk & [(? & ? & ->)|(?c & ? & ? & ->)])
  | Hh : health _ _ = (_, ?i) |- _ => apply health_closed in Hh as ->
  | |- context [wake_worker ?w] =>
      let u := fresh "u" in let Ha := fresh "Ha" in
      destruct (wake_worker_cases w) as [(u & Ha & ->)|[_ ->]]; [rewrite ?Ha in *|]
  | |- context [apply_configuration ?c ?i] =>
      let n := fresh "n" in let c' := fresh "c" in
      destruct (apply_configuration_closed c i) as (n & c' & -> & ?Hchange); unfold configured_event
  | |- context [if stopping_ ?i then ?x else ?y] => destruct (stopping_ i) eqn:?
  | |- context [set_fault ?c ?m ?i] => destruct (set_fault_cases c m i) as [[? ->]|[? ->]]
  | |- context [finish_state ?i] => unfold finish_state
  | |- context [mark_stopped ?i] => destruct (mark_stopped_cases i) as [[? ->]|[? ->]]
  end.

Ltac use_invariant := intros; first [ done | congruence | tauto | by auto | by left; auto ].

Ltac step_all H := step_cases H; expose.

Section Executions.
Context `{P : Platform}.

(** ** Control invariants *)

(** What no step of the worker or of the other threads changes. *)
Lemma step_frame a w i w' i' new :
  action_step a w i = (w', i', new) →
  config_ i' = config_ i ∧ callback_ i' = callback_ i ∧ generation_ i' = generation_ i ∧
  (stopping_ i = true → stopping_ i' = true).
Proof. intros Hs. step_all Hs; by split_and!. Qed.

Lemma execution_frame i0 evs w i :
  execution i0 evs w i →
  config_ i = config_ i0 ∧ callback_ i = callback_ i0 ∧ generation_ i = generation_ i0.
Proof.
  induction 1 as [|a evs w i w' i' new _ IH Hs]; [done|].
  apply step_frame in Hs as (-> & -> & -> & _). exact IH.
Qed.

(** The state [start] leaves. *)
Definition started (i : Impl) : Prop :=
  fault_latch_ i = FaultNone ∧ state (health_ i) = Connecting ∧ stopping_ i = false ∧
  session_started_ i = false ∧ worker_exited_ i = false ∧ consecutive_malformed_ i = 0 ∧
  last_delivery_at_ i = 0.

Definition finishing (p : Pc) : bool :=
  match p with PFinishClose | PFinishExit | PFinishState | PExited => true | _ => false end.

(** The positions of a session that has its configuration. *)
Definition configured (p : Pc) : bool :=
  match p with
  | PStopTest2 | PConnect | PStart | PBaseline | PFirstDeadline | PReceiveTest | PDeadlineTest
  | PTimedOut | PReceive | PDatagram _ | PRecord _ _ | PInvoke _ _ | PInCallback _ _
  | PCommit _ _ => true
  | _ => false
  end.


(** Faults are latched only at the end of the worker, and they show. *)
Definition fault_invariant (w : Worker) (i : Impl) : Prop :=
  coherent i ∧
  (fault_latch_ i = FaultNone → state (health_ i) ≠ Faulted) ∧
  (fault_latch_ i ≠ FaultNone → finishing (pc w) = true).

Lemma fault_for_none r : fault_for r = FaultNone ↔ r = RStopped.
Proof. by destruct r. Qed.

Lemma fault_invariant_step a w i w' i' new :
  fault_invariant w i → action_step a w i = (w', i', new) → fault_invariant w' i'.
Proof.
  unfold fault_invariant, coherent. intros (Hc & Hn & Hf) Hs.
  assert (finishing (pc w) = false → fault_latch_ i = FaultNone) as Hff.
  { intros Hw. destruct (decide (fault_latch_ i = FaultNone)); [done|]. by rewrite Hf in Hw. }
  step_all Hs; bools; cbn in *; split_and!; try use_invariant.
  by intros ?%fault_for_none.
Qed.

(** A session past its discovery, and a streaming client, have a configuration. *)
Definition configured_invariant (w : Worker) (i : Impl) : Prop :=
  (configured (pc w) = true → sensor_configuration (health_ i) ≠ None) ∧
  (state (health_ i) = Streaming → sensor_configuration (health_ i) ≠ None).

Lemma configured_invariant_step a w i w' i' new :
  configured_invariant w i → action_step a w i = (w', i', new) → configured_invariant w' i'.
Proof.
  unfold configured_invariant. intros (Hc & Hst) Hs.
  step_all Hs; bools; cbn in *; split_and!; try use_invariant.
Qed.

(** How the worker ends: the flag is set after the last [close_session], and the
    state is final when the thread returns. *)
Definition exit_invariant (w : Worker) (i : Impl) : Prop :=
  worker_exited_ i = match pc w with PFinishState | PExited => true | _ => false end ∧
  (match pc w with
   | PFinishExit | PFinishState | PExited => true | _ => false end = true →
     session_started_ i = false) ∧
  (match pc w with PExited => true | _ => false end = true →
     fault_latch_ i = FaultNone → state (health_ i) = Stopped).

Lemma exit_invariant_step a w i w' i' new :
  exit_invariant w i → action_step a w i = (w', i', new) → exit_invariant w' i'.
Proof.
  unfold exit_invariant. intros (He & Hx & Hs1) Hs.
  step_all Hs; bools; cbn in *; split_and!; try use_invariant.
Qed.

(** [session_started_] is set exactly within a session that sent its start
    command, unless another thread stopped it. *)
Definition in_session (p : Pc) : bool :=
  match p with
  | PBaseline | PFirstDeadline | PReceiveTest | PDeadlineTest | PTimedOut | PReceive
  | PDatagram _ | PRecord _ _ | PInvoke _ _ | PInCallback _ _ | PCommit _ _ | PClose _
  | PCatch _ | PFinishClose => true
  | _ => false
  end.

Lemma session_started_step a w i w' i' new :
  (session_started_ i = true → in_session (pc w) = true) →
  action_step a w i = (w', i', new) →
  (session_started_ i' = true → in_session (pc w') = true).
Proof.
  intros Hi Hs. step_all Hs; bools; cbn in *; try use_invariant.
Qed.

(** Only a reconnecting client waits. *)
Definition policy_invariant (w : Worker) (i : Impl) : Prop :=
  match pc w with
  | PBackoff o => outcome_result o ≠ RStopped ∧ recovery_policy (config_ i) = Reconnect
  | PWaitStart | PWait _ | PWaitBlock _ | PAsleep _ => recovery_policy (config_ i) = Reconnect
  | _ => True
  end.

Lemma policy_invariant_step a w i w' i' new :
  policy_invariant w i → action_step a w i = (w', i', new) → policy_invariant w' i'.
Proof.
  unfold policy_invariant. intros Hi Hs.
  step_all Hs; bools; cbn in *; split_and?; try use_invariant.
  destruct (recovery_policy (config_ i)); [done|].
  match goal with Hb : _ && _ = false |- _ => apply andb_false_iff in Hb as [Hb|Hb]; bools end;
    first [by exfalso | congruence | tauto].
Qed.

Lemma execution_invariants i0 evs w i :
  started i0 → execution i0 evs w i →
  fault_invariant w i ∧ configured_invariant w i ∧ exit_invariant w i.
Proof.
  intros (Hl & Hst & Hstop & Hss & Hex & _) He.
  induction He as [|a evs w i w' i' new He (IH1 & IH2 & IH3) Hs].
  - unfold fault_invariant, configured_invariant, exit_invariant, coherent.
    cbn. rewrite Hst. split_and!; try done. by left.
  - split_and!; [by eapply fault_invariant_step|by eapply configured_invariant_step
                |by eapply exit_invariant_step].
Qed.

(** What holds of a worker that has returned. *)
Lemma execution_exit i0 evs w i :
  started i0 → execution i0 evs w i → pc w = PExited →
  worker_exited_ i = true ∧ session_started_ i = false ∧
  state (health_ i) = (if faulted i then Faulted else Stopped).
Proof.
  intros Hi He Hp. destruct (execution_invariants _ _ _ _ Hi He) as ((Hf1 & _) & _ & Hx1 & Hx2 & Hx3).
  rewrite Hp in *. split_and!; [done|by apply Hx2|].
  destruct (faulted i) eqn:Hfi.
  - apply faulted_spec in Hfi. by destruct Hf1 as [|[? _]].
  - apply not_faulted_spec in Hfi. by apply Hx3.
Qed.

(** C4: faults and states are consistent under every interleaving: once [start]
    created the worker, at every point of every execution a latched fault shows
    in the snapshot and nothing else shows as Faulted, a latched fault means
    that the worker is ending, a record is only handled with a configuration in
    force (the [logic_error] of [handle_record] is never thrown), and when the
    worker has returned the session is closed and the state is Faulted with the
    latched fault, or Stopped. *)
Theorem execution_safe i0 evs w i :
  started i0 → execution i0 evs w i →
  coherent i ∧ (fault_latch_ i = FaultNone → state (health_ i) ≠ Faulted) ∧
  (fault_latch_ i ≠ FaultNone → finishing (pc w) = true) ∧
  (∀ r at_, pc w = PRecord r at_ → is_ok (fst (observe_record r at_ i)) = true) ∧
  (pc w = PExited → worker_exited_ i = true ∧ session_started_ i = false ∧
     state (health_ i) = (if faulted i then Faulted else Stopped)).
Proof.
  intros Hi He. pose proof (execution_exit _ _ _ _ Hi He).
  destruct (execution_invariants _ _ _ _ Hi He) as ((Hf1 & Hf2 & Hf3) & (Hc1 & _) & _).
  split_and!; [done..| |done].
  intros r at_ Hp. rewrite Hp in Hc1. destruct (observe_record r at_ i) as [[|] i'] eqn:Ho; [done|].
  apply observe_record_cases in Ho as (? & ? & ? & ? & ? & ? & [(? & ? & ?)|(? & ? & ? & ?)]);
    [by destruct Hc1|done].
Qed.

(** ** Traces *)

(** The trackers as functions of the trace. *)
Definition rdt_event (t : RdtSequenceTracker) (e : Event) : RdtSequenceTracker :=
  match e with
  | EvRecord r _ => snd (rdt_observe t (raw_rdt_sequence r))
  | EvRdtReset => rdt_reset t
  | _ => t
  end.
Definition ft_event (t : FtSequenceTracker) (e : Event) : FtSequenceTracker :=
  match e with
  | EvRecord r _ => snd (ft_observe t (raw_ft_sequence r))
  | EvFtSession => ft_begin_session t
  | _ => t
  end.
Definition replay_rdt (t : RdtSequenceTracker) (evs : list Event) := foldl rdt_event t evs.
Definition replay_ft (t : FtSequenceTracker) (evs : list Event) := foldl ft_event t evs.

Lemma replay_step a w i w' i' new :
  action_step a w i = (w', i', new) →
  rdt_sequence_ i' = replay_rdt (rdt_sequence_ i) new ∧
  ft_sequence_ i' = replay_ft (ft_sequence_ i) new.
Proof.
  intros Hs. step_all Hs; cbn; rewrite ?Ho, ?Hk; try done; unfold sends; by repeat case_split.
Qed.

Lemma execution_replay i0 evs w i :
  execution i0 evs w i →
  rdt_sequence_ i = replay_rdt (rdt_sequence_ i0) evs ∧
  ft_sequence_ i = replay_ft (ft_sequence_ i0) evs.
Proof.
  induction 1 as [|a evs w i w' i' new _ [IH1 IH2] Hs]; [done|].
  apply replay_step in Hs as [-> ->]. unfold replay_rdt, replay_ft in *.
  by rewrite !foldl_app, IH1, IH2.
Qed.

(** The configuration in force, from the one at the start. *)
Definition configuration_event (c : option SensorConfiguration) (e : Event)
    : option SensorConfiguration :=
  match e with EvConfigured c' => Some c' | _ => c end.
Definition replay_configuration (c : option SensorConfiguration) (evs : list Event) :=
  foldl configuration_event c evs.

Lemma configuration_step a w i w' i' new :
  action_step a w i = (w', i', new) →
  sensor_configuration (health_ i') = replay_configuration (sensor_configuration (health_ i)) new.
Proof.
  intros Hs. step_all Hs; cbn; try done; unfold sends; by repeat case_split.
Qed.

Lemma execution_configuration i0 evs w i :
  execution i0 evs w i →
  sensor_configuration (health_ i) = replay_configuration (sensor_configuration (health_ i0)) evs.
Proof.
  induction 1 as [|a evs w i w' i' new _ IH Hs]; [done|].
  apply configuration_step in Hs as ->. unfold replay_configuration in *.
  by rewrite foldl_app, IH.
Qed.

(** What a record was observed as, after the trace [before]. *)
Definition rdt_kind (i0 : Impl) (before : list Event) (r : RawRecord) : SequenceKind :=
  kind (fst (rdt_observe (replay_rdt (rdt_sequence_ i0) before) (raw_rdt_sequence r))).
Definition ft_kind (i0 : Impl) (before : list Event) (r : RawRecord) : FtSequenceKind :=
  fst (ft_observe (replay_ft (ft_sequence_ i0) before) (raw_ft_sequence r)).

Definition is_record (e : Event) : bool := match e with EvRecord _ _ => true | _ => false end.

(** [s] is the sample of the last record of the trace [evs], made with the
    configuration that was in force, and that record passed the gate. *)
Definition gated (i0 : Impl) (evs : list Event) (s : Sample) : Prop :=
  ∃ before r at_ after c,
    evs = before ++ EvRecord r at_ :: after ∧ Forall (λ e, is_record e = false) after ∧
    replay_configuration (sensor_configuration (health_ i0)) before = Some c ∧
    make_sample c r at_ = Some s ∧
    accepted (rdt_kind i0 before r) = true ∧ ft_discontinuity (ft_kind i0 before r) = false ∧
    (classify_status (raw_status r) = SevError →
       deliver_samples_with_error_status (config_ i0) = true).

Lemma gated_app i0 evs new s :
  gated i0 evs s → Forall (λ e, is_record e = false) new → gated i0 (evs ++ new) s.
Proof.
  intros (before & r & at_ & after & c & -> & Ha & H) Hn.
  exists before, r, at_, (after ++ new), c. split; [by rewrite <- app_assoc|].
  split; [by apply Forall_app|done].
Qed.

(** The sample a position of the worker holds. *)
Definition pending (p : Pc) : option Sample :=
  match p with PInvoke s _ | PInCallback s _ | PCommit s _ => Some s | _ => None end.

Lemma deliver_gate config o k s :
  deliverable config o k s = true →
  accepted (kind o) = true ∧ ft_discontinuity k = false ∧
  (s = SevError → deliver_samples_with_error_status config = true).
Proof.
  unfold deliverable. intros [[H1 H2]%andb_prop H3]%andb_prop.
  split_and!; [done|by apply negb_true_iff|]. intros ->. exact H3.
Qed.

Lemma pending_step i0 evs a w i w' i' new :
  execution i0 evs w i → action_step a w i = (w', i', new) →
  (∀ s, pending (pc w) = Some s → gated i0 evs s) →
  ∀ s, pending (pc w') = Some s → gated i0 (evs ++ new) s.
Proof.
  intros He Hs Hp s0. destruct (execution_frame _ _ _ _ He) as (Hcfg & _).
  destruct (execution_replay _ _ _ _ He) as [Hr Hf].
  pose proof (execution_configuration _ _ _ _ He) as Hconf.
  step_all Hs; cbn in *; intros Hw; try done; try (apply gated_app; [by auto|]).
  all: try (rewrite ?Forall_app; repeat constructor).
  match goal with E : Ok _ = Ok _ |- _ => injection E as <- -> end.
  cbn [deliver] in *. bools.
  match goal with E : deliverable _ _ _ _ = true |- _ =>
    apply deliver_gate in E as (Hacc & Hft & Hsev) end.
  injection Hw as <-. rewrite Hr in Ho. rewrite Hf in Hk.
  eexists evs, record, at_, [], _. split_and!; [done|constructor|by rewrite <- Hconf|done| | |by rewrite <- Hcfg].
  - unfold rdt_kind. by rewrite Ho.
  - unfold ft_kind. by rewrite Hk.
Qed.

Lemma execution_pending i0 evs w i :
  execution i0 evs w i → ∀ s, pending (pc w) = Some s → gated i0 evs s.
Proof.
  induction 1 as [|a evs w i w' i' new He IH Hs]; [done|]. by eapply pending_step.
Qed.

(** A callback or a delivery is a step on its own, from the position that holds
    its sample. *)
Lemma sample_event_step a w i w' i' new :
  action_step a w i = (w', i', new) →
  (∀ id s, In (EvCallback id s) new →
     new = [EvCallback id s] ∧ callback_ i = Some id ∧ pending (pc w) = Some s) ∧
  (∀ s, In (EvDelivered s) new → new = [EvDelivered s] ∧ pending (pc w) = Some s).
Proof.
  intros Hs. step_all Hs; unfold sends; try case_split; cbn; split; intros;
    repeat match goal with
    | H : _ ∨ _ |- _ => destruct H as [H|H]; [try discriminate H|]
    | H : False |- _ => destruct H
    end; by simplify_eq.
Qed.

Lemma split_at_event {A} (l1 l2 pre post : list A) e :
  l1 ++ l2 = pre ++ e :: post →
  (∃ post', l1 = pre ++ e :: post') ∨ (∃ pre', pre = l1 ++ pre' ∧ l2 = pre' ++ e :: post).
Proof.
  intros E. apply app_eq_app in E as (l & [[-> E]|[-> ->]]); [|eauto].
  destruct l as [|x l]; cbn [app] in E.
  - right. exists []. by rewrite !app_nil_r.
  - injection E as <- ->. left. by exists l.
Qed.

(** Predicates on the trace before an event hold when each step that shows the
    event establishes them. *)
Lemma execution_before (ev : Event → Prop) (Q : list Event → Event → Prop) i0 evs w i :
  (∀ evs a w i w' i' new pre e post, execution i0 evs w i → action_step a w i = (w', i', new) →
     new = pre ++ e :: post → ev e → Q (evs ++ pre) e) →
  execution i0 evs w i →
  ∀ pre e post, evs = pre ++ e :: post → ev e → Q pre e.
Proof.
  intros HQ. induction 1 as [|a evs w i w' i' new He IH Hs]; intros pre e post E Hev.
  - by destruct pre.
  - apply split_at_event in E as [(post' & E)|(pre' & -> & E)]; [by eapply IH|by eapply HQ].
Qed.

(** A sample handed to the callback is the gated one of the last record. *)
Lemma execution_callback i0 evs w i before id s after :
  execution i0 evs w i → evs = before ++ EvCallback id s :: after →
  callback_ i0 = Some id ∧ gated i0 before s.
Proof.
  intros He E.
  refine (execution_before (λ e, e = EvCallback id s)
    (λ pre _, callback_ i0 = Some id ∧ gated i0 pre s) i0 evs w i _ He _ _ _ E eq_refl).
  intros evs' a w1 i1 w1' i1' new pre e post He1 Hs -> ->.
  destruct (sample_event_step _ _ _ _ _ _ Hs) as [Hc _].
  destruct (Hc id s) as (Hnew & Hcb & Hp); [apply in_elt|].
  destruct pre as [|? []]; [|done..]. rewrite app_nil_r.
  destruct (execution_frame _ _ _ _ He1) as (_ & Hcb1 & _). split; [congruence|].
  by eapply execution_pending.
Qed.

(** ... and it is finite. *)
Lemma gated_finite i0 evs s :
  gated i0 evs s → Forall (λ v, isfinite v = true) (force s ++ torque s).
Proof.
  intros (? & ? & ? & ? & ? & _ & _ & _ & Hm & _).
  apply make_sample_some in Hm as (_ & _ & _ & _ & _ & _ & _ & _ & Hf & Ht).
  apply Forall_app. split; apply Forall_forall; intros v Hv;
    [apply (forallb_forall isfinite (force s))|apply (forallb_forall isfinite (torque s))];
    try done; by apply list_elem_of_In.
Qed.

(** So is one that is counted as delivered. *)
Lemma execution_delivered i0 evs w i before s after :
  execution i0 evs w i → evs = before ++ EvDelivered s :: after → gated i0 before s.
Proof.
  intros He E.
  refine (execution_before (λ e, e = EvDelivered s) (λ pre _, gated i0 pre s) i0 evs w i _ He _ _ _ E eq_refl).
  intros evs' a w1 i1 w1' i1' new pre e post He1 Hs -> ->.
  destruct (sample_event_step _ _ _ _ _ _ Hs) as [_ Hd].
  destruct (Hd s) as (Hnew & Hp); [apply in_elt|].
  destruct pre as [|? []]; [|done..]. rewrite app_nil_r. by eapply execution_pending.
Qed.
End Executions.

(** ** Concrete runs

    Scenarios the witnesses evaluate, on the platform of 80-bit [long double]. *)

Definition tick (now : Z) (data : list byte) (cb : CallbackResult) : Action :=
  Tick (mkEnv now (Ok sample_configuration) (Ok ()) (Ok data) cb).

Definition fresh_impl (config : Config) : Impl :=
  snd (start_fresh (Some 7%nat) (Ok 1%nat)
    (mkImpl config None None false None false rdt_tracker_init ft_tracker_init 0 false true
       FaultNone default_health None 0 0 0 [] [] 0)).

Definition fail_stop_config : Config := default_config <| recovery_policy := FailStop |>.

(** From the start to the receive loop of a session. *)
Definition connect_actions : list Action := replicate 9 (tick 1000 [] CbReturns).

Definition record_a : RawRecord := mkRawRecord 10 20 0 1000000 2000000 0 0 0 (-3000000).
Definition record_b : RawRecord := mkRawRecord 12 21 0 1000000 2000000 0 0 0 (-3000000).
Definition record_error : RawRecord := mkRawRecord 13 22 0x80000002 0 0 0 0 0 0.

(** One datagram through [handle_record], to the next receive. *)
Definition receive_actions (now : Z) (data : list byte) : list Action :=
  replicate 8 (tick now data CbReturns).

Definition run_linux (actions : list Action) (i : Impl) : list Event * Worker * Impl :=
  run_worker (H := linux_x86_64) actions i.

(** A run that was evaluated is an execution. *)
Lemma run_linux_execution actions i r :
  run_linux actions i = r →
  execution (H := linux_x86_64) i (fst (fst r)) (snd (fst r)) (snd r).
Proof. intros <-. destruct (run_linux actions i) as [[evs w] i'] eqn:E. by eapply run_worker_execution. Qed.

Lemma fresh_impl_started config : started (fresh_impl config).
Proof. by split_and!. Defined.

(** Two records are delivered, then a third with an error status faults a
    fail-stop client. *)
Definition two_records : list Action :=
  connect_actions ++ receive_actions 2000 (encode_record record_a) ++
  receive_actions 3000 (encode_record record_b).
Definition faulting_run : list Action :=
  two_records ++ replicate 20 (tick 4000 (encode_record record_error) CbReturns).

Definition two_records_result : list Event * Worker * Impl :=
  Eval vm_compute in run_linux two_records (fresh_impl default_config).
Definition faulting_result : list Event * Worker * Impl :=
  Eval vm_compute in run_linux faulting_run (fresh_impl fail_stop_config).

Lemma two_records_evaluated : run_linux two_records (fresh_impl default_config) = two_records_result.
Proof. vm_compute. reflexivity. Qed.
Lemma faulting_evaluated : run_linux faulting_run (fresh_impl fail_stop_config) = faulting_result.
Proof. vm_compute. reflexivity. Qed.

Definition callback_sequences (evs : list Event) : list Z :=
  omap (λ e, match e with EvCallback _ s => Some (rdt_sequence s) | _ => None end) evs.

Lemma execution_safe_witness :
  run_linux faulting_run (fresh_impl fail_stop_config) = faulting_result ∧
  fault_latch_ (snd faulting_result) = FaultSeriousStatus ∧
  state (health_ (snd faulting_result)) = Faulted.
Proof.
  split; [exact faulting_evaluated|]. split; [reflexivity|].
  destruct (execution_safe (P := linux_x86_64) _ _ _ _ (fresh_impl_started fail_stop_config)
              (run_linux_execution _ _ _ faulting_evaluated)) as (_ & _ & _ & _ & Hx).
  destruct (Hx eq_refl) as (_ & _ & Hs). exact Hs.
Defined.
