(* ===== verification/Nodes.v ===== *)
(** * The standalone ROS nodes

    [ros1_node.cpp] and [ros2_node.cpp]: reading the parameters, the members of
    the node, and its callbacks.  The middleware is external: how a parameter is
    looked up, whether a topic can be advertised, and the clock of the stamps are
    arguments.  The client is used through [DriverClient]. *)

From S2P Require Import Prelude Floating Types Text AdapterConfig UnitConversion Diagnostics FaultLatch ClientImpl ClientInterface.
From S2P Require Import Sequence Protocol Session Executions.

(** The lookup of a parameter by name with a fallback; [declare_parameter] of
    ROS 2 throws when an override has another type. *)
Record ParameterSource := mkSource {
  get_string : string → string → result string;
  get_int : string → Z → result Z;
  get_bool : string → bool → result bool;
  get_double : string → double → result double
}.

Definition ros1_parameters (src : ParameterSource) : result AdapterParameters :=
  let d := default_parameters in
  ip ← get_string src "sensor_ip" (sensor_ip d);
  port ← get_int src "sensor_port" (sensor_port d);
  http ← get_int src "http_port" (p_http_port d);
  frame ← get_string src "frame_id" (p_frame_id d);
  topic ← get_string src "wrench_topic" (p_wrench_topic d);
  service ← get_string src "bias_service" (p_bias_service d);
  allow ← get_bool src "allow_bias" (p_allow_bias d);
  sensor ← get_bool src "use_sensor_calibration" (use_sensor_calibration d);
  cpf ← get_double src "counts_per_force" (counts_per_force d);
  cpt ← get_double src "counts_per_torque" (counts_per_torque d);
  rate ← get_double src "publish_rate" (publish_rate d);
  receive ← get_double src "receive_timeout" (p_receive_timeout d);
  connect ← get_double src "configuration_connect_timeout" (p_configuration_connect_timeout d);
  total ← get_double src "configuration_timeout" (p_configuration_timeout d);
  initial ← get_double src "reconnect_initial_delay" (p_reconnect_initial_delay d);
  maximum ← get_double src "reconnect_max_delay" (p_reconnect_max_delay d);
  diagnostics ← get_double src "diagnostics_rate" (p_diagnostics_rate d);
  expected ← get_double src "expected_rdt_rate" (p_expected_rdt_rate d);
  tolerance ← get_double src "rate_tolerance" (p_rate_tolerance d);
  errors ← get_bool src "publish_on_error" (publish_on_error d);
  Ok (mkAdapterParameters ip port http frame topic service allow sensor cpf cpt rate receive connect total
        initial maximum diagnostics expected tolerance errors).

Definition ros2_parameters (src : ParameterSource) : result AdapterParameters :=
  let p := default_parameters in
  v1 ← get_string src "sensor_ip" (sensor_ip p);
  v2 ← get_int src "sensor_port" (sensor_port p);
  v3 ← get_int src "http_port" (p_http_port p);
  v4 ← get_string src "frame_id" (p_frame_id p);
  v5 ← get_string src "wrench_topic" (p_wrench_topic p);
  v6 ← get_string src "bias_service" (p_bias_service p);
  v7 ← get_bool src "allow_bias" (p_allow_bias p);
  v8 ← get_bool src "use_sensor_calibration" (use_sensor_calibration p);
  v9 ← get_double src "counts_per_force" (counts_per_force p);
  v10 ← get_double src "counts_per_torque" (counts_per_torque p);
  v11 ← get_double src "publish_rate" (publish_rate p);
  v12 ← get_double src "receive_timeout" (p_receive_timeout p);
  v13 ← get_double src "configuration_connect_timeout" (p_configuration_connect_timeout p);
  v14 ← get_double src "configuration_timeout" (p_configuration_timeout p);
  v15 ← get_double src "reconnect_initial_delay" (p_reconnect_initial_delay p);
  v16 ← get_double src "reconnect_max_delay" (p_reconnect_max_delay p);
  v17 ← get_double src "diagnostics_rate" (p_diagnostics_rate p);
  v18 ← get_double src "expected_rdt_rate" (p_expected_rdt_rate p);
  v19 ← get_double src "rate_tolerance" (p_rate_tolerance p);
  v20 ← get_bool src "publish_on_error" (publish_on_error p);
  Ok (mkAdapterParameters v1 v2 v3 v4 v5 v6 v7 v8 v9 v10 v11 v12 v13 v14 v15 v16 v17 v18 v19 v20).

(** The messages. *)
Record WrenchStamped := mkWrench {
  w_stamp : Z; w_frame_id : string; w_force : list double; w_torque : list double
}.
Record TriggerResponse := mkResponse { success : bool; response_message : string }.
Record DiagnosticStatus := mkStatus {
  d_level : Z; d_name : string; d_message : string; d_hardware_id : string;
  d_values : list (string * string)
}.

Section Node.
Context `{P : Platform} {C : Type} `{DriverClient C}.

(** The members, in the order of their initialisation. *)
Record Node := mkNode {
  n_config : AdapterConfig;
  n_client : C;
  n_evaluator : DiagnosticEvaluator
}.

(** The constructors up to the publishers; [make] is the constructor of the
    client. *)
Definition ros1_construct (clock : nat → Z) (make : Config → result C) (src : ParameterSource) : result Node :=
  parameters ← ros1_parameters src;
  mapped ← map_adapter_parameters clock parameters;
  c ← make (client mapped);
  e ← evaluator_create (expected_rdt_rate mapped) (rate_tolerance mapped);
  Ok (mkNode mapped c e).

Definition ros2_construct (clock : nat → Z) (make : Config → result C) (src : ParameterSource) : result Node :=
  parameters ← ros2_parameters src;
  mapped ← map_adapter_parameters clock parameters;
  c ← make (client mapped);
  e ← evaluator_create (expected_rdt_rate mapped) (rate_tolerance mapped);
  Ok (mkNode mapped c e).

(** [publish_wrench], the sample callback: the message, or the exception that
    leaves the callback. *)
Definition publish_wrench (stamp : Z) (n : Node) (sample : Sample) : result WrenchStamped :=
  si ← to_si_sample sample;
  Ok (mkWrench stamp (frame_id (n_config n)) (si_force si) (si_torque si)).

Definition handle_bias (sent1 sent2 : result unit) (n : Node) : TriggerResponse * Node :=
  let '(r, c) := client_bias sent1 sent2 (n_client n) in
  (match r with
   | Ok _ => mkResponse true "software bias command sent and RDT streaming restarted"
   | Throw e => mkResponse false (what e)
   end, mkNode (n_config n) c (n_evaluator n)).

Definition publish_diagnostics (now : Z) (n : Node) : DiagnosticStatus * Node :=
  let '(snapshot, c) := client_health now (n_client n) in
  let '(report, e) := evaluate (n_evaluator n) snapshot in
  (mkStatus (u8 (level report)) "netft_driver: connection" (message report)
     (h_sensor_host snapshot +:+ ":" +:+ pretty (h_rdt_port snapshot)) (values report),
   mkNode (n_config n) c e).

(** The callbacks of the ROS 2 node. *)
Definition ros2_publish_wrench (stamp : Z) (n : Node) (sample : Sample) : result WrenchStamped :=
  si ← to_si_sample sample;
  Ok (mkWrench stamp (frame_id (n_config n)) (si_force si) (si_torque si)).

Definition ros2_handle_bias (sent1 sent2 : result unit) (n : Node) : TriggerResponse * Node :=
  let '(r, c) := client_bias sent1 sent2 (n_client n) in
  (match r with
   | Ok _ => mkResponse true "software bias command sent and RDT streaming restarted"
   | Throw e => mkResponse false (what e)
   end, mkNode (n_config n) c (n_evaluator n)).

Definition ros2_publish_diagnostics (now : Z) (n : Node) : DiagnosticStatus * Node :=
  let '(snapshot, c) := client_health now (n_client n) in
  let '(report, e) := evaluate (n_evaluator n) snapshot in
  (mkStatus (u8 (level report)) "netft_driver: connection" (message report)
     (h_sensor_host snapshot +:+ ":" +:+ pretty (h_rdt_port snapshot)) (values report),
   mkNode (n_config n) c e).

(** What the constructors connect to the middleware. *)
Inductive TimerClock := RosClock | WallClock.
Record Wiring := mkWiring {
  wired_wrench_topic : string; wired_diagnostics_topic : string; wired_bias : option string;
  timer_clock : TimerClock; timer_period : double
}.
Definition ros1_wiring (c : AdapterConfig) : Wiring :=
  mkWiring (wrench_topic c) "/diagnostics" (if allow_bias c then Some (bias_service c) else None)
    RosClock (b64_div (b64_of_Z 1) (diagnostics_rate c)).
Definition ros2_wiring (c : AdapterConfig) : Wiring :=
  mkWiring (wrench_topic c) "/diagnostics" (if allow_bias c then Some (bias_service c) else None)
    WallClock (b64_div (b64_of_Z 1) (diagnostics_rate c)).

(** [main]: what is done to the node, its members destroyed in reverse order, and
    the exit status; [constructed], [started] and [spun] are the outcomes of the
    constructor, of [start] and of [spin]. *)
Inductive Member := MTimer | MBiasService | MDiagnosticsPublisher | MWrenchPublisher | MEvaluator | MClient.
Inductive NodeCall := NodeStart | NodeSpin | NodeStop | NodeDestroy (m : Member).

Definition ros1_members : list Member :=
  [MTimer; MBiasService; MDiagnosticsPublisher; MWrenchPublisher; MEvaluator; MClient].
Definition ros2_members : list Member :=
  [MTimer; MBiasService; MDiagnosticsPublisher; MWrenchPublisher; MEvaluator; MClient].

Definition ros1_main (constructed : result Node) (started spun : result unit) : Z * list NodeCall :=
  match constructed with
  | Throw _ => (2, [])
  | Ok _ =>
      match started, spun with
      | Throw _, _ => (2, [NodeStart] ++ (NodeDestroy <$> ros1_members))
      | Ok _, Throw _ => (2, [NodeStart; NodeSpin] ++ (NodeDestroy <$> ros1_members))
      | Ok _, Ok _ => (0, [NodeStart; NodeSpin; NodeStop] ++ (NodeDestroy <$> ros1_members))
      end
  end.

Definition ros2_main (constructed : result Node) (started spun : result unit) : Z * list NodeCall :=
  match constructed with
  | Throw _ => (2, [])
  | Ok _ =>
      let '(result, calls) :=
        match started, spun with
        | Throw _, _ => (2, [NodeStart])
        | Ok _, Throw _ => (2, [NodeStart; NodeSpin])
        | Ok _, Ok _ => (0, [NodeStart; NodeSpin])
        end in
      (result, calls ++ [NodeStop] ++ (NodeDestroy <$> ros2_members))
  end.

(** The sample callback runs on the thread of the client from a successful [start]
    to [stop] or the destructor of the client, and publishes on the wrench
    publisher: whether it is there whenever the callback may run, and whether the
    callback may still run at the end. *)
Fixpoint publisher_outlives (started running publisher : bool) (calls : list NodeCall) : bool :=
  negb (running && negb publisher) &&
  match calls with
  | [] => negb running
  | NodeStart :: calls => publisher_outlives started started publisher calls
  | NodeStop :: calls | NodeDestroy MClient :: calls => publisher_outlives started false publisher calls
  | NodeDestroy MWrenchPublisher :: calls => publisher_outlives started running false calls
  | _ :: calls => publisher_outlives started running publisher calls
  end.

(** ** Properties *)

(** Both nodes read the same parameters. *)
Lemma parameters_agree src : ros1_parameters src = ros2_parameters src.
Proof. done. Qed.

Lemma construct_agree clock make src : ros1_construct clock make src = ros2_construct clock make src.
Proof. unfold ros1_construct, ros2_construct. by rewrite parameters_agree. Qed.

(** How a node is taken down: whatever fails, the exit status is 0 exactly when
    the node was constructed, started and spun to the end; the ROS 2 node stops its
    client before it is destroyed, so that its wrench publisher outlives every
    callback of the receiver; the ROS 1 node does so too unless [spin] throws, in
    which case the publisher, declared after the client, is destroyed while the
    receiver may still be publishing on it. *)
Theorem node_teardown constructed started spun :
  (fst (ros1_main constructed started spun) = 0 ↔
     is_ok constructed && is_ok started && is_ok spun = true) ∧
  fst (ros2_main constructed started spun) = fst (ros1_main constructed started spun) ∧
  publisher_outlives (is_ok started) false true (snd (ros2_main constructed started spun)) = true ∧
  publisher_outlives (is_ok started) false true (snd (ros1_main constructed started spun)) =
    negb (is_ok constructed && is_ok started && negb (is_ok spun)).
Proof. destruct constructed, started, spun; by split_and!. Qed.

(** The construction of the evaluator cannot fail behind the mapping. *)
Lemma construct_ok clock make src n :
  ros1_construct clock make src = Ok n ∨ ros2_construct clock make src = Ok n →
  ∃ p, ros1_parameters src = Ok p ∧ map_adapter_parameters clock p = Ok (n_config n) ∧
    make (client (n_config n)) = Ok (n_client n).
Proof.
  rewrite construct_agree. intros Hc.
  assert (ros2_construct clock make src = Ok n) as (p & Hp & Hr)%bind_ok by naive_solver.
  apply bind_ok in Hr as (mapped & Hm & Hr). apply bind_ok in Hr as (c & Hmk & Hr).
  apply bind_ok in Hr as (e & _ & [= <-]). exists p. rewrite parameters_agree. done.
Qed.
End Node.

Arguments Node C : clear implicits.

Lemma make_sample_lengths c r at_ s :
  make_sample c r at_ = Some s → length (force s) = 3%nat ∧ length (torque s) = 3%nat.
Proof. unfold make_sample. cbv zeta. case_split; [done|]. by intros [= <-]. Qed.

Lemma map_adapter_parameters_client `{P : Platform} clock p cfg :
  map_adapter_parameters clock p = Ok cfg →
  client cfg = mapped_client p ∧ is_ascii_blank (to_chars (frame_id cfg)) = false.
Proof.
  unfold map_adapter_parameters, validate_adapter_config. intros Hm. inv_ok. subst cfg. split; [done|].
  by match goal with Hn : non_empty "frame_id" _ = Ok _ |- _ => apply non_empty_ok in Hn end.
Qed.

(** C2: the wrenches a node publishes are safe to use: while the client of a
    constructed node runs, under every interleaving, a message published from the
    sample callback carries the node's frame and the finite SI values of the last
    record received, scaled by the configuration in force and converted with the
    [double]s nearest to the exact factors of its units, and that record passed
    the gate; the client reconnects instead of stopping, and error samples are let
    through only as the parameter [publish_on_error] says. *)
Theorem published_wrenches_gated `{P : Platform} clock src (n : Node Impl) i0 evs w i before id s after stamp m :
  ros1_construct clock (construct clock) src = Ok n ∨ ros2_construct clock (construct clock) src = Ok n →
  config_ i0 = client (n_config n) → execution i0 evs w i →
  evs = before ++ EvCallback id s :: after →
  publish_wrench stamp n s = Ok m ∨ ros2_publish_wrench stamp n s = Ok m →
  w_frame_id m = frame_id (n_config n) ∧ is_ascii_blank (to_chars (w_frame_id m)) = false ∧
  Forall (λ v, isfinite v = true) (w_force m ++ w_torque m) ∧
  length (w_force m) = 3%nat ∧ length (w_torque m) = 3%nat ∧
  (∃ fq tq fs ts, force_scale_to_newtons (force_unit s) = Ok fs ∧ torque_scale_to_newton_metres (torque_unit s) = Ok ts ∧
     force_unit_newtons (force_unit s) = Some fq ∧ nearest_to fq fs ∧
     torque_unit_newton_metres (torque_unit s) = Some tq ∧ nearest_to tq ts ∧
     w_force m = (λ v, b64_mul v fs) <$> force s ∧ w_torque m = (λ v, b64_mul v ts) <$> torque s) ∧
  gated i0 before s ∧ recovery_policy (config_ i0) = Reconnect ∧
  ∃ p, ros1_parameters src = Ok p ∧ deliver_samples_with_error_status (config_ i0) = publish_on_error p.
Proof.
  intros Hn Hcfg Hx E Hpub.
  assert (publish_wrench stamp n s = Ok m) as Hm by (by destruct Hpub). destruct (construct_ok _ _ _ _ Hn) as (p & Hp & Hmap & _).
  destruct (map_adapter_parameters_client _ _ _ Hmap) as [Hcl Hb].
  destruct (execution_callback _ _ _ _ _ _ _ _ Hx E) as [_ Hg].
  pose proof Hg as (? & ? & ? & ? & ? & _ & _ & _ & [Hlf Hlt]%make_sample_lengths & _).
  unfold publish_wrench in Hm. apply bind_ok in Hm as (si & Hsi & [= <-]). cbn [w_frame_id w_force w_torque].
  destruct (to_si_sample_ok s si) as (Hfin & (fs & ts & Hfs & Hts & Hf & Ht) & _); [congruence|done|].
  rewrite Hcfg, Hcl. split_and!; try done.
  - apply Forall_forall. intros v Hv. unfold sample_is_finite in Hfin. rewrite <- forallb_app in Hfin.
    apply (proj1 (forallb_forall _ _) Hfin). by apply list_elem_of_In.
  - by rewrite Hf, length_fmap.
  - by rewrite Ht, length_fmap.
  - pose proof (force_scale_exact (force_unit s)) as Hfq. pose proof (torque_scale_exact (torque_unit s)) as Htq.
    rewrite Hfs in Hfq. rewrite Hts in Htq.
    destruct (force_unit_newtons _) as [fq|]; [|done]. destruct (torque_unit_newton_metres _) as [tq|]; [|done].
    by exists fq, tq, fs, ts.
  - by exists p.
Qed.

(** ** Example: the node with its default parameters and two records *)

Definition no_overrides : ParameterSource := mkSource (λ _, Ok) (λ _, Ok) (λ _, Ok) (λ _, Ok).
Definition default_node : Node Impl :=
  Eval vm_compute in
    match ros1_construct (P := linux_x86_64) (λ _, 1000000) (construct (H := linux_x86_64) (λ _, 1000000)) no_overrides with
    | Ok n => n
    | Throw _ => mkNode (mkAdapterConfig default_config "" "" "" false d0 d0 d0) (fresh_impl default_config)
                   (mkEvaluator d0 d0 0 0 0 0 0 0 0 0)
    end.
Lemma default_node_constructed :
  ros1_construct (P := linux_x86_64) (λ _, 1000000) (construct (H := linux_x86_64) (λ _, 1000000)) no_overrides =
    Ok default_node.
Proof. vm_compute. reflexivity. Qed.
Lemma default_node_config : config_ (fresh_impl default_config) = client (n_config default_node).
Proof. vm_compute. reflexivity. Qed.

(** The trace at its first call of the callback. *)
Fixpoint split_callback (evs : list Event) : option (list Event * nat * Sample * list Event) :=
  match evs with
  | [] => None
  | EvCallback id s :: evs => Some ([], id, s, evs)
  | e :: evs => '(before, id, s, after) ← split_callback evs; Some (e :: before, id, s, after)
  end.
Lemma split_callback_app evs before id s after :
  split_callback evs = Some (before, id, s, after) → evs = before ++ EvCallback id s :: after.
Proof.
  revert before. induction evs as [|e evs IH]; intros before; cbn [split_callback]; [done|].
  assert (('(before, id, s, after) ← split_callback evs; Some (e :: before, id, s, after)) =
            Some (before, id, s, after) → e :: evs = before ++ EvCallback id s :: after) as Hrest.
  { intros ([[[b i'] s'] a'] & Hb & [= <- <- <- <-])%bind_Some. cbn [app]. f_equal. by apply IH. }
  destruct e; try exact Hrest. by intros [= <- <- <- <-].
Qed.

Definition first_callback : list Event * nat * Sample * list Event :=
  Eval vm_compute in default ([], 0%nat, pound_sample, []) (split_callback (fst (fst two_records_result))).
Lemma first_callback_split :
  fst (fst two_records_result) =
  fst (fst (fst first_callback)) ++ EvCallback (snd (fst (fst first_callback))) (snd (fst first_callback)) :: snd first_callback.
Proof. apply split_callback_app. vm_compute. reflexivity. Qed.

Definition first_wrench : WrenchStamped :=
  Eval vm_compute in
    match publish_wrench 5 default_node (snd (fst first_callback)) with Ok m => m | Throw _ => mkWrench 0 "" [] [] end.
Lemma first_wrench_published : publish_wrench 5 default_node (snd (fst first_callback)) = Ok first_wrench.
Proof. vm_compute. reflexivity. Qed.

Lemma published_wrenches_gated_witness :
  w_frame_id first_wrench = "netft_link" ∧
  Forall (λ v, isfinite v = true) (w_force first_wrench ++ w_torque first_wrench) ∧
  gated (fresh_impl default_config) (fst (fst (fst first_callback))) (snd (fst first_callback)).
Proof.
  destruct (published_wrenches_gated (P := linux_x86_64) _ _ _ _ _ _ _ _ _ _ _ _ _
    (or_introl default_node_constructed) default_node_config
    (run_linux_execution _ _ _ two_records_evaluated) first_callback_split (or_introl first_wrench_published))
    as (Hf & _ & Hfin & _ & _ & _ & Hg & _).
  split; [exact Hf|]. split; [exact Hfin|exact Hg].
Defined.
