(* ===== verification/Accounting.v ===== *)
(** * Accounting of the executions of a client

    The counters of the health snapshot as functions of the trace, modulo the
    width of the counters; the malformed-packet threshold; the rate limit. *)

From S2P Require Import Prelude Floating Types Protocol Sequence Status FaultLatch ClientImpl Session Executions.
From Stdlib Require Import Init.Byte.

(** ** Counters modulo 2^64 *)

Definition eq64 (a b : Z) : Prop := u64 a = u64 b.

#[global] Instance eq64_equivalence : Equivalence eq64.
Proof. split; unfold eq64; [by intros ?|by intros ? ?|by intros ? ? ? -> ->]. Qed.

#[global] Instance eq64_add : Proper (eq64 ==> eq64 ==> eq64) Z.add.
Proof.
  unfold eq64, u64. intros a a' Ha b b' Hb. by rewrite Z.add_mod, Ha, Hb, <- Z.add_mod.
Qed.

Lemma eq64_u64 a : eq64 (u64 a) a.
Proof. unfold eq64. apply u64_u64. Qed.

Lemma eq64_incr a : eq64 (incr a) (a + 1).
Proof. apply eq64_u64. Qed.

Lemma eq64_bump b a : eq64 (bump b a) (a + Z.b2z b).
Proof. destruct b; cbn; [apply eq64_incr|by rewrite Z.add_0_r]. Qed.

(** ** What the trace counts *)

Record Observation := mkObservation {
  obs_rdt : SequenceObservation;
  obs_ft : FtSequenceKind;
  obs_severity : StatusSeverity;
  obs_limited : bool
}.

(** The time of the last delivery since [start]; zero before the first. *)
Definition delivery_event (last : Z) (e : Event) : Z :=
  match e with EvBegin => 0 | EvDelivered s => received_at s | _ => last end.
Definition last_delivery (last : Z) (evs : list Event) : Z := foldl delivery_event last evs.

(** The observations of the records of a trace: how the trackers, the status table and
    the rate limit class each. *)
Fixpoint observations (config : Config) (t : RdtSequenceTracker) (f : FtSequenceTracker) (last : Z)
    (evs : list Event) : list Observation :=
  match evs with
  | [] => []
  | e :: evs =>
      match e with
      | EvRecord r at_ =>
          let o := fst (rdt_observe t (raw_rdt_sequence r)) in
          let k := fst (ft_observe f (raw_ft_sequence r)) in
          let s := classify_status (raw_status r) in
          [mkObservation o k s (deliverable config o k s && rate_limited config last at_)]
      | _ => []
      end ++ observations config (rdt_event t e) (ft_event f e) (delivery_event last e) evs
  end.

Lemma observations_app config t f last e1 e2 :
  observations config t f last (e1 ++ e2) =
  observations config t f last e1 ++
  observations config (replay_rdt t e1) (replay_ft f e1) (last_delivery last e1) e2.
Proof.
  revert t f last. induction e1 as [|e e1 IH]; intros t f last; [done|].
  cbn [observations app]. by rewrite IH, app_assoc.
Qed.

Fixpoint tally {A} (f : A → Z) (l : list A) : Z :=
  match l with [] => 0 | x :: l => f x + tally f l end.

Lemma tally_app {A} (f : A → Z) l1 l2 : tally f (l1 ++ l2) = tally f l1 + tally f l2.
Proof. induction l1 as [|x l1 IH]; cbn; [done|]. lia. Qed.

Definition one_if (b : bool) : Z := Z.b2z b.

(** The observation counters of a snapshot, as a list. *)
Definition counters_of (h : HealthSnapshot) : list Z :=
  [received_count h; lost_count h; duplicate_count h; out_of_order_count h; ft_stall_count h;
   ft_backward_count h; ft_restart_count h; warning_count h; device_error_count h; rate_limited_count h].

(** What an observation adds to each. *)
Definition weights : list (Observation → Z) := [
  λ _, 1;
  λ o, if bool_decide (kind (obs_rdt o) = Gap) then gap (obs_rdt o) else 0;
  λ o, one_if (bool_decide (kind (obs_rdt o) = Duplicate));
  λ o, one_if (bool_decide (kind (obs_rdt o) = OutOfOrder));
  λ o, one_if (bool_decide (obs_ft o = Sequence.FtStall));
  λ o, one_if (bool_decide (obs_ft o = Sequence.FtBackward));
  λ o, one_if (bool_decide (obs_ft o = FtRestart));
  λ o, one_if (bool_decide (obs_severity o = SevWarn));
  λ o, one_if (bool_decide (obs_severity o = SevError));
  λ o, one_if (obs_limited o)].

Definition malformed_event (e : Event) : Z :=
  match e with
  | EvDatagram data => one_if (negb (is_ok (decode_record (Some data) (Z.of_nat (length data)))))
  | _ => 0
  end.
Definition delivered_event (e : Event) : Z := match e with EvDelivered _ => 1 | _ => 0 end.
Definition timeout_event (e : Event) : Z := match e with EvTimeout => 1 | _ => 0 end.
Definition backoff_event (e : Event) : Z := match e with EvBackoff => 1 | _ => 0 end.
Definition callback_event (e : Event) : Z := match e with EvCallbackThrew => 1 | _ => 0 end.

(** The counters that move with an event of their own. *)
Definition event_counters_of (h : HealthSnapshot) : list Z :=
  [malformed_count h; delivered_count h; timeout_count h; reconnect_count h; callback_error_count h].
Definition event_weights : list (Event → Z) :=
  [malformed_event; delivered_event; timeout_event; backoff_event; callback_event].

(** Calibrations put in force that differ from the one before. *)
Fixpoint configuration_changes (previous : option SensorConfiguration) (evs : list Event) : Z :=
  match evs with
  | [] => 0
  | e :: evs =>
      match e with EvConfigured c => one_if (calibration_changed previous c) | _ => 0 end +
      configuration_changes (configuration_event previous e) evs
  end.

Lemma configuration_changes_app c e1 e2 :
  configuration_changes c (e1 ++ e2) =
  configuration_changes c e1 + configuration_changes (replay_configuration c e1) e2.
Proof.
  revert c. induction e1 as [|e e1 IH]; intros c; [done|]. cbn [configuration_changes app].
  rewrite IH. unfold replay_configuration. cbn [foldl]. lia.
Qed.

(** [after] is [before] advanced by the tallies [fs] of some items. *)
Definition advanced {A} (fs : list (A → Z)) (before : list Z) (items : list A) (after : list Z) : Prop :=
  Forall2 eq64 after (zip_with (λ c f, c + tally f items) before fs).

Lemma advanced_nil {A} (fs : list (A → Z)) l : length l = length fs → advanced fs l [] l.
Proof.
  unfold advanced. revert l. induction fs as [|f fs IH]; intros [|x l]; try done.
  intros [= Hl]. cbn. rewrite Z.add_0_r. constructor; [done|by apply IH].
Qed.

Lemma advanced_trans {A} (fs : list (A → Z)) l1 x1 l2 x2 l3 :
  advanced fs l1 x1 l2 → advanced fs l2 x2 l3 → advanced fs l1 (x1 ++ x2) l3.
Proof.
  unfold advanced. revert l1 l2 l3. induction fs as [|f fs IH]; intros l1 l2 l3 H1 H2.
  - destruct l1, l2; inversion H1; subst; by inversion H2.
  - destruct l1 as [|a l1]; inversion H1 as [|b ? l2' ? Hb H1']; subst; inversion H2 as [|c ? l3' ? Hc H2']; subst; [done|].
    cbn. constructor; [|by eapply IH].
    rewrite tally_app, Z.add_assoc. etransitivity; [exact Hc|]. by apply eq64_add.
Qed.

Lemma advanced_observed record o k s limited rate h :
  advanced weights (counters_of h) [mkObservation o k s limited]
    (counters_of (observed_health record o k s limited rate h)).
Proof.
  unfold advanced, counters_of, weights. cbn -[bump incr u64]. rewrite !Z.add_0_r.
  repeat (apply List.Forall2_cons;
    [first [apply eq64_incr | apply eq64_bump
           | case_bool_decide; [apply eq64_u64|by rewrite Z.add_0_r]]|]).
  constructor.
Qed.

Section Accounting.
Context `{P : Platform}.

Lemma last_delivery_step a w i w' i' new :
  action_step a w i = (w', i', new) →
  last_delivery_at_ i' = last_delivery (last_delivery_at_ i) new.
Proof.
  intros Hs. step_all Hs; cbn; try done; unfold sends; by repeat case_split.
Qed.

Lemma advanced_step a w i w' i' new :
  (configured (pc w) = true → sensor_configuration (health_ i) ≠ None) → action_step a w i = (w', i', new) →
  advanced weights (counters_of (health_ i))
    (observations (config_ i) (rdt_sequence_ i) (ft_sequence_ i) (last_delivery_at_ i) new)
    (counters_of (health_ i')).
Proof.
  intros Hc Hs. step_all Hs; cbn -[bump incr u64 observed_health weights advanced] in *;
    try (by apply advanced_nil); try (by destruct Hc); rewrite ?Ho, ?Hk;
    cbn [fst]; try apply advanced_observed;
    unfold sends; repeat case_split; by apply advanced_nil.
Qed.

(** The other counters move with their own events. *)
Lemma event_counts_step a w i w' i' new :
  action_step a w i = (w', i', new) →
  advanced event_weights (event_counters_of (health_ i)) new (event_counters_of (health_ i')).
Proof.
  intros Hs. step_all Hs; unfold advanced, event_counters_of, event_weights, sends;
    cbn -[bump incr u64 decode_record] in *; repeat case_split; cbn -[bump incr u64 decode_record];
    repeat match goal with E : decode_record _ _ = _ |- _ => rewrite E; clear E end;
    cbn -[bump incr u64]; rewrite ?Z.add_0_r;
    repeat (apply List.Forall2_cons; [first [reflexivity | apply eq64_incr]|]); constructor.
Qed.

Lemma changes_step a w i w' i' new :
  action_step a w i = (w', i', new) →
  eq64 (calibration_change_count (health_ i'))
    (calibration_change_count (health_ i) +
     configuration_changes (sensor_configuration (health_ i)) new).
Proof.
  intros Hs. step_all Hs; cbn -[bump incr u64 calibration_changed] in *; unfold sends; repeat case_split;
    cbn -[bump incr u64 calibration_changed]; rewrite ?Z.add_0_r; try done.
  subst. apply eq64_bump.
Qed.

Lemma execution_configured i0 evs w i :
  started i0 → execution i0 evs w i → configured_invariant w i.
Proof.
  intros (_ & Hst & _). induction 1 as [|a evs w i w' i' new He IH Hs].
  - unfold configured_invariant. cbn. rewrite Hst. by split.
  - by eapply configured_invariant_step.
Qed.

(** The counters have moved as the trace says. *)
Definition accounted (i0 : Impl) (evs : list Event) (i : Impl) : Prop :=
  advanced weights (counters_of (health_ i0))
    (observations (config_ i0) (rdt_sequence_ i0) (ft_sequence_ i0) (last_delivery_at_ i0) evs)
    (counters_of (health_ i)) ∧
  advanced event_weights (event_counters_of (health_ i0)) evs (event_counters_of (health_ i)) ∧
  eq64 (calibration_change_count (health_ i))
    (calibration_change_count (health_ i0) +
     configuration_changes (sensor_configuration (health_ i0)) evs).

(** The snapshots agree on what a report is made of. *)
Definition same_counts (h h' : HealthSnapshot) : Prop :=
  counters_of h' = counters_of h ∧ event_counters_of h' = event_counters_of h ∧
  calibration_change_count h' = calibration_change_count h ∧
  last_ft_sequence h' = last_ft_sequence h ∧
  last_rdt_sequence h' = last_rdt_sequence h ∧ sensor_configuration h' = sensor_configuration h.

Lemma accounted_same i i' : same_counts (health_ i) (health_ i') → accounted i [] i'.
Proof.
  intros (Hc & He & Hn & _). unfold accounted. rewrite Hc, He, Hn. cbn [observations configuration_changes].
  split_and!; [by apply advanced_nil..|by rewrite Z.add_0_r].
Qed.

(** The beginning of a worker moves no counter. *)
Lemma accounted_begin i i' : same_counts (health_ i) (health_ i') → accounted i [EvBegin] i'.
Proof.
  intros (Hc & He & Hn & _). unfold accounted. rewrite Hc, He, Hn. split_and!.
  - by apply advanced_nil.
  - unfold advanced, event_counters_of. cbn. by rewrite !Z.add_0_r.
  - cbn. by rewrite Z.add_0_r.
Qed.

Lemma accounted_app i0 evs i new i' :
  config_ i = config_ i0 →
  rdt_sequence_ i = replay_rdt (rdt_sequence_ i0) evs → ft_sequence_ i = replay_ft (ft_sequence_ i0) evs →
  sensor_configuration (health_ i) = replay_configuration (sensor_configuration (health_ i0)) evs →
  last_delivery_at_ i = last_delivery (last_delivery_at_ i0) evs →
  accounted i0 evs i → accounted i new i' → accounted i0 (evs ++ new) i'.
Proof.
  intros Hcfg Hr Hf Hs Hl (A1 & M1 & D1) (A2 & M2 & D2). split_and!.
  - rewrite observations_app, <- Hr, <- Hf, <- Hl, <- Hcfg. rewrite <- Hcfg in A1. by eapply advanced_trans.
  - by eapply advanced_trans.
  - rewrite configuration_changes_app, Z.add_assoc, D2, Hs. by apply eq64_add.
Qed.

Lemma accounted_step a w i w' i' new :
  (configured (pc w) = true → sensor_configuration (health_ i) ≠ None) →
  action_step a w i = (w', i', new) → accounted i new i'.
Proof.
  intros Hc Hs. split_and!; [by eapply advanced_step|by eapply event_counts_step|by eapply changes_step].
Qed.

(** Each of the sixteen counters of the snapshot [h] is, modulo its width, what the
    trace [evs] of a client with this configuration contains, from its construction. *)
Definition counters_match (config : Config) (evs : list Event) (h : HealthSnapshot) : Prop :=
  let obs := observations config rdt_tracker_init ft_tracker_init 0 evs in
  let count (f : Observation → bool) := tally (λ o, one_if (f o)) obs in
  eq64 (received_count h) (Z.of_nat (length obs)) ∧
  eq64 (lost_count h) (tally (λ o, if bool_decide (kind (obs_rdt o) = Gap) then gap (obs_rdt o) else 0) obs) ∧
  eq64 (duplicate_count h) (count (λ o, bool_decide (kind (obs_rdt o) = Duplicate))) ∧
  eq64 (out_of_order_count h) (count (λ o, bool_decide (kind (obs_rdt o) = OutOfOrder))) ∧
  eq64 (ft_stall_count h) (count (λ o, bool_decide (obs_ft o = Sequence.FtStall))) ∧
  eq64 (ft_backward_count h) (count (λ o, bool_decide (obs_ft o = Sequence.FtBackward))) ∧
  eq64 (ft_restart_count h) (count (λ o, bool_decide (obs_ft o = FtRestart))) ∧
  eq64 (warning_count h) (count (λ o, bool_decide (obs_severity o = SevWarn))) ∧
  eq64 (device_error_count h) (count (λ o, bool_decide (obs_severity o = SevError))) ∧
  eq64 (rate_limited_count h) (count obs_limited) ∧
  eq64 (malformed_count h) (tally malformed_event evs) ∧
  eq64 (delivered_count h) (tally delivered_event evs) ∧
  eq64 (timeout_count h) (tally timeout_event evs) ∧
  eq64 (reconnect_count h) (tally backoff_event evs) ∧
  eq64 (callback_error_count h) (tally callback_event evs) ∧
  eq64 (calibration_change_count h) (configuration_changes None evs).

Lemma accounted_match clock config i0 evs i :
  construct clock config = Ok i0 → accounted i0 evs i → counters_match config evs (health_ i).
Proof.
  unfold construct. intros (u & _ & [= <-])%bind_ok (Ha & He & Hn). unfold counters_match. cbv zeta.
  cbn -[tally observations configuration_changes eq64] in Ha, He, Hn.
  unfold advanced, counters_of, event_counters_of in Ha, He. cbn -[tally observations configuration_changes] in Ha, He.
  set (obs := observations _ _ _ _ _) in *.
  repeat match goal with H : Forall2 _ (_ :: _) (_ :: _) |- _ =>
    apply Forall2_cons in H as [? H] end.
  split_and!; try done.
  assert (tally (λ _ : Observation, 1) obs = Z.of_nat (length obs)) as <-; [|done].
  clear. induction obs as [|o obs IH]; [done|]. cbn [tally length]. lia.
Qed.

(** ** The malformed-packet storm *)

(** Malformed datagrams since the last record of the trace. *)
Definition storm_event (n : Z) (e : Event) : Z :=
  match e with
  | EvDatagram data => if malformed_event (EvDatagram data) =? 0 then 0 else n + 1
  | _ => n
  end.
Definition trailing_malformed (evs : list Event) : Z := foldl storm_event 0 evs.

Lemma trailing_snoc evs new : trailing_malformed (evs ++ new) = foldl storm_event (trailing_malformed evs) new.
Proof. apply foldl_app. Qed.

Lemma storm_step a w i w' i' new n :
  action_step a w i = (w', i', new) →
  consecutive_malformed_ i = u64 n → consecutive_malformed_ i' = u64 (foldl storm_event n new).
Proof.
  intros Hs Hn.
  step_all Hs; cbn -[incr u64 decode_record] in *; try done;
    try (unfold sends; repeat case_split; done);
    match goal with E : decode_record _ _ = _ |- _ => rewrite E end; cbn -[u64 incr]; try done;
    unfold incr; by rewrite Hn, u64_add_l.
Qed.

Lemma execution_storm i0 evs w i :
  started i0 → execution i0 evs w i → consecutive_malformed_ i = u64 (trailing_malformed evs).
Proof.
  intros (_ & _ & _ & _ & _ & Hc & _). induction 1 as [|a evs w i w' i' new He IH Hs]; [done|].
  rewrite trailing_snoc. by eapply storm_step.
Qed.

Lemma trailing_nonneg evs : 0 ≤ trailing_malformed evs.
Proof.
  induction evs as [|e evs IH] using rev_ind; [done|].
  rewrite trailing_snoc. cbn [foldl]. unfold storm_event. destruct e; try done. case_split; lia.
Qed.

Lemma trailing_length evs : trailing_malformed evs ≤ Z.of_nat (length evs).
Proof.
  induction evs as [|e evs IH] using rev_ind; [done|].
  rewrite trailing_snoc, length_app. cbn [foldl length]. unfold storm_event.
  destruct e; try lia. case_split; lia.
Qed.

(** The datagrams of a trace, and whether the ten most recent ones are all malformed. *)
Definition datagram_of (e : Event) : option (list byte) :=
  match e with EvDatagram data => Some data | _ => None end.
Definition malformed (data : list byte) : Prop :=
  is_ok (decode_record (Some data) (Z.of_nat (length data))) = false.
Definition ten_in_a_row (evs : list Event) : Prop :=
  ∃ before ten, omap datagram_of evs = before ++ ten ∧ length ten = 10%nat ∧ Forall malformed ten.

Lemma trailing_suffix n evs :
  Z.of_nat n ≤ trailing_malformed evs ↔
  ∃ before last, omap datagram_of evs = before ++ last ∧ length last = n ∧ Forall malformed last.
Proof.
  revert n. induction evs as [|e evs IH] using rev_ind; intros n.
  - split.
    + intros Hn. assert (n = 0%nat) as -> by (cbn in Hn; lia). by exists [], [].
    + intros (b & l & E & <- & _). cbn in E. symmetry in E. apply app_nil in E as [_ ->]. done.
  - rewrite trailing_snoc, omap_app. cbn [foldl].
    assert (datagram_of e = None ∨ ∃ data, e = EvDatagram data) as [Hn|[data ->]]
      by (destruct e; (by left) || (right; by eexists)).
    { assert (storm_event (trailing_malformed evs) e = trailing_malformed evs) as -> by (by destruct e).
      cbn. rewrite Hn, app_nil_r. apply IH. }
    unfold storm_event, malformed_event. cbn [omap list_omap datagram_of].
    destruct (is_ok (decode_record (Some data) (Z.of_nat (length data)))) eqn:Hd; cbn [negb one_if Z.b2z Z.eqb].
    + split.
      * intros Hn. assert (n = 0%nat) as -> by lia. eexists _, []. by rewrite app_nil_r.
      * intros (b & l & E & <- & Hl). destruct l as [|x l] using rev_ind; [done|].
        rewrite app_assoc in E. apply app_inj_tail in E as [_ <-].
        apply Forall_app in Hl as [_ [Hl _]%Forall_cons]. unfold malformed in Hl. by rewrite Hd in Hl.
    + pose proof (trailing_nonneg evs). destruct n as [|n].
      { split; [|lia]. intros _. eexists _, []. by rewrite app_nil_r. }
      transitivity (Z.of_nat n ≤ trailing_malformed evs); [lia|]. rewrite (IH n). split.
      * intros (b & l & -> & <- & Hl). exists b, (l ++ [data]).
        rewrite app_assoc, length_app. split_and!; [done|cbn; lia|].
        apply Forall_app. split; [done|by apply Forall_singleton].
      * intros (b & l & E & Hlen & Hl). destruct l as [|x l _] using rev_ind; [done|].
        rewrite app_assoc in E. apply app_inj_tail in E as [-> <-].
        rewrite length_app in Hlen. cbn in Hlen. apply Forall_app in Hl as [Hl _].
        exists b, l. split_and!; [done|lia|done].
Qed.

Lemma ten_in_a_row_spec evs : ten_in_a_row evs ↔ 10 ≤ trailing_malformed evs.
Proof. symmetry. apply (trailing_suffix 10). Qed.

(** Until a session has ended as a storm there are ten in a row only while the first one
    is being closed. *)
Definition storm_closing (p : Pc) : bool :=
  match p with PClose o => bool_decide (outcome_result o = RMalformedStorm) | _ => false end.

Lemma storm_bound_step a w i w' i' new n :
  action_step a w i = (w', i', new) → consecutive_malformed_ i = u64 n → 0 ≤ n →
  n ≤ (if storm_closing (pc w) then 10 else 9) → EvSessionEnd RMalformedStorm ∉ new →
  foldl storm_event n new ≤ (if storm_closing (pc w') then 10 else 9).
Proof.
  intros Hs Hc H0 Hn He. unfold storm_closing in *.
  assert (n ≤ 10 → consecutive_malformed_ i = n) as Hsmall
    by (intros; rewrite Hc; apply u64_small; unfold is_u64; lia).
  step_all Hs; cbn -[incr u64 decode_record] in *; try lia; unfold sends in *; repeat case_split;
    cbn -[incr u64 decode_record] in *; bools; try lia; try congruence;
    repeat match goal with E : decode_record _ _ = _ |- _ => rewrite E; clear E end; cbn -[incr u64];
    try lia.
  1-2: case_bool_decide as Ho; [|lia]; exfalso; apply He; rewrite Ho, ?elem_of_cons; naive_solver.
  1-2: match goal with E : decode_record _ _ = _, F : _ =? _ = false |- _ => by rewrite E in F end.
  all: assert (n <= 10) as Hle by lia; apply Hsmall in Hle; unfold kMalformedStormThreshold, incr in *;
    rewrite Hle, u64_small in * by (unfold is_u64; lia); bools; lia.
Qed.

Lemma execution_storm_bound i0 evs w i :
  started i0 → execution i0 evs w i → EvSessionEnd RMalformedStorm ∉ evs →
  trailing_malformed evs ≤ (if storm_closing (pc w) then 10 else 9).
Proof.
  intros Hst. induction 1 as [|a evs w i w' i' new He IH Hs]; [done|].
  rewrite elem_of_app, trailing_snoc. intros Hn.
  eapply storm_bound_step; [done|by eapply execution_storm|apply trailing_nonneg|apply IH|]; tauto.
Qed.

(** C24: a malformed datagram is counted and dropped, and does not prolong the wait for
    a valid record; it ends the session as a storm if the ten most recent datagrams of
    the run, itself included, are all malformed, and never otherwise.  So the first
    storm of a run comes with the tenth datagram in a row exactly; the row is that of
    the run, which a reconnection does not begin anew (see [storm_outlives_session]).
    A well-formed datagram resets the row, moves the deadline and is handled as a
    record. *)
Theorem malformed_storm i0 evs w i env data :
  started i0 → execution i0 evs w i → pc w = PDatagram data →
  Z.of_nat (length evs) < 2 ^ 64 - 1 →
  let '(w', i', new) := worker_step env w i in
  new = [EvDatagram data] ∧
  match decode_record (Some data) (Z.of_nat (length data)) with
  | Throw _ =>
      deadline w' = deadline w ∧ valid w' = valid w ∧
      malformed_count (health_ i') = incr (malformed_count (health_ i)) ∧
      (ten_in_a_row (evs ++ new) → pc w' = PClose (mkOutcome RMalformedStorm "" (valid w))) ∧
      (¬ ten_in_a_row (evs ++ new) → pc w' = PReceiveTest) ∧
      (EvSessionEnd RMalformedStorm ∉ evs → ¬ ten_in_a_row evs)
  | Ok r =>
      ¬ ten_in_a_row (evs ++ new) ∧
      malformed_count (health_ i') = malformed_count (health_ i) ∧
      consecutive_malformed_ i' = 0 ∧ valid w' = true ∧
      match checked_deadline (env_now env) (receive_timeout (config_ i)) with
      | Ok d => pc w' = PRecord r (env_now env) ∧ deadline w' = d
      | Throw e => pc w' = PCatch e
      end
  end.
Proof.
  intros Hst He Hp Hlt. pose proof (execution_storm _ _ _ _ Hst He) as Hn.
  pose proof (execution_storm_bound _ _ _ _ Hst He) as Hbound. rewrite Hp in Hbound. cbn [storm_closing] in Hbound.
  pose proof (trailing_nonneg evs). pose proof (trailing_length evs).
  rewrite u64_small in Hn by (unfold is_u64; lia).
  assert (∀ new, ten_in_a_row (evs ++ new) ↔ 10 ≤ foldl storm_event (trailing_malformed evs) new) as Hten
    by (intros new; by rewrite ten_in_a_row_spec, trailing_snoc).
  destruct w as [p b d v]; cbn in Hp; subst p.
  unfold worker_step, record_step, session_step, count_malformed.
  cbn -[decode_record checked_deadline incr Z.leb ten_in_a_row].
  destruct (decode_record _ _) as [r|e] eqn:Hd.
  - assert (¬ ten_in_a_row (evs ++ [EvDatagram data])) as Hno
      by (rewrite Hten; cbn -[decode_record]; rewrite Hd; cbn; lia).
    destruct (checked_deadline _ _) as [dl|]; cbn -[ten_in_a_row]; by split_and!.
  - rewrite Hn. unfold kMalformedStormThreshold.
    assert (incr (trailing_malformed evs) = trailing_malformed evs + 1) as ->
      by (unfold incr; rewrite u64_small; [done|unfold is_u64; lia]).
    assert (ten_in_a_row (evs ++ [EvDatagram data]) ↔ 10 ≤ trailing_malformed evs + 1) as Ht
      by (rewrite Hten; cbn -[decode_record]; by rewrite Hd).
    rewrite (ten_in_a_row_spec evs).
    destruct (Z.leb_spec 10 (trailing_malformed evs + 1)); cbn -[ten_in_a_row]; rewrite Ht; split_and!; try done; try lia.
    all: intros Hb%Hbound; lia.
Qed.

(** ** The rate limit *)

Lemma execution_last_delivery i0 evs w i :
  execution i0 evs w i → last_delivery_at_ i = last_delivery (last_delivery_at_ i0) evs.
Proof.
  induction 1 as [|a evs w i w' i' new He IH Hs]; [done|].
  apply last_delivery_step in Hs as ->. unfold last_delivery in *. by rewrite foldl_app, <- IH.
Qed.

(** No step of a worker or of another thread shows [EvBegin]. *)
Lemma execution_no_begin i0 evs w i : execution i0 evs w i → EvBegin ∉ evs.
Proof.
  induction 1 as [|a evs w i w' i' new He IH Hs]; [apply not_elem_of_nil|].
  rewrite elem_of_app. intros [Hin|Hin]; [done|]. clear IH He. revert Hin.
  step_all Hs; unfold sends; repeat case_split; cbn; rewrite ?elem_of_cons, ?elem_of_nil; naive_solver.
Qed.

(** The sample a position holds is not within a period of the last delivery. *)
Lemma pending_spaced_step a w i w' i' new :
  action_step a w i = (w', i', new) →
  (∀ s, pending (pc w) = Some s → rate_limited (config_ i) (last_delivery_at_ i) (received_at s) = false) →
  ∀ s, pending (pc w') = Some s → rate_limited (config_ i') (last_delivery_at_ i') (received_at s) = false.
Proof.
  intros Hs Hp s0. step_all Hs; cbn in *; intros Hw; try done; try (by auto).
  match goal with E : Ok _ = Ok _ |- _ => injection E as <- -> end.
  cbn [deliver] in *. bools. injection Hw as <-.
  match goal with E : make_sample _ _ _ = Some _ |- _ =>
    apply make_sample_some in E as (_ & _ & _ & -> & _) end.
  match goal with E : deliverable _ _ _ _ = true, F : _ && _ = false |- _ => by rewrite E in F end.
Qed.

Lemma execution_spaced i0 evs w i :
  execution i0 evs w i →
  ∀ s, pending (pc w) = Some s → rate_limited (config_ i) (last_delivery_at_ i) (received_at s) = false.
Proof.
  induction 1 as [|a evs w i w' i' new He IH Hs]; [done|]. by eapply pending_spaced_step.
Qed.

Lemma last_delivery_quiet at0 evs :
  EvBegin ∉ evs → Forall (λ e, delivered_event e = 0) evs → last_delivery at0 evs = at0.
Proof.
  unfold last_delivery. intros Hb. induction 1 as [|e evs He Hevs IH]; [done|].
  apply not_elem_of_cons in Hb as [Hne Hb]. cbn [foldl]. destruct e; try done; by apply IH.
Qed.

(** C25: the rate limit holds under every interleaving: with a limit set, two
    consecutive deliveries of a run are at least a period apart, by the
    comparison in double nanoseconds the code makes. *)
Theorem rate_limit_spacing i0 evs w i before s1 between s2 after :
  execution i0 evs w i →
  evs = before ++ EvDelivered s1 :: between ++ EvDelivered s2 :: after →
  Forall (λ e, delivered_event e = 0) between →
  SFltb d0 (sample_rate_limit_hz (config_ i0)) = true → received_at s1 ≠ 0 →
  SFltb (b64_of_Z (received_at s2 - received_at s1))
    (b64_mul (b64_div (b64_of_Z 1) (sample_rate_limit_hz (config_ i0))) (b64_of_Z period_den)) = false.
Proof.
  intros He E Hq Hrate Hs1. pose proof (execution_no_begin _ _ _ _ He) as Hb.
  assert (EvBegin ∉ between) as Hbb.
  { intros Hin. apply Hb. rewrite E, elem_of_app. right. apply elem_of_cons. right.
    rewrite elem_of_app. by left. }
  rewrite app_comm_cons, app_assoc in E.
  assert (rate_limited (config_ i0)
            (last_delivery (last_delivery_at_ i0) (before ++ EvDelivered s1 :: between))
            (received_at s2) = false) as Hl.
  { refine (execution_before (λ e, e = EvDelivered s2)
      (λ pre _, rate_limited (config_ i0) (last_delivery (last_delivery_at_ i0) pre)
                  (received_at s2) = false) i0 evs w i _ He _ _ _ E eq_refl).
    intros evs' a w1 i1 w1' i1' new pre e post He1 Hs -> ->.
    destruct (sample_event_step _ _ _ _ _ _ Hs) as [_ Hd].
    destruct (Hd s2) as (Hnew & Hp); [apply in_elt|].
    destruct pre as [|? []]; [|done..]. rewrite app_nil_r.
    destruct (execution_frame _ _ _ _ He1) as (<- & _).
    rewrite <- (execution_last_delivery _ _ _ _ He1). by eapply execution_spaced. }
  unfold last_delivery in Hl. rewrite foldl_app in Hl. cbn [foldl delivery_event] in Hl.
  fold (last_delivery (received_at s1) between) in Hl.
  rewrite last_delivery_quiet in Hl by done.
  unfold rate_limited in Hl. rewrite Hrate in Hl.
  destruct (Z.eqb_spec (received_at s1) 0); [done|exact Hl].
Qed.
End Accounting.

(** A gap, duplicates and malformed datagrams. *)
Definition lossy_run : list Action :=
  two_records ++ replicate 5 (tick 3500 (encode_record record_b) CbReturns) ++
  replicate 4 (tick 3600 [x00; x01] CbReturns).

(** Nine malformed datagrams, of four steps each, and the arrival of a tenth. *)
Definition storm_run : list Action :=
  connect_actions ++ replicate 39 (tick 2000 [x00; x01] CbReturns).

Definition storm_result : list Event * Worker * Impl :=
  Eval vm_compute in run_linux storm_run (fresh_impl default_config).
Lemma storm_evaluated : run_linux storm_run (fresh_impl default_config) = storm_result.
Proof. vm_compute. reflexivity. Qed.

Definition idle_env : Env := mkEnv 2000 (Ok sample_configuration) (Ok ()) (Ok []) CbReturns.

Lemma malformed_storm_witness :
  run_linux storm_run (fresh_impl default_config) = storm_result ∧
  pc (fst (fst (worker_step (H := linux_x86_64) idle_env (snd (fst storm_result)) (snd storm_result))))
    = PClose (mkOutcome RMalformedStorm "" false).
Proof.
  split; [exact storm_evaluated|].
  pose proof (malformed_storm (P := linux_x86_64) _ _ _ _ idle_env [x00; x01]
    (fresh_impl_started default_config) (run_linux_execution _ _ _ storm_evaluated) eq_refl eq_refl) as H.
  assert (ten_in_a_row (fst (fst storm_result) ++ [EvDatagram [x00; x01]])) as Hten
    by (apply ten_in_a_row_spec; vm_compute; discriminate).
  destruct (worker_step _ _ _) as [[w' i'] new]. destruct H as (-> & _ & _ & _ & H & _). exact (H Hten).
Defined.

(** The row outlives the session: after a storm the first malformed datagram of the next
    session ends it at once. *)
Example storm_outlives_session :
  omap (λ e, match e with EvDatagram _ => Some true | EvSessionEnd RMalformedStorm => Some false | _ => None end)
    (fst (fst (run_linux
      (storm_run ++ replicate 5 (tick 2000 [x00; x01] CbReturns) ++ replicate 20 (tick 1000002000 [x00; x01] CbReturns))
      (fresh_impl default_config)))) =
  replicate 10 true ++ [false; true; false].
Proof. vm_compute. reflexivity. Qed.

(** Two deliveries a second apart under a limit of one per second. *)
Definition limited_config : Config :=
  default_config <| sample_rate_limit_hz := b64_of_Z 1 |> <| receive_timeout := b64_of_Z 5 |>.
Definition limited_run : list Action :=
  connect_actions ++ receive_actions 2000 (encode_record record_a) ++
  receive_actions 1000002000 (encode_record record_b).
Definition limited_result : list Event * Worker * Impl :=
  Eval vm_compute in run_linux limited_run (fresh_impl limited_config).
Lemma limited_evaluated : run_linux limited_run (fresh_impl limited_config) = limited_result.
Proof. vm_compute. reflexivity. Qed.

Definition sample_at (r : list Event * Worker * Impl) (n : nat) : Sample :=
  match nth n (omap (λ e, match e with EvDelivered s => Some (Some s) | _ => None end) (fst (fst r))) None
  with Some s => s | None => mkSample 0 0 0 [] [] [] ForceUnknown TorqueUnknown 0 0 end.

Lemma rate_limit_spacing_witness :
  run_linux limited_run (fresh_impl limited_config) = limited_result ∧
  within_period (b64_of_Z 1)
    (received_at (sample_at limited_result 1) - received_at (sample_at limited_result 0)) = false ∧
  within_period (b64_of_Z 1) 999999999 = true.
Proof.
  split; [exact limited_evaluated|]. split; [|reflexivity].
  apply (rate_limit_spacing (P := linux_x86_64) _ _ _ _
    (firstn 7 (fst (fst limited_result))) (sample_at limited_result 0)
    (firstn 3 (skipn 8 (fst (fst limited_result)))) (sample_at limited_result 1) []
    (run_linux_execution _ _ _ limited_evaluated)).
  - reflexivity.
  - repeat constructor.
  - reflexivity.
  - discriminate.
Defined.
