(* ===== verification/Recovery.v ===== *)
(** * Stopping, fail-stop, timeouts and reconnection

    Liveness and recovery of the executions of a client: a stopped worker ends
    within a bounded number of its own steps, a fail-stop client ends with its
    first fault, a silent sensor ends the session, and the reconnect delays stay
    in their range. *)

From S2P Require Import Prelude Floating Types Protocol Sequence Status FaultLatch ClientImpl Session Executions.
From Stdlib Require Import Init.Byte.

(** ** Stopping *)

(** A bound on the steps a worker that sees the stop flag still makes. *)
Definition rank (p : Pc) : nat :=
  match p with
  | PExited => 0 | PFinishState => 1 | PFinishExit => 2 | PFinishClose => 3
  | PCatch _ | PClosed _ | PLoop => 4
  | PClose _ | PWait _ => 5
  | PWaitStart | PAsleep _ | PStopTest1 | PStopTest2 | PStart | PReceiveTest | PTimedOut | PReceive => 6
  | PBackoff _ | PWaitBlock _ | PConnecting | PConfigure | PConnect | PFirstDeadline | PDeadlineTest
  | PCommit _ _ => 7
  | PBaseline | PInCallback _ _ => 8
  | PInvoke _ _ => 9
  | PRecord _ _ => 10
  | PDatagram _ => 11
  end.

Fixpoint ticks (actions : list Action) : nat :=
  match actions with
  | [] => 0
  | Tick _ :: actions => S (ticks actions)
  | Call _ :: actions => ticks actions
  end.

(** The commands a stopped client no longer sends. *)
Definition quiet (e : Event) : Prop :=
  match e with EvSent StartRealtime | EvSent SetSoftwareBias => False | _ => True end.

Section Recovery.
Context `{P : Platform}.

Lemma rank_step env w i w' i' new :
  stopping_ i = true → action_step (Tick env) w i = (w', i', new) →
  (rank (pc w') ≤ pred (rank (pc w)))%nat ∧ Forall quiet new.
Proof.
  intros Hst Hs. remember (Tick env) as a eqn:Ha. 
  step_all Hs; try discriminate Ha; rewrite ?Hst in *; cbn in *; try discriminate; split;
    try lia; try (unfold sends; repeat case_split; repeat constructor).
Qed.

Lemma call_step op w i w' i' new :
  stopping_ i = true → action_step (Call op) w i = (w', i', new) →
  (rank (pc w') ≤ rank (pc w))%nat ∧ Forall quiet new.
Proof.
  intros Hst Hs. remember (Call op) as a eqn:Ha.
  step_all Hs; try discriminate Ha; rewrite ?Hst in *; cbn in *; try discriminate;
    split; try lia; try done; unfold sends; repeat case_split; repeat constructor.
Qed.

Lemma stopping_run actions evs w i evs' w' i' :
  stopping_ i = true → run_actions actions evs w i = (evs', w', i') →
  (rank (pc w') ≤ rank (pc w) - ticks actions)%nat ∧
  ∃ new, evs' = evs ++ new ∧ Forall quiet new.
Proof.
  revert evs w i. induction actions as [|a actions IH]; intros evs w i Hst Hr; cbn in Hr.
  { injection Hr as <- <- <-. split; [cbn; lia|]. exists []. by rewrite app_nil_r. }
  destruct (action_step a w i) as [[w1 i1] new1] eqn:Hs.
  pose proof (step_frame _ _ _ _ _ _ Hs) as (_ & _ & _ & Hst1).
  destruct (IH (evs ++ new1) w1 i1 (Hst1 Hst) Hr) as (Hk & new2 & -> & Hq2).
  destruct a as [env|op]; cbn [ticks].
  - destruct (rank_step _ _ _ _ _ _ Hst Hs) as [Hk1 Hq1]. split; [lia|].
    exists (new1 ++ new2). rewrite app_assoc. split; [done|]. by apply Forall_app.
  - destruct (call_step _ _ _ _ _ _ Hst Hs) as [Hk1 Hq1]. split; [lia|].
    exists (new1 ++ new2). rewrite app_assoc. split; [done|]. by apply Forall_app.
Qed.

Lemma execution_run_actions i0 actions evs w i evs' w' i' :
  execution i0 evs w i → run_actions actions evs w i = (evs', w', i') → execution i0 evs' w' i'.
Proof. apply run_actions_execution. Qed.

(** [stop] terminates: from the moment the stop flag is set, whatever the
    worker was doing and whatever the clock, the sensor, the callback and the
    other threads do, it returns within eleven of its own steps (the sleep
    of a backoff, which [stop] wakes, is one; see [stop_misses_backoff] for a worker
    that falls asleep later), with the session closed and the exit flag set, and neither a start nor a bias command
    is sent any more. *)
Theorem stop_bounded i0 evs w i actions :
  started i0 → execution i0 evs w i → stopping_ i = true → (11 ≤ ticks actions)%nat →
  let '(evs', w', i') := run_actions actions evs w i in
  pc w' = PExited ∧ worker_exited_ i' = true ∧ session_started_ i' = false ∧
  state (health_ i') = (if faulted i' then Faulted else Stopped) ∧
  ∃ new, evs' = evs ++ new ∧ Forall quiet new.
Proof.
  intros Hi He Hst Ht. destruct (run_actions actions evs w i) as [[evs' w'] i'] eqn:Hr.
  destruct (stopping_run _ _ _ _ _ _ _ Hst Hr) as [Hk Hq].
  assert (rank (pc w) ≤ 11)%nat by (clear; destruct (pc w); cbn; lia).
  assert (pc w' = PExited) as Hp by (assert (rank (pc w') = 0)%nat as H0 by lia; by destruct (pc w')).
  apply run_actions_execution with (i0 := i0) in Hr; [|done].
  destruct (execution_exit _ _ _ _ Hi Hr Hp) as (? & ? & ?).
  by split_and!.
Qed.

(** ** Fail-stop *)

(** The first failed session of a trace, and whether nothing of a session
    happened after it. *)
Definition is_session_event (e : Event) : bool :=
  match e with
  | EvCallback _ _ | EvCallbackThrew | EvDelivered _ | EvTimeout | EvSessionEnd _ | EvBackoff | EvWait _
  | EvDatagram _ | EvRecord _ _ => true
  | _ => false
  end.
Definition verdict_event (v : option (SessionResult * bool)) (e : Event)
    : option (SessionResult * bool) :=
  match v with
  | Some (r, clean) => Some (r, clean && negb (is_session_event e))
  | None =>
      match e with
      | EvSessionEnd r => if bool_decide (r = RStopped) then None else Some (r, true)
      | _ => None
      end
  end.
Definition verdict (evs : list Event) := foldl verdict_event None evs.

Definition verdict_invariant (v : option (SessionResult * bool)) (w : Worker) (i : Impl) : Prop :=
  match v with
  | None => match pc w with PClosed o => outcome_result o = RStopped | _ => True end
  | Some (r, clean) =>
      clean = true ∧ r ≠ RStopped ∧
      match pc w with
      | PClosed o => outcome_result o = r ∧ fault_latch_ i = FaultNone
      | p => finishing p = true ∧ fault_latch_ i = fault_for r
      end
  end.

Lemma verdict_step a w i w' i' new v :
  recovery_policy (config_ i) = FailStop → fault_invariant w i →
  verdict_invariant v w i → action_step a w i = (w', i', new) →
  verdict_invariant (foldl verdict_event v new) w' i'.
Proof.
  intros Hp (_ & _ & Hf) Hv Hs.
  assert (finishing (pc w) = false → fault_latch_ i = FaultNone) as Hff.
  { intros Hw. destruct (decide (fault_latch_ i = FaultNone)); [done|]. by rewrite Hf in Hw. }
  unfold verdict_invariant in *. step_all Hs; cbn in *; rewrite ?Hp in *; bools; destruct v as [[vr vc]|]; cbn in *;
    destruct_and?; rewrite ?andb_true_r; try done; try (split_and!; congruence).
  1-2: case_bool_decide; cbn; [done|]; split_and!; auto.
  all: match goal with Hb : _ && _ = false |- _ => apply andb_false_iff in Hb as [Hb|Hb] end;
      bools; exfalso; naive_solver.
Qed.

Lemma execution_verdict i0 evs w i :
  started i0 → recovery_policy (config_ i0) = FailStop → execution i0 evs w i →
  verdict_invariant (verdict evs) w i.
Proof.
  intros Hi Hp. induction 1 as [|a evs w i w' i' new He IH Hs]; [done|].
  unfold verdict. rewrite foldl_app. eapply verdict_step; [|by eapply execution_invariants|exact IH|exact Hs].
  destruct (execution_frame _ _ _ _ He) as (-> & _). done.
Qed.

Lemma verdict_some evs r c : foldl verdict_event (Some (r, c)) evs =
  Some (r, c && forallb (λ e, negb (is_session_event e)) evs).
Proof.
  revert c. induction evs as [|e evs IH]; intros c; cbn; [by rewrite andb_true_r|].
  by rewrite IH, andb_assoc.
Qed.

(** C6: a fail-stop client stops at its first failure: when a session has ended
    for any reason but a stop, nothing of a session happens any more - no
    datagram, no record, no callback, no delivery, no wait, no other session
    end - and the fault of exactly that reason is the one latched when the
    worker returns, whatever the other threads do. *)
Theorem fail_stop_first_failure i0 evs w i before r after :
  started i0 → recovery_policy (config_ i0) = FailStop → execution i0 evs w i →
  evs = before ++ EvSessionEnd r :: after → r ≠ RStopped →
  (∀ r', In (EvSessionEnd r') before → r' = RStopped) ∧
  Forall (λ e, is_session_event e = false) after ∧
  (pc w = PExited → fault_latch_ i = fault_for r ∧ state (health_ i) = Faulted ∧
     fault_code (health_ i) = fault_for r).
Proof.
  intros Hi Hp He E Hr. pose proof (execution_verdict _ _ _ _ Hi Hp He) as Hv.
  destruct (execution_invariants _ _ _ _ Hi He) as ((Hc & _) & _).
  rewrite E in Hv. unfold verdict in Hv. rewrite foldl_app in Hv. cbn [foldl] in Hv.
  fold (verdict before) in Hv. destruct (verdict before) as [[r' c]|] eqn:Hb; cbn [verdict_event] in Hv.
  { rewrite verdict_some in Hv. destruct Hv as [Hv _]. cbn [is_session_event negb] in Hv. by bools. }
  rewrite bool_decide_eq_false_2, verdict_some in Hv by done.
  destruct Hv as (Hq & _ & Hpc). cbn [andb] in Hq. split_and!.
  - intros r' Hin. destruct (decide (r' = RStopped)) as [|Hr']; [done|]. exfalso.
    apply in_split in Hin as (b1 & b2 & ->). unfold verdict in Hb. rewrite foldl_app in Hb.
    cbn [foldl] in Hb. destruct (foldl verdict_event None b1) as [[]|];
      cbn [verdict_event] in Hb; [|rewrite bool_decide_eq_false_2 in Hb by done];
      by rewrite verdict_some in Hb.
  - apply Forall_forall. intros e He'. apply list_elem_of_In in He'.
    rewrite forallb_forall in Hq. by apply negb_true_iff, Hq.
  - intros Hx. rewrite Hx in Hpc. destruct Hpc as [_ Hl]. split; [done|].
    destruct Hc as [Hn|[? ->]]; [|by split].
    exfalso. rewrite Hl in Hn. by apply fault_for_none in Hn.
Qed.

(** ** Reconnect delays *)

(** The delay of the next wait, from the trace: the initial one, doubled by each
    wait up to the maximum, and back to the initial one once a valid record was
    received since the last wait. *)
Definition delay_event (config : Config) (s : double * bool) (e : Event) : double * bool :=
  match e with
  | EvDatagram data =>
      (fst s, snd s || is_ok (decode_record (Some data) (Z.of_nat (length data))))
  | EvWait _ =>
      (next_backoff config (if snd s then reconnect_initial_delay config else fst s), false)
  | _ => s
  end.
Definition delay_state (config : Config) (evs : list Event) : double * bool :=
  foldl (delay_event config) (reconnect_initial_delay config, false) evs.
Definition delay_after (config : Config) (evs : list Event) : double :=
  let s := delay_state config evs in if snd s then reconnect_initial_delay config else fst s.

Definition delay_invariant (s : double * bool) (w : Worker) (i : Impl) : Prop :=
  match pc w with
  | PLoop => backoff w = fst s ∧ snd s = false
  | PWait _ | PWaitBlock _ | PAsleep _ => fst s = next_backoff (config_ i) (backoff w) ∧ snd s = false
  | PWaitStart =>
      backoff w = if snd s then reconnect_initial_delay (config_ i) else fst s
  | PClose o | PClosed o | PBackoff o => backoff w = fst s ∧ received_valid_record o = snd s
  | PCatch _ | PFinishClose | PFinishExit | PFinishState | PExited => True
  | _ => backoff w = fst s ∧ valid w = snd s
  end.

Lemma delay_step a w i w' i' new s :
  delay_invariant s w i → action_step a w i = (w', i', new) →
  delay_invariant (foldl (delay_event (config_ i)) s new) w' i'.
Proof.
  intros Hv Hs. destruct s as [sb sv].
  unfold delay_invariant in *.
  step_all Hs; cbn -[next_backoff decode_record] in *;
    destruct_and?; subst; try done.
  all: match goal with
  | E : decode_record _ _ = _ |- _ => rewrite E; cbn; by rewrite ?orb_true_r, ?orb_false_r
  | E : received_valid_record _ = _ |- _ => by rewrite E
  end.
Qed.

Lemma execution_delay i0 evs w i :
  execution i0 evs w i → delay_invariant (delay_state (config_ i0) evs) w i.
Proof.
  induction 1 as [|a evs w i w' i' new He IH Hs]; [done|].
  unfold delay_state. rewrite foldl_app.
  destruct (execution_frame _ _ _ _ He) as (Hc & _). rewrite <- Hc in *. by eapply delay_step.
Qed.

(** A delay within the configured range. *)
Definition delay_in_range (config : Config) (b : double) : Prop :=
  valid64 b = true ∧ (∃ m e, b = S754_finite false m e) ∧
  SFleb (reconnect_initial_delay config) b = true ∧ SFleb b (reconnect_max_delay config) = true.

(** Comparison of finite doubles by value. *)
Lemma SFleb_sval x y :
  valid64 x = true → valid64 y = true → isfinite x = true → isfinite y = true →
  (SFleb x y = true ↔ sval 53 1024 x ≤ sval 53 1024 y).
Proof.
  intros Hx Hy Hfx Hfy. unfold SFleb. rewrite (SFcompare_sval 53 1024) by done.
  unfold Z.le. by destruct (sval 53 1024 x ?= sval 53 1024 y).
Qed.

Lemma next_backoff_range config b :
  valid64 (reconnect_initial_delay config) = true → valid64 (reconnect_max_delay config) = true →
  (∃ m e, reconnect_initial_delay config = S754_finite false m e) →
  (∃ m e, reconnect_max_delay config = S754_finite false m e) →
  SFleb (reconnect_initial_delay config) (reconnect_max_delay config) = true →
  delay_in_range config b → delay_in_range config (next_backoff config b).
Proof.
  intros Hvi Hvm (mi & ei & Hi) (mm & em & Hm) Him (Hvb & (m & e & ->) & Hib & Hbm).
  destruct (b64_double m e Hvb) as [Hvd Hd]. unfold next_backoff.
  set (d := b64_mul _ _) in *.
  destruct (SFltb (reconnect_max_delay config) d) eqn:Hlt.
  { split_and!; [done|eauto|done|]. apply SFleb_refl. by rewrite Hm. }
  destruct Hd as [Hinf|[Hfd Hsv]]; [rewrite Hinf, Hm in Hlt; done|].
  assert (0 < sval 53 1024 (S754_finite false m e)) as Hpos
    by (cbn; by apply (sval_finite_pos 53 1024 false)).
  assert (∃ m' e', d = S754_finite false m' e') as (m' & e' & Hde).
  { destruct d as [s| | |[] m' e']; try done; [| |eauto].
    - change (sval 53 1024 (S754_zero s)) with 0 in Hsv. lia.
    - pose proof (sval_finite_pos 53 1024 _ _ _ Hvd).
      change (sval 53 1024 (S754_finite true m' e')) with (- (Zpos m' * 2 ^ (e' - emin 53 1024))) in Hsv.
      lia. }
  split_and!; [done|eauto| |].
  - rewrite SFleb_sval in Hib |- * by (done || by rewrite Hi). lia.
  - apply SFltb_false_leb; [by rewrite Hm|by rewrite Hde|done].
Qed.

Lemma wait_event_step a w i w' i' new pre d post :
  action_step a w i = (w', i', new) → new = pre ++ EvWait d :: post →
  pre = [] ∧ pc w = PWaitStart ∧ d = backoff w.
Proof.
  intros Hs Hn. assert (In (EvWait d) new) as Hin by (rewrite Hn; apply in_elt).
  assert (new = [EvWait d] ∧ pc w = PWaitStart ∧ d = backoff w) as (-> & ? & ?).
  { clear Hn. revert Hin. step_all Hs; unfold sends; try case_split; cbn; intros Hin;
      repeat match goal with
      | H : _ ∨ _ |- _ => destruct H as [H|H]; [try discriminate H|]
      | H : False |- _ => destruct H
      end; by simplify_eq. }
  by destruct pre as [|? []].
Qed.

Lemma execution_policy i0 evs w i : execution i0 evs w i → policy_invariant w i.
Proof.
  induction 1 as [|a evs w i w' i' new He IH Hs]; [done|]. by eapply policy_invariant_step.
Qed.

(** C23: reconnection is paced: only a reconnecting client waits; each wait is the
    delay the trace calls for - the initial delay after a session that received
    a valid record, otherwise twice the one before, up to the maximum - and
    under a validated configuration it always lies between the initial and the
    maximum delay, rounding and overflow of the doubling included. *)
Theorem reconnect_delays i0 evs w i clock before d after :
  started i0 → execution i0 evs w i → evs = before ++ EvWait d :: after →
  validate_config clock (config_ i0) = Ok () →
  valid64 (reconnect_initial_delay (config_ i0)) = true →
  valid64 (reconnect_max_delay (config_ i0)) = true →
  recovery_policy (config_ i0) = Reconnect ∧ d = delay_after (config_ i0) before ∧
  delay_in_range (config_ i0) d.
Proof.
  intros Hi He E Hval Hvi Hvm.
  apply validate_config_ranges in Hval as (Hpi & Hpm & Him).
  assert (∀ evs, delay_in_range (config_ i0) (fst (delay_state (config_ i0) evs)) ∧
                 delay_in_range (config_ i0) (delay_after (config_ i0) evs)) as Hrange.
  { assert (delay_in_range (config_ i0) (reconnect_initial_delay (config_ i0))) as H0.
    { split_and!; try done. apply SFleb_refl. by destruct Hpi as (? & ? & ->). }
    assert (∀ evs, delay_in_range (config_ i0) (fst (delay_state (config_ i0) evs))) as H1.
    { intros evs'. induction evs' as [|e evs' IH] using rev_ind; [done|].
      unfold delay_state. rewrite foldl_app. cbn [foldl]. fold (delay_state (config_ i0) evs').
      destruct e; try done. cbn [delay_event fst]. apply next_backoff_range; try done.
      by case_split. }
    intros evs'. split; [done|]. unfold delay_after. by case_split. }
  cut (recovery_policy (config_ i0) = Reconnect ∧ d = delay_after (config_ i0) before).
  { intros [? ->]. split_and!; try done. by apply Hrange. }
  refine (execution_before (λ e, e = EvWait d)
    (λ pre _, recovery_policy (config_ i0) = Reconnect ∧ d = delay_after (config_ i0) pre)
    i0 evs w i _ He _ _ _ E eq_refl).
  intros evs' a w1 i1 w1' i1' new pre e post He1 Hs -> ->.
  assert (pre = [] ∧ pc w1 = PWaitStart ∧ d = backoff w1) as (-> & Hpc & ->).
  { eapply wait_event_step; [exact Hs|done]. }
  rewrite app_nil_r. pose proof (execution_delay _ _ _ _ He1) as Hd.
  pose proof (execution_policy _ _ _ _ He1) as Hp.
  destruct (execution_frame _ _ _ _ He1) as (Hc & _).
  unfold delay_invariant, policy_invariant in *. rewrite Hpc, Hc in *. done.
Qed.

(** ** A silent sensor *)

Definition decodes (data : list byte) : bool :=
  is_ok (decode_record (Some data) (Z.of_nat (length data))).

(** From now on the clock is past [d] and no datagram is a record. *)
Definition silent (d : Z) (a : Action) : Prop :=
  match a with
  | Tick env =>
      d ≤ env_now env ∧
      match env_received env with Ok data => decodes data = false | Throw _ => True end
  | Call _ => True
  end.

(** The positions of the receive loop without a record, with the steps left. *)
Definition receiving (p : Pc) : option nat :=
  match p with
  | PTimedOut => Some 1%nat | PDeadlineTest => Some 2%nat | PReceiveTest => Some 3%nat
  | PDatagram data => if decodes data then None else Some 4%nat
  | PReceive => Some 5%nat
  | _ => None
  end.

Lemma receiving_range p n : receiving p = Some n → (1 ≤ n ≤ 5)%nat.
Proof. destruct p; cbn; intros Hn; try case_split_in Hn; simplify_eq; lia. Qed.

Lemma receiving_step env w i w' i' new n :
  silent (deadline w) (Tick env) → receiving (pc w) = Some n →
  action_step (Tick env) w i = (w', i', new) →
  (∃ o, pc w' = PClose o ∧ received_valid_record o = valid w ∧
     outcome_result o ∈ [RTimeout; RStopped; RSocket; RMalformedStorm]) ∨
  (∃ m, receiving (pc w') = Some m ∧ (m < n)%nat ∧ deadline w' = deadline w ∧ valid w' = valid w).
Proof.
  intros [Hnow Hrec] Hr Hs. remember (Tick env) as a eqn:Ha.
  step_all Hs; try discriminate Ha; injection Ha as ->; cbn -[decode_record] in *; try discriminate;
    unfold decodes in *;
    repeat match goal with E : decode_record _ _ = _, H : context [decode_record _ _] |- _ =>
      rewrite E in H end; cbn -[decode_record] in *; simplify_eq;
    first [ left; eexists; split; [reflexivity|]; split; [reflexivity|]; repeat constructor; fail
          | right; eexists; split_and!; [reflexivity|lia|done..] | idtac ].
  right. rewrite Heqr in Hrec. rewrite Hrec. by eexists; split_and!; [reflexivity|lia|..].
Qed.

(** C22: a silent sensor cannot hold a session open: once the clock passes the
    receive deadline while no datagram is a valid record, the session ends
    within five steps of the worker, malformed traffic and the actions of other
    threads notwithstanding, and not as a success. *)
Theorem silent_session_ends actions evs w i n :
  receiving (pc w) = Some n → Forall (silent (deadline w)) actions → (n ≤ ticks actions)%nat →
  ∃ some rest, actions = some ++ rest ∧ (ticks some ≤ 5)%nat ∧
    let '(_, w', _) := run_actions some evs w i in
    ∃ o, pc w' = PClose o ∧ received_valid_record o = valid w ∧
      outcome_result o ∈ [RTimeout; RStopped; RSocket; RMalformedStorm].
Proof.
  intros Hn Hs Ht. pose proof (receiving_range _ _ Hn) as H5.
  cut (∃ some rest, actions = some ++ rest ∧ (ticks some ≤ n)%nat ∧
    let '(_, w', _) := run_actions some evs w i in
    ∃ o, pc w' = PClose o ∧ received_valid_record o = valid w ∧
      outcome_result o ∈ [RTimeout; RStopped; RSocket; RMalformedStorm]).
  { intros (some & rest & ? & ? & ?). exists some, rest. split_and!; [done|lia|done]. }
  clear H5. revert evs w i n Hn Hs Ht. induction actions as [|a actions IH]; intros evs w i n Hn Hs Ht.
  { apply receiving_range in Hn. cbn in Ht. lia. }
  apply Forall_cons in Hs as [Ha Hs].
  destruct (action_step a w i) as [[w1 i1] new] eqn:Hstep.
  destruct a as [env|op]; cbn [ticks] in Ht.
  - destruct (receiving_step _ _ _ _ _ _ _ Ha Hn Hstep) as [Hend|(m & Hm & Hlt & Hd & Hv)].
    + exists [Tick env], actions. cbn [run_actions]. rewrite Hstep. split_and!; [done| |done].
      apply receiving_range in Hn. cbn. lia.
    + destruct (IH (evs ++ new) w1 i1 m Hm) as (some & rest & -> & Hk & Hr); [by rewrite Hd|lia|].
      exists (Tick env :: some), rest. cbn [run_actions ticks]. rewrite Hstep, <- Hv.
      split_and!; [done|lia|done].
  - assert (w1 = w) as ->.
    { cbn in Hstep. destruct (op_step op i) as [? ?]. injection Hstep as <- _ _. destruct op; try done.
      unfold op_worker, wake_worker. by destruct (pc w). }
    destruct (IH (evs ++ new) w i1 n Hn Hs Ht) as (some & rest & -> & Hk & Hr).
    exists (Call op :: some), rest. cbn [run_actions ticks]. rewrite Hstep. by split_and!.
Qed.
End Recovery.

(** ** Concrete runs *)

(** The stop flag is set while a record is being handled. *)
Definition stopped_run : list Action :=
  connect_actions ++ replicate 5 (tick 2000 (encode_record record_a) CbReturns) ++ [Call OStopFlag].
Definition stopping_result : list Event * Worker * Impl :=
  Eval vm_compute in run_linux stopped_run (fresh_impl default_config).
Lemma stopping_evaluated : run_linux stopped_run (fresh_impl default_config) = stopping_result.
Proof. vm_compute. reflexivity. Qed.

Lemma stop_bounded_witness :
  run_linux stopped_run (fresh_impl default_config) = stopping_result ∧
  let '(_, w, i) := run_actions (H := linux_x86_64) (replicate 11 (tick 2500 [] CbReturns))
                      (fst (fst stopping_result)) (snd (fst stopping_result)) (snd stopping_result) in
  pc w = PExited.
Proof.
  split; [exact stopping_evaluated|].
  pose proof (stop_bounded (P := linux_x86_64) _ _ _ _ (replicate 11 (tick 2500 [] CbReturns))
    (fresh_impl_started default_config) (run_linux_execution _ _ _ stopping_evaluated)
    eq_refl (le_n 11)) as H.
  destruct (run_actions _ _ _ _) as [[evs w] i]. destruct H as [H _]. exact H.
Defined.

Lemma fail_stop_first_failure_witness :
  run_linux faulting_run (fresh_impl fail_stop_config) = faulting_result ∧
  fault_code (health_ (snd faulting_result)) = fault_for RSeriousStatus.
Proof.
  split; [exact faulting_evaluated|].
  destruct (fail_stop_first_failure (P := linux_x86_64) _ _ _ _
    (firstn 15 (fst (fst faulting_result))) RSeriousStatus (skipn 16 (fst (fst faulting_result)))
    (fresh_impl_started fail_stop_config) eq_refl
    (run_linux_execution _ _ _ faulting_evaluated)) as (_ & _ & H).
  - reflexivity.
  - discriminate.
  - apply H. reflexivity.
Defined.

(** Three sessions that cannot connect: the second wait is twice the first. *)
Definition failing_session (now : Z) : list Action :=
  replicate 11 (Tick (mkEnv now (Ok sample_configuration) (Throw (RuntimeError "no route")) (Ok []) CbReturns)).
Definition retrying_run : list Action :=
  failing_session 1000 ++ failing_session 1000000000 ++ failing_session 2000000000.
Definition retrying_result : list Event * Worker * Impl :=
  Eval vm_compute in run_linux retrying_run (fresh_impl default_config).
Lemma retrying_evaluated : run_linux retrying_run (fresh_impl default_config) = retrying_result.
Proof. vm_compute. reflexivity. Qed.

Lemma reconnect_delays_witness :
  run_linux retrying_run (fresh_impl default_config) = retrying_result ∧
  b64_ratio 1 2 = delay_after default_config (firstn 7 (fst (fst retrying_result))) ∧
  delay_in_range default_config (b64_ratio 1 2).
Proof.
  split; [exact retrying_evaluated|].
  destruct (reconnect_delays (P := linux_x86_64) _ _ _ _ (λ _, 1000000)
    (firstn 7 (fst (fst retrying_result))) (b64_ratio 1 2) (skipn 8 (fst (fst retrying_result)))
    (fresh_impl_started default_config) (run_linux_execution _ _ _ retrying_evaluated)
    eq_refl) as (_ & Hd & Hr).
  - vm_compute. reflexivity.
  - reflexivity.
  - reflexivity.
  - split; [exact Hd|exact Hr].
Defined.

(** Malformed traffic and other threads while the deadline passes. *)
Definition silent_actions : list Action :=
  [tick 5000000000 [x01] CbReturns; Call (OHealth 5000000000); tick 5000000000 [x01] CbReturns;
   tick 5000000000 [x01] CbReturns; tick 5000000000 [x01] CbReturns; tick 5000000000 [x01] CbReturns;
   tick 5000000000 [x01] CbReturns].

Definition listening : list Event * Worker * Impl :=
  Eval vm_compute in run_linux (connect_actions ++ replicate 2 (tick 1000 [] CbReturns))
                       (fresh_impl default_config).

Lemma silent_session_ends_witness :
  pc (snd (fst listening)) = PReceive ∧
  ∃ some rest, silent_actions = some ++ rest ∧
    let '(_, w', _) := run_actions (H := linux_x86_64) some (fst (fst listening))
                         (snd (fst listening)) (snd listening) in
    ∃ o, pc w' = PClose o ∧ received_valid_record o = false.
Proof.
  split; [reflexivity|].
  destruct (silent_session_ends (P := linux_x86_64) silent_actions (fst (fst listening))
    (snd (fst listening)) (snd listening) 5 eq_refl) as (some & rest & Ha & _ & H).
  - repeat constructor; discriminate.
  - vm_compute. repeat constructor.
  - exists some, rest. split; [exact Ha|].
    destruct (run_actions some _ _ _) as [[? w'] ?]. destruct H as (o & Hp & Hv & _).
    exists o. split; [exact Hp|exact Hv].
Defined.
