(* ===== verification/System.v ===== *)
(** * The whole client

    The composition of [Lifecycle.v] and [Session.v]: one object [Impl], the threads
    inside [start] and [stop], the callback's calls included, and the worker that
    runs.  The sections of [start] and [stop] act on the whole object here; the
    flags of [Lifecycle.v] are read off it, and a worker exits when its own code
    reaches the exit. *)

From stdpp Require Import list.
From S2P Require Import Prelude Floating Types Protocol Sequence Status FaultLatch ClientImpl Session Executions Accounting Lifecycle LifecycleSpec.

(** ** State *)

(** [current] is the worker created last. *)
Record System := mkSystem {
  impl : Impl;
  current : Worker;
  phases : list Phase;
  threads : list Pc
}.

#[export] Instance eta_System : Eta System := λ s,
  mkSystem (impl s) (current s) (phases s) (threads s).

(** The members and threads [Lifecycle.v] speaks of. *)
Definition life_of (s : System) : Life :=
  let i := impl s in
  mkLife (stopping_ i) (worker_exited_ i) (faulted i) (joining_ i) (worker_ i) (active_worker_id_ i)
    (phases s) (threads s).

(** The client after its constructor; there is no worker. *)
Definition sys_init (i : Impl) : System := mkSystem i (goto PExited (worker_init i)) [] [].

(** A worker created with a callback, the returns of [start] and [stop] and the
    exits, and what the workers do. *)
Inductive SysEvent :=
  | SStart (w : nat) (callback : SampleCallback)
  | SLife (e : Ev)
  | SWorker (w : nat) (e : Event).

Definition life_event (e : SysEvent) : list Ev :=
  match e with SStart w _ => [EvStarted w] | SLife e => [e] | SWorker _ _ => [] end.
Definition life_events (tr : list SysEvent) : list Ev := flat_map life_event tr.
Definition event_of (w : nat) (e : SysEvent) : list Event :=
  match e with SWorker w' e => if bool_decide (w' = w) then [e] else [] | _ => [] end.
Definition events_of (w : nat) (tr : list SysEvent) : list Event := flat_map (event_of w) tr.
Definition any_event (e : SysEvent) : list Event :=
  match e with SStart _ _ => [EvBegin] | SLife _ => [] | SWorker _ e => [e] end.
Definition all_events (tr : list SysEvent) : list Event := flat_map any_event tr.

Definition last_worker (s : System) : nat := pred (length (phases s)).
Definition emit (s : System) (evs : list Event) : list SysEvent := SWorker (last_worker s) <$> evs.
Definition wake_threads (s : System) : System := s <| threads ::= fmap wake |>.

(** [called_from_worker_thread], and the same test of [start] and [stop]. *)
Definition called_from_worker_thread (self : option nat) (i : Impl) : bool :=
  match self with
  | Some w => negb (worker_exited_ i) && bool_decide (active_worker_id_ i = Some w)
  | None => false
  end.

Section Machine.
Context `{P : Platform}.

(** ** [start] *)

Definition sys_start_fresh (callback : SampleCallback) (created : result unit) (s : System)
    : Pc * System * list SysEvent :=
  let w := length (phases s) in
  match created with
  | Ok _ =>
      let '(_, i) := start_fresh callback (Ok w) (impl s) in
      (PDone, wake_threads (mkSystem i (worker_init i) (phases s ++ [WRun]) (threads s)), [SStart w callback])
  | Throw e =>
      let '(_, i) := start_fresh callback (Throw e) (impl s) in
      (PDone, wake_threads (s <| impl := i |>), [SLife EvCreateFailed])
  end.

Definition sys_start_wait (callback : SampleCallback) (created : result unit) (self : option nat)
    (s : System) : Pc * System * list SysEvent :=
  if joining_ (impl s) then (PStartBlockedJoin self, s, [])
  else match worker_ (impl s) with
  | Some w =>
      if negb (worker_exited_ (impl s)) then
        if negb (faulted (impl s)) then (PDone, s, [SLife (EvAlready self)]) else (PStartExit self, s, [])
      else (PStartJoin self w, s <| impl ::= take_worker |>, [])
  | None => sys_start_fresh callback created s
  end.

Definition sys_start_enter (callback : SampleCallback) (created : result unit) (self : option nat)
    (s : System) : Pc * System * list SysEvent :=
  if called_from_worker_thread self (impl s) then (PDone, s, [SLife (EvAlready self)])
  else sys_start_wait callback created self s.

(** ** [stop] *)

Definition sys_stop_enter (self : option nat) (s : System) : Pc * System * list SysEvent :=
  (PStopFlagged self, wake_threads (s <| impl ::= stop_flag |> <| current ::= wake_worker |>), []).

Definition sys_stop_section (self : option nat) (s : System) : Pc * System * list SysEvent :=
  let '(cs, i) := stop_command (impl s) in
  let sent := emit s (sends cs) in
  let s := s <| impl := i |> in
  if called_from_worker_thread self i then (PDone, s, sent ++ [SLife (EvStopped self)])
  else if joining_ i then (PStopBlocked self, s, sent)
  else match worker_ i with
  | None => (PDone, s <| impl ::= mark_stopped |>, sent ++ [SLife (EvStopped self)])
  | Some w => (PStopJoin self w, s <| impl ::= take_worker |>, sent)
  end.

(** ** Callers *)

Definition waits_exit (i : Impl) : bool := worker_exited_ i || negb (faulted i).

Definition sys_caller_step (callback : SampleCallback) (created : result unit) (pc : Pc) (s : System)
    : option (Pc * System * list SysEvent) :=
  let locked r := if mutex_free (life_of s) then Some r else None in
  match pc with
  | PStart self => locked (sys_start_enter callback created self s)
  | PStartWokenJoin self => locked (sys_start_wait callback created self s)
  | PStartExit self => Some (if waits_exit (impl s) then PStart self else PStartBlock self, s, [])
  | PStartBlock self => Some (PStartBlockedExit self, s, [])
  | PStartWokenExit self =>
      locked (if waits_exit (impl s) then PStart self else PStartBlock self, s, [])
  | PStartJoin self w =>
      if bool_decide (phases s !! w = Some WDone) then Some (PStartJoined self, s, []) else None
  | PStartJoined self => locked (PStartNotify self, s <| impl ::= release_worker |>, [])
  | PStartNotify self => Some (PStart self, wake_threads s, [])
  | PStop self => locked (sys_stop_enter self s)
  | PStopFlagged self => Some (sys_stop_section self s)
  | PStopWoken self =>
      locked (if joining_ (impl s) then (PStopBlocked self, s, []) else (PStop self, s, []))
  | PStopJoin self w =>
      if bool_decide (phases s !! w = Some WDone) then Some (PStopJoined self, s, []) else None
  | PStopJoined self =>
      locked (PStopNotify self, s <| impl ::= mark_stopped |> <| impl ::= release_worker |>,
              [SLife (EvStopped self)])
  | PStopNotify self => Some (PDone, wake_threads s, [])
  | PStartBlockedJoin _ | PStartBlockedExit _ | PStopBlocked _ | PDone => None
  end.

(** ** The worker *)

Definition at_exit (w : Worker) : bool :=
  match Session.pc w with PFinishExit => true | _ => false end.
Definition has_returned (w : Worker) : bool :=
  match Session.pc w with PExited => true | _ => false end.

(** [worker_exited_ = true;] takes the thread out of [run]; after [finish_session]
    the waiters are notified and the thread ends. *)
Definition sys_worker (env : Env) (s : System) : option (System * list SysEvent) :=
  let w := last_worker s in
  let '(c, i, evs) := worker_step env (current s) (impl s) in
  match phases s !! w with
  | Some WRun =>
      if in_call w (life_of s) then None
      else if at_exit (current s)
      then Some (mkSystem i c (<[w := WExited]> (phases s)) (threads s), emit s evs ++ [SLife (EvExit w)])
      else Some (mkSystem i c (phases s) (threads s), emit s evs)
  | Some WExited =>
      if has_returned (current s)
      then Some (wake_threads (s <| phases ::= <[w := WDone]> |>), [])
      else Some (mkSystem i c (phases s) (threads s), emit s evs)
  | _ => None
  end.

(** ** Steps *)

Inductive SysLabel :=
  | SysCall (pc : Pc)
  | SysCaller (t : nat) (callback : SampleCallback) (created : result unit)
  | SysWorker (env : Env)
  | SysBias (sent1 sent2 : result unit)
  | SysHealth (now : Z)
  | SysSpurious (t : nat).

(** The worker calls [start] and [stop] from its callback only. *)
Definition in_callback (w : Worker) : bool :=
  match Session.pc w with PInCallback _ _ => true | _ => false end.

Definition sys_op (op : Op) (s : System) : System * list SysEvent :=
  let '(i, evs) := op_step op (impl s) in (s <| impl := i |>, emit s evs).

Definition sys_step (a : SysLabel) (s : System) : option (System * list SysEvent) :=
  match a with
  | SysCall pc =>
      if call_allowed pc (life_of s) && (bool_decide (pc_self pc = None) || in_callback (current s))
      then Some (s <| threads ::= λ ts, ts ++ [pc] |>, []) else None
  | SysCaller t callback created =>
      pc ← threads s !! t;
      '(pc, s, evs) ← sys_caller_step callback created pc s;
      Some (s <| threads ::= <[t := pc]> |>, evs)
  | SysWorker env => sys_worker env s
  | SysBias sent1 sent2 => Some (sys_op (OBias sent1 sent2) s)
  | SysHealth now => Some (sys_op (OHealth now) s)
  | SysSpurious t =>
      pc ← threads s !! t;
      if bool_decide (wake pc ≠ pc) then Some (s <| threads ::= <[t := wake pc]> |>, []) else None
  end.

Inductive sys_execution (i0 : Impl) : list SysEvent → System → Prop :=
  | sys_start : sys_execution i0 [] (sys_init i0)
  | sys_next a tr s s' new :
      sys_execution i0 tr s → sys_step a s = Some (s', new) → sys_execution i0 (tr ++ new) s'.

Fixpoint sys_run (labels : list SysLabel) (s : System) : option (System * list SysEvent) :=
  match labels with
  | [] => Some (s, [])
  | a :: labels => '(s, evs) ← sys_step a s; '(s, evs') ← sys_run labels s; Some (s, evs ++ evs')
  end.
End Machine.

(** ** Traces *)

Lemma life_events_app tr tr' : life_events (tr ++ tr') = life_events tr ++ life_events tr'.
Proof. apply flat_map_app. Qed.
Lemma events_of_app w tr tr' : events_of w (tr ++ tr') = events_of w tr ++ events_of w tr'.
Proof. apply flat_map_app. Qed.
Lemma all_events_app tr tr' : all_events (tr ++ tr') = all_events tr ++ all_events tr'.
Proof. apply flat_map_app. Qed.

Lemma life_events_emit s evs : life_events (emit s evs) = [].
Proof. unfold emit. by induction evs. Qed.
Lemma all_events_emit s evs : all_events (emit s evs) = evs.
Proof. unfold emit. induction evs as [|e evs IH]; [done|]. cbn. f_equal. exact IH. Qed.
Lemma events_of_emit s evs w : events_of w (emit s evs) = if bool_decide (last_worker s = w) then evs else [].
Proof.
  unfold emit. induction evs as [|e evs IH]; cbn; [by case_split|].
  change (flat_map (event_of w) (SWorker (last_worker s) <$> evs)) with (events_of w (emit s evs)).
  unfold emit. rewrite IH. by case_split.
Qed.

(** ** The lifecycle protocol, read off the object *)

Section Refinement.
Context `{P : Platform}.

(** ** Leaving [run] *)

(** A worker only leaves [run] after [stop] or a fault, and a session only ends as
    stopped when the client is. *)
Definition leave_invariant (w : Worker) (i : Impl) : Prop :=
  (finishing (Session.pc w) = true → stopping_ i = true ∨ fault_latch_ i ≠ FaultNone) ∧
  match Session.pc w with
  | PClose o | PClosed o => outcome_result o = RStopped → stopping_ i = true
  | PInvoke _ o | PInCallback _ o | PCommit _ o => o ≠ Some RStopped
  | _ => True
  end.

Lemma session_end_not_stopped config k s : session_end config k s ≠ Some RStopped.
Proof. unfold session_end. repeat case_split; by destruct s, k. Qed.

Lemma callback_failure_not_stopped config o : o ≠ Some RStopped → callback_failure_outcome config o ≠ Some RStopped.
Proof. unfold callback_failure_outcome. by case_split. Qed.

(** The end a gate asks for is one of [session_end]. *)
Lemma gate_not_stopped (c c' : SensorConfiguration) (g : Gate) d config k s :
  @Ok (SensorConfiguration * Gate) (c, g) = Ok (c', mkGate d (session_end config k s)) → gate_outcome g ≠ Some RStopped.
Proof. intros [= _ ->]. apply session_end_not_stopped. Qed.

Lemma leave_invariant_step a w i w' i' new :
  leave_invariant w i → action_step a w i = (w', i', new) → leave_invariant w' i'.
Proof.
  unfold leave_invariant. intros (Hf & Ho) Hs.
  step_all Hs; bools; cbn in *; split_and?; try use_invariant;
    try (match goal with E : Ok _ = Ok _ |- _ => apply gate_not_stopped in E end; congruence);
    try (match goal with E : callback_failure_outcome ?c ?o = _ |- _ =>
           pose proof (callback_failure_not_stopped c o) end; naive_solver).
  - intros _. destruct (stopping_ i); [by left|right]. apply faulted_spec. by destruct (faulted i).
  - intros _. right. by intros ?%fault_for_none.
  - intros _. apply orb_prop in Heqb1 as [?|?]; bools; auto.
  - by destruct (pc w).
Qed.

Lemma execution_leave i0 evs w i : execution i0 evs w i → leave_invariant w i.
Proof.
  induction 1 as [|a evs w i w' i' new _ IH Hs]; [by split|by eapply leave_invariant_step].
Qed.

Definition after_exit (w : Worker) : bool :=
  match Session.pc w with PFinishState | PExited => true | _ => false end.

(** What a step of the worker does to the members [Lifecycle.v] speaks of. *)
Lemma tick_life env w i w' i' new :
  worker_step env w i = (w', i', new) →
  stopping_ i' = stopping_ i ∧ joining_ i' = joining_ i ∧ worker_ i' = worker_ i ∧
  active_worker_id_ i' = active_worker_id_ i ∧
  worker_exited_ i' = at_exit w || worker_exited_ i ∧
  after_exit w' = at_exit w || after_exit w ∧
  (fault_latch_ i' = fault_latch_ i ∨
   at_exit w = false ∧ after_exit w = false ∧ fault_latch_ i = FaultNone ∧ fault_latch_ i' ≠ FaultNone).
Proof.
  intros Hs. change (action_step (Tick env) w i = (w', i', new)) in Hs.
  remember (Tick env) as a eqn:Htick. revert Htick.
  step_all Hs; bools; intros Htick; try discriminate Htick; clear Htick; cbn in *; split_and!; try done; try (by left).
  - right. split_and!; try done. by intros ?%fault_for_none.
  - right. by split_and!.
Qed.


Lemma life_wake s : life_of (wake_threads s) = notify_all (life_of s).
Proof. done. Qed.

(** Only these members matter to [life_of]. *)
Lemma life_of_impl i i' c c' ps ts :
  stopping_ i = stopping_ i' → worker_exited_ i = worker_exited_ i' →
  fault_latch_ i = fault_latch_ i' → joining_ i = joining_ i' → worker_ i = worker_ i' →
  active_worker_id_ i = active_worker_id_ i' →
  life_of (mkSystem i c ps ts) = life_of (mkSystem i' c' ps ts).
Proof. unfold life_of, faulted. cbn. by intros -> -> -> -> -> ->. Qed.

Lemma life_mark_stopped s : life_of (s <| impl ::= mark_stopped |>) = life_of s.
Proof. destruct s. cbn. destruct (mark_stopped_cases impl0) as [[_ E]|[_ E]]; unfold life_of; cbn; by rewrite E. Qed.

Lemma start_wait_sim callback created self s pc' s' new :
  coherent (impl s) → sys_start_wait callback created self s = (pc', s', new) →
  start_wait_joined (is_ok created) self (life_of s) = (pc', life_of s', life_events new).
Proof.
  intros Hc. unfold sys_start_wait, start_wait_joined, start_body, sys_start_fresh.
  cbn [life_of joining joinable exited l_faulted].
  destruct (joining_ (impl s)) eqn:Hj; [by intros [= <- <- <-]|].
  destruct (worker_ (impl s)) as [w|] eqn:Hw.
  - repeat case_split; by intros [= <- <- <-].
  - destruct created as [u|e]; cbn [is_ok].
    + cbn. by intros [= <- <- <-].
    + rewrite start_fresh_failed by done. intros [= <- <- <-]. by destruct s.
Qed.

Lemma stop_section_sim self s pc' s' new :
  sys_stop_section self s = (pc', s', new) →
  stop_section self (life_of s) = (pc', life_of s', life_events new).
Proof.
  unfold sys_stop_section, stop_command. rewrite close_session_closed.
  set (i := (impl s) <| session_started_ := false |>). intros H.
  assert (∀ e, life_events (emit s (sends (if session_started_ (impl s) then [StopStreaming] else [])) ++ [SLife e]) = [e])
    as He by (intros e; by rewrite life_events_app, life_events_emit).
  revert H. unfold stop_section.
  change (is_self self (life_of s)) with (called_from_worker_thread self i).
  change (joining (life_of s)) with (joining_ i). change (joinable (life_of s)) with (worker_ i).
  destruct (called_from_worker_thread self i); [intros [= <- <- <-]; by rewrite He|].
  destruct (joining_ i); [intros [= <- <- <-]; by rewrite life_events_emit|].
  destruct (worker_ i).
  - intros [= <- <- <-]. by rewrite life_events_emit.
  - intros [= <- <- <-]. rewrite He. f_equal. f_equal. symmetry. exact (life_mark_stopped (s <| impl := i |>)).
Qed.

Lemma caller_step_sim callback created pc s pc' s' new :
  coherent (impl s) → sys_caller_step callback created pc s = Some (pc', s', new) →
  caller_step (is_ok created) pc (life_of s) = Some (pc', life_of s', life_events new).
Proof.
  intros Hc. destruct pc; cbn [sys_caller_step caller_step]; try done;
    change (workers (life_of s)) with (phases s); try (case_split; [|done]); intros Heq%(inj Some); f_equal; revert Heq;
    try (by intros [= <- <- <-]).
  - unfold sys_start_enter, start_enter.
    change (is_self self (life_of s)) with (called_from_worker_thread self (impl s)).
    case_split; [by intros [= <- <- <-]|]. by apply start_wait_sim.
  - by apply start_wait_sim.
  - by apply stop_section_sim.
  - cbn [joining life_of]. case_split; by intros [= <- <- <-].
  - intros [= <- <- <-]. f_equal. by rewrite <- (life_mark_stopped s).
Qed.

(** ** What a step of a caller does to the object *)

Fixpoint run_ops (ops : list Op) (i : Impl) : Impl * list Event :=
  match ops with
  | [] => (i, [])
  | op :: ops => let '(i, evs) := op_step op i in let '(i, evs') := run_ops ops i in (i, evs ++ evs')
  end.

Definition all_done (s : System) : Prop := ∀ w ph, phases s !! w = Some ph → ph = WDone.

(** [new] starts with [evs], of the worker created last; the rest are returns and
    exits. *)
Definition silent (e : SysEvent) : bool := match e with SLife _ => true | _ => false end.
Definition shows (s : System) (new : list SysEvent) (evs : list Event) : Prop :=
  ∃ rest, new = emit s evs ++ rest ∧ forallb silent rest = true.

(** Members a change between two workers leaves alone. *)
Definition steady (i i' : Impl) : Prop :=
  session_started_ i' = session_started_ i ∧ config_ i' = config_ i ∧
  rdt_sequence_ i' = rdt_sequence_ i ∧ ft_sequence_ i' = ft_sequence_ i ∧
  last_delivery_at_ i' = last_delivery_at_ i ∧
  same_counts (health_ i) (health_ i') ∧ (coherent i → coherent i').

Definition ops_worker (ops : list Op) (w : Worker) : Worker := foldl (λ w op, op_worker op w) w ops.

Inductive effect (s s' : System) (new : list SysEvent) : Prop :=
  | effect_ops ops evs :
      current s' = ops_worker ops (current s) → phases s' = phases s → run_ops ops (impl s) = (impl s', evs) →
      shows s new evs → effect s s' new
  | effect_idle :
      all_done s → current s' = current s → phases s' = phases s → steady (impl s) (impl s') →
      shows s new [] → effect s s' new
  | effect_start callback i' :
      all_done s → start_fresh callback (Ok (length (phases s))) (impl s) = (Ok (), i') →
      impl s' = i' → current s' = worker_init i' → phases s' = phases s ++ [WRun] →
      new = [SStart (length (phases s)) callback] → effect s s' new.

Lemma shows_none s new : forallb silent new = true → shows s new [].
Proof. intros. by exists new. Qed.

(** The events of workers in a step are those of the last one, before anything else. *)
Definition workless (e : SysEvent) : bool := match e with SWorker _ _ => false | _ => true end.
Definition works (s : System) (new : list SysEvent) (evs : list Event) : Prop :=
  ∃ rest, new = emit s evs ++ rest ∧ forallb workless rest = true.

Lemma shows_works s new evs : shows s new evs → works s new evs.
Proof.
  intros (rest & -> & Hs). exists rest. split; [done|]. rewrite forallb_forall in Hs |- *.
  intros e He%Hs. by destruct e.
Qed.

Lemma shows_emit s evs new : forallb silent new = true → shows s (emit s evs ++ new) evs.
Proof. intros. by exists new. Qed.

Lemma silent_events rest : forallb silent rest = true → all_events rest = [] ∧ ∀ w, events_of w rest = [].
Proof.
  unfold all_events, events_of.
  induction rest as [|[] rest IH]; cbn; try done; intros Hr; by destruct (IH Hr).
Qed.

Lemma shows_events s new evs :
  shows s new evs →
  all_events new = evs ∧ ∀ w, events_of w new = if bool_decide (last_worker s = w) then evs else [].
Proof.
  intros (rest & -> & [Ha Hw]%silent_events). split.
  - by rewrite all_events_app, all_events_emit, Ha, app_nil_r.
  - intros w. by rewrite events_of_app, events_of_emit, Hw, app_nil_r.
Qed.

Lemma effect_none s s' new :
  current s' = current s → phases s' = phases s → impl s' = impl s → shows s new [] → effect s s' new.
Proof. intros ? ? Hi ?. apply (effect_ops s s' new [] []); try done. by rewrite Hi. Qed.

Lemma steady_refl i : steady i i.
Proof. by split_and!. Qed.

Lemma steady_mark_stopped i : steady i (mark_stopped i).
Proof.
  destruct (mark_stopped_cases i) as [[Hl ->]|[_ ->]]; [|apply steady_refl]. split_and!; try done.
  intros _. left. exact Hl.
Qed.

Lemma steady_release i : steady i (release_worker i).
Proof. by split_and!. Qed.

Lemma steady_trans i1 i2 i3 : steady i1 i2 → steady i2 i3 → steady i1 i3.
Proof.
  unfold steady, same_counts. intros H1 H2. destruct_and!. split_and!; try congruence; auto.
Qed.

Lemma start_wait_effect callback created self s pc' s' new :
  Inv (life_of s) → coherent (impl s) →
  sys_start_wait callback created self s = (pc', s', new) → effect s s' new.
Proof.
  intros Hi Hc. unfold sys_start_wait, sys_start_fresh.
  destruct (joining_ (impl s)) eqn:Hj.
  { intros [= <- <- <-]. by apply effect_none, shows_none. }
  destruct (worker_ (impl s)) as [w|] eqn:Hw.
  - repeat case_split; intros [= <- <- <-].
    + by apply effect_none, shows_none.
    + by apply effect_none, shows_none.
    + apply (effect_ops _ _ _ [OTakeWorker] []); try done. by apply shows_none.
  - assert (all_done s) as Hd by (intros w ph; by apply (idle_workers (life_of s) w ph)).
    destruct created as [u|e].
    + destruct (start_fresh callback (Ok (length (phases s))) (impl s)) as [r i'] eqn:Hf. intros [= <- <- <-].
      apply (effect_start _ _ _ callback i'); try done. rewrite Hf. f_equal. by injection Hf as <- _.
    + rewrite start_fresh_failed by done. intros [= <- <- <-].
      by apply effect_none, shows_none.
Qed.

Lemma stop_section_effect self s pc' s' new :
  Inv (life_of s) → (all_done s → session_started_ (impl s) = false) →
  sys_stop_section self s = (pc', s', new) → effect s s' new.
Proof.
  intros Hi Hidle. unfold sys_stop_section. destruct (stop_command (impl s)) as [cs i] eqn:Hs.
  assert (∀ ops, run_ops (OStopCommand :: ops) (impl s) = let '(i, evs) := run_ops ops i in (i, sends cs ++ evs)) as Hops
    by (intros ops; cbn; by rewrite Hs).
  assert (∀ e, shows s (emit s (sends cs) ++ [SLife e]) (sends cs)) as Hsh by (intros e; by apply shows_emit).
  assert (shows s (emit s (sends cs)) (sends cs)) as Hsh0.
  { rewrite <- (app_nil_r (emit s (sends cs))). by apply shows_emit. }
  unfold stop_command in Hs. rewrite close_session_closed in Hs. injection Hs as Hcs Hii.
  assert (current s = current s ∧ phases s = phases s) as [Hc Hp] by done.
  destruct (called_from_worker_thread self i).
  { intros [= <- <- <-]. apply (effect_ops _ _ _ [OStopCommand] (sends cs)); try done.
    rewrite Hops. cbn. by rewrite app_nil_r. }
  destruct (joining_ i) eqn:Hj.
  { intros [= <- <- <-]. apply (effect_ops _ _ _ [OStopCommand] (sends cs)); try done.
    rewrite Hops. cbn. by rewrite app_nil_r. }
  destruct (worker_ i) eqn:Hw; intros [= <- <- <-].
  - apply (effect_ops _ _ _ [OStopCommand; OTakeWorker] (sends cs)); try done.
    rewrite Hops. cbn. by rewrite app_nil_r.
  - assert (all_done s) as Hd.
    { intros w ph. apply (idle_workers (life_of s) w ph); try done; cbn; by subst i. }
    specialize (Hidle Hd). apply effect_idle; try done.
    + cbn. eapply steady_trans; [|apply steady_mark_stopped]. subst i. by split_and!.
    + rewrite Hidle in Hcs. subst cs. apply Hsh.
Qed.

Lemma caller_effect callback created t pc s pc' s' new :
  Inv (life_of s) → coherent (impl s) → (all_done s → session_started_ (impl s) = false) →
  threads s !! t = Some pc → sys_caller_step callback created pc s = Some (pc', s', new) →
  effect s s' new.
Proof.
  intros Hi Hc Hidle Ht. destruct pc; cbn [sys_caller_step]; try done;
    try (case_split; [|done]); intros Heq%(inj Some); revert Heq;
    try (by intros [= <- <- <-]; apply effect_none, shows_none);
    try (by eapply start_wait_effect); try (by eapply stop_section_effect).
  - unfold sys_start_enter. case_split; [|by apply start_wait_effect].
    intros [= <- <- <-]. by apply effect_none, shows_none.
  - intros [= <- <- <-]. apply effect_idle; try done; [|by apply shows_none].
    intros w ph. by apply (joiner_done (life_of s) t (PStartJoined self)).
  - intros [= <- <- <-]. apply (effect_ops _ _ _ [OStopFlag] []); try done. by apply shows_none.
  - case_split; intros [= <- <- <-]; by apply effect_none, shows_none.
  - intros [= <- <- <-]. apply effect_idle; try done; [| |by apply shows_none].
    + intros w ph. by apply (joiner_done (life_of s) t (PStopJoined self)).
    + cbn. eapply steady_trans; [apply steady_mark_stopped|apply steady_release].
Qed.

(** ** The invariant *)

(** [i] is where a client constructed as [i0] has come to after the events [evs]. *)
Definition continues (i0 : Impl) (evs : list Event) (i : Impl) : Prop :=
  config_ i = config_ i0 ∧
  rdt_sequence_ i = replay_rdt (rdt_sequence_ i0) evs ∧
  ft_sequence_ i = replay_ft (ft_sequence_ i0) evs ∧
  sensor_configuration (health_ i) = replay_configuration (sensor_configuration (health_ i0)) evs ∧
  last_delivery_at_ i = last_delivery (last_delivery_at_ i0) evs ∧
  accounted i0 evs i.

(** Where the thread of a worker in each phase is. *)
Definition at_phase (ph : Phase) (w : Worker) : Prop :=
  match ph with
  | WRun => Session.pc w ≠ PFinishState ∧ Session.pc w ≠ PExited
  | WExited => Session.pc w = PFinishState ∨ Session.pc w = PExited
  | WDone => Session.pc w = PExited
  end.

(** The life of worker [w] is an execution of [Session.v]. *)
Definition ran (tr : list SysEvent) (w : nat) (ph : Phase) (i0 : Impl) (c : Worker) (i : Impl) : Prop :=
  started i0 ∧ execution i0 (events_of w tr) c i ∧ SStart w (callback_ i0) ∈ tr ∧ at_phase ph c.

Record SysInv (i_init : Impl) (tr : list SysEvent) (s : System) : Prop := {
  sys_life : life_execution (life_events tr) (life_of s);
  sys_coherent : coherent (impl s);
  sys_idle : all_done s → session_started_ (impl s) = false;
  sys_known w e : SWorker w e ∈ tr → (w < length (phases s))%nat;
  sys_runs w ph : phases s !! w = Some ph → ∃ i0 c i,
    ran tr w ph i0 c i ∧
    (ph ≠ WDone → c = current s ∧ i = impl s ∧
       ∃ earlier, all_events tr = earlier ++ events_of w tr ∧ continues i_init earlier i0);
  sys_history : continues i_init (all_events tr) (impl s)
}.

Lemma continues_app i0 evs i new i' :
  continues i0 evs i → config_ i' = config_ i →
  rdt_sequence_ i' = replay_rdt (rdt_sequence_ i) new → ft_sequence_ i' = replay_ft (ft_sequence_ i) new →
  sensor_configuration (health_ i') = replay_configuration (sensor_configuration (health_ i)) new →
  last_delivery_at_ i' = last_delivery (last_delivery_at_ i) new →
  accounted i new i' → continues i0 (evs ++ new) i'.
Proof.
  intros (H1 & H2 & H3 & H4 & H5 & H6) Hc Hr Hf Hs Hl Ha. split_and!; [..|by eapply accounted_app];
    unfold replay_rdt, replay_ft, replay_configuration, last_delivery in *; rewrite ?foldl_app; congruence.
Qed.

Lemma continues_act i0 evs a w i w' i' new :
  (configured (pc w) = true → sensor_configuration (health_ i) ≠ None) →
  continues i0 evs i → action_step a w i = (w', i', new) → continues i0 (evs ++ new) i'.
Proof.
  intros Hw Hc Hs. destruct (step_frame _ _ _ _ _ _ Hs) as (Hcfg & _).
  destruct (replay_step _ _ _ _ _ _ Hs) as [Hr Hf].
  eapply continues_app; [done..| | |];
    [by eapply configuration_step|by eapply last_delivery_step|by eapply accounted_step].
Qed.

Lemma continues_steady i0 evs i i' : continues i0 evs i → steady i i' → continues i0 evs i'.
Proof.
  intros Hc (_ & H1 & H2 & H3 & Hl & H4 & _). rewrite <- (app_nil_r evs).
  eapply continues_app; [done..|apply H4|done|by apply accounted_same].
Qed.

Lemma op_coherent op i i' evs : op_step op i = (i', evs) → coherent i → coherent i'.
Proof.
  destruct op; cbn [op_step].
  - by intros [= <- _].
  - unfold stop_command. rewrite close_session_closed. by intros [= <- _].
  - unfold bias. case_split; [|destruct sent1, sent2]; by intros [= <- _].
  - destruct (health now i) as [x i1] eqn:Hh. apply health_closed in Hh as ->. by intros [= <- _].
  - by intros [= <- _].
Qed.

(** Without a session no operation shows anything. *)
Lemma op_idle op i i' evs :
  op_step op i = (i', evs) → session_started_ i = false → evs = [] ∧ session_started_ i' = false.
Proof.
  intros Hs Hi. revert Hs. destruct op; cbn [op_step].
  - by intros [= <- <-].
  - unfold stop_command. rewrite close_session_closed, Hi. by intros [= <- <-].
  - unfold bias. rewrite Hi, orb_true_r. cbn. by intros [= <- <-].
  - destruct (health now i) as [x i1] eqn:Hh. apply health_closed in Hh as ->. by intros [= <- <-].
  - by intros [= <- <-].
Qed.

Lemma op_act op c i i' evs : op_step op i = (i', evs) → action_step (Call op) c i = (op_worker op c, i', evs).
Proof. cbn [action_step]. by intros ->. Qed.

Lemma run_ops_facts ops i i' evs :
  run_ops ops i = (i', evs) →
  (coherent i → coherent i') ∧
  (session_started_ i = false → evs = [] ∧ session_started_ i' = false) ∧
  (∀ i0 before, continues i0 before i → continues i0 (before ++ evs) i') ∧
  (∀ i0 before c, execution i0 before c i → execution i0 (before ++ evs) (ops_worker ops c) i').
Proof.
  revert i evs. induction ops as [|op ops IH]; cbn [run_ops]; intros i evs.
  - intros [= <- <-]. split_and!; try done; intros; by rewrite app_nil_r.
  - destruct (op_step op i) as [i1 evs1] eqn:Ho, (run_ops ops i1) as [i2 evs2] eqn:Hr. intros [= <- <-].
    destruct (IH _ _ Hr) as (IH1 & IH2 & IH3 & IH4). split_and!.
    + intros Hc. by eapply IH1, op_coherent.
    + intros Hi. destruct (op_idle _ _ _ _ Ho Hi) as [-> Hi1]. by destruct (IH2 Hi1) as [-> ->].
    + intros i0 before Hc. rewrite app_assoc. apply IH3. eapply (continues_act _ _ _ (worker_init i)); [done..|].
      by apply op_act.
    + intros i0 before c He. rewrite app_assoc. apply (IH4 _ _ (op_worker op c)). eapply exec_step; [done|].
      by apply op_act.
Qed.

(** No operation takes the worker to the end of [run], or back into it. *)
Lemma ops_phase ops ph c : at_phase ph c → at_phase ph (ops_worker ops c).
Proof.
  revert c. induction ops as [|op ops IH]; intros c Hc; [done|]. apply IH. destruct op; try done.
  cbn [op_worker]. destruct (wake_worker_cases c) as [(u & E & ->)|[_ ->]]; [|done].
  unfold at_phase in *. rewrite E in Hc. destruct ph; [done|destruct Hc; done|done].
Qed.

Lemma start_fresh_started callback w i i' :
  start_fresh callback (Ok w) i = (Ok (), i') → session_started_ i = false →
  started i' ∧ callback_ i' = callback ∧ continues i [EvBegin] i' ∧ session_started_ i' = false ∧ coherent i'.
Proof.
  unfold start_fresh. cbv zeta. intros [= <-] Hi. unfold started, continues, coherent. cbn. rewrite Hi.
  split_and!; try done; [by apply accounted_begin|by left].
Qed.

Lemma event_known w e new : SWorker w e ∈ new → e ∈ events_of w new.
Proof.
  unfold events_of. intros H. apply list_elem_of_In, in_flat_map. exists (SWorker w e).
  split; [by apply list_elem_of_In|]. cbn. rewrite bool_decide_eq_true_2 by done. by left.
Qed.

(** Only the worker created last can be alive. *)
Lemma live_last s w ph : Inv (life_of s) → phases s !! w = Some ph → ph ≠ WDone → w = last_worker s.
Proof.
  intros Hi Hw Hp. destruct (inv_active _ Hi w) as [_ Hl]; [by eapply (inv_owned _ Hi)|].
  unfold last_worker. cbn in Hl. by rewrite Hl.
Qed.

Lemma live_or_done s :
  Inv (life_of s) → all_done s ∨ ∃ ph, phases s !! last_worker s = Some ph ∧ ph ≠ WDone.
Proof.
  intros Hi. destruct (decide (Forall (λ ph, ph = WDone) (phases s))) as [Hf|Hf].
  - left. intros w ph Hw. exact (Forall_lookup_1 _ _ _ _ Hf Hw).
  - right. apply not_Forall_Exists in Hf; [|apply _]. apply Exists_exists in Hf as (ph & Hin & Hp).
    apply list_elem_of_lookup in Hin as [w Hw]. exists ph. by rewrite <- (live_last s w ph).
Qed.

Lemma ran_more tr new w ph i0 c i : ran tr w ph i0 c i → events_of w new = [] → ran (tr ++ new) w ph i0 c i.
Proof.
  intros (H1 & H2 & H3 & H4) Hn. split_and!; try done.
  - by rewrite events_of_app, Hn, app_nil_r.
  - apply elem_of_app. by left.
Qed.

(** A step while no worker is alive. *)
Lemma idle_inv i_init tr s s' new :
  SysInv i_init tr s → life_execution (life_events (tr ++ new)) (life_of s') →
  all_done s → phases s' = phases s → steady (impl s) (impl s') → shows s new [] →
  SysInv i_init (tr ++ new) s'.
Proof.
  intros [H1 H2 H3 H4 H5 H6] Hl Hd Hp Hst [Ha Hw]%shows_events.
  assert (∀ w, events_of w new = []) as Hn by (intros w; rewrite Hw; by case_split).
  split; [done| | | | |].
  - by apply Hst.
  - intros _. destruct Hst as (-> & _). by apply H3.
  - intros w e [Hin|Hin]%elem_of_app; rewrite Hp; [by eapply H4|].
    apply event_known in Hin. rewrite Hn in Hin. by apply not_elem_of_nil in Hin.
  - intros w ph. rewrite Hp. intros Hph. destruct (H5 w ph Hph) as (i0 & c & i & Hr & _).
    exists i0, c, i. split; [by apply ran_more|]. by rewrite (Hd w ph Hph).
  - rewrite all_events_app, Ha, app_nil_r. by eapply continues_steady.
Qed.

(** A step of, or during the life of, the worker [w]. *)
Lemma live_inv i_init tr s s' new w ph0 ph evs :
  SysInv i_init tr s → life_execution (life_events (tr ++ new)) (life_of s') → Inv (life_of s) →
  phases s !! w = Some ph0 → ph0 ≠ WDone → phases s' = <[w := ph]> (phases s) →
  shows s new evs → at_phase ph (current s') → coherent (impl s') →
  (∀ i0 before, execution i0 before (current s) (impl s) →
     execution i0 (before ++ evs) (current s') (impl s')) →
  continues i_init (all_events tr ++ evs) (impl s') →
  (ph = WDone → session_started_ (impl s') = false) →
  SysInv i_init (tr ++ new) s'.
Proof.
  intros [H1 H2 H3 H4 H5 H6] Hl Hi Hw0 Hne Hp [Ha Hw]%shows_events Hat Hco Hx Hcont Hend.
  pose proof (live_last _ _ _ Hi Hw0 Hne) as Hlast.
  pose proof (lookup_lt_Some _ _ _ Hw0) as Hlt.
  split; [done|done| | | |by rewrite all_events_app, Ha].
  - intros Hd. apply Hend, (Hd w). rewrite Hp. by apply list_lookup_insert_eq.
  - intros w' e Hin. rewrite Hp, length_insert. apply elem_of_app in Hin as [Hin|Hin]; [by eapply H4|].
    apply event_known in Hin. rewrite Hw in Hin. case_split_in Hin; [|by apply not_elem_of_nil in Hin].
    bools. by subst w'; rewrite <- Hlast.
  - intros w' ph'. rewrite Hp. intros [(-> & -> & _)|(Hn & Hph)]%list_lookup_insert_Some.
    + destruct (H5 w' ph0 Hw0) as (i0 & c & i & (Hs & He & Hin & _) & (-> & -> & earlier & Hall & Hc)); [done|].
      assert (events_of w' new = evs) as Hev by (rewrite Hw; by rewrite bool_decide_eq_true_2).
      exists i0, (current s'), (impl s'). split.
      * split_and!; [done| |apply elem_of_app; by left|done]. rewrite events_of_app, Hev. by apply Hx.
      * intros _. split_and!; [done..|]. exists earlier. split; [|done].
        by rewrite all_events_app, events_of_app, Hall, Ha, Hev, <- app_assoc.
    + destruct (H5 w' ph' Hph) as (i0 & c & i & Hr & Hlive).
      assert (ph' = WDone) as ->.
      { destruct (decide (ph' = WDone)) as [|Hp']; [done|]. pose proof (live_last _ _ _ Hi Hph Hp'). congruence. }
      exists i0, c, i. split; [|done]. apply ran_more; [done|]. rewrite Hw.
      rewrite bool_decide_eq_false_2; [done|]. congruence.
Qed.

(** ** Preservation *)

Lemma at_phase_spec ph w : at_phase ph w → after_exit w = match ph with WRun => false | _ => true end.
Proof. unfold after_exit. destruct ph; cbn; [intros []|intros []|intros ?]; by destruct (pc w). Qed.

Lemma life_stutter tr new s s' :
  life_execution (life_events tr) (life_of s) → life_of s' = life_of s → life_events new = [] →
  life_execution (life_events (tr ++ new)) (life_of s').
Proof. intros H -> E. by rewrite life_events_app, E, app_nil_r. Qed.

Lemma life_move tr new s s' a :
  life_execution (life_events tr) (life_of s) → life_step a (life_of s) = Some (life_of s', life_events new) →
  life_execution (life_events (tr ++ new)) (life_of s').
Proof. intros H E. rewrite life_events_app. by eapply life_next. Qed.

(** A step inside [run], a fault included. *)
Lemma run_life env s c i evs :
  worker_step env (current s) (impl s) = (c, i, evs) → phases s !! last_worker s = Some WRun →
  in_call (last_worker s) (life_of s) = false → at_exit (current s) = false →
  life_of (mkSystem i c (phases s) (threads s)) = life_of s ∨
  life_step (LWorker WFault (last_worker s)) (life_of s) =
    Some (life_of (mkSystem i c (phases s) (threads s)), []).
Proof.
  intros Hs Hw Hc Hx. destruct (tick_life _ _ _ _ _ _ Hs) as (H1 & H2 & H3 & H4 & H5 & _ & H7).
  rewrite Hx in H5. destruct H7 as [H7|(_ & _ & _ & H7)]; [left|right].
  - unfold life_of, faulted. cbn. by rewrite H1, H2, H3, H4, H5, H7.
  - cbn [life_step worker_act]. change (workers (life_of s)) with (phases s). rewrite Hw, Hc.
    do 2 f_equal. unfold life_of. cbn. rewrite H1, H2, H3, H4, H5. f_equal. symmetry. by apply faulted_spec.
Qed.

(** The exit from [run]. *)
Lemma exit_life env s c i evs i0 before :
  worker_step env (current s) (impl s) = (c, i, evs) → phases s !! last_worker s = Some WRun →
  in_call (last_worker s) (life_of s) = false → at_exit (current s) = true →
  execution i0 before (current s) (impl s) →
  life_step (LWorker WExit (last_worker s)) (life_of s) =
    Some (life_of (mkSystem i c (<[last_worker s := WExited]> (phases s)) (threads s)), [EvExit (last_worker s)]).
Proof.
  intros Hs Hw Hc Hx He. destruct (tick_life _ _ _ _ _ _ Hs) as (H1 & H2 & H3 & H4 & H5 & _ & H7).
  rewrite Hx in H5, H7. destruct H7 as [H7|(? & _)]; [|done].
  assert (stopping (life_of s) || l_faulted (life_of s) = true) as Hsf.
  { destruct (execution_leave _ _ _ _ He) as [Hl _]. apply orb_true_iff. cbn.
    destruct Hl as [|Hl]; [|by left|right; by apply faulted_spec]. unfold at_exit in Hx. by destruct (pc (current s)). }
  cbn [life_step worker_act]. change (workers (life_of s)) with (phases s). rewrite Hw, Hc, Hsf.
  cbn [negb orb]. do 2 f_equal. unfold life_of, faulted. cbn. by rewrite H1, H2, H3, H4, H5, H7.
Qed.

(** The rest of [finish_session] and the end of the thread. *)
Lemma ending_inv i_init tr s env s' new :
  SysInv i_init tr s → phases s !! last_worker s = Some WExited →
  sys_worker env s = Some (s', new) → SysInv i_init (tr ++ new) s'.
Proof.
  intros Hinv Hw Hs. pose proof Hinv as [H1 _ _ _ H5 H6].
  pose proof (execution_inv _ _ H1) as Hi. unfold sys_worker in Hs.
  destruct (worker_step env (current s) (impl s)) as [[c i] evs] eqn:Htick. rewrite Hw in Hs.
  destruct (H5 _ _ Hw) as (i0 & c0 & i1 & (Hst & He & _ & Hat) & (-> & -> & _)); [done|].
  destruct (tick_life _ _ _ _ _ _ Htick) as (Ht1 & Ht2 & Ht3 & Ht4 & Ht5 & Ht6 & Ht7).
  apply at_phase_spec in Hat. rewrite Hat in *.
  assert (at_exit (current s) = false) as Hex.
  { unfold at_exit, after_exit in *. by destruct (pc (current s)). }
  rewrite Hex in *. destruct Ht7 as [Ht7|(_ & ? & _)]; [|done].
  destruct (has_returned (current s)) eqn:Hret; injection Hs as <- <-.
  - assert (Session.pc (current s) = PExited) as Hpc by (unfold has_returned in Hret; by destruct (pc (current s))).
    eapply (live_inv _ _ s _ _ (last_worker s) WExited WDone []); try done.
    + apply (life_move _ _ s _ (LWorker WEnd (last_worker s))); [done|]. cbn [life_step worker_act].
      change (workers (life_of s)) with (phases s). by rewrite Hw.
    + by apply shows_none.
    + by destruct (execution_invariants _ _ _ _ Hst He) as ((? & _) & _).
    + intros. by rewrite app_nil_r.
    + by rewrite app_nil_r.
    + intros _. by destruct (execution_exit _ _ _ _ Hst He Hpc) as (_ & ? & _).
  - assert (∀ i0 before, execution i0 before (current s) (impl s) → execution i0 (before ++ evs) c i) as Hx
      by (intros; by eapply (exec_step _ (Tick env))).
    eapply (live_inv _ _ s _ _ (last_worker s) WExited WExited); try done.
    + eapply life_stutter; [done| |apply life_events_emit]. unfold life_of, faulted. cbn.
      by rewrite Ht1, Ht2, Ht3, Ht4, Ht5, Ht7.
    + symmetry. by apply list_insert_id.
    + rewrite <- (app_nil_r (emit s evs)). by apply shows_emit.
    + cbn. unfold after_exit in Ht6. destruct (pc c); try done; auto.
    + by destruct (execution_invariants _ _ _ _ Hst (Hx _ _ He)) as ((? & _) & _).
    + eapply (continues_act _ _ (Tick env)); [|exact H6|exact Htick]. by eapply execution_configured.
Qed.

Lemma worker_inv env i_init tr s s' new :
  SysInv i_init tr s → sys_worker env s = Some (s', new) → SysInv i_init (tr ++ new) s'.
Proof.
  intros Hinv Hs. destruct (phases s !! last_worker s) as [[]|] eqn:Hw; [|by eapply ending_inv|..];
    unfold sys_worker in Hs; destruct (worker_step env (current s) (impl s)) as [[c i] evs] eqn:Htick;
    rewrite Hw in Hs; try done.
  pose proof Hinv as [H1 _ _ _ H5 H6]. pose proof (execution_inv _ _ H1) as Hi.
  destruct (H5 _ _ Hw) as (i0 & c0 & i1 & (Hst & He & _ & Hat) & (-> & -> & _)); [done|].
  destruct (tick_life _ _ _ _ _ _ Htick) as (_ & _ & _ & _ & _ & Ht6 & _).
  assert (∀ i0 before, execution i0 before (current s) (impl s) → execution i0 (before ++ evs) c i) as Hx
    by (intros; by eapply (exec_step _ (Tick env))).
  pose proof (continues_act _ _ (Tick env) _ _ _ _ _
    (proj1 (execution_configured _ _ _ _ Hst He)) H6 Htick) as Hcont.
  assert (coherent i) as Hco by (by destruct (execution_invariants _ _ _ _ Hst (Hx _ _ He)) as ((? & _) & _)).
  apply at_phase_spec in Hat. rewrite Hat, orb_false_r in Ht6. unfold after_exit in Ht6.
  case_split_in Hs; [done|]. destruct (at_exit (current s)) eqn:Hex; injection Hs as <- <-.
  - eapply (live_inv _ _ s _ _ (last_worker s) WRun WExited); try done.
    + eapply life_move; [done|]. rewrite life_events_app, life_events_emit. by eapply exit_life.
    + by apply shows_emit.
    + cbn. destruct (pc c); try done; auto.
  - eapply (live_inv _ _ s _ _ (last_worker s) WRun WRun); try done.
    + destruct (run_life env s c i evs) as [Hl|Hl]; try done.
      * eapply life_stutter; [done..|]. apply life_events_emit.
      * eapply life_move; [done|]. rewrite life_events_emit. exact Hl.
    + symmetry. by apply list_insert_id.
    + rewrite <- (app_nil_r (emit s evs)). by apply shows_emit.
    + cbn. by destruct (pc c).
Qed.

Lemma start_inv i_init tr s s' callback i' :
  SysInv i_init tr s → all_done s →
  start_fresh callback (Ok (length (phases s))) (impl s) = (Ok (), i') →
  impl s' = i' → current s' = worker_init i' → phases s' = phases s ++ [WRun] →
  life_execution (life_events (tr ++ [SStart (length (phases s)) callback])) (life_of s') →
  SysInv i_init (tr ++ [SStart (length (phases s)) callback]) s'.
Proof.
  intros [H1 H2 H3 H4 H5 H6] Hd Hf Hi' Hc Hp Hl.
  destruct (start_fresh_started _ _ _ _ Hf (H3 Hd)) as (Hst & Hcb & Hcont & Hss & Hco).
  assert (continues i_init (all_events tr ++ [EvBegin]) i') as Hci.
  { destruct Hcont as (Hc1 & Hc2 & Hc3 & Hc4 & Hc5 & Hc6). by eapply continues_app. }
  split; rewrite ?Hi'; try done.
  - intros w e. rewrite Hp, length_app. intros [Hin%H4|Hin]%elem_of_app; [lia|].
    by apply list_elem_of_singleton in Hin.
  - intros w ph. rewrite Hp. intros [Hw|[Hlen Hw]]%lookup_app_Some.
    + destruct (H5 w ph Hw) as (i0 & c & i & Hr & _). exists i0, c, i.
      split; [by apply ran_more|]. by rewrite (Hd w ph Hw).
    + apply list_lookup_singleton_Some in Hw as [Hw <-].
      assert (w = length (phases s)) as -> by lia.
      assert (events_of (length (phases s)) tr = []) as Hnone.
      { destruct (events_of _ tr) as [|e evs] eqn:E; [done|]. exfalso.
        assert (e ∈ events_of (length (phases s)) tr) as Hin by (rewrite E; by left).
        apply list_elem_of_In, in_flat_map in Hin as (x & Hx & He). destruct x as [| |w' e']; try done.
        cbn in He. case_split_in He; [|done]. bools. subst w'. apply list_elem_of_In, H4 in Hx. lia. }
      exists i', (worker_init i'), i'. split.
      * split_and!; [done| |apply elem_of_app; right; rewrite Hcb; by left|done].
        rewrite events_of_app, Hnone. constructor.
      * intros _. split_and!; [done..|]. exists (all_events tr ++ [EvBegin]). split; [|done].
        rewrite all_events_app, events_of_app, Hnone. cbn. by rewrite app_nil_r.
  - by rewrite all_events_app.
Qed.

Lemma effect_inv i_init tr s s' new :
  SysInv i_init tr s → effect s s' new → life_execution (life_events (tr ++ new)) (life_of s') →
  SysInv i_init (tr ++ new) s'.
Proof.
  intros Hinv Heff Hl. pose proof Hinv as [H1 H2 H3 H4 H5 H6]. pose proof (execution_inv _ _ H1) as Hi.
  destruct Heff as [ops evs Hc Hp Hops Hsh|Hd Hc Hp Hst Hsh|callback i' Hd Hf Hi' Hc Hp ->].
  - destruct (run_ops_facts _ _ _ _ Hops) as (Ho1 & Ho2 & Ho3 & Ho4).
    destruct (live_or_done s Hi) as [Hd|(ph & Hw & Hne)].
    + destruct (Ho2 (H3 Hd)) as [-> Hss]. pose proof (shows_events _ _ _ Hsh) as [Ha Hw]. split; [done|auto|done| | |].
      * intros w e. rewrite Hp. intros [Hin|Hin]%elem_of_app; [by eapply H4|].
        apply event_known in Hin. rewrite Hw in Hin. case_split_in Hin; by apply not_elem_of_nil in Hin.
      * intros w ph. rewrite Hp. intros Hph. destruct (H5 w ph Hph) as (i0 & c & i & Hr & _).
        exists i0, c, i. split; [|by rewrite (Hd w ph Hph)]. apply ran_more; [done|]. rewrite Hw. by case_split.
      * rewrite all_events_app, Ha. by apply Ho3.
    + destruct (H5 _ _ Hw) as (i0 & c & i & (_ & _ & _ & Hat) & (-> & -> & _)); [done|].
      eapply (live_inv _ _ s _ _ (last_worker s) ph ph evs); try done.
      * rewrite Hp. symmetry. by apply list_insert_id.
      * rewrite Hc. by apply ops_phase.
      * auto.
      * intros. rewrite Hc. by apply Ho4.
      * by apply Ho3.
  - by eapply idle_inv.
  - by eapply start_inv.
Qed.

Lemma effect_threads s s' new ts : effect s s' new → effect s (s' <| threads := ts |>) new.
Proof. intros []; [eapply effect_ops|eapply effect_idle|eapply effect_start]; done. Qed.

(** [bias] and [health] leave the lifecycle alone. *)
Lemma op_life op s i evs :
  match op with OBias _ _ | OHealth _ => True | _ => False end → op_step op (impl s) = (i, evs) →
  life_of (s <| impl := i |>) = life_of s.
Proof.
  destruct op; try done; intros _; cbn [op_step].
  - unfold bias. case_split; [|destruct sent1, sent2]; by intros [= <- _].
  - destruct (health now (impl s)) as [x i1] eqn:Hh. apply health_closed in Hh as ->. by intros [= <- _].
Qed.

Lemma op_inv op i_init tr s s' new :
  SysInv i_init tr s → match op with OBias _ _ | OHealth _ => True | _ => False end →
  sys_op op s = (s', new) → SysInv i_init (tr ++ new) s'.
Proof.
  intros Hinv Hop. unfold sys_op. destruct (op_step op (impl s)) as [i evs] eqn:Ho. intros [= <- <-].
  eapply effect_inv; [done| |].
  - apply (effect_ops _ _ _ [op] evs); try done.
    + by destruct op.
    + cbn [run_ops]. rewrite Ho. by rewrite app_nil_r.
    + rewrite <- (app_nil_r (emit s evs)). by apply shows_emit.
  - eapply life_stutter; [apply Hinv|by eapply op_life|apply life_events_emit].
Qed.

Lemma sys_step_inv i_init a tr s s' new :
  SysInv i_init tr s → sys_step a s = Some (s', new) → SysInv i_init (tr ++ new) s'.
Proof.
  intros Hinv. pose proof Hinv as [H1 H2 H3 _ _ _]. pose proof (execution_inv _ _ H1) as Hi.
  destruct a as [pc|t callback created|env|sent1 sent2|now|t]; cbn [sys_step].
  - case_split; [|done]. intros [= <- <-]. apply andb_prop in Heqb as [Hc _].
    eapply effect_inv; [done|by apply effect_none, shows_none|].
    apply (life_move _ _ s _ (LCall pc)); [done|]. cbn [life_step]. by rewrite Hc.
  - intros (pc & Ht & Hs)%bind_Some. apply bind_Some in Hs as ([[pc' s1] evs] & Hs & [= <- <-]).
    eapply effect_inv; [done|by eapply effect_threads, caller_effect|].
    apply (life_move _ _ s _ (LCaller t (is_ok created))); [done|]. cbn [life_step].
    change (callers (life_of s)) with (threads s). rewrite Ht. cbn [mbind option_bind].
    by rewrite (caller_step_sim callback created pc s pc' s1 evs).
  - by apply worker_inv.
  - intros Hs%(inj Some). by apply (op_inv (OBias sent1 sent2) _ _ s).
  - intros Hs%(inj Some). by apply (op_inv (OHealth now) _ _ s).
  - intros (pc & Ht & Hs)%bind_Some. revert Hs. case_split; [|done]. intros [= <- <-].
    eapply effect_inv; [done|by apply effect_none, shows_none|].
    apply (life_move _ _ s _ (LSpurious t)); [done|]. cbn [life_step].
    change (callers (life_of s)) with (threads s). rewrite Ht. cbn [mbind option_bind]. by rewrite Heqb.
Qed.

(** A client just constructed. *)
Lemma sys_init_inv clock config i_init :
  construct clock config = Ok i_init → SysInv i_init [] (sys_init i_init).
Proof.
  unfold construct. intros (u & _ & [= <-])%bind_ok. split; try done.
  - change (life_execution [] life_init). constructor.
  - by left.
  - intros w e Hin. by apply not_elem_of_nil in Hin.
  - split_and!; try done. by apply accounted_same.
Qed.

Lemma sys_execution_inv clock config i_init tr s :
  construct clock config = Ok i_init → sys_execution i_init tr s → SysInv i_init tr s.
Proof.
  intros Hc. induction 1 as [|a tr s s' new _ IH Hs]; [by eapply sys_init_inv|by eapply sys_step_inv].
Qed.
End Refinement.
