(* ===== verification/SystemSpec.v ===== *)
(** * What the client promises over its whole life

    Theorems on the executions of [System.v]: the client refines its contract, is
    quiet after [stop], delivers trustworthy samples only, across restarts, and its
    [stop] comes back. *)

From stdpp Require Import list.
From S2P Require Import Prelude Floating Types Protocol Sequence Status FaultLatch ClientImpl Session Executions Accounting Recovery Lifecycle LifecycleSpec System.

Section SystemSpec.
Context `{P : Platform}.

(** ** Refinement of the contract *)

(** C7: the client refines its contract: whatever threads and callbacks call
    [start], [stop], [bias] and [health], and however these interleave with the
    worker, the answers of [start] and [stop], the creations and the exits of the
    workers are those of the abstract service of [LifecycleSpec.v], which has at
    most one worker serving at a time; and what each worker does, from the [start]
    that created it with its callback to the end of its thread, is an execution of
    the machine of [Session.v] from a clean start, so that everything proved of
    such executions holds for each run of a client. *)
Theorem client_refines_service clock config i_init tr s :
  construct clock config = Ok i_init → sys_execution i_init tr s →
  serves_all (Idle 0) (life_events tr) (service (life_of s)) ∧
  ∀ w ph, phases s !! w = Some ph → ∃ i0 c i,
    started i0 ∧ SStart w (callback_ i0) ∈ tr ∧ execution i0 (events_of w tr) c i ∧
    (ph ≠ WDone → c = current s ∧ i = impl s) ∧ (ph = WDone → Session.pc c = PExited).
Proof.
  intros Hc Hx. destruct (sys_execution_inv _ _ _ _ _ Hc Hx) as [H1 _ _ _ H5 _].
  split; [by apply life_serves|].
  intros w ph Hw. destruct (H5 w ph Hw) as (i0 & c & i & (H6 & H7 & H8 & H9) & Hlive).
  exists i0, c, i. split_and!; try done; [|by intros ->]. intros Hp. by destruct (Hlive Hp) as (-> & -> & _).
Qed.

(** ** What a step adds to the trace *)

Definition returns_stop (tr : list SysEvent) : Prop := SLife (EvStopped None) ∈ tr.

Record step_adds (s s' : System) (new : list SysEvent) : Prop := {
  adds_events : ∃ evs, works s new evs ∧
    (evs ≠ [] → ∃ ph, phases s !! last_worker s = Some ph ∧ ph ≠ WDone) ∧
    (∀ i0 before, execution i0 before (current s) (impl s) → ∃ c i, execution i0 (before ++ evs) c i);
  adds_done w : phases s !! w = Some WDone → phases s' !! w = Some WDone;
  adds_worker w : is_Some (phases s' !! w) → is_Some (phases s !! w) ∨ ∃ callback, SStart w callback ∈ new;
  adds_stop : returns_stop new → all_done s'
}.

Lemma no_events i0 before c i : execution i0 before c i → ∃ c' i', execution i0 (before ++ []) c' i'.
Proof. exists c, i. by rewrite app_nil_r. Qed.

Lemma effect_adds i_init tr s s' new :
  SysInv i_init tr s → effect s s' new → (returns_stop new → all_done s') → step_adds s s' new.
Proof.
  intros Hinv Heff Hstop. pose proof (execution_inv _ _ (sys_life _ _ _ Hinv)) as Hi.
  destruct Heff as [ops evs Hc Hp Hops Hsh|Hd Hc Hp Hst Hsh|callback i' Hd Hf Hi' Hc Hp ->].
  - destruct (run_ops_facts _ _ _ _ Hops) as (_ & Ho2 & _ & Ho4). split; rewrite ?Hp; auto.
    exists evs. split_and!; [by apply shows_works| |eauto]. intros Hne.
    destruct (live_or_done s Hi) as [Hd|]; [|done]. destruct Hne. by apply Ho2, (sys_idle _ _ _ Hinv).
  - split; rewrite ?Hp; auto. exists []. split_and!; [by apply shows_works|done|]. intros i0 before. apply no_events.
  - split; [| | |auto].
    + exists []. split_and!; [by eexists|done|]. intros i0 before. apply no_events.
    + intros w Hw. rewrite Hp. by apply lookup_app_l_Some.
    + intros w. rewrite Hp. intros [ph [Hw|[Hlen Hw]]%lookup_app_Some]; [left; eauto|right].
      apply list_lookup_singleton_Some in Hw as [Hw _]. exists callback.
      replace w with (length (phases s)) by lia. by left.
Qed.

Lemma worker_adds env s s' new : sys_worker env s = Some (s', new) → step_adds s s' new.
Proof.
  unfold sys_worker. destruct (worker_step env (current s) (impl s)) as [[c i] evs] eqn:Htick.
  destruct (phases s !! last_worker s) as [ph|] eqn:Hw; [|done]. intros Hs.
  assert (∀ i0 before, execution i0 before (current s) (impl s) → ∃ c i, execution i0 (before ++ evs) c i) as Hx
    by (intros; exists c, i; by eapply (exec_step _ (Tick env))).
  assert (∃ rest ps, phases s' = ps ∧ forallb silent rest = true ∧ ¬ returns_stop rest ∧ ph ≠ WDone ∧
    (new = emit s evs ++ rest ∨ new = rest) ∧
    (ps = phases s ∨ ∃ ph', ps = <[last_worker s := ph']> (phases s))) as
    (rest & ps & Hps & Hsil & Hret & Hne & Hnew & Hphases).
  { assert (¬ returns_stop []) as Hnil by (intros ?%not_elem_of_nil; done).
    destruct ph; [| |done]; [destruct (in_call _ _); [done|]|]; case_split_in Hs; injection Hs as <- <-.
    - exists [SLife (EvExit (last_worker s))]. eexists. split_and!; [done|done| |done|by left|eauto].
      unfold returns_stop. by intros Hin%list_elem_of_singleton.
    - exists []. eexists. split_and!; [done..|left; by rewrite app_nil_r|by left].
    - exists []. eexists. split_and!; [done..|by right|eauto].
    - exists []. eexists. split_and!; [done..|left; by rewrite app_nil_r|by left]. }
  assert (∀ e, SLife e ∉ emit s evs) as Hemit.
  { intros e (x & ? & ?)%list_elem_of_fmap. done. }
  split.
  - destruct Hnew as [-> | ->].
    + exists evs. split_and!; [by apply shows_works, shows_emit|eauto|done].
    + exists []. split_and!; [by apply shows_works, shows_none|done|]. intros i0 before. apply no_events.
  - rewrite Hps. intros w Hd. destruct Hphases as [->|[ph' ->]]; [done|].
    rewrite list_lookup_insert_ne; [done|]. congruence.
  - rewrite Hps. intros w Hsome. left. destruct Hphases as [->|[ph' ->]]; [done|].
    apply lookup_lt_is_Some in Hsome. rewrite length_insert in Hsome. by apply lookup_lt_is_Some.
  - destruct Hnew as [-> | ->]; [|done]. unfold returns_stop in *. rewrite elem_of_app.
    intros [Hin|?]; [by apply Hemit in Hin|done].
Qed.

Lemma returns_stop_life new : returns_stop new → EvStopped None ∈ life_events new.
Proof.
  intros H. apply list_elem_of_In, in_flat_map. exists (SLife (EvStopped None)).
  split; [by apply list_elem_of_In|by left].
Qed.

Lemma sys_step_adds i_init a tr s s' new :
  SysInv i_init tr s → sys_step a s = Some (s', new) → step_adds s s' new.
Proof.
  intros Hinv. pose proof (execution_inv _ _ (sys_life _ _ _ Hinv)) as Hi.
  assert (∀ ops evs, run_ops ops (impl s) = (impl s', evs) → new = emit s evs → phases s' = phases s →
    current s' = ops_worker ops (current s) → step_adds s s' new) as Hquiet.
  { intros ops evs Hops -> Hp Hc. eapply effect_adds; [done| |].
    - apply (effect_ops _ _ _ ops evs); try done. rewrite <- (app_nil_r (emit s evs)). by apply shows_emit.
    - intros (x & ? & ?)%list_elem_of_fmap. done. }
  destruct a as [pc|t callback created|env|sent1 sent2|now|t]; cbn [sys_step].
  - case_split; [|done]. intros [= <- <-]. by apply (Hquiet [] []).
  - intros (pc & Ht & Hs)%bind_Some. apply bind_Some in Hs as ([[pc' s1] evs] & Hs & [= <- <-]).
    pose proof (sys_coherent _ _ _ Hinv) as Hc. pose proof (sys_idle _ _ _ Hinv) as Hidle.
    eapply effect_adds; [done|by eapply effect_threads, caller_effect|].
    intros Hr%returns_stop_life w ph Hw.
    eapply (caller_stopped (is_ok created) t pc (life_of s) pc' (life_of s1)); [done..| |done|exact Hw].
    by eapply caller_step_sim.
  - by apply worker_adds.
  - unfold sys_op. destruct (op_step (OBias sent1 sent2) (impl s)) as [i evs] eqn:Ho. intros [= <- <-].
    apply (Hquiet [OBias sent1 sent2] evs); try done. cbn [run_ops]. rewrite Ho. by rewrite app_nil_r.
  - unfold sys_op. destruct (op_step (OHealth now) (impl s)) as [i evs] eqn:Ho. intros [= <- <-].
    apply (Hquiet [OHealth now] evs); try done.
  - intros (pc & Ht & Hs)%bind_Some. revert Hs. case_split; [|done]. intros [= <- <-]. by apply (Hquiet [] []).
Qed.

(** An event of a trace is shown by one of its steps. *)
Lemma sys_execution_split clock config i_init tr s before e after :
  construct clock config = Ok i_init → sys_execution i_init tr s → tr = before ++ e :: after →
  ∃ tr1 s1 s2 pre post, SysInv i_init tr1 s1 ∧ sys_execution i_init tr1 s1 ∧
    step_adds s1 s2 (pre ++ e :: post) ∧ before = tr1 ++ pre.
Proof.
  intros Hc Hx. revert before after. induction Hx as [|a tr s s' new Hx IH Hs]; intros before after E.
  - by destruct before.
  - apply split_at_event in E as [(post & E)|(pre & -> & ->)]; [by eapply IH|].
    pose proof (sys_execution_inv _ _ _ _ _ Hc Hx) as Hinv.
    exists tr, s, s', pre, after. split_and!; try done. by eapply sys_step_adds.
Qed.

(** A worker event comes from a live worker, before anything else in its step. *)
Lemma adds_live s s' pre w e post :
  step_adds s s' (pre ++ SWorker w e :: post) →
  w = last_worker s ∧ (∃ ph, phases s !! w = Some ph ∧ ph ≠ WDone) ∧
  (∃ evs, pre = emit s evs ∧
     ∀ i0 before, execution i0 before (current s) (impl s) →
       ∃ post c i, execution i0 (before ++ evs ++ e :: post) c i).
Proof.
  intros [(evs & (rest & E & Hsil) & Hlive & Hx) _ _ _]. symmetry in E.
  assert (∃ evs1 evs2, evs = evs1 ++ e :: evs2 ∧ pre = emit s evs1 ∧ w = last_worker s) as
    (evs1 & evs2 & -> & -> & ->).
  { apply split_at_event in E as [(post' & E)|(pre' & _ & ->)].
    - unfold emit in E. apply fmap_app_inv in E as (evs1 & evs2 & -> & Hr & ->).
      destruct evs2 as [|e' evs2]; [done|]. injection Hr as -> -> ->. by exists evs1, evs2.
    - exfalso. rewrite forallb_app in Hsil. cbn in Hsil. by rewrite andb_false_r in Hsil. }
  split_and!; [done|apply Hlive; by destruct evs1|]. exists evs1. split; [done|].
  intros i0 before He. destruct (Hx _ _ He) as (c & i & He'). by exists evs2, c, i.
Qed.

(** After a return of [stop] every worker has ended or was started later. *)
Lemma stop_settles clock config i_init tr s before after :
  construct clock config = Ok i_init → sys_execution i_init tr s →
  tr = before ++ SLife (EvStopped None) :: after →
  ∀ w, is_Some (phases s !! w) → (∃ callback, SStart w callback ∈ after) ∨ phases s !! w = Some WDone.
Proof.
  intros Hc Hx. revert before after. induction Hx as [|a tr s s' new Hx IH Hs]; intros before after E w Hw.
  { by destruct before. }
  destruct (sys_step_adds _ _ _ _ _ _ (sys_execution_inv _ _ _ _ _ Hc Hx) Hs) as [_ Hd Hn Hret].
  pose proof E as E'. apply split_at_event in E as [(post & ->)|(pre & -> & ->)].
  - rewrite <- app_assoc in E'. apply app_inv_head in E'. injection E' as E'.
    destruct (Hn w Hw) as [Hold|[cb Hin]].
    + destruct (IH _ _ eq_refl w Hold) as [[cb Hin]|]; [|auto].
      left. exists cb. rewrite <- E'. apply elem_of_app. by left.
    + left. exists cb. rewrite <- E'. apply elem_of_app. by right.
  - right. assert (all_done s') as Ha by (apply Hret, elem_of_app; right; by left).
    destruct Hw as [ph Hw]. by rewrite Hw, (Ha _ _ Hw).
Qed.

(** C8: once [stop] has returned to a thread outside the callback, the client is
    quiet: no worker that was created before does anything any more (no command
    is sent, no datagram taken, no callback invoked); whatever a worker does later
    in the trace, [start] created that worker after the return. *)
Theorem nothing_after_stop clock config i_init tr s before between w e after :
  construct clock config = Ok i_init → sys_execution i_init tr s →
  tr = before ++ SLife (EvStopped None) :: between ++ SWorker w e :: after →
  ∃ callback, SStart w callback ∈ between.
Proof.
  intros Hc Hx E.
  assert (tr = (before ++ SLife (EvStopped None) :: between) ++ SWorker w e :: after) as E1
    by (rewrite E; by rewrite <- app_assoc).
  destruct (sys_execution_split _ _ _ _ _ _ _ _ Hc Hx E1) as (tr1 & s1 & s2 & pre & post & _ & Hx1 & Hadd & Eb).
  destruct (adds_live _ _ _ _ _ _ Hadd) as (-> & (ph & Hw & Hne) & evs & -> & _).
  pose proof Eb as Eb'. symmetry in Eb. apply split_at_event in Eb as [(post' & ->)|(pre' & _ & Epre)].
  - rewrite <- app_assoc in Eb'. apply app_inv_head in Eb'. injection Eb' as ->.
    destruct (stop_settles _ _ _ _ _ _ _ Hc Hx1 eq_refl (last_worker s1)) as [[cb Hin]|Hd]; [eauto| |congruence].
    exists cb. apply elem_of_app. by left.
  - exfalso. assert (SLife (EvStopped None) ∈ emit s1 evs) as (x & ? & _)%list_elem_of_fmap; [|done].
    rewrite Epre. apply elem_of_app. right. by left.
Qed.

Lemma gated_continues i_init earlier i0 evs s :
  continues i_init earlier i0 → gated i0 evs s → gated i_init (earlier ++ evs) s.
Proof.
  intros (Hc & Hr & Hf & Hs & _) (before & r & at_ & after & c & -> & H1 & H2 & H3 & H4 & H5 & H6).
  exists (earlier ++ before), r, at_, after, c. unfold rdt_kind, ft_kind, replay_rdt, replay_ft, replay_configuration in *.
  rewrite !foldl_app, <- Hr, <- Hf, <- Hs, <- Hc. split_and!; try done. by rewrite <- app_assoc.
Qed.

(** A sample that a worker hands out, and the callback it hands it to. *)
Lemma life_gated clock config i_init tr s before w e sample after :
  construct clock config = Ok i_init → sys_execution i_init tr s →
  tr = before ++ SWorker w e :: after → (∃ id, e = EvCallback id sample) ∨ e = EvDelivered sample →
  (∀ id, e = EvCallback id sample → SStart w (Some id) ∈ before) ∧ gated i_init (all_events before) sample.
Proof.
  intros Hc Hx E Hev.
  destruct (sys_execution_split _ _ _ _ _ _ _ _ Hc Hx E) as (tr1 & s1 & s2 & pre & post & Hinv & _ & Hadd & ->).
  destruct (adds_live _ _ _ _ _ _ Hadd) as (-> & (ph & Hw & Hne) & evs & -> & Hrun).
  destruct (sys_runs _ _ _ Hinv _ _ Hw) as (i0 & c & i & (_ & He & Hin & _) & (-> & -> & earlier & Hall & Hcont)); [done|].
  destruct (Hrun _ _ He) as (post' & c' & i' & He'). rewrite app_assoc in He'.
  assert (gated i0 (events_of (last_worker s1) tr1 ++ evs) sample) as Hg.
  { destruct Hev as [[id ->]| ->]; [by eapply execution_callback|by eapply execution_delivered]. }
  split.
  - intros id ->. destruct (execution_callback _ _ _ _ _ _ _ _ He' eq_refl) as [Hcb _].
    apply elem_of_app. left. by rewrite <- Hcb.
  - rewrite all_events_app, all_events_emit, Hall, <- app_assoc. by apply (gated_continues _ _ i0).
Qed.

(** C1: over the whole life of a client, restarts included, only trustworthy
    samples are delivered: a worker invokes the callback of the [start] that created
    it, and counts as delivered, only the finite scaling of the last record any
    worker received, by the configuration then in force; that record was not a
    duplicate or out of order, its FT counter neither stalled nor went back, with
    the tracking state that the records, session starts and bias commands of all
    workers so far determine, and its status was no error unless error samples were
    asked for. *)
Theorem samples_gated_for_life clock config i_init tr s before w e sample after :
  construct clock config = Ok i_init → sys_execution i_init tr s →
  tr = before ++ SWorker w e :: after → (∃ id, e = EvCallback id sample) ∨ e = EvDelivered sample →
  (∀ id, e = EvCallback id sample → SStart w (Some id) ∈ before) ∧ gated i_init (all_events before) sample ∧
  Forall (λ v, isfinite v = true) (force sample ++ torque sample).
Proof.
  intros Hc Hx E Hev. destruct (life_gated _ _ _ _ _ _ _ _ _ _ Hc Hx E Hev) as [Hs Hg].
  split_and!; [done..|by eapply gated_finite].
Qed.

Lemma counters_health config evs now i :
  counters_match config evs (health_ i) → counters_match config evs (fst (health now i)).
Proof. unfold health. by repeat case_split. Qed.

Lemma life_counters clock config i_init tr s now :
  construct clock config = Ok i_init → sys_execution i_init tr s →
  counters_match config (all_events tr) (fst (health now (impl s))).
Proof.
  intros Hc Hx. destruct (sys_history _ _ _ (sys_execution_inv _ _ _ _ _ Hc Hx)) as (_ & _ & _ & _ & _ & Ha).
  by apply counters_health, (accounted_match clock config i_init).
Qed.

(** C5: the counters of the health snapshot are exact over the whole life of a client,
    restarts included, modulo their width and however its threads interleave: each of
    the sixteen is what the trace of all workers contains since the construction -
    records handled, counters skipped, duplicates, records out of order, FT stalls, steps
    back and restarts, warning and error statuses, and records held back by the rate
    limit, as the sequence trackers, the status table and the rate limit class the
    records of the trace; datagrams that are not records, completed deliveries, silences
    that lasted to the deadline, retreats into the backoff, exceptions of the callback;
    and configurations whose calibration differs from the one before.  This is what
    [health] returns. *)
Theorem counters_exact clock config i_init tr s now :
  construct clock config = Ok i_init → sys_execution i_init tr s →
  counters_match config (all_events tr) (health_ (impl s)) ∧
  counters_match config (all_events tr) (fst (health now (impl s))).
Proof.
  intros Hc Hx. destruct (sys_history _ _ _ (sys_execution_inv _ _ _ _ _ Hc Hx)) as (_ & _ & _ & _ & _ & Ha).
  split; [by eapply accounted_match|by eapply life_counters].
Qed.

(** ** [stop] comes back *)

(** The steps left to the worker [w] that was asked to stop, the end of its thread
    included. *)
Definition steps_left (w : nat) (s : System) : nat :=
  match phases s !! w with
  | Some WRun | Some WExited => S (rank (Session.pc (current s)))
  | _ => 0
  end.

Definition is_worker_step (a : SysLabel) : bool := match a with SysWorker _ => true | _ => false end.
Definition worker_steps (labels : list SysLabel) : nat := length (List.filter is_worker_step labels).
Definition moves (t : nat) (a : SysLabel) : bool :=
  match a with SysCaller t' _ _ => bool_decide (t' = t) | _ => false end.

Lemma rank_le p : (rank p ≤ 11)%nat.
Proof. destruct p; cbn; lia. Qed.

Lemma rank_positive p : p ≠ PExited → (1 ≤ rank p)%nat.
Proof. destruct p; cbn; try done; lia. Qed.

(** The worker a [stop] joins is the last one, and it was told to end. *)
Lemma joiner_last s t w :
  Inv (life_of s) → threads s !! t = Some (PStopJoin None w) →
  w = last_worker s ∧ joining_ (impl s) = true ∧
  (phases s !! w = Some WRun → stopping_ (impl s) = true).
Proof.
  intros Hi Ht. destruct (inv_active _ Hi w) as [_ Hlen]; [right; by exists t, (PStopJoin None w)|].
  assert (joining (life_of s) = true) as Hj by (apply (inv_joiner _ Hi); by exists t, (PStopJoin None w)).
  split_and!; [unfold last_worker; cbn in Hlen; by rewrite Hlen|done|].
  intros Hw. pose proof (inv_running _ Hi w Hw). destruct (inv_ends _ Hi Hj) as [|He]; [done|congruence].
Qed.

Lemma worker_steps_left env i_init tr s s' new t w :
  SysInv i_init tr s → threads s !! t = Some (PStopJoin None w) →
  sys_worker env s = Some (s', new) →
  threads s' !! t = Some (PStopJoin None w) ∧ (S (steps_left w s') ≤ steps_left w s)%nat.
Proof.
  intros Hinv Ht Hs. pose proof (execution_inv _ _ (sys_life _ _ _ Hinv)) as Hi.
  destruct (joiner_last _ _ _ Hi Ht) as (-> & _ & Hstop).
  unfold sys_worker in Hs. destruct (worker_step env (current s) (impl s)) as [[c i] evs] eqn:Htick.
  destruct (phases s !! last_worker s) as [ph|] eqn:Hw; [|done].
  pose proof (lookup_lt_Some _ _ _ Hw) as Hlt.
  destruct (sys_runs _ _ _ Hinv _ _ Hw) as (i0 & c0 & i1 & (_ & _ & _ & Hat) & Hlive).
  destruct ph; [| |done]; destruct (Hlive ltac:(done)) as (-> & _); clear Hlive.
  - assert (rank (pc c) ≤ pred (rank (pc (current s))))%nat as Hk
      by (by apply (rank_step env _ _ _ _ _ (Hstop eq_refl)) in Htick as [? _]).
    pose proof (rank_positive (pc (current s)) (proj2 Hat)) as Hpos. clear Hat.
    case_split_in Hs; [done|]. case_split_in Hs; injection Hs as <- <-; split; try done;
      unfold steps_left; cbn [phases current]; rewrite ?list_lookup_insert_eq, Hw by done; lia.
  - destruct (has_returned (current s)) eqn:Hret; injection Hs as <- <-.
    + split; [cbn; by rewrite list_lookup_fmap, Ht|]. unfold steps_left. cbn.
      rewrite list_lookup_insert_eq, Hw by done. lia.
    + split; [done|]. unfold steps_left. cbn [phases current]. rewrite Hw.
      destruct (current s) as [p b d v], Hat as [Hp|Hp]; cbn in Hp; subst p; [|done].
      injection Htick as <- _ _. cbn. lia.
Qed.

(** A step of a caller at most wakes the others. *)
Lemma caller_threads callback created pc s pc' s' new :
  sys_caller_step callback created pc s = Some (pc', s', new) →
  threads s' = threads s ∨ threads s' = wake <$> threads s.
Proof.
  destruct pc; cbn [sys_caller_step]; try done; try (case_split; [|done]); intros Heq%(inj Some); revert Heq;
    unfold sys_start_enter, sys_start_wait, sys_start_fresh, sys_stop_section;
    repeat (first [case_split | match goal with |- context [match ?x with _ => _ end] => destruct x end]);
    intros [= <- <- <-]; first [by left | by right].
Qed.

(** A wakeup takes the worker forward. *)
Lemma ops_rank ops c : (rank (pc (ops_worker ops c)) ≤ rank (pc c))%nat.
Proof.
  revert c. induction ops as [|op ops IH]; intros c; [done|]. etrans; [apply IH|]. destruct op; try done.
  cbn [op_worker]. destruct (wake_worker_cases c) as [(u & E & ->)|[_ ->]]; [rewrite E; cbn; lia|done].
Qed.

Lemma effect_steps_left s s' new w :
  effect s s' new → is_Some (phases s !! w) → (steps_left w s' ≤ steps_left w s)%nat.
Proof.
  intros Heff [ph Hw]. unfold steps_left.
  destruct Heff as [ops evs Hc Hp _ _|_ Hc Hp _ _|cb i' Hd _ _ _ Hp _]; [|by rewrite Hc, Hp|].
  - rewrite Hc, Hp. pose proof (ops_rank ops (current s)). destruct (phases s !! w) as [[]|]; lia.
  - rewrite Hp, (lookup_app_l_Some _ _ _ _ Hw), Hw. by rewrite (Hd _ _ Hw).
Qed.

Lemma other_steps_left a i_init tr s s' new t w :
  SysInv i_init tr s → threads s !! t = Some (PStopJoin None w) → moves t a = false →
  is_worker_step a = false → sys_step a s = Some (s', new) →
  threads s' !! t = Some (PStopJoin None w) ∧ (steps_left w s' ≤ steps_left w s)%nat.
Proof.
  intros Hinv Ht Hm Hnw Hs. pose proof (execution_inv _ _ (sys_life _ _ _ Hinv)) as Hi.
  destruct a as [pc|t' callback created|env|sent1 sent2|now|t']; cbn in Hnw; try done.
  - cbn [sys_step] in Hs. case_split_in Hs; [|done]. injection Hs as <- <-. split; [|done].
    by apply lookup_app_l_Some.
  - apply bind_Some in Hs as (pc & Ht' & Hs). apply bind_Some in Hs as ([[pc' s1] evs] & Hs & [= <- <-]).
    cbn in Hm. apply bool_decide_eq_false in Hm. split.
    + cbn. rewrite list_lookup_insert_ne by done.
      destruct (caller_threads _ _ _ _ _ _ _ Hs) as [->| ->]; [done|]. by rewrite list_lookup_fmap, Ht.
    + assert (effect s s1 evs) as Heff
        by (eapply caller_effect; [..|exact Ht'|exact Hs]; first [done|apply Hinv]).
      apply (effect_steps_left s s1 evs w Heff).
      destruct (inv_active _ Hi w) as [_ Hlen]; [right; by exists t, (PStopJoin None w)|].
      apply lookup_lt_is_Some. change (workers (life_of s)) with (phases s) in Hlen. lia.
  - cbn [sys_step] in Hs. unfold sys_op in Hs. destruct (op_step _ (impl s)). injection Hs as <- <-. by split.
  - cbn [sys_step] in Hs. unfold sys_op in Hs. destruct (op_step _ (impl s)). injection Hs as <- <-. by split.
  - apply bind_Some in Hs as (pc & Ht' & Hs). case_split_in Hs; [|done]. injection Hs as <- <-. split; [|done].
    cbn. rewrite list_lookup_insert_ne; [done|]. intros ->. bools. simplify_eq.
Qed.

Lemma join_run clock config i_init tr s t w labels s' new :
  construct clock config = Ok i_init → sys_execution i_init tr s →
  threads s !! t = Some (PStopJoin None w) → Forall (λ a, moves t a = false) labels →
  sys_run labels s = Some (s', new) →
  sys_execution i_init (tr ++ new) s' ∧ threads s' !! t = Some (PStopJoin None w) ∧
  (worker_steps labels + steps_left w s' ≤ steps_left w s)%nat.
Proof.
  intros Hc Hx Ht Hl. revert tr s new Hx Ht. induction Hl as [|a labels Ha _ IH]; intros tr s new Hx Ht; cbn [sys_run].
  - intros [= <- <-]. rewrite app_nil_r. split_and!; try done.
  - intros ([s1 evs1] & Hs & ([s2 evs2] & Hr & [= <- <-])%bind_Some)%bind_Some.
    pose proof (sys_execution_inv _ _ _ _ _ Hc Hx) as Hinv.
    assert (threads s1 !! t = Some (PStopJoin None w) ∧
      ((if is_worker_step a then 1 else 0) + steps_left w s1 ≤ steps_left w s)%nat) as [Ht1 Hk].
    { destruct (is_worker_step a) eqn:Hw.
      - destruct a; try done. eapply worker_steps_left; [done..|exact Hs].
      - destruct (other_steps_left _ _ _ _ _ _ _ _ Hinv Ht Ha Hw Hs) as [? ?]. by split. }
    destruct (IH _ _ _ (sys_next _ _ _ _ _ _ Hx Hs) Ht1 Hr) as (? & ? & Hk2). rewrite app_assoc.
    split_and!; try done. unfold worker_steps in *. cbn. destruct (is_worker_step a); cbn; lia.
Qed.

(** The worker need not wait for the clock: it is not asleep in its backoff, or the
    deadline of that has come. *)
Definition due (env : Env) (w : Worker) : bool :=
  match Session.pc w with PAsleep until => until <=? env_now env | _ => true end.

(** C9: [stop] comes back: from the moment a [stop] has taken the worker to join it,
    whatever the other threads, the clock, the sensor and the callback do, that
    worker makes at most twelve more steps; until its thread has ended it can always
    make one, unless its own callback is inside a call of [start] or [stop] (which
    never waits for a worker), or it has fallen asleep in its backoff after the
    notification of the [stop] (as in [stop_misses_backoff] below), which lasts at
    most until the deadline of the backoff; and when it has ended the [stop] goes
    on. *)
Theorem stop_join_bounded clock config i_init tr s t w labels s' new :
  construct clock config = Ok i_init → sys_execution i_init tr s →
  threads s !! t = Some (PStopJoin None w) → Forall (λ a, moves t a = false) labels →
  sys_run labels s = Some (s', new) →
  (worker_steps labels ≤ 12)%nat ∧
  (phases s' !! w = Some WDone ∧
   (∀ callback created, ∃ s'', sys_step (SysCaller t callback created) s' = Some (s'', []) ∧
      threads s'' !! t = Some (PStopJoined None)) ∨
   phases s' !! w ≠ Some WDone ∧ (worker_steps labels < 12)%nat ∧
   (in_call w (life_of s') = true ∨
    ∀ env, due env (current s') = true → is_Some (sys_step (SysWorker env) s') ∧
      ∀ s'' more, sys_step (SysWorker env) s' = Some (s'', more) → (steps_left w s'' < steps_left w s')%nat)).
Proof.
  intros Hc Hx Ht Hl Hr. destruct (join_run _ _ _ _ _ _ _ _ _ _ Hc Hx Ht Hl Hr) as (Hx' & Ht' & Hk).
  assert (steps_left w s ≤ 12)%nat as Hmax.
  { unfold steps_left. pose proof (rank_le (pc (current s))). destruct (phases s !! w) as [[]|]; lia. }
  split; [lia|]. pose proof (sys_execution_inv _ _ _ _ _ Hc Hx') as Hinv.
  pose proof (execution_inv _ _ (sys_life _ _ _ Hinv)) as Hi.
  destruct (joiner_last _ _ _ Hi Ht') as (Hlast & _ & _).
  destruct (inv_active _ Hi w) as [_ Hlen]; [right; by exists t, (PStopJoin None w)|].
  destruct (lookup_lt_is_Some_2 (phases s') w) as [ph Hph].
  { change (workers (life_of s')) with (phases s') in Hlen. lia. }
  destruct (decide (ph = WDone)) as [->|Hne].
  - left. split; [done|]. intros callback created. cbn [sys_step]. rewrite Ht'. cbn [mbind option_bind sys_caller_step].
    rewrite bool_decide_eq_true_2 by done. cbn [mbind option_bind]. eexists. split; [done|].
    cbn. apply list_lookup_insert_eq. by eapply lookup_lt_Some.
  - right. assert (1 ≤ steps_left w s')%nat by (unfold steps_left; rewrite Hph; destruct ph; [lia..|done]).
    split_and!; [congruence|lia|]. destruct (in_call w (life_of s')) eqn:Hcall; [by left|right]. intros env _.
    split; [|intros s'' more Hs; by destruct (worker_steps_left _ _ _ _ _ _ _ _ Hinv Ht' Hs)].
    cbn [sys_step]. unfold sys_worker. rewrite <- Hlast, Hph, Hcall.
    destruct (worker_step env (current s') (impl s')) as [[c i] evs].
    destruct ph; try done; case_split; by eexists.
Qed.
End SystemSpec.

(** ** A concrete life

    A run with a sample, a stop from outside, a restart and another sample. *)

Definition to_label (a : Action) : SysLabel :=
  match a with Tick env => SysWorker env | Call _ => SysHealth 0 end.

Definition life_labels : list SysLabel :=
  [SysCall (PStart None); SysCaller 0 (Some 7%nat) (Ok ())] ++
  (to_label <$> connect_actions ++ receive_actions 2000 (encode_record record_a)) ++
  [SysCall (PStop None); SysCaller 1 None (Ok ()); SysCaller 1 None (Ok ())] ++
  replicate 7 (to_label (tick 2500 [] CbReturns)) ++ replicate 3 (SysCaller 1 None (Ok ())) ++
  [SysCall (PStart None); SysCaller 2 (Some 8%nat) (Ok ())] ++
  (to_label <$> connect_actions ++ receive_actions 3000 (encode_record record_b)).

Definition client_impl : Impl := Eval vm_compute in
  match construct (H := linux_x86_64) (λ _, 0) default_config with Ok i => i | Throw _ => fresh_impl default_config end.
Lemma client_constructed : construct (H := linux_x86_64) (λ _, 0) default_config = Ok client_impl.
Proof. vm_compute. reflexivity. Qed.

Definition client_run (n : nat) : option (System * list SysEvent) :=
  sys_run (P := linux_x86_64) (take n life_labels) (sys_init client_impl).
Definition ran_to (r : option (System * list SysEvent)) : System * list SysEvent :=
  default (sys_init client_impl, []) r.

(** The whole run, and the points before and after the worker's steps to its end. *)
Definition life_result : System * list SysEvent := Eval vm_compute in ran_to (client_run 51).
Definition joining_result : System * list SysEvent := Eval vm_compute in ran_to (client_run 22).
Definition joined_result : System * list SysEvent := Eval vm_compute in ran_to (client_run 29).

Lemma sys_run_execution i0 labels r :
  sys_run (P := linux_x86_64) labels (sys_init i0) = Some r →
  sys_execution (P := linux_x86_64) i0 (snd r) (fst r).
Proof.
  assert (∀ tr s new s', sys_execution (P := linux_x86_64) i0 tr s →
    sys_run (P := linux_x86_64) labels s = Some (s', new) →
    sys_execution (P := linux_x86_64) i0 (tr ++ new) s') as H.
  { induction labels as [|a labels IH]; cbn [sys_run]; intros tr s new s' Hx.
    - intros [= <- <-]. by rewrite app_nil_r.
    - intros ([s1 evs1] & Hs & ([s2 evs2] & Hr & [= <- <-])%bind_Some)%bind_Some.
      rewrite app_assoc. eapply IH; [by eapply sys_next|done]. }
  destruct r as [s tr]. intros Hr. by apply (H [] _ _ _ (sys_start _)).
Qed.

Lemma client_run_execution n r :
  client_run n = Some r → sys_execution (P := linux_x86_64) client_impl (snd r) (fst r).
Proof. apply sys_run_execution. Qed.

Lemma life_evaluated : client_run 51 = Some life_result.
Proof. vm_compute. reflexivity. Qed.
Lemma joining_evaluated : client_run 22 = Some joining_result.
Proof. vm_compute. reflexivity. Qed.
Lemma join_evaluated :
  sys_run (P := linux_x86_64) (take 7 (drop 22 life_labels)) (fst joining_result) =
    Some (fst joined_result, drop 10 (snd joined_result)).
Proof. vm_compute. reflexivity. Qed.

Lemma client_refines_service_witness :
  life_events (snd life_result) = [EvStarted 0; EvExit 0; EvStopped None; EvStarted 1] ∧
  service (life_of (fst life_result)) = Serving 1 false ∧
  serves_all (Idle 0) (life_events (snd life_result)) (service (life_of (fst life_result))) ∧
  ∃ i0, started i0 ∧ SStart 0 (callback_ i0) ∈ snd life_result.
Proof.
  destruct (client_refines_service _ _ _ _ _ client_constructed (client_run_execution _ _ life_evaluated)) as [H1 H2].
  split; [vm_compute; reflexivity|]. split; [vm_compute; reflexivity|]. split; [exact H1|].
  destruct (H2 0%nat WDone eq_refl) as (i0 & c & i & Hs & Hin & _). exists i0. split; [exact Hs|exact Hin].
Defined.

Definition nth_event (n : nat) : SysEvent := default (SLife EvCreateFailed) (snd life_result !! n).

Lemma nothing_after_stop_witness :
  nth_event 12 = SLife (EvStopped None) ∧ nth_event 20 = SWorker 1 (match nth_event 20 with SWorker _ e => e | _ => EvRdtReset end) ∧
  ∃ callback, SStart 1 callback ∈ take 7 (drop 13 (snd life_result)).
Proof.
  split; [reflexivity|]. split; [reflexivity|].
  apply (nothing_after_stop _ _ _ _ _ (take 12 (snd life_result)) (take 7 (drop 13 (snd life_result))) 1
    (match nth_event 20 with SWorker _ e => e | _ => EvRdtReset end) (drop 21 (snd life_result))
    client_constructed (client_run_execution _ _ life_evaluated)).
  reflexivity.
Defined.

Definition lossy_labels : list SysLabel :=
  [SysCall (PStart None); SysCaller 0 (Some 7%nat) (Ok ())] ++ (to_label <$> lossy_run).
Definition lossy_result : System * list SysEvent :=
  Eval vm_compute in ran_to (sys_run (P := linux_x86_64) lossy_labels (sys_init client_impl)).
Lemma lossy_execution : sys_execution (P := linux_x86_64) client_impl (snd lossy_result) (fst lossy_result).
Proof. apply (sys_run_execution client_impl lossy_labels). vm_compute. reflexivity. Qed.

Lemma counters_exact_witness :
  (let h := health_ (impl (fst lossy_result)) in
   [received_count h; lost_count h; duplicate_count h; malformed_count h; delivered_count h] = [3; 1; 1; 1; 2]) ∧
  eq64 (lost_count (health_ (impl (fst lossy_result)))) 1.
Proof.
  split; [reflexivity|].
  destruct (counters_exact _ _ _ _ _ 0 client_constructed lossy_execution) as [(_ & Hl & _) _]. exact Hl.
Defined.

(** The second callback, of the restarted client. *)
Definition second_sample : Sample := Eval vm_compute in
  match nth_event 20 with SWorker _ (EvCallback _ s) => s | _ => mkSample 0 0 0 [] [] [] Newton NewtonMeter 0 0 end.

Lemma samples_gated_for_life_witness :
  SStart 1 (Some 8%nat) ∈ take 20 (snd life_result) ∧
  gated client_impl (all_events (take 20 (snd life_result))) second_sample ∧ rdt_sequence second_sample = 12.
Proof.
  destruct (samples_gated_for_life _ _ _ _ _ (take 20 (snd life_result)) 1 (EvCallback 8 second_sample) second_sample
    (drop 21 (snd life_result)) client_constructed (client_run_execution _ _ life_evaluated)) as (H1 & H2 & _).
  - reflexivity.
  - left. exists 8%nat. reflexivity.
  - split; [exact (H1 8%nat eq_refl)|]. split; [exact H2|reflexivity].
Defined.

Lemma stop_join_bounded_witness :
  threads (fst joining_result) !! 1%nat = Some (PStopJoin None 0) ∧
  (worker_steps (take 7 (drop 22 life_labels)) ≤ 12)%nat ∧ phases (fst joined_result) !! 0%nat = Some WDone.
Proof.
  split; [reflexivity|].
  destruct (stop_join_bounded _ _ _ _ _ 1 0 (take 7 (drop 22 life_labels)) (fst joined_result) (drop 10 (snd joined_result))
    client_constructed (client_run_execution _ _ joining_evaluated) eq_refl) as [H _].
  - repeat constructor.
  - exact join_evaluated.
  - split; [exact H|reflexivity].
Defined.

(** The wakeup that is lost: the worker has found [stopping_] false and is about to
    block in its backoff when [stop] sets the flag and notifies.  The [stop] then
    joins a worker that sleeps until the deadline of the backoff, a quarter of a
    second after the last step here. *)
Definition no_route : SysLabel :=
  SysWorker (mkEnv 1000 (Ok sample_configuration) (Throw (RuntimeError "no route")) (Ok []) CbReturns).
Definition missed_labels : list SysLabel :=
  [SysCall (PStart None); SysCaller 0 (Some 7%nat) (Ok ())] ++ replicate 11 no_route ++
  [SysCall (PStop None); SysCaller 1 None (Ok ()); SysCaller 1 None (Ok ()); no_route].

Example stop_misses_backoff :
  match sys_run (P := linux_x86_64) missed_labels (sys_init client_impl) with
  | Some (s, _) =>
      stopping_ (impl s) = true ∧ threads s = [PDone; PStopJoin None 0] ∧
      Session.pc (current s) = PAsleep (1000 + 250000000)
  | None => False
  end.
Proof. vm_compute. by split_and!. Qed.
