(* ===== verification/CheckRun.v ===== *)
(** * The command-line check over the client

    [netft_check] ([check_main.cpp]) run over the client of [System.v]: the slot its
    callback fills, the snapshot it takes after [stop], and what its report then says
    of the stream. *)

From stdpp Require Import list.
From S2P Require Import Prelude Floating Types Text Protocol Sequence Status FaultLatch ClientImpl UnitConversion Check Json Session Executions Accounting Lifecycle LifecycleSpec System SystemSpec.

(** ** The sample slot *)

(** [LastSampleSlot]: [store] is the callback, [load] the answer at the end. *)
Definition store (slot : option Sample) (e : SysEvent) : option Sample :=
  match e with SWorker _ (EvCallback _ s) => Some s | _ => slot end.
Definition load (tr : list SysEvent) : option Sample := foldl store None tr.

Lemma load_snoc tr e : load (tr ++ [e]) = store (load tr) e.
Proof. unfold load. by rewrite foldl_app. Qed.

(** The slot holds the sample of the last callback. *)
Lemma load_last tr s :
  load tr = Some s → ∃ before w id after,
    tr = before ++ SWorker w (EvCallback id s) :: after ∧
    Forall (λ e, ∀ w id s', e ≠ SWorker w (EvCallback id s')) after.
Proof.
  induction tr as [|e tr IH] using rev_ind; [done|]. rewrite load_snoc.
  destruct (decide (store None e = None)) as [Hn|Hn].
  - assert (∀ slot, store slot e = slot) as Hk by (intros slot; by destruct e as [| |w []]).
    rewrite Hk. intros (before & w & id & after & -> & Ha)%IH.
    exists before, w, id, (after ++ [e]). split; [by rewrite <- app_assoc|].
    apply Forall_app. split; [done|]. apply Forall_singleton. by intros w' id' s' ->.
  - destruct e as [| |w []]; try done. intros [= ->]. by exists tr, w, callback, [].
Qed.

(** ** The types of the snapshot *)

Definition valid_calibration (c : SensorConfiguration) : Prop :=
  valid64 (counts_per_force_unit (calibration c)) = true ∧ valid64 (counts_per_torque_unit (calibration c)) = true.

(** The calibrations put in force are doubles. *)
Definition typed_trace (evs : list Event) : Prop := ∀ c, EvConfigured c ∈ evs → valid_calibration c.

Definition typed_position (w : Worker) : Prop :=
  match Session.pc w with PRecord r _ => wf_record r | _ => True end.

Lemma typed_counts h h' : typed_health h → same_counts h h' → typed_health h'.
Proof.
  unfold typed_health, counters_of, event_counters_of. intros Ht (Hc & He & _ & -> & -> & ->).
  injection Hc as H1 H2 H3 H4 _ _ _ H5 H6 _. injection He as H7 _ H8 H9 _.
  by rewrite H1, H2, H3, H4, H5, H6, H7, H8, H9.
Qed.

Lemma incr_range z : is_u64 (incr z).
Proof. apply u64_range. Qed.
Lemma bump_range b z : is_u64 z → is_u64 (bump b z).
Proof. by destruct b; [intros _; apply incr_range|]. Qed.

Section Types.
Context `{P : Platform}.

Lemma typed_step a w i w' i' new :
  typed_position w → typed_health (health_ i) → typed_trace new → action_step a w i = (w', i', new) →
  typed_position w' ∧ typed_health (health_ i').
Proof.
  intros Hp Hh Ht Hs. unfold typed_position, typed_health in *. revert Ht.
  step_all Hs; intros Ht; cbn -[incr bump u64] in *; split; try done; try exact Hh; try (by eapply decode_record_wf);
    destruct Hh as (Hf & H1 & H2 & H3); split_and!; try done;
    try (intros ? [= <-]; by apply Hp);
    try (repeat apply Forall_cons in Hf as [? Hf];
         repeat (apply Forall_cons; split);
         auto using incr_range, bump_range; case_split; auto using u64_range; done).
  intros ? [= <-]. apply Ht. by left.
Qed.

Lemma typed_health_answer now i : typed_health (health_ i) → typed_health (fst (health now i)).
Proof. intros Hh. unfold health. cbn. by repeat case_split. Qed.

Lemma typed_wake w : typed_position w → typed_position (wake_worker w).
Proof. unfold typed_position. by destruct (wake_worker_cases w) as [(u & E & ->)|[_ ->]]. Qed.

Lemma run_ops_typed ops w i i' evs :
  run_ops ops i = (i', evs) → typed_position w → typed_health (health_ i) → typed_trace evs →
  typed_position (ops_worker ops w) ∧ typed_health (health_ i').
Proof.
  revert w i evs. induction ops as [|op ops IH]; cbn [run_ops]; intros w i evs.
  - by intros [= <- <-].
  - destruct (op_step op i) as [i1 evs1] eqn:Ho, (run_ops ops i1) as [i2 evs2] eqn:Hr. intros [= <- <-] Hw Hh Ht.
    destruct (typed_step (Call op) w i (op_worker op w) i1 evs1) as [Hw1 Hh1]; [done..| |by apply op_act|].
    + intros c Hc. apply Ht, elem_of_app. by left.
    + apply (IH _ _ _ Hr Hw1 Hh1). intros c Hc. apply Ht, elem_of_app. by right.
Qed.

Lemma start_fresh_counts callback w i i' :
  start_fresh callback (Ok w) i = (Ok (), i') → same_counts (health_ i) (health_ i').
Proof. unfold start_fresh. cbv zeta. by intros [= <-]. Qed.

Lemma effect_typed s s' new :
  effect s s' new → typed_position (current s) → typed_health (health_ (impl s)) → typed_trace (all_events new) →
  typed_position (current s') ∧ typed_health (health_ (impl s')).
Proof.
  intros [ops evs Hc _ Hops [Ha _]%shows_events|_ Hc _ Hst _|callback i' _ Hf <- Hc _ _] Hp Hh Ht; rewrite Hc.
  - rewrite Ha in Ht. by eapply run_ops_typed.
  - split; [done|]. eapply typed_counts; [done|]. apply Hst.
  - split; [done|]. eapply typed_counts; [done|]. by eapply start_fresh_counts.
Qed.

Lemma worker_typed env s s' new :
  sys_worker env s = Some (s', new) → typed_position (current s) → typed_health (health_ (impl s)) →
  typed_trace (all_events new) → typed_position (current s') ∧ typed_health (health_ (impl s')).
Proof.
  unfold sys_worker. destruct (worker_step env (current s) (impl s)) as [[c i] evs] eqn:Hs. intros Hw Hp Hh Ht.
  assert (typed_trace evs → typed_position c ∧ typed_health (health_ i)) as Hstep
    by (intros He; by apply (typed_step (Tick env) (current s) (impl s) c i evs)).
  destruct (phases s !! last_worker s) as [[]|]; try done; [destruct (in_call _ _); [done|]|];
    case_split_in Hw; injection Hw as <- <-; try done; apply Hstep;
    rewrite ?all_events_app, all_events_emit in Ht; cbn in Ht; by rewrite ?app_nil_r in Ht.
Qed.

Lemma sys_step_typed i_init tr a s s' new :
  SysInv i_init tr s → sys_step a s = Some (s', new) → typed_position (current s) → typed_health (health_ (impl s)) →
  typed_trace (all_events new) → typed_position (current s') ∧ typed_health (health_ (impl s')).
Proof.
  intros Hinv. pose proof (execution_inv _ _ (sys_life _ _ _ Hinv)) as Hi.
  destruct a as [pc|t callback created|env|sent1 sent2|now|t]; cbn [sys_step].
  - case_split; [|done]. by intros [= <- <-].
  - intros (pc & Ht & Hs)%bind_Some. apply bind_Some in Hs as ([[pc' s1] evs] & Hs & [= <- <-]).
    apply (effect_typed s s1). eapply caller_effect; [..|exact Ht|exact Hs]; first [done|apply Hinv].
  - by apply worker_typed.
  - unfold sys_op. destruct (op_step (OBias sent1 sent2) (impl s)) as [i evs] eqn:Ho. intros [= <- <-] Hp Hh Ht.
    rewrite all_events_emit in Ht. apply (run_ops_typed [OBias sent1 sent2] _ (impl s) i evs); [|done..].
    cbn [run_ops]. by rewrite Ho, app_nil_r.
  - unfold sys_op. destruct (op_step (OHealth now) (impl s)) as [i evs] eqn:Ho. intros [= <- <-] Hp Hh Ht.
    rewrite all_events_emit in Ht. apply (run_ops_typed [OHealth now] _ (impl s) i evs); [|done..].
    cbn [run_ops]. by rewrite Ho, app_nil_r.
  - intros (pc & Ht & Hs)%bind_Some. revert Hs. case_split; [|done]. by intros [= <- <-].
Qed.

(** The snapshot of a client is typed, whatever its threads and the sensor do. *)
Lemma life_typed clock config i_init tr s :
  construct clock config = Ok i_init → sys_execution i_init tr s → typed_trace (all_events tr) →
  typed_position (current s) ∧ typed_health (health_ (impl s)).
Proof.
  intros Hc. induction 1 as [|a tr s s' new Hx IH Hs]; intros Ht.
  - revert Hc. unfold construct. intros (u & _ & [= <-])%bind_ok. split; [done|].
    split_and!; try done. by repeat (apply Forall_cons; split).
  - destruct IH as [Hp Hh]; [intros c Hin; apply Ht; rewrite all_events_app; apply elem_of_app; by left|].
    eapply sys_step_typed; [by eapply sys_execution_inv|done..|].
    intros c Hin. apply Ht. rewrite all_events_app. apply elem_of_app. by right.
Qed.

Lemma replay_configured c evs c' :
  replay_configuration c evs = Some c' → c = Some c' ∨ EvConfigured c' ∈ evs.
Proof.
  revert c. unfold replay_configuration. induction evs as [|e evs IH]; intros c; cbn [foldl]; [by left|].
  intros [H|H]%IH; [|right; by right]. destruct e; auto. injection H as ->. right. by left.
Qed.

Lemma gated_typed clock config i_init evs s :
  construct clock config = Ok i_init → typed_trace evs → gated i_init evs s → typed_sample s.
Proof.
  intros Hc Ht (before & r & at_ & after & c & -> & _ & Hcfg & Hm & _).
  assert (valid_calibration c) as [Hf Htq].
  { apply replay_configured in Hcfg as [Hn|Hin].
    - revert Hc. unfold construct. intros (u & _ & [= <-])%bind_ok. done.
    - apply Ht, elem_of_app. by left. }
  revert Hm. unfold make_sample. cbv zeta. case_split; [done|]. intros [= <-]. split_and!; try done.
  cbn. repeat (apply Forall_cons; split); try done; apply SFdiv_valid; (done || by apply fl_of_Z_valid).
Qed.
End Types.

Section Report.
Context `{P : Platform}.

Definition is_callback (e : SysEvent) : bool := match e with SWorker _ (EvCallback _ _) => true | _ => false end.

Lemma load_none tr : load tr = None → Forall (λ e, is_callback e = false) tr.
Proof.
  induction tr as [|e tr IH] using rev_ind; [done|]. rewrite load_snoc. intros Hl. apply Forall_app.
  destruct e as [| |w []]; cbn in Hl |- *; try done; (split; [by apply IH|by apply Forall_singleton]).
Qed.

(** C3: what [netft_check] prints is true.  Whatever the sensor sends and however the
    threads of its client interleave: a run that fails prints one JSON text with the
    category and the very message of its first failure - the exception of the client, the
    interrupt, the fault or the deadline that ended the acquisition, or what kept the
    report from being made or written - and nothing else; a run that reports was acquired
    without any of these and prints one JSON text whose 23 members are, in order and
    exactly, the counters, doubles and strings of the snapshot after [stop] and the last
    sample in SI units, and [null] where there is none.  Every counter is that of the
    trace of the client; the last sample is the one of the last callback, and it passed
    the gate; every worker has ended, so that nothing changes them any more; and the exit
    status is zero exactly if the snapshot counts a record and neither a warning nor an
    error status. *)
Theorem report_true fuel clock env file arguments o i_init tr s now outcome calls files :
  parse_options clock arguments = Ok o → help o = false →
  construct clock (o_config o) = Ok i_init → sys_execution i_init tr s → typed_trace (all_events tr) →
  (∃ before after, tr = before ++ SLife (EvStopped None) :: after ∧ ∀ w callback, SStart w callback ∉ after) →
  final_health env = fst (health now (impl s)) → final_sample env = load tr →
  main fuel clock env file arguments = Some (outcome, calls, files) →
  all_done s ∧
  ((∃ e, run_fails env file o calls files e ∧ exit_code outcome = 2 ∧ stdout outcome = "" ∧
     read_document (to_chars (stderr outcome)) = Some (error_json e)) ∨
   stderr outcome = "" ∧ ∃ r si members,
     acquired env o (Ok r) calls ∧ completes file o r outcome files ∧
     r_health r = fst (health now (impl s)) ∧ last r = load tr ∧ si_of r si ∧
     read_document (to_chars (stdout outcome)) = Some (JObject members) ∧
     Forall2 member_means (report_contents r si) members ∧
     counters_match (o_config o) (all_events tr) (r_health r) ∧
     match load tr with
     | None => Forall (λ e, is_callback e = false) tr
     | Some sample => ∃ before w id after,
         tr = before ++ SWorker w (EvCallback id sample) :: after ∧ SStart w (Some id) ∈ before ∧
         Forall (λ e, ∀ w id s', e ≠ SWorker w (EvCallback id s')) after ∧
         gated i_init (all_events before) sample
     end ∧
     exit_code outcome =
       if (0 <? received_count (r_health r)) && (device_error_count (r_health r) =? 0) &&
          (warning_count (r_health r) =? 0) then 0 else 1).
Proof.
  intros Ho Hhelp Hc Hx Htyped (before & after & E & Hns) Hh Hl Hm.
  assert (∀ sample, load tr = Some sample → ∃ before w id after,
    tr = before ++ SWorker w (EvCallback id sample) :: after ∧ SStart w (Some id) ∈ before ∧
    Forall (λ e, ∀ w id s', e ≠ SWorker w (EvCallback id s')) after ∧
    gated i_init (all_events before) sample) as Hlast.
  { intros sample (b & w & id & a & Eb & Ha)%load_last. exists b, w, id, a.
    destruct (life_gated _ _ _ _ _ b w (EvCallback id sample) sample a Hc Hx Eb) as [Hs Hg]; [eauto|].
    split_and!; auto. }
  split.
  { intros w ph Hw. destruct (stop_settles _ _ _ _ _ _ _ Hc Hx E w) as [[cb Hin]|Hd]; [eauto| |congruence].
    by destruct (Hns w cb). }
  pose proof (life_counters _ _ _ _ _ now Hc Hx) as Hcount. rewrite <- Hh in Hcount.
  destruct (life_typed _ _ _ _ _ Hc Hx Htyped) as [_ Hhealth].
  destruct (parse_options_duration clock arguments o Ho) as [|Hd]; [congruence|].
  apply main_cases in Hm. unfold main_ends in Hm. rewrite Ho, Hhelp in Hm.
  destruct Hm as [(e & Hf & He)|(r & Hr & Hcompl)].
  { left. exists e. pose proof (fails_reads e outcome He). destruct He as (? & ? & _). by split_and!. }
  right. pose proof Hcompl as (text & _ & _ & Herr & _ & H01 & Hx0). split; [done|].
  destruct (completes_reads file o r outcome files) as (si & members & Hsi & Hdoc & Hmm); [|done|].
  { eapply acquired_typed; [done| | |exact Hr].
    - rewrite Hh. by apply typed_health_answer.
    - rewrite Hl. intros sample Hs. destruct (Hlast sample Hs) as (b & w & id & a & Eb & _ & _ & Hg).
      eapply gated_typed; [done| |exact Hg]. intros c Hin. apply Htyped. rewrite Eb, all_events_app.
      apply elem_of_app. by left. }
  assert (r_health r = final_health env ∧ last r = final_sample env) as [Hrh Hrl] by (by inversion Hr).
  exists r, si, members. split_and!; try done; try congruence.
  - destruct (load tr) as [sample|] eqn:El; [by apply Hlast|by apply load_none].
  - destruct (Z.ltb_spec 0 (received_count (r_health r))), (Z.eqb_spec (device_error_count (r_health r)) 0),
      (Z.eqb_spec (warning_count (r_health r)) 0); cbn [andb];
      destruct H01 as [H0|H1]; try done; try (by apply Hx0); apply Hx0 in H0; lia.
Qed.
End Report.

(** ** A concrete run

    One sample, then the stop. *)

Definition run_arguments : list string := ["--host=sensor"; "--duration=1"].
Definition run_options : Options := Eval vm_compute in
  match @parse_options linux_x86_64 (λ _, 0) run_arguments with Ok o => o | Throw _ => default_options end.
Definition run_impl : Impl := Eval vm_compute in
  match construct (H := linux_x86_64) (λ _, 0) (o_config run_options) with Ok i => i | Throw _ => client_impl end.
Definition run_result : System * list SysEvent := Eval vm_compute in
  default (sys_init run_impl, []) (sys_run (P := linux_x86_64) (take 32 life_labels) (sys_init run_impl)).
Definition run_health : HealthSnapshot := Eval vm_compute in fst (health 9000000000 (impl (fst run_result))).
Definition run_sample : option Sample := Eval vm_compute in load (snd run_result).

Definition run_env : CheckEnv :=
  mkCheckEnv (Ok ()) 0 (Ok ()) (λ _, run_health) (λ _, false) (λ _, false) (λ _, "") (λ _, 1000) (λ _, false)
    (λ k, 10000000000 * Z.of_nat k) 2000000000 run_health run_sample.
Definition run_outcome : Outcome := Eval vm_compute in
  match @main linux_x86_64 10 (λ _, 0) run_env failing_rename run_arguments with
  | Some (outcome, _, _) => outcome | None => mkOutcome "" "" 2 end.

Lemma checked_execution : sys_execution (P := linux_x86_64) run_impl (snd run_result) (fst run_result).
Proof.
  apply (sys_run_execution run_impl (take 32 life_labels)). vm_compute. reflexivity.
Qed.

(** [typed_trace], decided. *)
Definition typed_event (e : Event) : bool :=
  match e with
  | EvConfigured c =>
      valid64 (counts_per_force_unit (calibration c)) && valid64 (counts_per_torque_unit (calibration c))
  | _ => true
  end.
Lemma typed_trace_decided evs : forallb typed_event evs = true → typed_trace evs.
Proof. intros H c Hc%list_elem_of_In. by apply (proj1 (forallb_forall _ _) H), andb_prop in Hc. Qed.

Lemma report_true_witness :
  exit_code run_outcome = 0 ∧ all_done (fst run_result) ∧
  ∃ members, read_document (to_chars (stdout run_outcome)) = Some (JObject members) ∧
    ∃ sample before, run_sample = Some sample ∧ gated run_impl (all_events before) sample.
Proof.
  split; [reflexivity|].
  destruct (report_true (P := linux_x86_64) 10 (λ _, 0) run_env failing_rename run_arguments run_options run_impl
    (snd run_result) (fst run_result) 9000000000 run_outcome [CallStart; CallStop; CallStop] []) as
    [Hd [(e & _ & Hx & _)|(_ & r & si & members & _ & _ & _ & _ & _ & Hdoc & _ & _ & Hl & _)]].
  - vm_compute. reflexivity.
  - reflexivity.
  - vm_compute. reflexivity.
  - exact checked_execution.
  - apply typed_trace_decided. vm_compute. reflexivity.
  - exists (take 12 (snd run_result)), []. split; [reflexivity|]. intros w cb Hin. by apply not_elem_of_nil in Hin.
  - reflexivity.
  - reflexivity.
  - vm_compute. reflexivity.
  - discriminate Hx.
  - split; [exact Hd|]. exists members. split; [exact Hdoc|].
    destruct Hl as (before & w & id & after & _ & _ & _ & Hg). exists (default good_sample run_sample), before.
    split; [reflexivity|exact Hg].
Defined.
