(* ===== verification/HardwareConfig.v ===== *)
(** * Initialisation of the ros2_control plugin

    The free functions and the [on_init] half of [netft_hardware_interface.cpp]:
    the name token of an instance, the description of the hardware and its
    parameters.  The description and rclcpp's expansion of service names come
    from ros2_control and rclcpp; the expansion is a parameter. *)

From stdpp Require Import gmap.
From S2P Require Import Prelude Floating Types Text AdapterConfig.
From Stdlib Require Import Ascii.

(** The API family CMake selects. *)
Inductive Api := Legacy | Modern.

#[export] Instance Api_eq_dec : EqDecision Api.
Proof. solve_decision. Defined.

Definition kInterfaceNames : list string :=
  ["force.x"; "force.y"; "force.z"; "torque.x"; "torque.y"; "torque.z"].
Definition kEncodedNamePrefix : string := "netft_encoded_".

Record InterfaceInfo := mkInterfaceInfo {
  i_name : string; i_data_type : string; i_size : Z; i_initial_value : string
}.
Record ComponentInfo := mkComponentInfo { c_name : string; state_interfaces : list InterfaceInfo }.
Record HardwareInfo := mkHardwareInfo {
  joints : list ComponentInfo; sensors : list ComponentInfo; gpios : list ComponentInfo;
  transmissions : list string; hardware_parameters : gmap string string
}.

Definition invalid {A} (s : string) : result A := Throw (InvalidArgument s).

Section Parse.
Context `{P : Platform}.
Context (parameters : gmap string string).

(** Both the exception of [stod] and the explicit one are rethrown as the same
    error, so the text of either is not observable. *)
Definition parse_double (field : string) (fallback : double) : result double :=
  match parameters !! field with
  | None => Ok fallback
  | Some text =>
      match stod_all (to_chars text) with
      | Some value => Ok value
      | None => invalid (field +:+ " must be a finite number")
      end
  end.

Definition parse_port (field : string) (fallback : Z) : result Z :=
  match parameters !! field with
  | None => Ok fallback
  | Some text =>
      let error := invalid (field +:+ " must be an integer between 1 and 65535") in
      match stol_all (to_chars text) with
      | Some value => if (value <? 1) || (65535 <? value) then error else Ok value
      | None => error
      end
  end.

Definition parse_bool (field : string) (fallback : bool) : result bool :=
  match parameters !! field with
  | None => Ok fallback
  | Some text =>
      if bool_decide (text = "true") || bool_decide (text = "True") then Ok true
      else if bool_decide (text = "false") || bool_decide (text = "False") then Ok false
      else invalid (field +:+ " must be true or false")
  end.
End Parse.

Definition is_ascii_letter (c : ascii) : bool :=
  let n := code c in (((97 <=? n) && (n <=? 122)) || ((65 <=? n) && (n <=? 90)))%N.
Definition is_ascii_digit (c : ascii) : bool := let n := code c in ((48 <=? n) && (n <=? 57))%N.

Definition is_ros_name_token (name : chars) : bool :=
  match name with
  | [] => false
  | first :: _ =>
      (is_ascii_letter first || is_char "_" first) &&
      forallb (λ c, is_ascii_letter c || is_ascii_digit c || is_char "_" c) name
  end.

Definition kLowerHex : chars := to_chars "0123456789abcdef".

Definition hex_byte (c : ascii) : chars :=
  let n := Z.of_N (code c) in
  [default zero (kLowerHex !! Z.to_nat (Z.shiftr n 4)); default zero (kLowerHex !! Z.to_nat (Z.land n 15))].

Definition collision_safe_name_token (sensor_name : chars) : chars :=
  if is_ros_name_token sensor_name && negb (has_prefix (to_chars kEncodedNamePrefix) sensor_name)
  then sensor_name
  else to_chars kEncodedNamePrefix ++ flat_map hex_byte sensor_name.

Definition auxiliary_node_name (ros_name_token : string) : string :=
  "netft_" +:+ ros_name_token +:+ "_hardware".

(** ** The description *)

Definition validate_interface (api : Api) (interface : InterfaceInfo) (name : string) : result unit :=
  if negb (bool_decide (i_name interface = name)) then
    invalid "state interfaces must be force.x, force.y, force.z, torque.x, torque.y, torque.z"
  else if (match api with Legacy => negb (bool_decide (i_data_type interface = "")) | Modern => true end) &&
          negb (bool_decide (i_data_type interface = "double")) then
    invalid "all state interfaces must use data_type double"
  else if (match api with Modern => negb (i_size interface =? 1) | Legacy => false end) then
    invalid "all state interfaces must be scalar (size 1)"
  else if negb (bool_decide (i_initial_value interface = "")) then
    match stod_all (to_chars (i_initial_value interface)) with
    | Some _ => Ok ()
    | None => invalid "state interface initial_value must be a finite double"
    end
  else Ok ().

Fixpoint validate_interfaces (api : Api) (interfaces : list InterfaceInfo) (names : list string)
    : result unit :=
  match interfaces, names with
  | i :: interfaces, n :: names => _ ← validate_interface api i n; validate_interfaces api interfaces names
  | _, _ => Ok ()
  end.

(** The result is [sensor_name_]. *)
Definition validate_hardware_info (api : Api) (info : HardwareInfo) : result string :=
  if negb (bool_decide (joints info = [])) || negb (bool_decide (gpios info = [])) ||
     negb (bool_decide (transmissions info = [])) then
    invalid "sensor hardware must not declare joints, GPIOs, or transmissions"
  else match sensors info with
  | [sensor] =>
      if bool_decide (c_name sensor = "") then invalid "sensor name must be non-empty"
      else if negb (bool_decide (length (state_interfaces sensor) = length kInterfaceNames)) then
        invalid "sensor must declare exactly six state interfaces"
      else
        _ ← validate_interfaces api (state_interfaces sensor) kInterfaceNames;
        Ok (c_name sensor)
  | _ => invalid "exactly one sensor is required"
  end.

(** ** The parameters *)

(** The members [parse_parameters] assigns. *)
Record Settings := mkSettings {
  client_config : Config; activation_timeout : double; hw_diagnostics_rate : double;
  hw_expected_rdt_rate : double; hw_rate_tolerance : double; ros_name_token : string;
  hw_allow_bias : bool; bias_service_name : string
}.

Section Parameters.
Context `{P : Platform}.
(** [rclcpp::expand_topic_or_service_name] for a service: the error it throws. *)
Context (expand : string → string → option string).
Context (clock : nat → Z).

Definition parse_client_config (parameters : gmap string string) : result Config :=
  let config := default_config <| sensor_host ::= λ h, default h (parameters !! "sensor_ip") |> in
  _ ← ensure (negb (is_ascii_blank (to_chars (sensor_host config))))
             (InvalidArgument "sensor_ip must be non-empty");
  rdt ← parse_port parameters "sensor_port" (rdt_port config);
  http ← parse_port parameters "http_port" (http_port config);
  receive ← parse_double parameters "receive_timeout" (receive_timeout config);
  connect ← parse_double parameters "configuration_connect_timeout" (configuration_connect_timeout config);
  total ← parse_double parameters "configuration_timeout" (configuration_timeout config);
  use ← parse_bool parameters "use_sensor_calibration" true;
  override ←
    (if negb use then
       force ← parse_double parameters "counts_per_force" (b64_of_Z 1000000);
       torque ← parse_double parameters "counts_per_torque" (b64_of_Z 1000000);
       Ok (Some (mkCalibration force torque Newton NewtonMeter))
     else Ok None);
  let config := config
    <| rdt_port := rdt |> <| http_port := http |> <| receive_timeout := receive |>
    <| configuration_connect_timeout := connect |> <| configuration_timeout := total |>
    <| calibration_override := override |> <| recovery_policy := FailStop |> in
  _ ← validate_config clock config;
  Ok config.

(** [1.0e9L * activation_timeout_.count()]. *)
Definition timeout_nanoseconds (timeout : double) : spec_float :=
  ld_mul (ld_of_Z 1000000000) (ld_of_double timeout).

Definition parse_parameters (sensor_name : string) (parameters : gmap string string) : result Settings :=
  config ← parse_client_config parameters;
  activation ← parse_double parameters "activation_timeout" (b64_of_Z 2);
  diagnostics ← parse_double parameters "diagnostics_rate" (b64_of_Z 1);
  expected ← parse_double parameters "expected_rdt_rate" (b64_of_Z 2000);
  tolerance ← parse_double parameters "rate_tolerance" (b64_ratio 1 5);
  bias_allowed ← parse_bool parameters "allow_bias" true;
  let token := of_chars (collision_safe_name_token (to_chars sensor_name)) in
  let service := default ("/" +:+ token +:+ "/bias") (parameters !! "bias_service") in
  if SFleb activation d0 || SFleb (ld_of_Z INT64_MAX) (timeout_nanoseconds activation) then
    invalid "activation_timeout must be greater than zero"
  else if SFleb diagnostics d0 || period_out_of_range diagnostics then
    invalid "diagnostics_rate must be greater than zero"
  else if SFleb expected d0 then invalid "expected_rdt_rate must be greater than zero"
  else if SFltb tolerance d0 || SFltb (b64_of_Z 1) tolerance then
    invalid "rate_tolerance must be between zero and one"
  else match expand service (auxiliary_node_name token) with
  | Some what => invalid ("bias_service must be a valid ROS service name: " +:+ what)
  | None => Ok (mkSettings config activation diagnostics expected tolerance token bias_allowed service)
  end.

(** The part of [on_init] behind the base class: the exceptions become [ERROR].
    The result is [sensor_name_] and the settings. *)
Definition on_init (api : Api) (info : HardwareInfo) : result (string * Settings) :=
  name ← validate_hardware_info api info;
  settings ← parse_parameters name (hardware_parameters info);
  Ok (name, settings).
End Parameters.

Definition six_axes : list InterfaceInfo := (λ n, mkInterfaceInfo n "double" 1 "") <$> kInterfaceNames.
Definition sample_hardware : HardwareInfo :=
  mkHardwareInfo [] [mkComponentInfo "wrist ft" six_axes] [] []
    (<["receive_timeout" := "0.05"]> (<["use_sensor_calibration" := "False"]> ∅)).

Example sample_hardware_accepted :
  (λ r, (fst r, ros_name_token (snd r), bias_service_name (snd r))) <$>
    match on_init (P := linux_x86_64) (λ _ _, None) (λ _, 1000000) Modern sample_hardware with
    | Ok r => Some r | Throw _ => None end =
  Some ("wrist ft", "netft_encoded_7772697374206674", "/netft_encoded_7772697374206674/bias").
Proof. vm_compute. reflexivity. Qed.

(** ** Name tokens *)

(** Reading two hexadecimal digits inverts [hex_byte]. *)
Definition unhex (h l : ascii) : option ascii :=
  a ← digit_value 16 h; b ← digit_value 16 l; Some (ascii_of_N (Z.to_N (16 * a + b))).

Lemma hex_byte_unhex c :
  ∃ h l, hex_byte c = [h; l] ∧ unhex h l = Some c ∧ is_ascii_letter h || is_ascii_digit h = true ∧
         is_ascii_letter l || is_ascii_digit l = true.
Proof.
  assert (match hex_byte c with
          | [h; l] => match unhex h l with Some c' => Ascii.eqb c' c | None => false end &&
                      (is_ascii_letter h || is_ascii_digit h) && (is_ascii_letter l || is_ascii_digit l)
          | _ => false
          end = true) as H by (destruct c as [[] [] [] [] [] [] [] []]; vm_compute; reflexivity).
  destruct (hex_byte c) as [|h [|l [|]]]; try done. exists h, l.
  apply andb_prop in H as [[H ?]%andb_prop ?]. destruct (unhex h l) as [c'|]; [|done].
  by apply Ascii.eqb_eq in H as ->.
Qed.

Lemma hex_injective a b : flat_map hex_byte a = flat_map hex_byte b → a = b.
Proof.
  revert b. induction a as [|x a IH]; intros [|y b]; cbn [flat_map]; [done|..].
  1: destruct (hex_byte_unhex y) as (? & ? & -> & _); done.
  1: destruct (hex_byte_unhex x) as (? & ? & -> & _); done.
  destruct (hex_byte_unhex x) as (h1 & l1 & -> & Hx & _), (hex_byte_unhex y) as (h2 & l2 & -> & Hy & _).
  intros [= -> -> H]. f_equal; [congruence|by apply IH].
Qed.

Lemma has_prefix_self p l : has_prefix p (p ++ l) = true.
Proof. induction p as [|c p IH]; [done|]. cbn [app has_prefix]. by rewrite Ascii.eqb_refl. Qed.

Definition token_char (c : ascii) : bool := is_ascii_letter c || is_ascii_digit c || is_char "_" c.

Lemma hex_token l : forallb token_char (flat_map hex_byte l) = true.
Proof.
  induction l as [|c l IH]; [done|]. cbn [flat_map].
  destruct (hex_byte_unhex c) as (h & d & -> & _ & Hh & Hd). cbn [app forallb].
  unfold token_char at 1 2. by rewrite Hh, Hd.
Qed.

(** The name token of an instance is always a valid ROS name, a valid name
    outside the reserved prefix is its own token, and two sensors never share a
    token: instances with different names cannot collide in node or service names. *)
Theorem collision_safe_name_token_spec :
  (∀ s, is_ros_name_token (collision_safe_name_token s) = true) ∧
  (∀ s, is_ros_name_token s = true → has_prefix (to_chars kEncodedNamePrefix) s = false →
        collision_safe_name_token s = s) ∧
  (∀ s t, collision_safe_name_token s = collision_safe_name_token t → s = t).
Proof.
  split_and!.
  - intros s. unfold collision_safe_name_token. case_split; [by apply andb_prop in Heqb as [? _]|].
    change (forallb token_char (to_chars kEncodedNamePrefix ++ flat_map hex_byte s) = true).
    by rewrite forallb_app, hex_token.
  - intros s Hs Hp. unfold collision_safe_name_token. by rewrite Hs, Hp.
  - intros s t. unfold collision_safe_name_token.
    destruct (is_ros_name_token s && _) eqn:Hs, (is_ros_name_token t && _) eqn:Ht; intros H; [done|..].
    + apply andb_prop in Hs as [_ Hs]. by rewrite H, has_prefix_self in Hs.
    + apply andb_prop in Ht as [_ Ht]. by rewrite <- H, has_prefix_self in Ht.
    + apply app_inv_head in H. by apply hex_injective.
Qed.

(** ** What an accepted description gives *)

(** The interface contract: name, type and, in the modern API, a scalar. *)
Definition interface_ok (api : Api) (i : InterfaceInfo) (name : string) : Prop :=
  i_name i = name ∧
  (i_data_type i = "double" ∨ api = Legacy ∧ i_data_type i = "") ∧
  (api = Modern → i_size i = 1) ∧
  (i_initial_value i = "" ∨ is_Some (stod_all (to_chars (i_initial_value i)))).

Lemma validate_interface_ok api i n u : validate_interface api i n = Ok u → interface_ok api i n.
Proof.
  unfold validate_interface, invalid. intros H. inv_ok.
  repeat match goal with Hb : bool_decide _ = true |- _ => apply bool_decide_eq_true in Hb end.
  split; [done|]. split.
  { destruct api; cbn [andb] in *; [|left; by destruct (bool_decide_reflect (i_data_type i = "double"))].
    destruct (bool_decide_reflect (i_data_type i = "")); [by right|].
    left. by destruct (bool_decide_reflect (i_data_type i = "double")). }
  split; [intros ->; by apply Z.eqb_eq, negb_false_iff|].
  destruct (bool_decide_reflect (i_initial_value i = "")); [by left|]. cbn [negb] in H.
  right. by destruct (stod_all _).
Qed.

Lemma validate_interfaces_ok api is_ names u :
  length is_ = length names → validate_interfaces api is_ names = Ok u →
  Forall2 (interface_ok api) is_ names.
Proof.
  revert names u. induction is_ as [|i is_ IH]; intros [|n names] u Hl H; try done.
  cbn [validate_interfaces] in H. inv_ok. constructor; [by eapply validate_interface_ok|].
  eapply IH; [by injection Hl|done].
Qed.

Lemma validate_hardware_info_ok api info name :
  validate_hardware_info api info = Ok name →
  ∃ sensor, sensors info = [sensor] ∧ c_name sensor = name ∧ name ≠ "" ∧
    joints info = [] ∧ gpios info = [] ∧ transmissions info = [] ∧
    Forall2 (interface_ok api) (state_interfaces sensor) kInterfaceNames.
Proof.
  unfold validate_hardware_info, invalid. intros H. inv_ok.
  repeat match goal with Hb : bool_decide _ = true |- _ => apply bool_decide_eq_true in Hb end.
  destruct (sensors info) as [|sensor [|]]; try done. inv_ok. subst name.
  exists sensor. split_and!; try done.
  apply bool_decide_eq_true in Hb0. by eapply validate_interfaces_ok.
Qed.

Section InitProperties.
Context `{P : Platform}.

Lemma parse_client_config_ok clock parameters c :
  parse_client_config clock parameters = Ok c →
  validate_config clock c = Ok () ∧ recovery_policy c = FailStop ∧
  sensor_host c = default (sensor_host default_config) (parameters !! "sensor_ip").
Proof.
  unfold parse_client_config. intros H. inv_ok.
  match goal with H : validate_config _ _ = Ok ?u |- _ => destruct u end. subst c.
  by split_and!.
Qed.

Lemma parse_double_finite parameters field fallback v :
  isfinite fallback = true → parse_double parameters field fallback = Ok v → isfinite v = true.
Proof.
  unfold parse_double. intros Hf H. destruct (parameters !! field) as [t|]; [|by simplify_eq].
  destruct (stod_all (to_chars t)) as [x|] eqn:E; simplify_eq. by apply stod_all_valid in E as [_ ?].
Qed.

(** C33: an accepted hardware description has exactly one named sensor with the
    six scalar interfaces in order and nothing else, and its parameters give a
    validated fail-stop client, a positive activation timeout and a diagnostics
    period that fit 64-bit nanoseconds, a tolerance between 0 and 1, and a bias service
    name that expands for the node of the collision-free name token. *)
Theorem on_init_sound expand clock api info name s :
  on_init expand clock api info = Ok (name, s) →
  (∃ sensor, sensors info = [sensor] ∧ c_name sensor = name ∧ name ≠ "" ∧
     joints info = [] ∧ gpios info = [] ∧ transmissions info = [] ∧
     Forall2 (interface_ok api) (state_interfaces sensor) kInterfaceNames) ∧
  validate_config clock (client_config s) = Ok () ∧ recovery_policy (client_config s) = FailStop ∧
  (∃ m e, activation_timeout s = S754_finite false m e) ∧
  SFleb (ld_of_Z INT64_MAX) (timeout_nanoseconds (activation_timeout s)) = false ∧
  1 ≤ fl_trunc (period_nanoseconds (hw_diagnostics_rate s)) ≤ INT64_MAX ∧
  (∃ m e, hw_expected_rdt_rate s = S754_finite false m e) ∧
  SFleb d0 (hw_rate_tolerance s) = true ∧ SFleb (hw_rate_tolerance s) (b64_of_Z 1) = true ∧
  ros_name_token s = of_chars (collision_safe_name_token (to_chars name)) ∧
  expand (bias_service_name s) (auxiliary_node_name (ros_name_token s)) = None.
Proof.
  unfold on_init. intros H. apply bind_ok in H as (n & Hn & H). apply bind_ok in H as (st & Hs & H).
  injection H as -> ->.
  split; [by apply validate_hardware_info_ok|]. unfold parse_parameters, invalid in *. inv_ok.
  repeat match goal with
  | H : parse_double _ _ _ = Ok _ |- _ => apply parse_double_finite in H; [|by vm_compute]
  | H : parse_client_config _ _ = Ok _ |- _ => apply parse_client_config_ok in H as (? & ? & _)
  end.
  match goal with H : match expand ?a ?b with _ => _ end = _ |- _ =>
    destruct (expand a b) eqn:He; [done|]; injection H as <- end.
  cbn [client_config activation_timeout hw_diagnostics_rate hw_expected_rdt_rate hw_rate_tolerance
       ros_name_token bias_service_name].
  assert (∀ v, isfinite v = true → SFleb v d0 = false → ∃ m e, v = S754_finite false m e) as Hpos.
  { intros [| | |[] m e]; try done. eauto. }
  split_and!; try done; try by apply Hpos.
  - by apply period_in_range.
  - by apply period_in_range.
  - apply SFltb_false_leb; [|done|done]. by match goal with |- is_nan ?v = false => destruct v end.
  - apply SFltb_false_leb; [done| |done]. by match goal with |- is_nan ?v = false => destruct v end.
Qed.
End InitProperties.

Lemma on_init_sound_witness :
  recovery_policy (client_config (snd (match
    on_init (P := linux_x86_64) (λ _ _, None) (λ _, 1000000) Modern sample_hardware with
    | Ok r => r | Throw _ => ("", mkSettings default_config d0 d0 d0 d0 "" true "") end))) = FailStop.
Proof.
  destruct (on_init (P := linux_x86_64) (λ _ _, None) (λ _, 1000000) Modern sample_hardware) as [[name s]|e] eqn:E.
  - destruct (on_init_sound (P := linux_x86_64) _ _ _ _ _ _ E) as (_ & _ & H & _). exact H.
  - vm_compute in E. discriminate.
Defined.
