(* ===== verification/Auxiliary.v ===== *)
(** * The auxiliary thread of the plugin

    [start_auxiliary], [stop_auxiliary] and the thread between them
    ([netft_hardware_interface.cpp]): the diagnostics timer and the bias service run
    on a thread of their own, on resources that the lifecycle callbacks of the
    controller manager create and destroy.  Each statement of the manager's thread
    and of the auxiliary thread is a step; the two interleave freely.  rclcpp is
    external: whether a call throws and what [spin_once] runs are choices of the
    step. *)

From stdpp Require Import gmap.
From S2P Require Import Prelude.

(** ** State *)

(** What the callbacks of the auxiliary thread use, and what keeps them going. *)
Inductive Resource :=
  | RClient | REvaluator | RNode | RPublisher | RService | RTimer | RExecutor.
#[export] Instance Resource_eq_dec : EqDecision Resource.
Proof. solve_decision. Defined.
#[export] Instance Resource_countable : Countable Resource.
Proof.
  refine (inj_countable'
    (λ r, match r with RClient => 0 | REvaluator => 1 | RNode => 2 | RPublisher => 3
                     | RService => 4 | RTimer => 5 | RExecutor => 6 end%nat)
    (λ n, match n with 0 => RClient | 1 => REvaluator | 2 => RNode | 3 => RPublisher
                     | 4 => RService | 5 => RTimer | _ => RExecutor end%nat) _).
  by intros [].
Defined.

(** The auxiliary thread: at the test of its loop, inside [spin_once], inside a
    callback that [spin_once] runs, in the handler of an exception, at its end. *)
Inductive Position := ATest | ASpin | ACallback (uses : gset Resource) | ACatch | AEnded.

(** The statements of the manager's thread; [throws] names the resource whose
    creation may throw. *)
Inductive Stmt :=
  | CreateResource (r : Resource)
  | ResetResource (r : Resource)
  | AddNode
  | ClearStopping
  | StartThread
  | SetStopping
  | CancelExecutor
  | JoinThread
  | RemoveNode
  | StopClient.

(** [auxiliary_thread_] is [None] when not joinable. *)
Record Auxiliary := mkAuxiliary {
  present : gset Resource;
  auxiliary_stopping_ : bool;
  auxiliary_thread_ : option Position;
  callback_fault : bool;              (* [latch_fatal_fault(FaultCode::Callback)] *)
  pending : list Stmt
}.

#[export] Instance eta_Auxiliary : Eta Auxiliary := λ a,
  mkAuxiliary (present a) (auxiliary_stopping_ a) (auxiliary_thread_ a) (callback_fault a) (pending a).

Definition aux_init : Auxiliary := mkAuxiliary ∅ false None false [].

(** ** The lifecycle callbacks *)

Definition stop_statements : list Stmt :=
  [SetStopping; CancelExecutor; JoinThread; RemoveNode; ResetResource RTimer; ResetResource RService;
   ResetResource RPublisher; ResetResource RExecutor; ResetResource RNode; ResetResource REvaluator].

Definition start_statements (allow_bias : bool) : list Stmt :=
  [CreateResource REvaluator; CreateResource RNode; CreateResource RPublisher] ++
  (if allow_bias then [CreateResource RService] else []) ++
  [CreateResource RTimer; CreateResource RExecutor; AddNode; ClearStopping; StartThread].

Inductive Call := CConfigure (allow_bias : bool) | CStop | CCleanup | CShutdown | CDestroy.

(** [on_configure]; [on_deactivate], [on_error] and a failing [on_activate]
    ([CStop]); [on_cleanup]; [on_shutdown]; the destructor. *)
Definition statements (c : Call) : list Stmt :=
  match c with
  | CConfigure allow_bias =>
      stop_statements ++ [StopClient; ResetResource RClient; CreateResource RClient] ++ start_statements allow_bias
  | CStop => [StopClient]
  | CCleanup | CShutdown => [StopClient] ++ stop_statements ++ [ResetResource RClient]
  | CDestroy => stop_statements ++ [StopClient; ResetResource RClient]
  end.

(** The handler of [on_configure]. *)
Definition handler : list Stmt := stop_statements ++ [ResetResource RClient].

(** Statements whose exceptions the handler catches. *)
Definition may_throw (s : Stmt) : bool :=
  match s with CreateResource _ | AddNode | StartThread => true | _ => false end.

(** ** Steps *)

(** What the two callbacks touch: the timer's [publish_diagnostics] and the bias
    service. *)
Definition timer_uses : gset Resource := {[RClient; REvaluator; RPublisher; RNode]}.
Definition service_uses : gset Resource := {[RClient]}.

(** One statement; [None] while [join] waits. *)
Definition statement (s : Stmt) (throws : bool) (a : Auxiliary) : option Auxiliary :=
  if throws && may_throw s then Some (a <| pending := handler |>)
  else match s with
  | CreateResource r => Some (a <| present ::= union {[r]} |>)
  | ResetResource r => Some (a <| present ::= λ p, p ∖ {[r]} |>)
  | ClearStopping => Some (a <| auxiliary_stopping_ := false |>)
  | StartThread => Some (a <| auxiliary_thread_ := Some ATest |>)
  | SetStopping => Some (a <| auxiliary_stopping_ := true |>)
  | JoinThread =>
      match auxiliary_thread_ a with
      | None | Some AEnded => Some (a <| auxiliary_thread_ := None |>)
      | Some _ => None
      end
  | AddNode | CancelExecutor | RemoveNode | StopClient => Some a
  end.

(** What [spin_once] does. *)
Inductive Spin := SpinNothing | SpinTimer | SpinService | SpinThrows.

(** The loop of the auxiliary thread. *)
Definition auxiliary_thread (spin : Spin) (a : Auxiliary) : option Auxiliary :=
  match auxiliary_thread_ a with
  | Some ATest => Some (a <| auxiliary_thread_ := Some (if auxiliary_stopping_ a then AEnded else ASpin) |>)
  | Some ASpin =>
      match spin with
      | SpinNothing => Some (a <| auxiliary_thread_ := Some ATest |>)
      | SpinTimer => Some (a <| auxiliary_thread_ := Some (ACallback timer_uses) |>)
      | SpinService =>
          if bool_decide (RService ∈ present a)
          then Some (a <| auxiliary_thread_ := Some (ACallback service_uses) |>) else None
      | SpinThrows => Some (a <| auxiliary_thread_ := Some ACatch |>)
      end
  | Some (ACallback _) =>
      Some (a <| auxiliary_thread_ := Some match spin with SpinThrows => ACatch | _ => ATest end |>)
  | Some ACatch =>
      let fault := if auxiliary_stopping_ a then callback_fault a else true in
      Some (a <| callback_fault := fault |> <| auxiliary_thread_ := Some AEnded |>)
  | Some AEnded | None => None
  end.

Inductive AuxLabel := ACall (c : Call) | AManager (throws : bool) | AThread (spin : Spin).

Definition aux_step (l : AuxLabel) (a : Auxiliary) : option Auxiliary :=
  match l with
  | ACall c => match pending a with [] => Some (a <| pending := statements c |>) | _ => None end
  | AManager throws =>
      match pending a with
      | [] => None
      | s :: rest => statement s throws (a <| pending := rest |>)
      end
  | AThread spin => auxiliary_thread spin a
  end.

Inductive aux_execution : Auxiliary → Prop :=
  | aux_start : aux_execution aux_init
  | aux_next l a a' : aux_execution a → aux_step l a = Some a' → aux_execution a'.

Fixpoint aux_run (labels : list AuxLabel) (a : Auxiliary) : option Auxiliary :=
  match labels with [] => Some a | l :: labels => a ← aux_step l a; aux_run labels a end.

(** ** The discipline of the statements *)

(** Statements that a running auxiliary thread must not see. *)
Definition exclusive (s : Stmt) : bool :=
  match s with CreateResource _ | ResetResource _ | AddNode | RemoveNode | StartThread | ClearStopping => true | _ => false end.

(** What the loop and the callbacks rely on. *)
Definition needed : gset Resource := {[RClient; REvaluator; RNode; RPublisher; RTimer; RExecutor]}.

(** [rest] is safe to run when there may be a thread or not, [stopping] is set or
    not and the resources of [have] are there. *)
Fixpoint disciplined (thread stopping : bool) (have : gset Resource) (rest : list Stmt) : bool :=
  match rest with
  | [] => true
  | s :: rest =>
      negb (exclusive s && thread) &&
      match s with
      | CreateResource r => disciplined thread stopping ({[r]} ∪ have) rest
      | ResetResource r => disciplined thread stopping (have ∖ {[r]}) rest
      | StartThread => bool_decide (needed ⊆ have) && disciplined true stopping have rest
      | SetStopping => disciplined thread true have rest
      | ClearStopping => disciplined thread false have rest
      | JoinThread => stopping && disciplined false stopping have rest
      | _ => disciplined thread stopping have rest
      end
  end.

Ltac discipline := cbn; rewrite ?andb_true_r; try done; apply bool_decide_eq_true_2; set_solver.

Lemma call_disciplined c thread stopping have : disciplined thread stopping have (statements c) = true.
Proof. destruct c as [[]| | | |], thread, stopping; discipline. Qed.

Lemma handler_disciplined thread stopping have : disciplined thread stopping have handler = true.
Proof. by destruct thread, stopping. Qed.

(** ** The invariant *)

Definition has_thread (a : Auxiliary) : bool := bool_decide (is_Some (auxiliary_thread_ a)).

Record AuxInv (a : Auxiliary) : Prop := {
  aux_rest : disciplined (has_thread a) (auxiliary_stopping_ a) (present a) (pending a) = true;
  aux_needed p : auxiliary_thread_ a = Some p → needed ⊆ present a;
  aux_uses uses : auxiliary_thread_ a = Some (ACallback uses) → uses ⊆ present a
}.

Lemma manager_inv throws s rest a a' :
  AuxInv a → pending a = s :: rest → statement s throws (a <| pending := rest |>) = Some a' → AuxInv a'.
Proof.
  intros [H1 H2 H3] Hp. rewrite Hp in H1. cbn [disciplined] in H1. apply andb_prop in H1 as [Hex H1].
  unfold statement. case_split.
  { intros [= <-]. split; [apply handler_disciplined|exact H2|exact H3]. }
  destruct a as [have stopping thread fault pend]. cbn in *.
  destruct s; cbn in *; try (intros [= <-]); try by split.
  - apply negb_true_iff in Hex. split; cbn in *; [done|..]; intros; destruct thread; try done; set_solver.
  - apply negb_true_iff in Hex. split; cbn in *; [done|..]; intros; destruct thread; try done; set_solver.
  - apply andb_prop in H1 as [Hn%bool_decide_eq_true H1].
    split; cbn; [done| |done]. intros p [= <-]. exact Hn.
  - apply andb_prop in H1 as [Hs H1]. destruct thread as [[]|]; try done; intros [= <-]; by split.
Qed.

Lemma thread_inv spin a a' : AuxInv a → auxiliary_thread spin a = Some a' → AuxInv a'.
Proof.
  intros [H1 H2 H3]. unfold auxiliary_thread. destruct (auxiliary_thread_ a) as [p|] eqn:Ht; [|done].
  assert (needed ⊆ present a) as Hn by (by eapply H2).
  assert (∀ p', (∀ uses, p' = ACallback uses → uses ⊆ present a) →
    ∀ fault, AuxInv (a <| callback_fault := fault |> <| auxiliary_thread_ := Some p' |>)) as Hok.
  { intros p' Hp' fault. split; cbn.
    - unfold has_thread in *. cbn. rewrite Ht in H1. exact H1.
    - done.
    - intros uses [= ->]. by apply Hp'. }
  assert (∀ p', (∀ uses, p' = ACallback uses → uses ⊆ present a) →
    AuxInv (a <| auxiliary_thread_ := Some p' |>)) as Hok'.
  { intros p' Hp'. destruct a. by apply (Hok p' Hp'). }
  destruct p; try done.
  - intros [= <-]. apply Hok'. by case_split.
  - destruct spin; try (case_split; [|done]); intros [= <-]; apply Hok'; intros uses; try done.
    + intros [= <-]. unfold timer_uses, needed in *. set_solver.
    + intros [= <-]. unfold service_uses, needed in *. set_solver.
  - intros [= <-]. apply Hok'. by destruct spin.
  - intros [= <-]. by apply Hok.
Qed.

Lemma aux_step_inv l a a' : AuxInv a → aux_step l a = Some a' → AuxInv a'.
Proof.
  intros Hi. destruct l as [c|throws|spin]; cbn [aux_step].
  - destruct (pending a) eqn:Hp; [|done]. intros [= <-]. destruct Hi as [_ H2 H3].
    split; [apply call_disciplined|exact H2|exact H3].
  - destruct (pending a) as [|s rest] eqn:Hp; [done|]. by apply manager_inv.
  - by apply thread_inv.
Qed.

Lemma aux_execution_inv a : aux_execution a → AuxInv a.
Proof. induction 1 as [|l a a' _ IH Hs]; [by split|by eapply aux_step_inv]. Qed.

(** ** Properties *)

(** C19: the auxiliary thread has its resources to itself: while the thread exists,
    everything its loop and its callbacks use is there, the client included, and a
    callback in progress keeps what it uses until it ends; and whenever the
    manager's thread is about to create or destroy one of these, to clear the stop
    flag or to start a thread, there is no auxiliary thread (so a running thread is
    never overwritten), whatever rclcpp throws. *)
Theorem auxiliary_exclusive a :
  aux_execution a →
  (∀ p, auxiliary_thread_ a = Some p → needed ⊆ present a) ∧
  (∀ uses, auxiliary_thread_ a = Some (ACallback uses) → uses ⊆ present a) ∧
  (∀ s rest, pending a = s :: rest → exclusive s = true → auxiliary_thread_ a = None).
Proof.
  intros Hx. destruct (aux_execution_inv a Hx) as [H1 H2 H3]. split_and!; [done..|].
  intros s rest Hp Hs. rewrite Hp in H1. cbn in H1. rewrite Hs in H1.
  apply andb_prop in H1 as [H1 _]. apply negb_true_iff, bool_decide_eq_false in H1.
  destruct (auxiliary_thread_ a); [destruct H1; by eexists|done].
Qed.

(** Steps of the auxiliary thread until it sees the stop flag. *)
Definition thread_left (a : Auxiliary) : nat :=
  match auxiliary_thread_ a with
  | Some ATest | Some ACatch => 1 | Some (ACallback _) => 2 | Some ASpin => 3 | Some AEnded | None => 0
  end.

(** What the statements leave when none throws. *)
Fixpoint left_over (have : gset Resource) (rest : list Stmt) : gset Resource :=
  match rest with
  | [] => have
  | CreateResource r :: rest => left_over ({[r]} ∪ have) rest
  | ResetResource r :: rest => left_over (have ∖ {[r]}) rest
  | _ :: rest => left_over have rest
  end.
Fixpoint thread_over (thread : bool) (rest : list Stmt) : bool :=
  match rest with
  | [] => thread
  | JoinThread :: rest => thread_over false rest
  | StartThread :: rest => thread_over true rest
  | _ :: rest => thread_over thread rest
  end.

(** A call comes to its end, or to that of the handler if it [can] throw. *)
Definition comes_to (can : bool) (have : gset Resource) (thread : bool) (a : Auxiliary) : Prop :=
  (left_over (present a) (pending a) = have ∧ thread_over (has_thread a) (pending a) = thread ∧
   (can = false → forallb (λ s, negb (may_throw s)) (pending a) = true)) ∨
  (can = true ∧ left_over (present a) (pending a) = ∅ ∧ thread_over (has_thread a) (pending a) = false).

Lemma handler_over have thread : left_over have handler = ∅ ∧ thread_over thread handler = false.
Proof. split; [|done]. cbn. apply set_eq. intros []; set_solver. Qed.

Lemma comes_to_step l can have thread a a' :
  (∀ c, l ≠ ACall c) → comes_to can have thread a → aux_step l a = Some a' → comes_to can have thread a'.
Proof.
  intros Hl Hc. destruct l as [c|throws|spin]; [by destruct (Hl c)|..]; cbn [aux_step].
  - unfold comes_to in Hc. destruct (pending a) as [|s rest] eqn:Hp; [done|]. unfold statement. case_split.
    { intros [= <-]. right. split; [|apply handler_over].
      apply andb_prop in Heqb as [_ Ht]. destruct can; [done|].
      destruct Hc as [(_ & _ & Hcan)|[? _]]; [|done]. specialize (Hcan eq_refl). cbn in Hcan. by rewrite Ht in Hcan. }
    assert (can = false → forallb (λ s, negb (may_throw s)) rest = true) as Hrest.
    { intros ->. destruct Hc as [(_ & _ & Hcan)|[? _]]; [|done]. specialize (Hcan eq_refl).
      by apply andb_prop in Hcan as [_ ?]. }
    unfold has_thread in Hc. destruct a as [h st th fault pend]. cbn in *.
    assert (∀ h' th', left_over h' rest = left_over h (s :: rest) →
      thread_over (bool_decide (is_Some th')) rest = thread_over (bool_decide (is_Some th)) (s :: rest) →
      ∀ st' f', comes_to can have thread (mkAuxiliary h' st' th' f' rest)) as Hgo.
    { intros h' th' Eh Et st' f'. unfold comes_to, has_thread. cbn [present pending auxiliary_thread_].
      rewrite Eh, Et. destruct Hc as [(? & ? & _)|?]; [left|right]; auto. }
    destruct s; cbn in *; try (intros [= <-]; by apply Hgo).
    destruct th as [[]|]; try done; intros [= <-]; by apply Hgo.
  - unfold auxiliary_thread, comes_to, has_thread in *.
    destruct (auxiliary_thread_ a) as [[]|] eqn:Ht; try done.
    + by intros [= <-].
    + destruct spin; try (case_split; [|done]); by intros [= <-].
    + by intros [= <-].
    + by intros [= <-].
Qed.

Lemma comes_to_run labels can have thread a a' :
  Forall (λ l, ∀ c, l ≠ ACall c) labels → comes_to can have thread a → aux_run labels a = Some a' →
  comes_to can have thread a'.
Proof.
  intros Hl. revert a. induction Hl as [|l labels Hl _ IH]; cbn; intros a Hc; [by intros [= <-]|].
  intros (a1 & Hs & Hr)%bind_Some. eapply IH; [|done]. by eapply comes_to_step.
Qed.

Lemma aux_run_execution labels a a' : aux_execution a → aux_run labels a = Some a' → aux_execution a'.
Proof.
  revert a. induction labels as [|l labels IH]; cbn; intros a Hx; [by intros [= <-]|].
  intros (a1 & Hs & Hr)%bind_Some. eapply IH; [|done]. by eapply aux_next.
Qed.

(** A statement runs, or [join] waits for a thread that sees the stop flag. *)
Lemma pending_moves a :
  AuxInv a → pending a ≠ [] →
  is_Some (aux_step (AManager false) a) ∨
  auxiliary_stopping_ a = true ∧ is_Some (aux_step (AThread SpinNothing) a) ∧
  (thread_left a ≤ 3)%nat ∧
  ∀ spin a', aux_step (AThread spin) a = Some a' → (thread_left a' < thread_left a)%nat.
Proof.
  intros [H1 _ _] Hne. cbn [aux_step]. destruct (pending a) as [|s rest] eqn:Hp; [done|]. clear Hne.
  destruct s; try (left; by eexists). cbn in H1. apply andb_prop in H1 as [Hst _].
  unfold statement, thread_left, auxiliary_thread. cbn. rewrite Hst.
  destruct (auxiliary_thread_ a) as [[]|]; try (left; by eexists); right;
    (split_and!; [done|by eexists|lia|]); intros spin a'; try (intros [= <-]; cbn; try destruct spin; lia).
  destruct spin; try (case_split; [|done]); intros [= <-]; cbn; lia.
Qed.

(** C20: every call of the controller manager that makes, stops or destroys the auxiliary
    resources ends, and leaves all or nothing (the rest of an activation calls nothing of
    them): a call that has statements left can run the next one, or waits in [join] for a
    thread that was told to stop, can always make a step and ends within three of
    its own; when it is over, a configuration has started the thread with
    everything it needs or, if anything threw, has left no resource and no thread;
    cleanup, shutdown and destruction leave no resource and no thread. *)
Theorem auxiliary_calls_end a c a1 labels a2 :
  aux_execution a → aux_step (ACall c) a = Some a1 → Forall (λ l, ∀ c, l ≠ ACall c) labels →
  aux_run labels a1 = Some a2 →
  (pending a2 ≠ [] →
     is_Some (aux_step (AManager false) a2) ∨
     auxiliary_stopping_ a2 = true ∧ is_Some (aux_step (AThread SpinNothing) a2) ∧
     (thread_left a2 ≤ 3)%nat ∧
     ∀ spin a3, aux_step (AThread spin) a2 = Some a3 → (thread_left a3 < thread_left a2)%nat) ∧
  (pending a2 = [] →
     match c with
     | CConfigure _ =>
         (needed ⊆ present a2 ∧ has_thread a2 = true) ∨ (present a2 = ∅ ∧ has_thread a2 = false)
     | CStop => present a2 = present a ∧ has_thread a2 = has_thread a
     | CCleanup | CShutdown | CDestroy => present a2 = ∅ ∧ has_thread a2 = false
     end).
Proof.
  intros Hx Hc Hl Hr. pose proof (aux_next _ _ _ Hx Hc) as Hx1.
  pose proof (aux_execution_inv _ (aux_run_execution _ _ _ Hx1 Hr)) as Hi. split; [by apply pending_moves|].
  intros Hend. cbn [aux_step] in Hc. destruct (pending a) eqn:Hp; [|done]. injection Hc as <-.
  set (can := match c with CConfigure _ => true | _ => false end).
  assert (comes_to can (left_over (present a) (statements c)) (thread_over (has_thread a) (statements c)) a2) as Hto.
  { eapply comes_to_run; [exact Hl| |exact Hr]. left. split_and!; [done..|]. by destruct c. }
  unfold comes_to in Hto. rewrite Hend in Hto. cbn [left_over thread_over] in Hto.
  destruct Hto as [(-> & -> & _)|(Hcan & -> & ->)].
  - destruct c as [[]| | | |]; cbn; split_and?; try done; try (left; split; [set_solver|done]);
      apply set_eq; intros []; set_solver.
  - subst can. destruct c; try done. by right.
Qed.

(** ** A concrete run

    A configuration, a bias request during a shutdown, and a configuration whose
    publisher cannot be created. *)

Definition quiet_manager (n : nat) : list AuxLabel := replicate n (AManager false).
Definition configured_labels : list AuxLabel := ACall (CConfigure true) :: quiet_manager 22.
Definition configured : Auxiliary := Eval vm_compute in default aux_init (aux_run configured_labels aux_init).
Definition shutdown_labels : list AuxLabel :=
  [AThread SpinNothing; AThread SpinService] ++ quiet_manager 3 ++ [AThread SpinNothing; AThread SpinNothing] ++
  quiet_manager 9.
Definition failed_labels : list AuxLabel := quiet_manager 15 ++ [AManager true] ++ quiet_manager 11.

Lemma configured_execution : aux_execution configured.
Proof. apply (aux_run_execution configured_labels aux_init); [constructor|vm_compute; reflexivity]. Qed.

Lemma auxiliary_exclusive_witness :
  auxiliary_thread_ configured = Some ATest ∧ needed ⊆ present configured.
Proof.
  split; [reflexivity|]. destruct (auxiliary_exclusive configured configured_execution) as [H _].
  exact (H ATest eq_refl).
Defined.

Definition after_call (c : Call) (a : Auxiliary) : Auxiliary := default aux_init (aux_step (ACall c) a).
Definition shut_down : Auxiliary := Eval vm_compute in
  default aux_init (aux_run shutdown_labels (after_call CShutdown configured)).
Definition failed : Auxiliary := Eval vm_compute in
  default aux_init (aux_run failed_labels (after_call (CConfigure true) aux_init)).

Lemma auxiliary_calls_end_witness :
  (present shut_down = ∅ ∧ has_thread shut_down = false) ∧
  (needed ⊆ present failed ∧ has_thread failed = true ∨ present failed = ∅ ∧ has_thread failed = false) ∧
  has_thread failed = false.
Proof.
  split.
  - destruct (auxiliary_calls_end configured CShutdown (after_call CShutdown configured) shutdown_labels shut_down
      configured_execution) as [_ H]; [reflexivity|repeat constructor; discriminate|vm_compute; reflexivity|].
    exact (H eq_refl).
  - destruct (auxiliary_calls_end aux_init (CConfigure true) (after_call (CConfigure true) aux_init) failed_labels failed
      aux_start) as [_ H]; [reflexivity|repeat constructor; discriminate|vm_compute; reflexivity|].
    split; [exact (H eq_refl)|reflexivity].
Defined.
