(* ===== verification/Hardware.v ===== *)
(** * The running ros2_control plugin

    The lifecycle, the real-time read and the diagnostics of
    [NetFTHardwareInterface] ([netft_hardware_interface.cpp]).  The plugin uses
    the client through the interface [DriverClient] of [ClientInterface.v].  The real-time buffer, the state
    interfaces and rclcpp are external: what they answer is an argument of the
    step.  The steps of the threads involved, the callback of the receiver thread, the
    auxiliary thread and the controller manager, interleave freely ([execution]). *)

From S2P Require Import Prelude Floating Types Status UnitConversion Diagnostics FaultLatch ClientImpl ClientInterface HardwareConfig.

(** ** The state *)

Definition kQuietNaN : double := S754_nan.
Definition initial_sample : SiSample := mkSiSample 0 0 0 [d0; d0; d0] [d0; d0; d0] 0 0.

Section Plugin.
Context {C : Type} `{DriverClient C}.

(** [handles] says which state handles are set (modern API), [axes] is what the
    controllers read; [evaluator_] is set exactly while the auxiliary node and
    its resources exist. *)
Record Plugin := mkPlugin {
  api : Api; sensor_name_ : string; settings_ : Settings;
  client_ : option C; evaluator_ : option DiagnosticEvaluator;
  auxiliary_stopping_ : bool;
  sample_generation_ : Z; interface_write_fault_ : bool; fatal_fault_ : FaultCode;
  handles : list bool; axes : list double
}.

#[export] Instance eta_Plugin : Eta Plugin := λ p,
  mkPlugin (api p) (sensor_name_ p) (settings_ p) (client_ p) (evaluator_ p) (auxiliary_stopping_ p)
    (sample_generation_ p) (interface_write_fault_ p) (fatal_fault_ p) (handles p) (axes p).

Inductive CallbackReturn := SUCCESS | ERROR.
Inductive ReadReturn := ReadOk | ReadError.

(** The answers of [set_state] for the axes. *)
Definition Writes : Type := nat → bool.

Definition latch_fatal_fault (fault : FaultCode) (p : Plugin) : Plugin :=
  if bool_decide (fatal_fault_ p = FaultNone) then p <| fatal_fault_ := fault |> else p.

(** Whether a fault is latched, and the plugin with the fault of the client. *)
Definition fault_latched (p : Plugin) : bool * Plugin :=
  match client_ p with
  | None => (true, p)
  | Some c =>
      let p := if client_faulted c && negb (bool_decide (client_fault_code c = FaultNone))
               then latch_fatal_fault (client_fault_code c) p else p in
      (negb (bool_decide (fatal_fault_ p = FaultNone)), p)
  end.

(** [duration_cast<nanoseconds>] of seconds in [double]. *)
Definition timeout_ns (seconds : double) : Z := fl_trunc (b64_mul seconds (b64_of_Z 1000000000)).

Definition sample_is_stale (now : Z) (sample : SiSample) (p : Plugin) : bool :=
  (si_received_at sample <=? 0) ||
  (timeout_ns (receive_timeout (client_config (settings_ p))) <? now - si_received_at sample).

(** The loop of [write_axes]: it stops at the first axis that refuses. *)
Fixpoint set_axes (ok : Writes) (index : nat) (values axes : list double) : bool * list double :=
  match values, axes with
  | v :: values, a :: axes =>
      if ok index then let '(b, rest) := set_axes ok (S index) values axes in (b, v :: rest)
      else (false, a :: axes)
  | _, _ => (true, axes)
  end.

Definition sample_values (sample : SiSample) : list double := si_force sample ++ si_torque sample.

Definition write_axes (ok : Writes) (sample : SiSample) (p : Plugin) : bool * Plugin :=
  match api p with
  | Legacy => (true, p <| axes := sample_values sample |>)
  | Modern =>
      let '(b, written) := set_axes ok 0 (sample_values sample) (axes p) in (b, p <| axes := written |>)
  end.

Definition invalidate_interfaces (ok : Writes) (p : Plugin) : Plugin :=
  match api p with
  | Legacy => p <| axes := replicate 6 kQuietNaN |>
  | Modern =>
      p <| axes := imap (λ index a,
             if default false (handles p !! index) && ok index then kQuietNaN else a) (axes p) |>
  end.

(** [read]: [sample] is the pointer the real-time buffer returns, [writes] and
    [resets] answer the writes of the sample and of the invalidation. *)
Definition read (now : Z) (sample : option SiSample) (writes resets : Writes) (p : Plugin)
    : ReadReturn * Plugin :=
  let '(latched, p) := fault_latched p in
  match sample with
  | Some sample =>
      if latched || interface_write_fault_ p then (ReadError, invalidate_interfaces resets p)
      else if negb (sample_is_finite sample) then
        (ReadError, invalidate_interfaces resets (latch_fatal_fault FaultSensorConfiguration p))
      else if sample_is_stale now sample p then
        (ReadError, invalidate_interfaces resets (latch_fatal_fault FaultTimeout p))
      else
        let '(written, p) := write_axes writes sample p in
        if negb written then
          (ReadError, invalidate_interfaces resets (p <| interface_write_fault_ := true |>))
        else (ReadOk, p)
  | None => (ReadError, invalidate_interfaces resets p)
  end.

(** The sample callback [on_activate] installs, on the receiver thread: what it
    writes to the buffer, or the exception it lets through. *)
Definition sample_callback (sample : Sample) (p : Plugin) : result SiSample * Plugin :=
  match to_si_sample sample with
  | Ok si => (Ok si, p <| sample_generation_ ::= incr |>)
  | Throw (InvalidArgument w) => (Throw (InvalidArgument w), latch_fatal_fault FaultSensorConfiguration p)
  | Throw e => (Throw e, p)
  end.

(** ** Lifecycle *)

Definition stop_auxiliary (p : Plugin) : Plugin :=
  p <| auxiliary_stopping_ := true |> <| evaluator_ := None |>.

(** [resources] is the outcome of the rclcpp calls; a failure leaves the
    evaluator set. *)
Definition start_auxiliary (resources : result unit) (p : Plugin) : result unit * Plugin :=
  match evaluator_create (hw_expected_rdt_rate (settings_ p)) (hw_rate_tolerance (settings_ p)) with
  | Throw e => (Throw e, p)
  | Ok evaluator =>
      let p := p <| evaluator_ := Some evaluator |> in
      match resources with
      | Throw e => (Throw e, p)
      | Ok _ => (Ok (), p <| auxiliary_stopping_ := false |>)
      end
  end.

(** [on_configure]: the previous client is stopped and destroyed; [created] is
    the outcome of the constructor of the new one. *)
Definition on_configure (created : result C) (resources : result unit) (resets : Writes) (p : Plugin)
    : CallbackReturn * Plugin :=
  let p := stop_auxiliary p <| client_ := None |> <| sample_generation_ := 0 |>
             <| interface_write_fault_ := false |> <| fatal_fault_ := FaultNone |> in
  let p := invalidate_interfaces resets p in
  match created with
  | Throw _ => (ERROR, stop_auxiliary p <| client_ := None |>)
  | Ok c =>
      let '(started, p) := start_auxiliary resources (p <| client_ := Some c |>) in
      match started with
      | Throw _ => (ERROR, stop_auxiliary p <| client_ := None |>)
      | Ok _ => (SUCCESS, p)
      end
  end.

(** [on_activate] up to the wait: [found] are the handles the framework gives
    before it throws, [started] the outcome of [start] with the client after it.  [None] is the
    wait for the first sample. *)
Definition activate_begin (found : list bool) (started : result unit * C) (resets : Writes) (p : Plugin)
    : option CallbackReturn * Plugin :=
  match client_ p with
  | None => (Some ERROR, p)
  | Some _ =>
      let missing := bool_decide (api p = Modern) && negb (length found =? 6)%nat in
      let p := if bool_decide (api p = Modern) then p <| handles := found ++ drop (length found) (handles p) |> else p in
      if missing then (Some ERROR, invalidate_interfaces resets p)
      else
        let p := invalidate_interfaces resets (p <| sample_generation_ := 0 |>) in
        let p := p <| client_ := Some (snd started) |> in
        match fst started with
        | Throw _ => (Some ERROR, invalidate_interfaces resets p)
        | Ok _ => (None, p)
        end
  end.

(** The state interfaces the legacy API exports, with the axis each shows, and the
    names under which [on_activate] asks for them with the modern one. *)
Definition export_state_interfaces (p : Plugin) : list (string * string * nat) :=
  imap (λ index name, (sensor_name_ p, name, index)) kInterfaceNames.
Definition handle_names (p : Plugin) : list string := (λ name, sensor_name_ p +:+ "/" +:+ name) <$> kInterfaceNames.

(** Both are the six axes, in the order of [axes]. *)
Lemma interfaces_agree p :
  (λ '(sensor, name, _), sensor +:+ "/" +:+ name) <$> export_state_interfaces p = handle_names p ∧
  snd <$> export_state_interfaces p = seq 0 6.
Proof. by split. Qed.

(** The rest, with the answer of [wait_for_first_sample] and the client once
    stopped; an exception of the wait leaves the function. *)
Definition activate_end (waited : result bool) (stopped : C) (resets : Writes) (p : Plugin)
    : result CallbackReturn * Plugin :=
  match waited, client_ p with
  | Throw e, _ => (Throw e, p)
  | Ok ready, Some c =>
      if negb ready || client_faulted c || (sample_generation_ p =? 0) then
        (Ok ERROR, invalidate_interfaces resets (p <| client_ := Some stopped |>))
      else (Ok SUCCESS, p)
  | Ok _, None => (Ok ERROR, p)
  end.

(** [stopped] is the client after [stop]. *)
Definition stop_and_invalidate (stopped : C) (resets : Writes) (p : Plugin) : Plugin :=
  invalidate_interfaces resets
    ((p <| client_ ::= λ c, match c with Some _ => Some stopped | None => None end |>)
       <| sample_generation_ := 0 |>).

Definition on_deactivate (stopped : C) (resets : Writes) (p : Plugin) : CallbackReturn * Plugin :=
  (SUCCESS, stop_and_invalidate stopped resets p).
Definition on_error (stopped : C) (resets : Writes) (p : Plugin) : CallbackReturn * Plugin :=
  (SUCCESS, stop_and_invalidate stopped resets p).
Definition on_cleanup (stopped : C) (resets : Writes) (p : Plugin) : CallbackReturn * Plugin :=
  (SUCCESS, stop_auxiliary (stop_and_invalidate stopped resets p) <| client_ := None |>).
Definition on_shutdown (stopped : C) (resets : Writes) (p : Plugin) : CallbackReturn * Plugin :=
  (SUCCESS, stop_auxiliary (stop_and_invalidate stopped resets p) <| client_ := None |>).

(** ** The auxiliary thread *)

(** An exception of the executor. *)
Definition auxiliary_failure (p : Plugin) : Plugin :=
  if auxiliary_stopping_ p then p else latch_fatal_fault FaultCallback p.

(** The snapshot the diagnostics show: the fault of the plugin unless the client
    has its own. *)
Definition overlay_fault (plugin_fault : FaultCode) (snapshot : HealthSnapshot) : HealthSnapshot :=
  if negb (bool_decide (plugin_fault = FaultNone)) && bool_decide (fault_code snapshot = FaultNone) then
    let snapshot := snapshot <| state := Faulted |> <| fault_code := plugin_fault |> in
    if bool_decide (last_error snapshot = "") && bool_decide (plugin_fault = FaultTimeout)
    then snapshot <| last_error := "no valid RDT record before timeout" |>
    else snapshot
  else snapshot.

(** [publish_diagnostics]: name, hardware id and report of the message. *)
Definition publish_diagnostics (now : Z) (p : Plugin)
    : option (string * string * DiagnosticReport) * Plugin :=
  match client_ p, evaluator_ p with
  | Some c, Some e =>
      let '(snapshot, c) := client_health now c in
      let snapshot := overlay_fault (fatal_fault_ p) snapshot in
      let '(report, e) := evaluate e snapshot in
      (Some ("netft_driver: " +:+ sensor_name_ p,
             h_sensor_host snapshot +:+ ":" +:+ pretty (h_rdt_port snapshot), report),
       p <| client_ := Some c |> <| evaluator_ := Some e |>)
  | _, _ => (None, p)
  end.

(** The bias service: success and message. *)
Definition bias_request (sent1 sent2 : result unit) (p : Plugin) : bool * string * Plugin :=
  match client_ p with
  | None => (false, "client is not configured", p)
  | Some c =>
      let '(r, c) := client_bias sent1 sent2 c in
      let p := p <| client_ := Some c |> in
      match r with
      | Ok _ => (true, "software bias command sent and RDT streaming restarted", p)
      | Throw e => (false, what e, p)
      end
  end.
End Plugin.
Arguments Plugin : clear implicits.

(** ** Interleavings *)

Section Steps.
Context {C : Type} `{DriverClient C}.

(** A step of one of the threads.  [SClient] is the progress of the client on its
    own threads. *)
Inductive Step :=
  | SConfigure (created : result C) (resources : result unit) (resets : Writes)
  | SActivateBegin (found : list bool) (started : result unit * C) (resets : Writes)
  | SActivateEnd (waited : result bool) (stopped : C) (resets : Writes)
  | SDeactivate (stopped : C) (resets : Writes)
  | SError (stopped : C) (resets : Writes)
  | SCleanup (stopped : C) (resets : Writes)
  | SShutdown (stopped : C) (resets : Writes)
  | SRead (now : Z) (sample : SiSample) (writes resets : Writes)
  | SCallback (sample : Sample)
  | SAuxiliaryFailure
  | SDiagnostics (now : Z)
  | SBias (sent1 sent2 : result unit)
  | SClient (c : C).

Definition plugin_step (s : Step) (p : Plugin C) : Plugin C :=
  match s with
  | SConfigure created resources resets => snd (on_configure created resources resets p)
  | SActivateBegin found started resets => snd (activate_begin found started resets p)
  | SActivateEnd waited stopped resets => snd (activate_end waited stopped resets p)
  | SDeactivate stopped resets => snd (on_deactivate stopped resets p)
  | SError stopped resets => snd (on_error stopped resets p)
  | SCleanup stopped resets => snd (on_cleanup stopped resets p)
  | SShutdown stopped resets => snd (on_shutdown stopped resets p)
  | SRead now sample writes resets => snd (read now (Some sample) writes resets p)
  | SCallback sample => snd (sample_callback sample p)
  | SAuxiliaryFailure => auxiliary_failure p
  | SDiagnostics now => snd (publish_diagnostics now p)
  | SBias sent1 sent2 => snd (bias_request sent1 sent2 p)
  | SClient c => p <| client_ ::= λ o, match o with Some _ => Some c | None => None end |>
  end.

Fixpoint plugin_run (steps : list Step) (p : Plugin C) : Plugin C :=
  match steps with [] => p | s :: steps => plugin_run steps (plugin_step s p) end.

Definition is_configure (s : Step) : bool := match s with SConfigure _ _ _ => true | _ => false end.

(** What the receiver thread has put into the real-time buffer, the sample it was
    converted from with it. *)
Definition buffered_step (s : Step) (b : list (Sample * SiSample)) : list (Sample * SiSample) :=
  match s with
  | SCallback sample => match to_si_sample sample with Ok si => (sample, si) :: b | Throw _ => b end
  | _ => b
  end.

(** The executions from a state: [readFromRT] returns the initial sample or one
    of the buffered ones. *)
Inductive plugin_execution (p0 : Plugin C) : list (Sample * SiSample) → Plugin C → Prop :=
  | plugin_init : plugin_execution p0 [] p0
  | plugin_next s b p :
      plugin_execution p0 b p →
      (∀ now sample writes resets, s = SRead now sample writes resets →
         sample = initial_sample ∨ ∃ x, In (x, sample) b) →
      plugin_execution p0 (buffered_step s b) (plugin_step s p).

(** ** Faults are sticky *)

Definition blocked (p : Plugin C) : Prop :=
  client_ p = None ∨ interface_write_fault_ p = true ∨ fatal_fault_ p ≠ FaultNone.

Lemma invalidate_fields resets (p : Plugin C) :
  let p' := invalidate_interfaces resets p in
  client_ p' = client_ p ∧ interface_write_fault_ p' = interface_write_fault_ p ∧
  fatal_fault_ p' = fatal_fault_ p ∧ sample_generation_ p' = sample_generation_ p ∧
  api p' = api p ∧ handles p' = handles p.
Proof. unfold invalidate_interfaces. by destruct (api p) eqn:E; cbn; rewrite E. Qed.

Lemma invalidate_blocked resets (p : Plugin C) : blocked p → blocked (invalidate_interfaces resets p).
Proof. unfold blocked. destruct (invalidate_fields resets p) as (-> & -> & -> & _). done. Qed.

Lemma latch_blocked fault (p : Plugin C) : fault ≠ FaultNone → blocked (latch_fatal_fault fault p).
Proof.
  intros Hf. right; right. unfold latch_fatal_fault.
  by destruct (bool_decide_reflect (fatal_fault_ p = FaultNone)).
Qed.

Lemma latch_keeps_blocked fault (p : Plugin C) : blocked p → blocked (latch_fatal_fault fault p).
Proof.
  unfold blocked, latch_fatal_fault. destruct (bool_decide_reflect (fatal_fault_ p = FaultNone)); [|done].
  cbn. intros [?|[?|?]]; [by left|by right; left|done].
Qed.

Lemma fault_latched_spec (p : Plugin C) :
  let '(b, p') := fault_latched p in
  (b = true → blocked p') ∧ (blocked p → blocked p' ∧ (interface_write_fault_ p = false → b = true)) ∧
  (b = false → p' = p ∧ fatal_fault_ p = FaultNone ∧
     ∃ c, client_ p = Some c ∧ (client_faulted c = true → client_fault_code c = FaultNone)) ∧
  interface_write_fault_ p' = interface_write_fault_ p ∧ settings_ p' = settings_ p ∧
  api p' = api p ∧ axes p' = axes p ∧ handles p' = handles p ∧ client_ p' = client_ p.
Proof.
  unfold fault_latched. destruct (client_ p) as [c|] eqn:Hc.
  2: { by split_and!; try done; intros; try split; try done; left. }
  match goal with |- context [if ?b then latch_fatal_fault ?f p else p] =>
    set (p1 := if b then latch_fatal_fault f p else p) end.
  assert (client_ p1 = Some c ∧ interface_write_fault_ p1 = interface_write_fault_ p ∧
          settings_ p1 = settings_ p ∧ api p1 = api p ∧ axes p1 = axes p ∧ handles p1 = handles p) as
    (H1 & H2 & H3 & H4 & H5 & H6).
  { subst p1. unfold latch_fatal_fault. repeat case_split; by rewrite ?Hc. }
  assert (fatal_fault_ p1 = FaultNone → p1 = p ∧ fatal_fault_ p = FaultNone ∧
            (client_faulted c = true → client_fault_code c = FaultNone)) as Hnone.
  { subst p1. destruct (client_faulted c); cbn [andb]; [|by auto].
    destruct (bool_decide_reflect (client_fault_code c = FaultNone)); cbn [negb]; [by auto|].
    unfold latch_fatal_fault.
    by destruct (bool_decide_reflect (fatal_fault_ p = FaultNone)). }
  destruct (bool_decide_reflect (fatal_fault_ p1 = FaultNone)) as [Hf|Hf]; cbn [negb].
  - destruct (Hnone Hf) as (Hp & Hf' & Hcl). split_and!; try done.
    + intros Hb. rewrite Hp. split; [done|]. intros Hw. unfold blocked in Hb.
      rewrite Hc, Hw, Hf' in Hb. by destruct Hb as [|[|]].
    + intros _. split_and!; try done. by exists c.
  - split_and!; try done; [by right; right|by split; [right; right|]].
Qed.

Lemma write_axes_fields ok sample (p : Plugin C) :
  let '(_, p') := write_axes ok sample p in
  client_ p' = client_ p ∧ interface_write_fault_ p' = interface_write_fault_ p ∧
  fatal_fault_ p' = fatal_fault_ p ∧ api p' = api p ∧ handles p' = handles p.
Proof.
  unfold write_axes. destruct (api p) eqn:E; [by cbn; rewrite E|].
  destruct (set_axes _ _ _ _). cbn. by rewrite E.
Qed.

(** A blocked plugin refuses to read and stays blocked; a read that fails blocks it. *)
Lemma read_blocked now sample writes resets (p : Plugin C) :
  blocked p →
  fst (read now (Some sample) writes resets p) = ReadError ∧
  blocked (snd (read now (Some sample) writes resets p)).
Proof.
  intros Hb. unfold read. pose proof (fault_latched_spec p) as Hs.
  destruct (fault_latched p) as [b p1]. destruct Hs as (_ & Hk & _ & Hw & _).
  destruct (Hk Hb) as [Hb1 Hl].
  assert (b || interface_write_fault_ p1 = true) as ->.
  { rewrite Hw. destruct (interface_write_fault_ p); [by destruct b|by rewrite Hl]. }
  split; [done|by apply invalidate_blocked].
Qed.

Lemma read_error_blocks now sample writes resets (p : Plugin C) :
  fst (read now (Some sample) writes resets p) = ReadError →
  blocked (snd (read now (Some sample) writes resets p)).
Proof.
  unfold read. pose proof (fault_latched_spec p) as Hs.
  destruct (fault_latched p) as [b p1]. destruct Hs as (Hb & _ & _ & Hw & _).
  destruct b; cbn [orb]; [intros _; apply invalidate_blocked; auto|].
  destruct (interface_write_fault_ p1) eqn:E.
  { intros _. apply invalidate_blocked. by right; left. }
  case_split; [intros _; by apply invalidate_blocked, latch_blocked|].
  case_split; [intros _; by apply invalidate_blocked, latch_blocked|].
  destruct (write_axes writes sample p1) as [w p2] eqn:Hwr. destruct w; cbn [negb fst snd]; [done|].
  intros _. apply invalidate_blocked. by right; left.
Qed.

Lemma step_blocked s (p : Plugin C) : is_configure s = false → blocked p → blocked (plugin_step s p).
Proof.
  intros Hs Hb. destruct s; try done; cbn [plugin_step].
  - unfold activate_begin. destruct (client_ p) as [c|] eqn:Hc; [|done].
    assert (interface_write_fault_ p = true ∨ fatal_fault_ p ≠ FaultNone) as Hb'.
    { unfold blocked in Hb. rewrite Hc in Hb. by destruct Hb as [|]. }
    assert (∀ q : Plugin C, interface_write_fault_ q = interface_write_fault_ p →
              fatal_fault_ q = fatal_fault_ p → blocked q) as Hq.
    { intros q H1 H2. right. by rewrite H1, H2. }
    set (q := if bool_decide (api p = Modern) then _ else p).
    assert (interface_write_fault_ q = interface_write_fault_ p ∧ fatal_fault_ q = fatal_fault_ p) as [Hq1 Hq2]
      by (subst q; by case_split).
    pose proof (invalidate_fields resets (q <| sample_generation_ := 0 |>)) as (_ & H1 & H2 & _).
    case_split; [by apply invalidate_blocked, Hq|]. destruct (fst started); cbn [snd].
    + apply Hq; [exact (eq_trans H1 Hq1)|exact (eq_trans H2 Hq2)].
    + apply invalidate_blocked, Hq; [exact (eq_trans H1 Hq1)|exact (eq_trans H2 Hq2)].
  - unfold activate_end. destruct waited as [ready|], (client_ p) as [c|] eqn:Hc; try done.
    case_split; [|done]. apply invalidate_blocked.
    unfold blocked in Hb. rewrite Hc in Hb. destruct Hb as [|Hb]; [done|by right].
  - unfold on_deactivate, stop_and_invalidate. apply invalidate_blocked.
    unfold blocked in *. cbn. destruct Hb as [->|Hb]; [by left|by right].
  - unfold on_error, stop_and_invalidate. apply invalidate_blocked.
    unfold blocked in *. cbn. destruct Hb as [->|Hb]; [by left|by right].
  - by left.
  - by left.
  - by apply read_blocked.
  - unfold sample_callback. destruct (to_si_sample sample) as [|[]]; try done. by apply latch_keeps_blocked.
  - unfold auxiliary_failure. case_split; [done|]. by apply latch_keeps_blocked.
  - unfold publish_diagnostics. destruct (client_ p) as [c|] eqn:Hc, (evaluator_ p) as [e|]; try done.
    destruct (client_health now c), (evaluate e _). unfold blocked in *. rewrite Hc in Hb.
    destruct Hb as [|Hb]; [done|by right].
  - unfold bias_request. destruct (client_ p) as [c|] eqn:Hc; [|done].
    destruct (client_bias sent1 sent2 c) as [r c']. unfold blocked in *. rewrite Hc in Hb.
    destruct Hb as [|Hb]; [done|]. destruct r; by right.
  - unfold blocked in *. cbn. destruct Hb as [->|Hb]; [by left|by right].
Qed.

Lemma run_blocked steps (p : Plugin C) :
  forallb (λ s, negb (is_configure s)) steps = true → blocked p → blocked (plugin_run steps p).
Proof.
  revert p. induction steps as [|s steps IH]; intros p; [done|]. cbn [forallb plugin_run].
  intros [Hs%negb_true_iff Hr]%andb_prop Hb. by apply IH, step_blocked.
Qed.
End Steps.

(** C16: a failed read is final until the plugin is configured again: whatever the
    threads do in between, deactivations, activations and new samples included,
    every later read returns an error. *)
Theorem read_error_sticky {C : Type} `{DriverClient C} (p : Plugin C) now sample writes resets steps
    now' sample' writes' resets' :
  fst (read now (Some sample) writes resets p) = ReadError →
  forallb (λ s, negb (is_configure s)) steps = true →
  fst (read now' (Some sample') writes' resets'
        (plugin_run steps (snd (read now (Some sample) writes resets p)))) = ReadError.
Proof.
  intros Hr Hs. apply read_blocked, run_blocked; [done|]. by apply read_error_blocks.
Qed.

(** ** What the controllers read *)

Section Values.
Context {C : Type} `{DriverClient C}.

(** The axes after a successful invalidation. *)
Definition invalidated (resets : Writes) (p : Plugin C) : Prop :=
  match api p with
  | Legacy => axes p = replicate 6 kQuietNaN
  | Modern => ∀ i, (i < length (axes p))%nat → handles p !! i = Some true → resets i = true →
                axes p !! i = Some kQuietNaN
  end.

Lemma invalidate_invalidated resets (p : Plugin C) : invalidated resets (invalidate_interfaces resets p).
Proof.
  unfold invalidated. destruct (invalidate_fields resets p) as (_ & _ & _ & _ & Ha & Hh).
  rewrite Ha, Hh. unfold invalidate_interfaces. destruct (api p) eqn:E; [done|]. cbn.
  intros i Hi Hhi Hr. rewrite length_imap in Hi. rewrite list_lookup_imap.
  destruct (axes p !! i) as [a|] eqn:Ei; cbn; [by rewrite Hhi, Hr|].
  apply lookup_ge_None in Ei. lia.
Qed.

Lemma set_axes_all ok i values (old new : list double) :
  length values = length old → set_axes ok i values old = (true, new) → new = values.
Proof.
  revert i old new. induction values as [|v values IH]; intros i [|a old] new Hl; try done;
    cbn [set_axes]; intros Hs; [by injection Hs as <-|].
  destruct (ok i); [|done]. destruct (set_axes ok (S i) values old) as [b rest] eqn:E.
  injection Hs as -> <-. f_equal. exact (IH (S i) old rest (eq_add_S _ _ Hl) E).
Qed.

Lemma write_axes_all ok sample (p p' : Plugin C) :
  length (sample_values sample) = length (axes p) → write_axes ok sample p = (true, p') →
  axes p' = sample_values sample.
Proof.
  unfold write_axes. intros Hl. destruct (api p); [by intros [= <-]|].
  destruct (set_axes ok 0 _ _) as [b new] eqn:E. intros [= -> <-]. by eapply set_axes_all.
Qed.

(** C15: a read that succeeds shows one complete sample: neither the plugin nor
    the client has a fault, every component is finite, the sample was received in the last
    [receive_timeout], and the six axes are its force and torque.  A read that
    fails leaves the plugin blocked and every axis it can write invalid (NaN). *)
Theorem read_spec (p : Plugin C) now sample writes resets :
  length (sample_values sample) = length (axes p) →
  let '(r, p') := read now (Some sample) writes resets p in
  match r with
  | ReadOk =>
      fatal_fault_ p = FaultNone ∧ interface_write_fault_ p = false ∧
      (∃ c, client_ p = Some c ∧ (client_faulted c = true → client_fault_code c = FaultNone)) ∧
      Forall (λ v, isfinite v = true) (axes p') ∧ axes p' = sample_values sample ∧
      0 < si_received_at sample ∧
      now - si_received_at sample ≤ timeout_ns (receive_timeout (client_config (settings_ p)))
  | ReadError => blocked p' ∧ invalidated resets p'
  end.
Proof.
  intros Hl. pose proof (read_error_blocks now sample writes resets p) as Hblock.
  assert (fst (read now (Some sample) writes resets p) = ReadError →
          invalidated resets (snd (read now (Some sample) writes resets p))) as Hinv.
  { unfold read. destruct (fault_latched p) as [b p1].
    repeat first [case_split | destruct (write_axes writes sample p1) as [w p2]]; try done;
      intros _; apply invalidate_invalidated. }
  destruct (read now (Some sample) writes resets p) as [[] p'] eqn:E; [|by auto].
  clear Hblock Hinv. unfold read in E. pose proof (fault_latched_spec p) as Hs.
  destruct (fault_latched p) as [b p1]. destruct Hs as (_ & _ & Hn & _).
  destruct b; cbn [orb] in E; [done|]. destruct (Hn eq_refl) as (-> & Hf & Hc).
  destruct (interface_write_fault_ p) eqn:Hw; [done|].
  destruct (sample_is_finite sample) eqn:Hfin; [|done]. cbn [negb] in E.
  destruct (sample_is_stale now sample p) eqn:Hst; [done|].
  destruct (write_axes writes sample p) as [w p2] eqn:Hwr. destruct w; [|done]. injection E as <-.
  apply write_axes_all in Hwr; [|done]. rewrite Hwr.
  apply orb_false_elim in Hst as [Hst1%Z.leb_gt Hst2%Z.ltb_ge].
  split_and!; try done. unfold sample_values. apply Forall_forall.
  apply andb_prop in Hfin as [H1 H2]. rewrite forallb_forall in H1, H2.
  intros v Hv%list_elem_of_In. apply in_app_or in Hv as [Hv|Hv]; auto.
Qed.

(** ** Where the values come from *)

(** A value of an axis: not a number, or that component of a sample the receiver
    thread converted and buffered. *)
Definition sourced (b : list (Sample * SiSample)) (index : nat) (v : double) : Prop :=
  v = kQuietNaN ∨ ∃ s si, In (s, si) b ∧ to_si_sample s = Ok si ∧ sample_values si !! index = Some v.

Lemma sourced_cons x b index v : sourced b index v → sourced (x :: b) index v.
Proof. intros [?|(s & si & ? & ? & ?)]; [by left|right; exists s, si; by split_and!; [right|..]]. Qed.

(** Each axis has a value [Q] allows it. *)
Definition axes_all (Q : nat → double → Prop) (l : list double) : Prop :=
  ∀ index v, l !! index = Some v → Q index v.

Lemma invalidate_axes (Q : nat → double → Prop) resets (p : Plugin C) :
  (∀ index, Q index kQuietNaN) → axes_all Q (axes p) → axes_all Q (axes (invalidate_interfaces resets p)).
Proof.
  intros HN Hp index v. unfold invalidate_interfaces. destruct (api p); cbn [axes set_field].
  - by intros [-> _]%lookup_replicate_1.
  - rewrite list_lookup_imap, fmap_Some. intros (a & Ha & ->). case_split; [done|by apply Hp].
Qed.

Lemma set_axes_lookup ok i values (old : list double) index v :
  snd (set_axes ok i values old) !! index = Some v → values !! index = Some v ∨ old !! index = Some v.
Proof.
  revert i old index. induction values as [|x values IH]; intros i old index; [by right|].
  destruct old as [|a old]; [by right|]. cbn [set_axes]. destruct (ok i); [|by right].
  specialize (IH (S i) old). destruct (set_axes ok (S i) values old) as [c rest]. cbn [snd] in *.
  destruct index as [|index]; [by left|]. apply IH.
Qed.

Lemma read_axes (Q : nat → double → Prop) now sample writes resets (p : Plugin C) :
  (∀ index, Q index kQuietNaN) → axes_all Q (axes p) →
  (sample_is_stale now sample p = false → axes_all Q (sample_values sample)) →
  axes_all Q (axes (snd (read now (Some sample) writes resets p))).
Proof.
  intros HN Hp Hs. unfold read. pose proof (fault_latched_spec p) as Hl.
  destruct (fault_latched p) as [b p1]. destruct Hl as (_ & _ & _ & _ & Hset & _ & Hax & _).
  rewrite <- Hax in Hp.
  assert (∀ f q, axes_all Q (axes q) → axes_all Q (axes (latch_fatal_fault f q : Plugin C))) as Hlatch
    by (intros f q; unfold latch_fatal_fault; by case_split).
  case_split; [by apply invalidate_axes|]. case_split; [by apply invalidate_axes, Hlatch|].
  case_split; [by apply invalidate_axes, Hlatch|].
  assert (sample_is_stale now sample p = false) as Hst by (unfold sample_is_stale in *; by rewrite <- Hset).
  assert (axes_all Q (axes (snd (write_axes writes sample p1)))) as Hw.
  { unfold write_axes. destruct (api p1); [by apply Hs|]. intros index v Hv.
    destruct (set_axes writes 0 (sample_values sample) (axes p1)) as [c new] eqn:E.
    destruct (set_axes_lookup writes 0 (sample_values sample) (axes p1) index v); [by rewrite E|by apply Hs|by apply Hp]. }
  destruct (write_axes writes sample p1) as [w p2]. cbn [snd] in Hw.
  case_split; [by apply invalidate_axes|done].
Qed.

Lemma step_axes (Q : nat → double → Prop) s (p : Plugin C) :
  (∀ index, Q index kQuietNaN) → axes_all Q (axes p) →
  (∀ now sample writes resets, s = SRead now sample writes resets →
     sample_is_stale now sample p = false → axes_all Q (sample_values sample)) →
  axes_all Q (axes (plugin_step s p)).
Proof.
  intros HN Hp Hs.
  assert (∀ f q, axes_all Q (axes q) → axes_all Q (axes (latch_fatal_fault f q : Plugin C))) as Hlatch
    by (intros f q; unfold latch_fatal_fault; by case_split).
  assert (∀ q : Plugin C, axes q = axes p → axes_all Q (axes q)) as Hq by (by intros q ->).
  destruct s; cbn [plugin_step].
  - unfold on_configure. destruct created as [c|]; cbn [snd].
    + unfold start_auxiliary. destruct (evaluator_create _ _); [destruct resources|]; cbn; by apply invalidate_axes.
    + by apply invalidate_axes.
  - unfold activate_begin. destruct (client_ p); [|done].
    set (q := if bool_decide (api p = Modern) then _ else p).
    assert (axes q = axes p) as Hax by (subst q; by case_split).
    case_split; [apply invalidate_axes; [done|by apply Hq]|].
    destruct (fst started); cbn [snd]; [|apply invalidate_axes; [done|]];
      apply (invalidate_axes Q resets (q <| sample_generation_ := 0 |>)); by try apply Hq.
  - unfold activate_end. destruct waited, (client_ p); try done. case_split; [|done]. by apply invalidate_axes.
  - by apply invalidate_axes.
  - by apply invalidate_axes.
  - by apply (invalidate_axes Q).
  - by apply (invalidate_axes Q).
  - apply read_axes; eauto.
  - unfold sample_callback. destruct (to_si_sample sample) as [|[]]; try done. by apply Hlatch.
  - unfold auxiliary_failure. case_split; [done|by apply Hlatch].
  - unfold publish_diagnostics. destruct (client_ p), (evaluator_ p); try done.
    destruct (client_health now c) as [h c']. by destruct (evaluate _ _).
  - unfold bias_request. destruct (client_ p); [|done]. destruct (client_bias _ _ _) as [[] ?]; done.
  - done.
Qed.

(** The initial sample is stale at any time, so no read shows it. *)
Lemma initial_sample_stale now (p : Plugin C) : sample_is_stale now initial_sample p = true.
Proof. done. Qed.

Lemma execution_axes (p0 : Plugin C) b p :
  plugin_execution p0 b p →
  (∀ s si, In (s, si) b → to_si_sample s = Ok si) ∧
  axes_all (λ index v, sourced b index v ∨ axes p0 !! index = Some v) (axes p).
Proof.
  induction 1 as [|s b p He [Hb IH] Hread]; [by split; [|right]|].
  assert (∀ index v, sourced b index v → sourced (buffered_step s b) index v) as Hmono.
  { intros index v Hv. destruct s; try done. cbn [buffered_step].
    destruct (to_si_sample sample); [by apply sourced_cons|done]. }
  split.
  - intros s1 si1. destruct s; cbn [buffered_step]; try done; auto.
    destruct (to_si_sample sample) as [si|] eqn:E; [|by auto]. intros [Hx|Hx]; [by injection Hx as <- <-|auto].
  - apply step_axes; [by left; left| |].
    + intros index v [Hv|Hv]%IH; [left; by apply Hmono|by right].
    + intros now sample writes resets -> Hst. destruct (Hread _ _ _ _ eq_refl) as [->|(x & Hx)].
      * by rewrite initial_sample_stale in Hst.
      * intros index v Hv. left. right. exists x, sample. by auto.
Qed.

(** The steps that write NaN to all six axes whatever they showed: with the legacy API a
    configuration, with either one the start of an activation that gets its six handles
    and may write to them. *)
Definition clears (s : Step (C := C)) (q : Plugin C) : Prop :=
  length (axes q) = 6%nat ∧
  match s with
  | SConfigure _ _ _ => api q = Legacy
  | SActivateBegin found _ resets =>
      client_ q ≠ None ∧ found = replicate 6 true ∧ ∀ index, resets index = true
  | _ => False
  end.

Lemma invalidate_clears resets (q : Plugin C) :
  length (axes q) = 6%nat →
  (api q = Modern → take 6 (handles q) = replicate 6 true ∧ ∀ index, resets index = true) →
  axes_all (λ _ v, v = kQuietNaN) (axes (invalidate_interfaces resets q)).
Proof.
  intros Hl Hm index v. unfold invalidate_interfaces. destruct (api q); cbn [axes set_field].
  - by intros [-> _]%lookup_replicate_1.
  - destruct (Hm eq_refl) as [Hh Hr]. rewrite list_lookup_imap, fmap_Some. intros (a & Ha & ->).
    apply lookup_lt_Some in Ha. rewrite Hl in Ha.
    assert (handles q !! index = Some true) as ->; [|by rewrite Hr].
    rewrite <- (lookup_take_lt _ 6) by done. rewrite Hh. by apply lookup_replicate_2.
Qed.

Lemma clears_axes s (q : Plugin C) :
  clears s q → axes_all (λ _ v, v = kQuietNaN) (axes (plugin_step s q)).
Proof.
  intros [Hl Hs]. destruct s; try done; cbn [plugin_step].
  - unfold on_configure. destruct created as [c|]; cbn [snd].
    + unfold start_auxiliary.
      destruct (evaluator_create _ _); [destruct resources|]; cbn; apply invalidate_clears; cbn; congruence.
    + apply invalidate_clears; cbn; congruence.
  - destruct Hs as (Hc & -> & Hr). unfold activate_begin. destruct (client_ q) as [c|]; [|done].
    set (q' := if bool_decide (api q = Modern) then _ else q).
    assert (bool_decide (api q = Modern) && negb (length (replicate 6 true) =? 6)%nat = false) as ->
      by (by rewrite length_replicate, andb_false_r).
    assert (axes q' = axes q ∧ api q' = api q ∧ (api q = Modern → take 6 (handles q') = replicate 6 true))
      as (Ha & Hapi & Hh).
    { subst q'. destruct (bool_decide_reflect (api q = Modern)); cbn; by split_and!. }
    clearbody q'.
    assert (∀ r : Plugin C, axes r = axes q' → api r = api q' → handles r = handles q' →
      axes_all (λ _ v, v = kQuietNaN) (axes (invalidate_interfaces resets r))) as Hinv.
    { intros r E1 E2 E3. apply invalidate_clears; [by rewrite E1, Ha|]. rewrite E2, E3, Hapi. by auto. }
    set (r := q' <| sample_generation_ := 0 |>).
    assert (axes_all (λ _ v, v = kQuietNaN) (axes (invalidate_interfaces resets r))) as H1 by (by apply Hinv).
    destruct (fst started); cbn [snd]; [exact H1|]. by apply invalidate_axes.
Qed.
End Values.

(** C17: under every interleaving the controllers only ever read, on each axis, a quiet
    NaN, that component of a sample that the receiver delivered and that was converted
    to SI units without error, or what the axis showed in the beginning: the initial
    value that [on_init] lets a description give.  From a configuration on, with the
    legacy API, and with either from the start of an activation that could write its six
    interfaces, the initial value is gone for good.  The default contents of the
    real-time buffer are never shown. *)
Theorem axes_sourced {C : Type} `{DriverClient C} (p0 : Plugin C) b p index v :
  plugin_execution p0 b p → axes p !! index = Some v →
  (sourced b index v ∨ axes p0 !! index = Some v) ∧
  (∀ s q, clears s q → p0 = plugin_step s q → sourced b index v).
Proof.
  intros He Hv. destruct (proj2 (execution_axes p0 b p He) index v Hv) as [Hs|H0]; split; auto.
  intros s q Hc ->. left. exact (clears_axes s q Hc index v H0).
Qed.

(** ** Activation *)

Section Activation.
Context {C : Type} `{DriverClient C}.

Definition converted (s : Step (C := C)) : bool :=
  match s with SCallback sample => is_ok (to_si_sample sample) | _ => false end.

Lemma read_generation now sample writes resets (p : Plugin C) :
  sample_generation_ (snd (read now (Some sample) writes resets p)) = sample_generation_ p.
Proof.
  assert (∀ f q, sample_generation_ (latch_fatal_fault f q : Plugin C) = sample_generation_ q) as Hlatch
    by (intros f q; unfold latch_fatal_fault; by case_split).
  assert (∀ q : Plugin C, sample_generation_ (invalidate_interfaces resets q) = sample_generation_ q) as Hinv
    by (intros q; by destruct (invalidate_fields resets q) as (_ & _ & _ & ? & _)).
  unfold read. destruct (fault_latched p) as [b p1] eqn:E.
  assert (sample_generation_ p1 = sample_generation_ p) as Hp1.
  { unfold fault_latched in E. destruct (client_ p); injection E as <- <-; [|done]. case_split; [apply Hlatch|done]. }
  repeat case_split; cbn [snd]; rewrite ?Hinv, ?Hlatch; try done.
  destruct (write_axes writes sample p1) as [w p2] eqn:Ew.
  assert (sample_generation_ p2 = sample_generation_ p1) as Hp2.
  { unfold write_axes in Ew. destruct (api p1); [by injection Ew as <- <-|].
    destruct (set_axes _ _ _ _). by injection Ew as <- <-. }
  case_split; cbn [snd]; rewrite ?Hinv; by rewrite <- Hp1.
Qed.

(** Only a converted sample moves the generation away from zero. *)
Lemma step_generation s (p : Plugin C) :
  converted s = false → sample_generation_ p = 0 → sample_generation_ (plugin_step s p) = 0.
Proof.
  assert (∀ f q, sample_generation_ (latch_fatal_fault f q : Plugin C) = sample_generation_ q) as Hlatch
    by (intros f q; unfold latch_fatal_fault; by case_split).
  assert (∀ resets (q : Plugin C), sample_generation_ (invalidate_interfaces resets q) = sample_generation_ q)
    as Hinv by (intros r q; by destruct (invalidate_fields r q) as (_ & _ & _ & ? & _)).
  intros Hs Hg. destruct s; cbn [plugin_step converted] in *.
  - unfold on_configure, start_auxiliary. destruct created as [c|]; cbn [snd]; [|cbn; by rewrite Hinv].
    destruct (evaluator_create _ _); [destruct resources|]; cbn; by rewrite Hinv.
  - unfold activate_begin. destruct (client_ p); [|done].
    set (q := if bool_decide (api p = Modern) then _ else p).
    assert (sample_generation_ q = 0) as Hq by (subst q; by case_split).
    case_split; cbn [snd]; [by rewrite Hinv|]. destruct (fst started); cbn [snd]; rewrite ?Hinv;
      exact (Hinv resets (q <| sample_generation_ := 0 |>)).
  - unfold activate_end. destruct waited, (client_ p); try done. case_split; cbn; [by rewrite Hinv|done].
  - unfold on_deactivate, stop_and_invalidate. cbn. by rewrite Hinv.
  - unfold on_error, stop_and_invalidate. cbn. by rewrite Hinv.
  - cbn. unfold stop_and_invalidate. by rewrite Hinv.
  - cbn. unfold stop_and_invalidate. by rewrite Hinv.
  - by rewrite read_generation.
  - unfold sample_callback. destruct (to_si_sample sample) as [|[]]; try done. cbn. by rewrite Hlatch.
  - unfold auxiliary_failure. case_split; [done|]. by rewrite Hlatch.
  - unfold publish_diagnostics. destruct (client_ p), (evaluator_ p); try done.
    destruct (client_health now c) as [h c']. by destruct (evaluate _ _).
  - unfold bias_request. destruct (client_ p); [|done]. destruct (client_bias _ _ _) as [[] ?]; done.
  - done.
Qed.

Lemma run_generation steps (p : Plugin C) :
  forallb (λ s, negb (converted s)) steps = true → sample_generation_ p = 0 →
  sample_generation_ (plugin_run steps p) = 0.
Proof.
  revert p. induction steps as [|s steps IH]; intros p; [done|]. cbn [forallb plugin_run].
  intros [Hs%negb_true_iff Hr]%andb_prop Hg. by apply IH, step_generation.
Qed.

Lemma activate_begin_generation found started resets (p : Plugin C) p' :
  activate_begin found started resets p = (None, p') → sample_generation_ p' = 0.
Proof.
  unfold activate_begin. destruct (client_ p); [|done].
  case_split; [done|]. destruct (fst started); [|done]. intros [= <-]. cbn.
  match goal with |- sample_generation_ (invalidate_interfaces _ ?q) = _ =>
    by destruct (invalidate_fields resets q) as (_ & _ & _ & -> & _) end.
Qed.
End Activation.

(** C18: activation succeeds only on evidence: between its start and its success
    at least one sample was received and converted to SI units, the wait was
    answered with a first sample, and the client has no fault. *)
Theorem activation_needs_sample {C : Type} `{DriverClient C} (p : Plugin C) found started resets p1 steps
    waited stopped resets' p2 :
  activate_begin found started resets p = (None, p1) →
  activate_end waited stopped resets' (plugin_run steps p1) = (Ok SUCCESS, p2) →
  existsb converted steps = true ∧ waited = Ok true ∧ p2 = plugin_run steps p1 ∧
  ∃ c, client_ p2 = Some c ∧ client_faulted c = false.
Proof.
  intros Hb%activate_begin_generation He. unfold activate_end in He.
  destruct waited as [ready|], (client_ (plugin_run steps p1)) as [c|] eqn:Hc; try done.
  destruct ready; [|done]. destruct (client_faulted c) eqn:Hf; [done|]. cbn [negb orb] in He.
  destruct (sample_generation_ (plugin_run steps p1) =? 0) eqn:Hg; [done|]. injection He as <-.
  split_and!; [|done|done|by exists c].
  destruct (existsb converted steps) eqn:Hx; [done|].
  apply Z.eqb_neq in Hg. destruct Hg. apply run_generation; [|done].
  apply forallb_forall. intros s Hs. apply negb_true_iff.
  destruct (converted s) eqn:Hcs; [|done].
  assert (existsb converted steps = true) by (apply existsb_exists; by exists s). congruence.
Qed.

(** ** Diagnostics *)

Lemma evaluate_faulted e s :
  fault_code s ≠ FaultNone →
  level (fst (evaluate e s)) = 2 ∧ log_key (fst (evaluate e s)) = "faulted".
Proof.
  intros Hf. unfold evaluate. rewrite (bool_decide_eq_true_2 (fault_code s ≠ FaultNone)) by done.
  by rewrite orb_true_r.
Qed.

(** A fault of the plugin or of the client is visible: whatever the client
    reports of itself, the published diagnostics are an error with the key
    "faulted". *)
Theorem plugin_fault_visible {C : Type} `{DriverClientLaws C} (p : Plugin C) now name id report p' :
  publish_diagnostics now p = (Some (name, id, report), p') →
  (fatal_fault_ p ≠ FaultNone ∨ ∃ c, client_ p = Some c ∧ client_faulted c = true) →
  level report = 2 ∧ log_key report = "faulted".
Proof.
  unfold publish_diagnostics. intros Hp Hf.
  destruct (client_ p) as [c|], (evaluator_ p) as [e|]; try done.
  destruct (client_health now c) as [s c'] eqn:Hh.
  pose proof (client_health_fault now c) as Hfc. rewrite Hh in Hfc. cbn [fst] in Hfc.
  assert (fault_code (overlay_fault (fatal_fault_ p) s) ≠ FaultNone) as Hn.
  { unfold overlay_fault. destruct (bool_decide_reflect (fault_code s = FaultNone)) as [Hs|Hs].
    - destruct (bool_decide_reflect (fatal_fault_ p = FaultNone)) as [Hp0|Hp0]; cbn [negb andb].
      + destruct Hf as [Hf|(c0 & [= <-] & Hf)]; [done|]. apply client_faulted_code in Hf. congruence.
      + by case_split.
    - by rewrite andb_false_r. }
  pose proof (evaluate_faulted e _ Hn) as Hev.
  destruct (evaluate e _) as [r e']. by injection Hp as <- <- <- <-.
Qed.

(** ** The deadline of the wait

    [parse_parameters] bounds [activation_timeout] by the range of 64-bit
    nanoseconds, but [wait_for_first_sample] adds it to the clock: an accepted timeout makes
    the deadline overflow, and its exception leaves [on_activate]. *)
Definition long_activation : HardwareInfo :=
  mkHardwareInfo [] [mkComponentInfo "wrist" six_axes] [] []
    (<["activation_timeout" := "9223372036"]> ∅).

Definition long_settings : Settings :=
  Eval vm_compute in
    match on_init (P := linux_x86_64) (λ _ _, None) (λ _, 1000000000) Modern long_activation with
    | Ok (_, s) => s
    | Throw _ => mkSettings default_config d0 d0 d0 d0 "" true ""
    end.

Lemma activation_deadline_overflow :
  ∃ s, on_init (P := linux_x86_64) (λ _ _, None) (λ _, 1000000000) Modern long_activation = Ok ("wrist", s) ∧
       is_ok (checked_deadline (H := linux_x86_64) 1000000000 (activation_timeout s)) = false.
Proof. exists long_settings. split; vm_compute; reflexivity. Qed.

(** ** Witnesses *)

Definition sample_settings : Settings :=
  mkSettings (default_config <| recovery_policy := FailStop |>) (b64_of_Z 2) (b64_of_Z 1) (b64_of_Z 2000)
    (b64_ratio 1 5) "wrist" true "/wrist/bias".

Definition sample_plugin : Plugin Impl :=
  mkPlugin Modern "wrist" sample_settings None None false 0 false FaultNone (replicate 6 false)
    (replicate 6 kQuietNaN).

Definition received : Sample :=
  mkSample 1 4 0 [] [b64_of_Z 1; b64_of_Z 2; b64_of_Z 3] [b64_of_Z 4; b64_of_Z 5; b64_of_Z 6] Newton
    NewtonMeter 1 1000.
Definition received_si : SiSample :=
  mkSiSample 1 4 0 [b64_of_Z 1; b64_of_Z 2; b64_of_Z 3] [b64_of_Z 4; b64_of_Z 5; b64_of_Z 6] 1 1000.

Definition always : Writes := λ _, true.

Definition started_plugin : Plugin Impl :=
  snd (activate_begin (replicate 6 true) (Ok (), streaming_impl) always
    (snd (on_configure (Ok streaming_impl) (Ok ()) always sample_plugin))).

Lemma read_error_sticky_witness :
  fst (read 2000 (Some received_si) always always
    (plugin_run [SCallback received; SAuxiliaryFailure; SDeactivate streaming_impl always;
                 SActivateBegin (replicate 6 true) (Ok (), streaming_impl) always]
      (snd (read 200000000 (Some received_si) always always started_plugin)))) = ReadError.
Proof.
  apply (read_error_sticky started_plugin 200000000 received_si always always).
  - vm_compute. reflexivity.
  - reflexivity.
Defined.

Lemma read_spec_witness :
  axes (snd (read 2000 (Some received_si) always always started_plugin)) = sample_values received_si.
Proof.
  pose proof (read_spec started_plugin 2000 received_si always always) as Hs.
  destruct (read 2000 (Some received_si) always always started_plugin) as [r p'] eqn:E.
  assert (r = ReadOk) as Hr.
  { change r with (fst (r, p')). rewrite <- E. vm_compute. reflexivity. }
  subst r. destruct Hs as (_ & _ & _ & _ & Ha & _); [vm_compute; reflexivity|exact Ha].
Defined.

Lemma received_converted : to_si_sample received = Ok received_si.
Proof. vm_compute. reflexivity. Qed.

Definition first_step : Step (C := Impl) := SCallback received.
Definition second_step : Step (C := Impl) := SRead 2000 received_si always always.

Lemma second_step_reads now sample writes resets :
  second_step = SRead now sample writes resets →
  sample = initial_sample ∨ ∃ x, In (x, sample) (buffered_step first_step []).
Proof.
  intros [= _ <- _ _]. right. exists received.
  unfold buffered_step, first_step. rewrite received_converted. by left.
Qed.

Lemma first_step_reads now sample writes resets :
  first_step = SRead now sample writes resets →
  sample = initial_sample ∨ ∃ x : Sample, In (x, sample) [].
Proof. discriminate. Qed.

Definition configured_plugin : Plugin Impl :=
  snd (on_configure (Ok streaming_impl) (Ok ()) always sample_plugin).
Definition activation : Step (C := Impl) := SActivateBegin (replicate 6 true) (Ok (), streaming_impl) always.

Lemma read_execution :
  plugin_execution started_plugin (buffered_step second_step (buffered_step first_step []))
    (plugin_step second_step (plugin_step first_step started_plugin)).
Proof.
  exact (plugin_next started_plugin second_step (buffered_step first_step []) (plugin_step first_step started_plugin)
    (plugin_next started_plugin first_step [] started_plugin (plugin_init started_plugin) first_step_reads)
    second_step_reads).
Qed.

Lemma started_cleared : clears activation configured_plugin ∧ started_plugin = plugin_step activation configured_plugin.
Proof.
  split; [|vm_compute; reflexivity]. split; [vm_compute; reflexivity|]. split; [vm_compute; discriminate|]. by split.
Qed.

Lemma axes_sourced_witness :
  axes (plugin_step second_step (plugin_step first_step started_plugin)) !! 2%nat = Some (b64_of_Z 3) ∧
  sourced (buffered_step second_step (buffered_step first_step [])) 2 (b64_of_Z 3).
Proof.
  assert (axes (plugin_step second_step (plugin_step first_step started_plugin)) !! 2%nat = Some (b64_of_Z 3))
    as Hv by (vm_compute; reflexivity).
  split; [exact Hv|].
  destruct (axes_sourced started_plugin (buffered_step second_step (buffered_step first_step []))
    (plugin_step second_step (plugin_step first_step started_plugin)) 2 (b64_of_Z 3) read_execution Hv) as [_ H].
  exact (H activation configured_plugin (proj1 started_cleared) (proj2 started_cleared)).
Defined.

(** With the current API a finite initial value shows until then. *)
Example initial_value_shows :
  axes (snd (on_configure (Ok streaming_impl) (Ok ()) always
    (sample_plugin <| axes := replicate 6 (b64_of_Z 5) |>))) = replicate 6 (b64_of_Z 5).
Proof. vm_compute. reflexivity. Qed.

Lemma activation_needs_sample_witness :
  existsb (converted (C := Impl)) [SCallback received] = true.
Proof.
  destruct (activation_needs_sample
    (snd (on_configure (Ok streaming_impl) (Ok ()) always sample_plugin)) (replicate 6 true)
    (Ok (), streaming_impl) always started_plugin [SCallback received] (Ok true) streaming_impl always
    (plugin_run [SCallback received] started_plugin)) as (H & _); [vm_compute; reflexivity..|exact H].
Defined.

Lemma plugin_fault_visible_witness :
  option_map (λ m, level (snd m))
    (fst (publish_diagnostics 2000 (latch_fatal_fault FaultTimeout started_plugin))) = Some 2.
Proof.
  destruct (publish_diagnostics 2000 (latch_fatal_fault FaultTimeout started_plugin)) as [[[[name id] report]|] p'] eqn:E.
  - destruct (plugin_fault_visible _ _ _ _ _ _ E) as [H _]; [by left|]. cbn. by rewrite H.
  - vm_compute in E. discriminate.
Defined.
